(* ===== verification/_CoqProject ===== *)
-Q . S2P
Prelude.v
Logger.v
LockFreeQueue.v
RingThreads.v
Message.v
Os.v
SharedMemoryRegistry.v
StdMap.v
NodeTypes.v
GlobalRegistry.v
Crc32.v
LargeDataChannel.v
LargeDataSpec.v
ByteQueue.v
TransportV3.v
TransportSpec.v
PendingThreads.v
UdpTransport.v
CStrings.v
Config.v
NodeImpl.v
NodeSpec.v
NodeLife.v
UdpNodes.v
System.v
Cleanup.v
