(* ===== verification/Prelude.v ===== *)
(** * Nexus: a model of the library and its correctness

    Nexus is a publish/subscribe library. Nodes of one process reach each other directly;
    nodes of different processes on one machine exchange packets through rings in shared memory;
    large blocks go through shared channels of their own. This development translates the
    code below src/include/nexus and src/src into executable definitions and proves what
    makes its parts correct.

    ** Parts and files

    - [Prelude.v]: machine integers with their wrap-around, the type [outcome] whose value
      [UB] stands for an access outside an object (or another operation without a meaning),
      byte buffers with checked reads and writes, little-endian numbers, C strings; the tactics
      and hints of the development.
    - [Os.v]: what the code asks of the operating system (pids, [kill(pid, 0)], clocks, the
      robust lock of the registry), as arguments.
    - [LockFreeQueue.v]: the ring buffer of transport/LockFreeQueue.h ([tryWrite], [tryRead],
      on bytes, for every buffer size), each call as one step.
    - [RingThreads.v]: the same calls cut into their accesses to shared memory, and the
      interleavings of a producer with a consumer.
    - [Message.v]: core/Message.h: packets on bytes, [build], [isValid], the accessors.
    - [SharedMemoryRegistry.v]: registry/SharedMemoryRegistry.{h,cpp}: the table of nodes
      shared by all processes, its reference count and its removal.
    - [StdMap.v]: [std::map] and [std::set] with string keys, as sorted lists.
    - [NodeTypes.v]: the enumerations and the service descriptor of core/Node.h.
    - [GlobalRegistry.v]: registry/GlobalRegistry.{h,cpp}: the nodes and services known to a
      process.
    - [Crc32.v], [LargeDataChannel.v], [LargeDataSpec.v]: transport/LargeDataChannel.{h,cpp}.
      The definitions are in the first two, the invariant, the abstract channel and the
      theorems in the third.
    - [ByteQueue.v]: the interface between the ring and the transport: the class
      [ByteQueue] says what [tryWrite] and [tryRead] promise, the class [CalmQueue] for which
      messages no call leaves the buffer; instances discharge both from [LockFreeQueue.v].
    - [TransportV3.v], [TransportSpec.v]: transport/SharedMemoryTransportV3.{h,cpp},
      written and proved against these classes. A process's objects live in a heap, so that
      a mapping outlives the name of its object.
    - [PendingThreads.v]: one ring of a slot with its pending counter and semaphore, under the
      interleaved accesses of [send] and the receive loops.
    - [UdpTransport.v]: transport/UdpTransport.{h,cpp}: the socket and its receive thread.
    - [CStrings.v], [Config.v]: the numeric string functions used, and core/Config.{h,cpp}.
    - [NodeImpl.v], [NodeSpec.v]: core/NodeImpl.{h,cpp}. The state is that of a process (its nodes
      and its registry); the operations are actions of a small monad with state,
      undefined behaviour, and a list of effects: sends, broadcasts and calls of user callbacks.
    - [NodeLife.v]: ids, [createNode] and the destructor of core/NodeImpl.cpp.
    - [UdpNodes.v]: UDP heartbeats and timeouts of core/NodeImpl.cpp, and a node on the receive
      thread of its UDP transport.
    - [System.v]: a node on its shared-memory transport: [publish] with the sends it asks for, and the receive
      loop of the other process with [processPacket] as its callback.
    - [Cleanup.v]: cleanupOrphanedChannels and cleanupThreadFunc of core/NodeImpl.cpp, the periodic
      clean-up by the elected process.
    - [Logger.v]: utils/Logger.{h,cpp}.

    A node sends through [TransportV3.send], which finds its peer in the
    [SharedMemoryRegistry], connects by claiming a slot in the peer's object, and writes into one of
    the two rings of the slot; the peer's receive loop hands packets to
    [NodeImpl.processPacket], which queues data for the processing threads and service
    messages for the system thread; the latter updates the [GlobalRegistry], which
    [publish] consults.

    ** What is proved

    - From one process to another: what is published reaches the callback of every
      subscriber ([publish_reaches_callbacks]), and which publications are lost.
    - Rings: any sequence of calls delivers the accepted messages in order
      ([run_fifo]); what each call accepts and returns on every branch; exactly when a read
      leaves the buffer, and a condition under which it never does.
    - Rings under two threads: every interleaving delivers the written messages in order, without a
      data race; every call ends within a fixed number of its own steps; reading goes through
      the queue while writing continues; an undisturbed call is the one-step call.
    - Packets: what is built is received ([build_roundtrip]); what a receiver rejects, which
      corruption it detects, and exactly when it reads beyond a received packet.
    - Registry: refinement of a finite map from node ids, invariants of all reachable
      tables, agreement of the lookups, the cleanup master, reference counting, and what an
      interrupted registration leaves behind.
    - Services: refinement of an abstract service table; preference of shared memory.
    - Large data: the CRC equals its bitwise definition; writing, reading and releasing refine
      an abstract channel; delivery from creation on; the life of the shared object.
    - Transport: order and exactly-once delivery between a sender and the receive loop; an
      iteration of the loop; the first send; one slot per sender; notification, congestion
      control and the orphan scan.
    - Transport under two threads: the pending counter is exact in every interleaving, although it
      can pass below 0; no message stays without a notification; and how the receive loop
      nevertheless comes to wait out its timeout.
    - Nodes: the receivers of a publication, its reception, the order of each topic through the
      processing threads, subscriptions, discovery between processes, departure,
      overflow policies, and the choice of UDP ports.
      What a destroyed node leaves behind, and which nodes get the same id.
    - UDP: what the transport owns at every moment, what its thread delivers and when it ends; the
      peers a node keeps, and the queueing of messages that arrive as datagrams.

    ** Bounds

    Loops of the code that run until a queue is empty take a bound: [drain_control] is called
    with any bound that is at least the number of queued control messages, which the
    theorems assume ([iteration_delivers]) or derive from the number of sends
    ([transport_fifo]). All other recursion is structural. Buffer sizes, message sizes,
    the hash function, clocks and the results of system calls are universally quantified.

    ** What is not modelled

    Outside [RingThreads.v] and [PendingThreads.v] each operation is one step: the interleaving of two threads
    inside an operation is not modelled, except that a registration may be cut off between
    its stores. Interleavings are sequentially consistent; that the acquire and
    release accesses make this enough is supported by race freedom but not proved against a memory model.
    Threads appear as one round of their loops. Sockets, shared-memory calls and clocks are arguments;
    sleeps are left out, and waits appear as states that a notification or a timeout ends. The
    interleavings of several readers with the writer of a large data channel, and of processes inside
    the registry's lock-free lookups, are the next in the plan. *)

From stdpp Require Export base list numbers strings gmap.
From Stdlib Require Export ZArith Lia.
From Stdlib Require Import Ascii.
From Stdlib Require String.

#[global] Open Scope Z_scope.

(** ** Machine integers

    A [w]-bit unsigned value is a [Z]; every place where the C++ code can wrap
    applies [wrap w] explicitly. *)

Definition wrap (w z : Z) : Z := z mod 2 ^ w.

Definition u8 : Z -> Z := wrap 8.

Definition u16 : Z -> Z := wrap 16.

Definition u32 : Z -> Z := wrap 32.

Definition u64 : Z -> Z := wrap 64.

(** Conversion to [int32_t] (two's complement). *)
Definition i32 (z : Z) : Z := (z + 2 ^ 31) mod 2 ^ 32 - 2 ^ 31.

(** ** Undefined behaviour

    [Ret a] is a defined result; [UB] stands for an access outside the object
    the code addresses (the C++ program has no defined meaning from there on). *)

Inductive outcome (A : Type) : Type :=
| Ret (a : A)
| UB.

Arguments Ret {A} a.
Arguments UB {A}.

Definition outcome_bind {A B : Type} (m : outcome A) (k : A -> outcome B) : outcome B :=
  match m with
  | Ret a => k a
  | UB => UB
  end.

Declare Scope nexus_scope.
Delimit Scope nexus_scope with nexus.
#[global] Open Scope nexus_scope.

Notation "'do!' x := m 'in' k" := (outcome_bind m (fun x => k))
  (at level 10, x binder, m at level 150, k at level 200) : nexus_scope.

(** ** Bytes and buffers *)

Definition byte_ok (b : Z) : Prop := 0 <= b < 256.

Definition bytes_ok (l : list Z) : Prop := Forall byte_ok l.

Definition zlen {A : Type} (l : list A) : Z := Z.of_nat (length l).

(** [n] bytes of [buf] from offset [off], with no bounds check. *)
Definition slice (off n : Z) (buf : list Z) : list Z :=
  take (Z.to_nat n) (drop (Z.to_nat off) buf).

(** [buf] with the bytes [bs] stored at offset [off], with no bounds check. *)
Definition splice (off : Z) (bs buf : list Z) : list Z :=
  take (Z.to_nat off) buf ++ bs ++ drop (Z.to_nat off + length bs) buf.

Definition in_bounds (off n : Z) (buf : list Z) : bool :=
  (0 <=? off) && (0 <=? n) && (off + n <=? zlen buf).

(** [memcpy(dst, &buf[off], n)] *)
Definition mem_rd (off n : Z) (buf : list Z) : outcome (list Z) :=
  if in_bounds off n buf then Ret (slice off n buf) else UB.

(** [memcpy(&buf[off], bs, length bs)] *)
Definition mem_wr (off : Z) (bs buf : list Z) : outcome (list Z) :=
  if in_bounds off (zlen bs) buf then Ret (splice off bs buf) else UB.

(** Little-endian encoding of an [n]-byte unsigned integer (the layout of the
    platforms the library targets). *)
Fixpoint le_enc (n : nat) (z : Z) : list Z :=
  match n with
  | O => []
  | S n' => z mod 256 :: le_enc n' (z / 256)
  end.

Fixpoint le_dec (l : list Z) : Z :=
  match l with
  | [] => 0
  | b :: r => b + 256 * le_dec r
  end.

(** ** C strings *)

Definition bytes_of_string (s : string) : list Z :=
  map (fun a => Z.of_N (N_of_ascii a)) (String.list_ascii_of_string s).

Definition string_of_bytes (l : list Z) : string :=
  String.string_of_list_ascii (map (fun z => ascii_of_N (Z.to_N z)) l).

Fixpoint until_nul (l : list Z) : list Z :=
  match l with
  | [] => []
  | b :: r => if b =? 0 then [] else b :: until_nul r
  end.

(** [strncpy(dst, s.c_str(), n)]: the [n] bytes written to [dst]. *)
Definition strncpy (n : Z) (s : string) : list Z :=
  take (Z.to_nat n) (until_nul (bytes_of_string s) ++ replicate (Z.to_nat n) 0).

(** [std::string(p)] for a [char] array [p] holding the bytes [l]. *)
Definition cstring (l : list Z) : string := string_of_bytes (until_nul l).

(** A [std::string] without an embedded NUL. *)
Definition no_nul (s : string) : Prop := Forall (fun b => b <> 0) (bytes_of_string s).

Definition str_size (s : string) : Z := Z.of_nat (String.length s).

Definition str_empty (s : string) : bool := String.eqb s String.EmptyString.

(** ** Tactics *)

(** Splits the boolean tests in a hypothesis or the goal into integer facts. *)
Ltac btest :=
  repeat match goal with
  | H : _ && _ = true |- _ => apply andb_true_iff in H; destruct H
  | H : _ || _ = false |- _ => apply orb_false_iff in H; destruct H
  | H : negb _ = true |- _ => apply negb_true_iff in H
  | H : negb _ = false |- _ => apply negb_false_iff in H
  | H : (_ <=? _) = true |- _ => apply Z.leb_le in H
  | H : (_ <=? _) = false |- _ => apply Z.leb_gt in H
  | H : (_ <? _) = true |- _ => apply Z.ltb_lt in H
  | H : (_ <? _) = false |- _ => apply Z.ltb_ge in H
  | H : (_ =? _) = true |- _ => apply Z.eqb_eq in H
  | H : (_ =? _) = false |- _ => apply Z.eqb_neq in H
  | H : (_ >=? _) = true |- _ => rewrite Z.geb_leb in H
  | H : (_ >=? _) = false |- _ => rewrite Z.geb_leb in H
  | H : (_ >? _) = true |- _ => rewrite Z.gtb_ltb in H
  | H : (_ >? _) = false |- _ => rewrite Z.gtb_ltb in H
  end.

(** Case analysis on the first test of the goal. *)
Ltac ctest :=
  match goal with
  | |- context [ if ?b then _ else _ ] =>
      lazymatch b with context [ if _ then _ else _ ] => fail | _ => idtac end;
      let E := fresh "E" in destruct b eqn:E; btest
  end.

Create HintDb nexus.
Create Rewrite HintDb zlen.

(** ** Lemmas on integers *)

Lemma wrap_small w z : 0 <= z < 2 ^ w -> wrap w z = z.
Proof. apply Z.mod_small. Qed.

Lemma wrap_range w z : 0 <= w -> 0 <= wrap w z < 2 ^ w.
Proof. intros. apply Z.mod_pos_bound, Z.pow_pos_nonneg; lia. Qed.

Lemma zlen_nonneg {A} (l : list A) : 0 <= zlen l.
Proof. unfold zlen. lia. Qed.

Lemma zlen_app {A} (l k : list A) : zlen (l ++ k) = zlen l + zlen k.
Proof. unfold zlen. rewrite length_app. lia. Qed.

Lemma zlen_cons {A} (a : A) l : zlen (a :: l) = 1 + zlen l.
Proof. unfold zlen. simpl. lia. Qed.

Lemma zlen_nil {A} : zlen (@nil A) = 0.
Proof. done. Qed.

(** ** Lemmas on buffers *)

Lemma splice_length off bs buf :
  0 <= off -> off + zlen bs <= zlen buf -> length (splice off bs buf) = length buf.
Proof.
  unfold splice, zlen. intros.
  rewrite !length_app, length_take, length_drop. lia.
Qed.

Lemma splice_zlen off bs buf :
  0 <= off -> off + zlen bs <= zlen buf -> zlen (splice off bs buf) = zlen buf.
Proof. intros. unfold zlen at 1. rewrite splice_length; done. Qed.

Lemma slice_length off n buf :
  0 <= off -> 0 <= n -> off + n <= zlen buf -> zlen (slice off n buf) = n.
Proof. unfold slice, zlen. intros. rewrite length_take, length_drop. lia. Qed.

(** Reading back exactly what was stored. *)
Lemma slice_splice_same off bs buf :
  0 <= off -> off + zlen bs <= zlen buf -> slice off (zlen bs) (splice off bs buf) = bs.
Proof.
  unfold slice, splice, zlen. intros.
  rewrite drop_app_length' by (rewrite length_take; lia).
  rewrite take_app_length'; [done | lia].
Qed.

(** Reading a range that ends before the stored bytes. *)
Lemma slice_splice_before o n off bs buf :
  0 <= o -> 0 <= n -> o + n <= off -> off + zlen bs <= zlen buf ->
  slice o n (splice off bs buf) = slice o n buf.
Proof.
  unfold slice, splice, zlen. intros. apply list_eq. intros i.
  destruct (decide (i < Z.to_nat n)%nat).
  - rewrite !lookup_take_lt, !lookup_drop by done.
    rewrite lookup_app_l by (rewrite length_take; lia).
    by rewrite lookup_take_lt by lia.
  - by rewrite !lookup_take_ge by lia.
Qed.

(** Reading a range that starts after the stored bytes. *)
Lemma slice_splice_after o n off bs buf :
  0 <= off -> 0 <= n -> off + zlen bs <= o -> off + zlen bs <= zlen buf ->
  slice o n (splice off bs buf) = slice o n buf.
Proof.
  unfold slice, splice, zlen. intros. f_equal.
  rewrite drop_app_ge by (rewrite length_take; lia).
  rewrite length_take, drop_app_ge by lia.
  rewrite drop_drop. f_equal. lia.
Qed.

(** A slice of a slice. *)
Lemma slice_slice o n o' n' buf :
  0 <= o -> 0 <= o' -> 0 <= n' -> o' + n' <= n ->
  slice o' n' (slice o n buf) = slice (o + o') n' buf.
Proof.
  unfold slice. intros.
  rewrite skipn_firstn_comm, take_take, drop_drop.
  f_equal; [lia | f_equal; lia].
Qed.

Lemma slice_app_l o n l k :
  0 <= o -> 0 <= n -> o + n <= zlen l -> slice o n (l ++ k) = slice o n l.
Proof.
  unfold slice, zlen. intros. rewrite drop_app_le by lia.
  rewrite take_app_le; [done | rewrite length_drop; lia].
Qed.

Lemma slice_app_r o n l k :
  zlen l <= o -> slice o n (l ++ k) = slice (o - zlen l) n k.
Proof.
  unfold slice, zlen. intros. rewrite drop_app_ge by lia. f_equal. f_equal. lia.
Qed.

Lemma slice_all l : slice 0 (zlen l) l = l.
Proof. unfold slice, zlen. rewrite Nat2Z.id. simpl. by rewrite firstn_all. Qed.

Lemma slice_all_eq n l : zlen l = n -> slice 0 n l = l.
Proof. intros <-. apply slice_all. Qed.

Lemma mem_rd_ok off n buf :
  0 <= off -> 0 <= n -> off + n <= zlen buf -> mem_rd off n buf = Ret (slice off n buf).
Proof.
  intros. unfold mem_rd, in_bounds.
  by rewrite !(proj2 (Z.leb_le _ _)) by done.
Qed.

Lemma mem_rd_ub off n buf : zlen buf < off + n -> mem_rd off n buf = UB.
Proof.
  intros. unfold mem_rd, in_bounds.
  rewrite (proj2 (Z.leb_gt (off + n) _)) by done. by rewrite andb_false_r.
Qed.

Lemma mem_wr_ok off bs buf :
  0 <= off -> off + zlen bs <= zlen buf -> mem_wr off bs buf = Ret (splice off bs buf).
Proof.
  intros. unfold mem_wr, in_bounds. pose proof (zlen_nonneg bs).
  by rewrite !(proj2 (Z.leb_le _ _)) by done.
Qed.

Lemma mem_wr_inv off bs buf buf' :
  mem_wr off bs buf = Ret buf' ->
  0 <= off /\ off + zlen bs <= zlen buf /\ buf' = splice off bs buf.
Proof. unfold mem_wr, in_bounds. intros H. destruct (_ && _) eqn:E; simplify_eq. btest. auto. Qed.

(** Filling a zeroed buffer from left to right. *)
Lemma mem_wr_fill a b n off :
  zlen a = off -> zlen b <= Z.of_nat n ->
  mem_wr off b (a ++ replicate n 0) = Ret ((a ++ b) ++ replicate (n - length b) 0).
Proof.
  intros <- Hb. pose proof (zlen_nonneg a). unfold zlen in *. rewrite mem_wr_ok; unfold zlen.
  - unfold splice. rewrite Nat2Z.id, take_app_length, <- app_assoc. do 3 f_equal.
    rewrite drop_app_ge by lia. replace (_ + _ - _)%nat with (length b) by lia.
    by rewrite drop_replicate.
  - lia.
  - rewrite length_app, length_replicate. lia.
Qed.

(** Overwriting a field between two others. *)
Lemma mem_wr_mid a b b' c off :
  zlen a = off -> length b' = length b -> mem_wr off b' (a ++ b ++ c) = Ret (a ++ b' ++ c).
Proof.
  intros <- Hb. unfold zlen. rewrite mem_wr_ok; unfold zlen.
  - unfold splice. rewrite Nat2Z.id, take_app_length. do 3 f_equal.
    rewrite drop_app_ge by lia. rewrite drop_app_ge by lia.
    replace (_ + _ - _ - _)%nat with 0%nat by lia. done.
  - lia.
  - rewrite !length_app. lia.
Qed.

(** ** Lemmas on the little-endian encoding *)

Lemma le_enc_length n z : length (le_enc n z) = n.
Proof. revert z. induction n; intros; simpl; auto. Qed.

Lemma le_enc_zlen n z : zlen (le_enc n z) = Z.of_nat n.
Proof. unfold zlen. by rewrite le_enc_length. Qed.

Lemma le_enc_bytes_ok n z : bytes_ok (le_enc n z).
Proof.
  revert z. induction n; intros; simpl; constructor; [|apply IHn].
  apply Z.mod_pos_bound. lia.
Qed.

Lemma le_dec_enc n z : le_dec (le_enc n z) = z mod 256 ^ Z.of_nat n.
Proof.
  revert z. induction n as [|n IH]; intros z; simpl le_enc; simpl le_dec.
  - change (256 ^ Z.of_nat 0) with 1. by rewrite Z.mod_1_r.
  - rewrite IH, Nat2Z.inj_succ, Z.pow_succ_r by lia.
    rewrite Z.rem_mul_r; lia.
Qed.

Lemma le_dec_enc_small n z : 0 <= z < 256 ^ Z.of_nat n -> le_dec (le_enc n z) = z.
Proof. intros. rewrite le_dec_enc. by apply Z.mod_small. Qed.

Lemma le_enc_dec l : bytes_ok l -> le_enc (length l) (le_dec l) = l.
Proof.
  induction 1 as [|b l Hb Hl IH]; [done|]. unfold byte_ok in Hb.
  cbn [le_enc le_dec length].
  rewrite (Z.mul_comm 256), Z_mod_plus_full, Z.mod_small by lia.
  rewrite Z.div_add, Z.div_small, Z.add_0_l by lia. by rewrite IH.
Qed.

Lemma le_dec_range l : bytes_ok l -> 0 <= le_dec l < 256 ^ zlen l.
Proof.
  induction 1 as [|b l Hb Hl IH]; [done|].
  rewrite zlen_cons, Z.pow_add_r by (pose proof (zlen_nonneg l); lia).
  unfold byte_ok in Hb. simpl le_dec. change (256 ^ 1) with 256. lia.
Qed.

(** ** Lemmas on strings *)

Lemma bytes_of_string_ok s : bytes_ok (bytes_of_string s).
Proof.
  unfold bytes_of_string. induction (String.list_ascii_of_string s) as [|a l IH]; simpl; constructor; [|done].
  unfold byte_ok. pose proof (N_ascii_bounded a). lia.
Qed.

Lemma string_of_bytes_of_string s : string_of_bytes (bytes_of_string s) = s.
Proof.
  unfold string_of_bytes, bytes_of_string. rewrite map_map.
  rewrite (map_ext _ id).
  - rewrite map_id. apply String.string_of_list_ascii_of_string.
  - intros a. by rewrite N2Z.id, ascii_N_embedding.
Qed.

Lemma bytes_of_string_of_bytes l : bytes_ok l -> bytes_of_string (string_of_bytes l) = l.
Proof.
  intros H. unfold string_of_bytes, bytes_of_string.
  rewrite String.list_ascii_of_string_of_list_ascii, map_map.
  induction H as [|b l Hb Hl IH]; simpl; [done|]. f_equal; [|done].
  unfold byte_ok in Hb. rewrite N_ascii_embedding by lia. by rewrite Z2N.id by lia.
Qed.

Lemma bytes_of_string_zlen s : zlen (bytes_of_string s) = str_size s.
Proof.
  unfold zlen, str_size, bytes_of_string. rewrite length_map. f_equal.
  induction s; simpl; auto.
Qed.

Lemma str_size_nonneg s : 0 <= str_size s.
Proof. unfold str_size. lia. Qed.

Lemma until_nul_id l : Forall (fun b => b <> 0) l -> until_nul l = l.
Proof.
  induction 1; simpl; [done|]. destruct (Z.eqb_spec x 0); [done|]. by f_equal.
Qed.

Lemma until_nul_app l k : Forall (fun b => b <> 0) l -> until_nul (l ++ 0 :: k) = l.
Proof.
  induction 1; simpl; [done|]. destruct (Z.eqb_spec x 0); [done|]. by f_equal.
Qed.

Lemma until_nul_replicate l n :
  Forall (fun b => b <> 0) l -> until_nul (l ++ replicate n 0) = l.
Proof.
  intros H. destruct n; simpl; [rewrite app_nil_r; by apply until_nul_id | by apply until_nul_app].
Qed.

Lemma until_nul_nonzero l : Forall (fun b => b <> 0) (until_nul l).
Proof. induction l as [|b l IH]; simpl; [done|]. destruct (Z.eqb_spec b 0); by constructor. Qed.

Lemma until_nul_length l : (length (until_nul l) <= length l)%nat.
Proof. induction l as [|b l IH]; simpl; [done|]. destruct (_ =? _); simpl; lia. Qed.

Lemma strncpy_zlen n s : 0 <= n -> zlen (strncpy n s) = n.
Proof.
  intros. unfold strncpy, zlen. rewrite length_take, length_app, length_replicate. lia.
Qed.

Lemma until_nul_bytes_ok l : bytes_ok l -> bytes_ok (until_nul l).
Proof.
  induction 1 as [|b l Hb Hl IH]; simpl; [constructor|].
  destruct (b =? 0); [constructor | by constructor].
Qed.

Lemma replicate_zero_bytes_ok n : bytes_ok (replicate n 0).
Proof. apply Forall_replicate. unfold byte_ok. lia. Qed.

Lemma strncpy_bytes_ok n s : bytes_ok (strncpy n s).
Proof.
  apply Forall_take, Forall_app. split; [|apply replicate_zero_bytes_ok].
  apply until_nul_bytes_ok, bytes_of_string_ok.
Qed.

(** A string that fits is recovered from its [strncpy] image. *)
Lemma strncpy_until_nul n s k :
  no_nul s -> str_size s <= n -> until_nul (strncpy n s ++ 0 :: k) = bytes_of_string s.
Proof.
  intros Hn Hs. unfold strncpy. rewrite (until_nul_id (bytes_of_string s)) by done.
  rewrite <- bytes_of_string_zlen in Hs. unfold zlen in Hs.
  rewrite take_app_ge by lia. rewrite take_replicate, <- app_assoc.
  destruct (_ `min` _)%nat; simpl; by apply until_nul_app.
Qed.

#[export] Hint Resolve zlen_nonneg str_size_nonneg bytes_of_string_ok le_enc_bytes_ok
  strncpy_bytes_ok replicate_zero_bytes_ok : nexus.
#[export] Hint Rewrite @zlen_app @zlen_cons @zlen_nil le_enc_zlen : zlen.

#[global] Arguments le_enc : simpl never.
#[global] Arguments le_dec : simpl never.
#[global] Arguments strncpy : simpl never.
#[global] Arguments zlen : simpl never.
