(* ===== verification/Logger.v ===== *)
(** * The logger

    Models [include/nexus/utils/Logger.h] and [src/utils/Logger.cpp]: the level taken from the environment,
    the settings, and what a call writes to which stream. The formatted time of day is an
    argument. *)

From S2P Require Import Prelude.

Inductive Level := DEBUG | INFO | WARN | ERROR | NONE.

#[export] Instance Level_eq_dec : EqDecision Level.
Proof. solve_decision. Defined.

Definition Level_code (l : Level) : Z :=
  match l with DEBUG => 0 | INFO => 1 | WARN => 2 | ERROR => 3 | NONE => 4 end.

Record Logger := mkLogger {
  min_level_ : Level;
  show_timestamp_ : bool;
  show_component_ : bool
}.

(** The constructor; [env] is the value of NEXUS_LOG_LEVEL. *)
Definition new_logger (env : option string) : Logger :=
  let level := match env with
               | Some s => if String.eqb s "DEBUG" then DEBUG
                           else if String.eqb s "INFO" then INFO
                           else if String.eqb s "WARN" then WARN
                           else if String.eqb s "ERROR" then ERROR
                           else if String.eqb s "NONE" then NONE
                           else INFO
               | None => INFO
               end in
  mkLogger level true true.

Definition setLevel (level : Level) (l : Logger) : Logger := mkLogger level (show_timestamp_ l) (show_component_ l).

Definition getLevel (l : Logger) : Level := min_level_ l.

Definition setShowTimestamp (show : bool) (l : Logger) : Logger := mkLogger (min_level_ l) show (show_component_ l).

Definition setShowComponent (show : bool) (l : Logger) : Logger := mkLogger (min_level_ l) (show_timestamp_ l) show.

Definition levelToString (level : Level) : string :=
  match level with
  | DEBUG => "DEBUG"
  | INFO => "INFO "
  | WARN => "WARN "
  | ERROR => "ERROR"
  | NONE => "?????"
  end.

Inductive stream := Cout | Cerr.

Definition newline : string := String (Ascii.ascii_of_nat 10) "".

(** What a call writes, and where. *)
Definition log (timestamp : string) (level : Level) (component message : string) (l : Logger) : option (stream * string) :=
  if Level_code level <? Level_code (min_level_ l) then None
  else
    let out := if Level_code WARN <=? Level_code level then Cerr else Cout in
    Some (out,
      (if show_timestamp_ l then "[" +:+ timestamp +:+ "] " else "")
      +:+ "[" +:+ levelToString level +:+ "] "
      +:+ (if show_component_ l && negb (str_empty component) then "[" +:+ component +:+ "] " else "")
      +:+ message +:+ newline).

(** [LogStream]: the pieces put into the stream are logged as one message when it is destroyed. *)
Record LogStream := mkLogStream {
  level_ : Level;
  component_ : string;
  ss_ : string
}.

Definition new_stream (level : Level) (component : string) : LogStream := mkLogStream level component "".

Definition put (value : string) (s : LogStream) : LogStream := mkLogStream (level_ s) (component_ s) (ss_ s +:+ value).

Definition flush (timestamp : string) (s : LogStream) (l : Logger) : option (stream * string) :=
  log timestamp (level_ s) (component_ s) (ss_ s) l.

(** ** What is written *)

Lemma append_nil s : s +:+ "" = s.
Proof. induction s as [|c s IH]; [done|]. change (String c (s +:+ "") = String c s). by f_equal. Qed.

Lemma append_app s t u : s +:+ t +:+ u = (s +:+ t) +:+ u.
Proof. induction s as [|c s IH]; [done|]. change (String c (s +:+ t +:+ u) = String c ((s +:+ t) +:+ u)). by f_equal. Qed.

Lemma put_all values s : foldl (fun s v => put v s) s values
  = mkLogStream (level_ s) (component_ s) (ss_ s +:+ String.concat "" values).
Proof.
  revert s. induction values as [|v values IH]; intros s; cbn [foldl].
  - rewrite append_nil. by destruct s.
  - rewrite IH. cbn. f_equal. rewrite <- append_app. f_equal. destruct values; [|done]. cbn. by rewrite append_nil.
Qed.

(** The stream form logs the same line as a single call with the pieces put together. *)
Theorem stream_logs_once timestamp level component values l :
  flush timestamp (foldl (fun s v => put v s) (new_stream level component) values) l
  = log timestamp level component (String.concat "" values) l.
Proof. rewrite put_all. done. Qed.

(** A call writes exactly when its level is at least the one that is set: with NONE, no level of the macros does. *)
Theorem log_filters timestamp level component message l :
  log timestamp level component message l <> None <-> Level_code (getLevel l) <= Level_code level.
Proof. unfold log, getLevel. destruct (Z.ltb_spec (Level_code level) (Level_code (min_level_ l))); split; done || lia. Qed.

(** The level is one of the five names in upper case; any other value leaves INFO. *)
Theorem env_level env : getLevel (new_logger env) = INFO \/ exists s, env = Some s /\
  (s, getLevel (new_logger env)) ∈ [("DEBUG"%string, DEBUG); ("WARN"%string, WARN); ("ERROR"%string, ERROR); ("NONE"%string, NONE)].
Proof.
  destruct env as [s|]; [|by left]. unfold new_logger, getLevel. cbn [min_level_].
  repeat (match goal with |- context [String.eqb s ?x] => destruct (String.eqb_spec s x) as [->|] end;
    [first [by left|right; eexists; split; [reflexivity|set_solver]]|]). by left.
Qed.
