(* ===== verification/LockFreeQueue.v ===== *)
(** * The SPSC ring buffer

    Models [LockFreeRingBuffer<BUFFER_SIZE>] of
    [include/nexus/transport/LockFreeQueue.h]: the byte buffer with its head and
    tail offsets, [tryWrite], [tryRead], [size], [empty] and the statistics.
    [BUFFER_SIZE] is the template parameter, here the section variable [B].
    Each call runs as one step; [RingThreads.v] interleaves the accesses of two calls. *)

From S2P Require Import Prelude.

Definition MAX_MSG_SIZE : Z := 2040.

Definition MAGIC_VALID : Z := 0xCAFEBABE.

Definition MAGIC_PADDING : Z := 0xDEADBEEF.

(** [struct FrameHeader { uint32_t length; uint32_t magic; }] *)
Record FrameHeader := mkFrameHeader {
  fh_length : Z;
  fh_magic : Z
}.

Definition sizeof_FrameHeader : Z := 8.

(** The bytes of a header in memory, and back. *)
Definition header_bytes (h : FrameHeader) : list Z :=
  le_enc 4 (fh_length h) ++ le_enc 4 (fh_magic h).

Definition header_of_bytes (bs : list Z) : FrameHeader :=
  mkFrameHeader (le_dec (slice 0 4 bs)) (le_dec (slice 4 4 bs)).

Record ring := mkRing {
  head_ : Z;
  tail_ : Z;
  stats_messages_written_ : Z;
  stats_messages_read_ : Z;
  stats_messages_dropped_ : Z;
  buffer_ : list Z
}.

(** [(sizeof(FrameHeader) + size + 7) & ~7] *)
Definition needed (size : Z) : Z := Z.land (sizeof_FrameHeader + size + 7) (Z.lnot 7).

(** A frame stored at [offset]: the header then the payload. *)
Definition writeFrame (offset : Z) (data : list Z) (payload_size total_len mag : Z)
    (buf : list Z) : outcome (list Z) :=
  let len := if mag =? MAGIC_VALID then u32 payload_size else u32 total_len in
  do! buf1 := mem_wr offset (header_bytes (mkFrameHeader len mag)) buf in
  mem_wr (offset + sizeof_FrameHeader) (take (Z.to_nat payload_size) data) buf1.

(** [head_.store(h)] with the buffer [buf] and the written counter bumped. *)
Definition commit (q : ring) (buf : list Z) (h : Z) : ring :=
  mkRing h (tail_ q) (u64 (stats_messages_written_ q + 1)) (stats_messages_read_ q)
    (stats_messages_dropped_ q) buf.

Definition drop_one (q : ring) : ring :=
  mkRing (head_ q) (tail_ q) (stats_messages_written_ q) (stats_messages_read_ q)
    (u64 (stats_messages_dropped_ q + 1)) (buffer_ q).

Definition set_tail (q : ring) (t : Z) : ring :=
  mkRing (head_ q) t (stats_messages_written_ q) (stats_messages_read_ q)
    (stats_messages_dropped_ q) (buffer_ q).

Definition read_done (q : ring) (t : Z) : ring :=
  mkRing (head_ q) t (stats_messages_written_ q) (u64 (stats_messages_read_ q + 1))
    (stats_messages_dropped_ q) (buffer_ q).

Section Ring.
Variable B : Z.

(** The constructor: indices and statistics zero, buffer cleared. *)
Definition init : ring := mkRing 0 0 0 0 0 (replicate (Z.to_nat B) 0).

(** The padding header written before wrapping around. *)
Definition writePadding (head : Z) (buf : list Z) : outcome (list Z) :=
  let pad_len := B - head in
  if sizeof_FrameHeader <=? pad_len
  then mem_wr head (header_bytes (mkFrameHeader (u32 pad_len) MAGIC_PADDING)) buf
  else Ret buf.

(** [tryWrite(data, size)] with [size] the length of [data]. *)
Definition tryWrite (data : list Z) (q : ring) : outcome (bool * ring) :=
  let size := zlen data in
  if (MAX_MSG_SIZE <? size) || (size =? 0) then Ret (false, q)
  else
    let need := needed size in
    let head := head_ q in
    let tail := tail_ q in
    if tail <=? head then
      if head + need <=? B then
        do! buf := writeFrame head data size need MAGIC_VALID (buffer_ q) in
        Ret (true, commit q buf (head + need))
      else if need <? tail then
        do! buf1 := writePadding head (buffer_ q) in
        do! buf2 := writeFrame 0 data size need MAGIC_VALID buf1 in
        Ret (true, commit q buf2 need)
      else Ret (false, drop_one q)
    else
      if head + need <? tail then
        do! buf := writeFrame head data size need MAGIC_VALID (buffer_ q) in
        Ret (true, commit q buf (head + need))
      else Ret (false, drop_one q).

(** The part of [tryRead] after the padding test: [header] was read at [tail]. *)
Definition readFrame (tail : Z) (header : FrameHeader) (q : ring)
    : outcome (option (list Z) * ring) :=
  if negb (fh_magic header =? MAGIC_VALID) then Ret (None, q)
  else
    let payload_len := fh_length header in
    if MAX_MSG_SIZE <? payload_len then Ret (None, q)
    else
      let total_len := needed payload_len in
      do! out := mem_rd (tail + sizeof_FrameHeader) payload_len (buffer_ q) in
      Ret (Some out, read_done q (tail + total_len)).

(** [tryRead(out_data, out_size)]: [None] is the result [false]. *)
Definition tryRead (q : ring) : outcome (option (list Z) * ring) :=
  let tail := tail_ q in
  let head := head_ q in
  if tail =? head then Ret (None, q)
  else
    do! hb := mem_rd tail sizeof_FrameHeader (buffer_ q) in
    let header := header_of_bytes hb in
    if fh_magic header =? MAGIC_PADDING then
      let q1 := set_tail q 0 in
      if 0 =? head then Ret (None, q1)
      else
        do! hb1 := mem_rd 0 sizeof_FrameHeader (buffer_ q1) in
        readFrame 0 (header_of_bytes hb1) q1
    else readFrame tail header q.

(** [size()]: bytes used. *)
Definition size (q : ring) : Z :=
  if tail_ q <=? head_ q then u64 (head_ q - tail_ q)
  else u64 (B - u64 (tail_ q - head_ q)).

Definition empty (q : ring) : bool := head_ q =? tail_ q.

Record Stats := mkStats {
  messages_written : Z;
  messages_read : Z;
  messages_dropped : Z;
  current_size : Z
}.

Definition getStats (q : ring) : Stats :=
  mkStats (stats_messages_written_ q) (stats_messages_read_ q) (stats_messages_dropped_ q) (size q).

(** ** The abstract queue

    [repr q msgs]: the committed bytes between [tail_] and [head_] are exactly
    the frames of [msgs], oldest first. *)

Definition msg_ok (m : list Z) : Prop := 0 < zlen m <= MAX_MSG_SIZE.

Definition valid_header (m : list Z) : list Z :=
  header_bytes (mkFrameHeader (zlen m) MAGIC_VALID).

(** [chain buf p e ms]: the frames of [ms] are laid out in [buf] from [p] to [e]. *)
Inductive chain (buf : list Z) : Z -> Z -> list (list Z) -> Prop :=
| chain_nil p : chain buf p p []
| chain_cons p e m ms :
    msg_ok m ->
    slice p sizeof_FrameHeader buf = valid_header m ->
    slice (p + sizeof_FrameHeader) (zlen m) buf = m ->
    chain buf (p + needed (zlen m)) e ms ->
    chain buf p e (m :: ms).

(** The layout of the used region: one run of frames, or a run that ends at [p]
    (the bytes from [p] to the end of the buffer being padding) followed by a
    non-empty run from offset 0. *)
Inductive layout (buf : list Z) (head tail : Z) : list (list Z) -> Prop :=
| layout_linear ms :
    tail <= head -> chain buf tail head ms -> layout buf head tail ms
| layout_wrapped p ms1 ms2 :
    head < tail -> p <= B ->
    chain buf tail p ms1 -> chain buf 0 head ms2 -> ms2 <> [] ->
    (p < B -> slice p sizeof_FrameHeader buf
              = header_bytes (mkFrameHeader (B - p) MAGIC_PADDING)) ->
    layout buf head tail (ms1 ++ ms2).

Record ring_wf (q : ring) : Prop := mkRingWf {
  wf_buffer : zlen (buffer_ q) = B;
  wf_head : 0 <= head_ q <= B;
  wf_tail : 0 <= tail_ q <= B;
  wf_head_aligned : (8 | head_ q);
  wf_tail_aligned : (8 | tail_ q)
}.

Definition repr (q : ring) (ms : list (list Z)) : Prop :=
  ring_wf q /\ layout (buffer_ q) (head_ q) (tail_ q) ms.

(** Space for a frame of [n] bytes, as the producer tests it. *)
Definition room (head tail n : Z) : bool :=
  if tail <=? head then (head + n <=? B) || (n <? tail) else head + n <? tail.

Hypothesis B_aligned : (8 | B).
Hypothesis B_range : 0 < B < 2 ^ 32.

Lemma needed_spec n : 0 <= n -> needed n = 8 * ((n + 15) / 8).
Proof.
  intros. unfold needed, sizeof_FrameHeader.
  change 7 with (Z.ones 3) at 2. rewrite <- Z.ldiff_land, Z.ldiff_ones_r by lia.
  rewrite Z.shiftl_mul_pow2, Z.shiftr_div_pow2 by lia. change (2 ^ 3) with 8.
  rewrite Z.mul_comm. do 2 f_equal. lia.
Qed.

Lemma needed_bounds n : 0 <= n -> n + 8 <= needed n <= n + 15 /\ (8 | needed n).
Proof.
  intros. rewrite needed_spec by done. split.
  - pose proof (Z.div_mod (n + 15) 8 ltac:(lia)). pose proof (Z.mod_pos_bound (n + 15) 8). lia.
  - apply Z.divide_factor_l.
Qed.

(** Brings the size facts about the frame of [m] into the context. *)
Ltac frame_facts m :=
  pose proof (zlen_nonneg m);
  destruct (needed_bounds (zlen m) (zlen_nonneg m)).

Lemma header_zlen h : zlen (header_bytes h) = 8.
Proof. unfold header_bytes. by rewrite zlen_app, !le_enc_zlen. Qed.

Lemma header_roundtrip l m :
  0 <= l < 2 ^ 32 -> 0 <= m < 2 ^ 32 ->
  header_of_bytes (header_bytes (mkFrameHeader l m)) = mkFrameHeader l m.
Proof.
  intros. unfold header_of_bytes, header_bytes. cbn [fh_length fh_magic].
  rewrite slice_app_l by (rewrite ?le_enc_zlen; lia).
  rewrite slice_app_r by (rewrite le_enc_zlen; lia).
  rewrite !slice_all_eq by (rewrite ?le_enc_zlen; done).
  rewrite !le_dec_enc_small by (change (256 ^ Z.of_nat 4) with (2 ^ 32); lia).
  done.
Qed.

Lemma chain_le buf p e ms : chain buf p e ms -> p <= e.
Proof.
  induction 1; [lia|]. frame_facts m. lia.
Qed.

Lemma chain_aligned buf p e ms : chain buf p e ms -> (8 | p) -> (8 | e).
Proof.
  induction 1; [done|]. intros. apply IHchain, Z.divide_add_r; [done|].
  by apply needed_bounds, zlen_nonneg.
Qed.

Lemma chain_app buf p m e ms1 ms2 :
  chain buf p m ms1 -> chain buf m e ms2 -> chain buf p e (ms1 ++ ms2).
Proof. induction 1; simpl; [done|]. intros. econstructor; eauto. Qed.

(** A chain only depends on the bytes between its ends. *)
Lemma chain_frame buf buf' p e ms :
  (forall o n, p <= o -> 0 <= n -> o + n <= e -> slice o n buf' = slice o n buf) ->
  chain buf p e ms -> chain buf' p e ms.
Proof.
  intros Hf Hc. induction Hc as [p|p e m ms Hm Hh Hp Hc IH]; [constructor|].
  pose proof (chain_le _ _ _ _ Hc). frame_facts m.
  unfold sizeof_FrameHeader in *.
  constructor; unfold sizeof_FrameHeader; [done| | |].
  - rewrite Hf by lia. done.
  - rewrite Hf by lia. done.
  - apply IH. intros. apply Hf; lia.
Qed.

Lemma chain_nil_inv buf p e : chain buf p e [] -> e = p.
Proof. by inversion 1. Qed.

Lemma chain_cons_lt buf p e m ms : chain buf p e (m :: ms) -> p + 8 < e.
Proof.
  inversion 1 as [|? ? ? ? Hm Hh Hp Hc]; subst. apply chain_le in Hc.
  frame_facts m. unfold msg_ok in Hm. lia.
Qed.

(** The buffer after [writeFrame] of a whole message. *)
Definition framed (o : Z) (m buf : list Z) : list Z :=
  splice (o + 8) m (splice o (valid_header m) buf).

Lemma writeFrame_ok o m buf :
  msg_ok m -> 0 <= o -> o + needed (zlen m) <= zlen buf ->
  writeFrame o m (zlen m) (needed (zlen m)) MAGIC_VALID buf = Ret (framed o m buf).
Proof.
  intros Hm Ho Hb. unfold writeFrame, framed, valid_header, sizeof_FrameHeader.
  frame_facts m.
  unfold msg_ok, MAX_MSG_SIZE in Hm. unfold u32. rewrite wrap_small by lia.
  rewrite Z.eqb_refl. rewrite mem_wr_ok by (rewrite ?header_zlen; lia). cbn [outcome_bind].
  replace (take _ m) with m by (unfold zlen; by rewrite Nat2Z.id, firstn_all).
  rewrite mem_wr_ok; [done | lia |].
  rewrite splice_zlen by (rewrite ?header_zlen; lia). lia.
Qed.

Lemma framed_zlen o m buf :
  0 <= o -> o + 8 + zlen m <= zlen buf -> zlen (framed o m buf) = zlen buf.
Proof.
  intros. pose proof (zlen_nonneg m). unfold framed, valid_header.
  rewrite !splice_zlen by (rewrite ?splice_zlen, ?header_zlen; rewrite ?header_zlen; lia). done.
Qed.

(** Bytes outside the frame are untouched. *)
Lemma framed_slice o m buf p n :
  0 <= o -> o + 8 + zlen m <= zlen buf -> 0 <= p -> 0 <= n ->
  p + n <= o \/ o + 8 + zlen m <= p ->
  slice p n (framed o m buf) = slice p n buf.
Proof.
  intros Ho Hb Hp Hn Hd. pose proof (zlen_nonneg m). unfold framed, valid_header.
  assert (zlen (splice o (header_bytes (mkFrameHeader (zlen m) MAGIC_VALID)) buf) = zlen buf)
    by (rewrite splice_zlen; rewrite ?header_zlen; lia).
  destruct Hd.
  - rewrite !slice_splice_before; rewrite ?header_zlen; lia || done.
  - rewrite !slice_splice_after; rewrite ?header_zlen; lia || done.
Qed.

Lemma framed_chain o m buf :
  msg_ok m -> 0 <= o -> o + needed (zlen m) <= zlen buf ->
  chain (framed o m buf) o (o + needed (zlen m)) [m].
Proof.
  intros Hm Ho Hb. frame_facts m.
  assert (zlen (splice o (valid_header m) buf) = zlen buf)
    by (unfold valid_header; rewrite splice_zlen; rewrite ?header_zlen; lia).
  assert (8 = zlen (valid_header m)) as Hh by (unfold valid_header; by rewrite header_zlen).
  constructor; [done| | |constructor]; unfold sizeof_FrameHeader, framed.
  - rewrite slice_splice_before by lia. rewrite Hh at 1. apply slice_splice_same; lia.
  - rewrite slice_splice_same; lia || done.
Qed.

(** [n] bytes at [o] that hold no committed frame. *)
Definition free (head tail o n : Z) : Prop :=
  0 <= o /\ 0 <= n /\
  if decide (tail <= head) then (head <= o /\ o + n <= B) \/ o + n <= tail
  else head <= o /\ o + n <= tail.

(** [buf'] differs from [buf] only inside the [n] bytes at [o]. *)
Definition only_differs (o n : Z) (buf buf' : list Z) : Prop :=
  zlen buf' = zlen buf /\
  forall p k, 0 <= p -> 0 <= k -> p + k <= o \/ o + n <= p -> slice p k buf' = slice p k buf.

Lemma layout_preserved buf buf' head tail o n ms :
  0 <= tail -> (8 | tail) -> free head tail o n -> only_differs o n buf buf' ->
  layout buf head tail ms -> layout buf' head tail ms.
Proof.
  intros Ht Ha (Ho & Hn & Hf) [_ Hd] Hl. destruct Hl as [ms Hle Hc | p ms1 ms2 Hlt Hp Hc1 Hc2 Hne Hpad];
    case_decide; try lia.
  - apply layout_linear; [done|]. eapply chain_frame, Hc. intros. apply Hd; lia.
  - pose proof (chain_le _ _ _ _ Hc1). pose proof (chain_aligned _ _ _ _ Hc1 Ha) as Hpa.
    eapply layout_wrapped with (p := p); [done|done| | |done|].
    + eapply chain_frame, Hc1. intros. apply Hd; lia.
    + eapply chain_frame, Hc2. intros. apply Hd; lia.
    + intros HpB. rewrite <- Hpad by done. unfold sizeof_FrameHeader. apply Hd; lia.
Qed.

(** Committing a frame that was written right at [head]. *)
Lemma layout_extend buf head head' tail ms m :
  layout buf head tail ms -> chain buf head head' [m] -> (head < tail -> head' < tail) ->
  layout buf head' tail (ms ++ [m]).
Proof.
  intros Hl Hm Hw. pose proof (chain_le _ _ _ _ Hm).
  destruct Hl as [ms Hle Hc | p ms1 ms2 Hlt Hp Hc1 Hc2 Hne Hpad].
  - apply layout_linear; [lia|]. eapply chain_app; eauto.
  - rewrite <- app_assoc. eapply layout_wrapped; eauto using chain_app.
    by destruct ms2.
Qed.

(** Committing a frame that was written at 0 after padding the end of the buffer. *)
Lemma layout_wrap buf head head' tail ms m :
  layout buf head tail ms -> tail <= head <= B -> head' < tail ->
  chain buf 0 head' [m] ->
  (head < B -> slice head sizeof_FrameHeader buf
               = header_bytes (mkFrameHeader (B - head) MAGIC_PADDING)) ->
  layout buf head' tail (ms ++ [m]).
Proof.
  intros Hl Hle Hw Hm Hpad. destruct Hl as [ms _ Hc | p ms1 ms2 Hlt Hp Hc1 Hc2 Hne _]; [|lia].
  apply layout_wrapped with (p := head); done || lia.
Qed.

Lemma framed_only_differs o m buf :
  0 <= o -> o + needed (zlen m) <= zlen buf ->
  only_differs o (needed (zlen m)) buf (framed o m buf).
Proof.
  intros. frame_facts m. split; [rewrite framed_zlen; lia|].
  intros. apply framed_slice; lia.
Qed.

(** The buffer after [writePadding]. *)
Definition padded (head : Z) (buf : list Z) : list Z :=
  if decide (head < B)
  then splice head (header_bytes (mkFrameHeader (B - head) MAGIC_PADDING)) buf else buf.

Lemma aligned_gap head : (8 | head) -> head < B -> head + 8 <= B.
Proof. destruct B_aligned as [k Hk]. intros [j Hj] ?. lia. Qed.

Lemma writePadding_ok head buf :
  (8 | head) -> 0 <= head <= B -> zlen buf = B ->
  writePadding head buf = Ret (padded head buf).
Proof.
  intros Ha Hh Hb. unfold writePadding, padded, sizeof_FrameHeader.
  destruct (decide (head < B)).
  - pose proof (aligned_gap head Ha ltac:(lia)). rewrite (proj2 (Z.leb_le 8 _)) by lia.
    unfold u32. rewrite wrap_small by lia. apply mem_wr_ok; rewrite ?header_zlen; lia.
  - rewrite (proj2 (Z.leb_gt 8 _)) by lia. done.
Qed.

Lemma padded_only_differs head buf :
  (8 | head) -> 0 <= head <= B -> zlen buf = B ->
  only_differs head (B - head) buf (padded head buf).
Proof.
  intros Ha Hh Hb. unfold padded. destruct (decide (head < B)); [|split; done].
  pose proof (aligned_gap head Ha ltac:(lia)). split; [rewrite splice_zlen; rewrite ?header_zlen; lia|].
  intros p k Hp Hk [?|?].
  - apply slice_splice_before; rewrite ?header_zlen; lia.
  - apply slice_splice_after; rewrite ?header_zlen; lia.
Qed.

Lemma padded_header head buf :
  (8 | head) -> 0 <= head < B -> zlen buf = B ->
  slice head sizeof_FrameHeader (padded head buf)
  = header_bytes (mkFrameHeader (B - head) MAGIC_PADDING).
Proof.
  intros Ha Hh Hb. unfold padded. rewrite decide_True by lia. pose proof (aligned_gap head Ha ltac:(lia)).
  unfold sizeof_FrameHeader.
  rewrite <- (header_zlen (mkFrameHeader (B - head) MAGIC_PADDING)) at 1.
  apply slice_splice_same; rewrite ?header_zlen; lia.
Qed.

(** The three shapes of a successful write. *)

Lemma write_at_head q m ms :
  repr q ms -> msg_ok m ->
  (if decide (tail_ q <= head_ q) then head_ q + needed (zlen m) <= B
   else head_ q + needed (zlen m) < tail_ q) ->
  repr (commit q (framed (head_ q) m (buffer_ q)) (head_ q + needed (zlen m))) (ms ++ [m]).
Proof.
  intros [[Hb Hh Ht Hha Hta] Hl] Hm Hr. frame_facts m.
  assert (head_ q + needed (zlen m) <= B) by (case_decide; lia).
  split; [split; simpl; try done|simpl].
  - by rewrite framed_zlen by lia.
  - lia.
  - by apply Z.divide_add_r.
  - eapply layout_extend; [|apply framed_chain; done || lia|intros; case_decide; lia].
    eapply layout_preserved; [lia|done| |apply framed_only_differs; lia|done].
    unfold free. split; [lia|]. split; [lia|]. case_decide; lia.
Qed.

Lemma write_wrapping q m ms :
  repr q ms -> msg_ok m -> tail_ q <= head_ q -> needed (zlen m) < tail_ q ->
  repr (commit q (framed 0 m (padded (head_ q) (buffer_ q))) (needed (zlen m))) (ms ++ [m]).
Proof.
  intros [[Hb Hh Ht Hha Hta] Hl] Hm Hlin Hr. frame_facts m.
  pose proof (padded_only_differs _ _ Hha Hh Hb) as Hpd. destruct (Hpd) as [Hpl _].
  assert (only_differs 0 (needed (zlen m)) (padded (head_ q) (buffer_ q))
            (framed 0 m (padded (head_ q) (buffer_ q)))) as Hfd
    by (apply framed_only_differs; lia).
  split; [split; simpl; try done|simpl].
  - rewrite framed_zlen; lia.
  - lia.
  - eapply layout_wrap with (head := head_ q); [|lia|done| |].
    + eapply layout_preserved; [lia|done| |apply Hfd|].
      { unfold free. split; [lia|]. split; [lia|]. case_decide; lia. }
      eapply layout_preserved; [lia|done| |apply Hpd|done].
      unfold free. split; [lia|]. split; [lia|]. case_decide; lia.
    + apply (framed_chain 0); done || lia.
    + intros. destruct Hfd as [_ Hfd]. rewrite Hfd by (unfold sizeof_FrameHeader; lia).
      apply padded_header; done || lia.
Qed.

Definition accepts (q : ring) (data : list Z) : bool :=
  (0 <? zlen data) && (zlen data <=? MAX_MSG_SIZE)
  && room (head_ q) (tail_ q) (needed (zlen data)).

Lemma drop_one_repr q ms : repr q ms -> repr (drop_one q) ms.
Proof. intros [[] Hl]. by split. Qed.

Lemma accepts_msg_ok q data : accepts q data = true -> msg_ok data.
Proof. unfold accepts, msg_ok. intros. btest. lia. Qed.

Lemma tryWrite_cases q ms data :
  repr q ms ->
  exists q', tryWrite data q = Ret (accepts q data, q')
    /\ repr q' (if accepts q data then ms ++ [data] else ms)
    /\ tail_ q' = tail_ q
    /\ stats_messages_written_ q'
       = (if accepts q data then u64 (stats_messages_written_ q + 1) else stats_messages_written_ q).
Proof.
  intros Hq. destruct (Hq) as [[Hb Hh Ht Hha Hta] Hl].
  unfold tryWrite, accepts, room. frame_facts data.
  destruct ((MAX_MSG_SIZE <? zlen data) || (zlen data =? 0)) eqn:Esz.
  { exists q. replace (_ && _ && _) with false; [done|]. symmetry.
    apply orb_true_iff in Esz as [E|E]; btest.
    - rewrite (proj2 (Z.leb_gt (zlen data) _)) by done. by rewrite andb_false_r.
    - by rewrite E. }
  btest. assert (msg_ok data) as Hm by (unfold msg_ok; lia).
  rewrite (proj2 (Z.ltb_lt 0 _)), (proj2 (Z.leb_le (zlen data) _)) by lia. simpl.
  destruct (tail_ q <=? head_ q) eqn:Elin; btest.
  - destruct (head_ q + needed (zlen data) <=? B) eqn:Efit; btest; simpl.
    + rewrite writeFrame_ok by lia || done. eexists. split; [done|]. split; [|done].
      apply write_at_head; [done..|]. rewrite decide_True; lia.
    + destruct (needed (zlen data) <? tail_ q) eqn:Ew; btest.
      * rewrite writePadding_ok by done. simpl.
        destruct (padded_only_differs _ _ Hha Hh Hb) as [Hpl _].
        rewrite writeFrame_ok by lia || done. eexists. split; [done|]. split; [|done].
        by apply write_wrapping.
      * eexists. split; [done|]. split; [by apply drop_one_repr | done].
  - destruct (head_ q + needed (zlen data) <? tail_ q) eqn:Ew; btest.
    + rewrite writeFrame_ok by lia || done. eexists. split; [done|]. split; [|done].
      apply write_at_head; [done..|]. rewrite decide_False; lia.
    + eexists. split; [done|]. split; [by apply drop_one_repr | done].
Qed.

(** What the consumer finds at the front of a chain. *)
Lemma readFrame_chain q p e m ms :
  ring_wf q -> 0 <= p -> e <= B ->
  chain (buffer_ q) p e (m :: ms) ->
  readFrame p (header_of_bytes (slice p sizeof_FrameHeader (buffer_ q))) q
    = Ret (Some m, read_done q (p + needed (zlen m)))
  /\ chain (buffer_ q) (p + needed (zlen m)) e ms
  /\ fh_magic (header_of_bytes (slice p sizeof_FrameHeader (buffer_ q))) = MAGIC_VALID.
Proof.
  intros Hwf Hp He Hc. inversion Hc as [|? ? ? ? Hm Hh Hd Hr]; subst.
  pose proof (chain_le _ _ _ _ Hr). frame_facts m. destruct Hwf as [Hb _ _ _ _].
  unfold msg_ok, MAX_MSG_SIZE in Hm.
  rewrite Hh. unfold valid_header. rewrite header_roundtrip by (unfold MAGIC_VALID; lia).
  split; [|done]. unfold readFrame, MAX_MSG_SIZE. cbn [fh_magic fh_length]. rewrite Z.eqb_refl.
  cbn [negb]. rewrite (proj2 (Z.ltb_ge 2040 _)) by lia.
  rewrite mem_rd_ok by (unfold sizeof_FrameHeader; lia).
  by rewrite Hd.
Qed.

Lemma layout_read_linear buf head tail m ms :
  tail <= head -> layout buf head tail (m :: ms) -> chain buf tail head (m :: ms).
Proof. intros Hle Hl. inversion Hl; subst; [done|lia]. Qed.

Lemma read_done_wf q t : ring_wf q -> 0 <= t <= B -> (8 | t) -> ring_wf (read_done q t).
Proof. intros [] ? ?. by split. Qed.

Lemma set_tail_wf q t : ring_wf q -> 0 <= t <= B -> (8 | t) -> ring_wf (set_tail q t).
Proof. intros [] ? ?. by split. Qed.

Lemma layout_nil_inv buf head tail : layout buf head tail [] -> tail = head.
Proof.
  inversion 1 as [ms Hle Hc|p ms1 ms2 ? ? ? ? Hne ? Heq]; subst; [by apply chain_nil_inv in Hc|].
  by destruct ms1, ms2.
Qed.

Lemma layout_cons_ne buf head tail m ms : layout buf head tail (m :: ms) -> tail <> head.
Proof.
  inversion 1 as [ms' Hle Hc|p ms1 ms2 Hlt]; subst; [|lia].
  apply chain_cons_lt in Hc. lia.
Qed.

(** Reading from a linear layout, or from the first run of a wrapped one. *)
Lemma tryRead_front q e m ms :
  ring_wf q -> tail_ q <> head_ q -> e <= B ->
  chain (buffer_ q) (tail_ q) e (m :: ms) ->
  tryRead q = Ret (Some m, read_done q (tail_ q + needed (zlen m))).
Proof.
  intros Hwf Hne He Hc. destruct (Hwf) as [Hb _ Ht _ _].
  pose proof (chain_cons_lt _ _ _ _ _ Hc).
  destruct (readFrame_chain q (tail_ q) e m ms) as (HR & _ & HM); [done|lia|done|done|].
  unfold tryRead. rewrite (proj2 (Z.eqb_neq _ _)) by done.
  rewrite mem_rd_ok by (unfold sizeof_FrameHeader; lia). cbn [outcome_bind].
  rewrite HM. change (MAGIC_VALID =? MAGIC_PADDING) with false. exact HR.
Qed.

Lemma tryRead_cons q m ms :
  repr q (m :: ms) -> tail_ q < B ->
  exists q', tryRead q = Ret (Some m, q') /\ repr q' ms
    /\ head_ q' = head_ q
    /\ (tail_ q' = needed (zlen m) \/ tail_ q' = tail_ q + needed (zlen m)).
Proof.
  intros [Hwf Hl] HB. pose proof (layout_cons_ne _ _ _ _ _ Hl) as Hne.
  destruct (Hwf) as [Hb Hh Ht Hha Hta]. frame_facts m.
  inversion Hl as [ms' Hle Hc | p ms1 ms2 Hlt Hp Hc1 Hc2 Hn2 Hpad Heq]; subst.
  - exists (read_done q (tail_ q + needed (zlen m))). 
    destruct (readFrame_chain q (tail_ q) (head_ q) m ms Hwf ltac:(lia) ltac:(lia) Hc) as (_ & Hr & _).
    pose proof (chain_le _ _ _ _ Hr).
    split; [eapply tryRead_front; eauto; lia|]. split; [split|].
    + apply read_done_wf; [done|lia|by apply Z.divide_add_r].
    + by apply layout_linear.
    + simpl. split; [done|]. lia.
  - pose proof (chain_le _ _ _ _ Hc1). destruct ms1 as [|m' ms1]; simplify_eq/=.
    + (* the consumer meets the padding *)
      apply chain_nil_inv in Hc1 as ->. destruct (chain_aligned _ _ _ _ Hc2 (Z.divide_0_r 8)).
      pose proof (chain_cons_lt _ _ _ _ _ Hc2).
      set (q1 := set_tail q 0).
      assert (ring_wf q1) as Hwf1 by (apply set_tail_wf; [done|lia|apply Z.divide_0_r]).
      destruct (readFrame_chain q1 0 (head_ q) m ms Hwf1 ltac:(lia) ltac:(lia) Hc2) as (HR & Hr & _).
      pose proof (chain_le _ _ _ _ Hr). pose proof (aligned_gap _ Hta HB).
      exists (read_done q1 (0 + needed (zlen m))). split; [|split; [split|]].
      * unfold tryRead. rewrite (proj2 (Z.eqb_neq _ _)) by done.
        rewrite mem_rd_ok by (unfold sizeof_FrameHeader; lia). cbn [outcome_bind].
        rewrite Hpad by done. rewrite header_roundtrip by (unfold MAGIC_PADDING; lia).
        cbn [fh_magic]. rewrite Z.eqb_refl, (proj2 (Z.eqb_neq 0 _)) by lia.
        fold q1. rewrite mem_rd_ok by (unfold sizeof_FrameHeader; simpl; lia). apply HR.
      * apply read_done_wf; done || lia.
      * by apply layout_linear.
      * simpl. split; [done|]. lia.
    + destruct (readFrame_chain q (tail_ q) p m ms1 Hwf ltac:(lia) Hp Hc1) as (_ & Hr & _).
      pose proof (chain_le _ _ _ _ Hr).
      exists (read_done q (tail_ q + needed (zlen m))).
      split; [eapply tryRead_front; eauto|]. split; [split|].
      * apply read_done_wf; [done|lia|by apply Z.divide_add_r].
      * eapply layout_wrapped with (p := p); simpl; done || lia.
      * simpl. split; [done|]. lia.
Qed.

Lemma tryRead_nil q : repr q [] -> tryRead q = Ret (None, q).
Proof. intros [_ Hl%layout_nil_inv]. unfold tryRead. by rewrite Hl, Z.eqb_refl. Qed.

Lemma tryRead_at_end q ms : repr q ms -> ms <> [] -> tail_ q = B -> tryRead q = UB.
Proof.
  intros [[Hb Hh Ht Hha Hta] Hl] Hms HB. destruct ms as [|m ms]; [done|].
  apply layout_cons_ne in Hl. unfold tryRead. rewrite (proj2 (Z.eqb_neq _ _)) by done.
  rewrite mem_rd_ub; [done|]. unfold sizeof_FrameHeader. lia.
Qed.

(** ** Sequences of calls *)

Inductive op :=
| OpWrite (data : list Z)
| OpRead.

(** Runs the calls in order; collects the messages accepted by [tryWrite] and the
    messages delivered by [tryRead]. *)
Fixpoint run (ops : list op) (q : ring) : outcome (ring * list (list Z) * list (list Z)) :=
  match ops with
  | [] => Ret (q, [], [])
  | OpWrite data :: rest =>
      do! r := tryWrite data q in
      do! s := run rest r.2 in
      Ret (s.1.1, (if r.1 then [data] else []) ++ s.1.2, s.2)
  | OpRead :: rest =>
      do! r := tryRead q in
      do! s := run rest r.2 in
      Ret (s.1.1, s.1.2, option_list r.1 ++ s.2)
  end.

Lemma tryRead_defined q ms r :
  repr q ms -> tryRead q = Ret r -> exists ms', repr r.2 ms' /\ ms = option_list r.1 ++ ms'.
Proof.
  intros Hq Hr. destruct ms as [|m ms].
  - rewrite tryRead_nil in Hr by done. simplify_eq. by exists [].
  - destruct (Z.eq_dec (tail_ q) B) as [HB|HB].
    + by rewrite (tryRead_at_end q (m :: ms)) in Hr.
    + destruct (tryRead_cons q m ms Hq) as (q' & Hq' & Hr' & _).
      { destruct Hq as [[] _]. lia. }
      rewrite Hq' in Hr. simplify_eq. by exists ms.
Qed.

Lemma run_repr ops q ms r :
  repr q ms -> run ops q = Ret r ->
  exists ms', repr r.1.1 ms' /\ ms ++ r.1.2 = r.2 ++ ms'.
Proof.
  revert q ms r. induction ops as [|[data|] ops IH]; intros q ms r Hq Hr; simpl in Hr.
  - simplify_eq/=. exists ms. by rewrite app_nil_r.
  - destruct (tryWrite_cases q ms data Hq) as (q' & Hw & Hq' & _). rewrite Hw in Hr. simpl in Hr.
    destruct (run ops q') as [s|] eqn:Es; simplify_eq/=.
    destruct (IH _ _ _ Hq' Es) as (ms' & ? & Heq). exists ms'. split; [done|].
    rewrite <- Heq. destruct (accepts q data); simpl; [by rewrite <- app_assoc | done].
  - destruct (tryRead q) as [s|] eqn:Es; simplify_eq/=.
    destruct (run ops s.2) as [s'|] eqn:Es'; simplify_eq/=.
    destruct (tryRead_defined _ _ _ Hq Es) as (ms1 & H1 & ->).
    destruct (IH _ _ _ H1 Es') as (ms' & ? & Heq). exists ms'. split; [done|].
    by rewrite <- !app_assoc, Heq.
Qed.

Lemma init_repr : repr init [].
Proof.
  split; [split|]; simpl; try lia; try apply Z.divide_0_r.
  - unfold zlen. rewrite length_replicate. lia.
  - apply layout_linear; [lia|constructor].
Qed.

(** All frames have [f] bytes and both indices are multiples of [f]. *)
Definition uniform (f : Z) (q : ring) (ms : list (list Z)) : Prop :=
  repr q ms /\ (f | head_ q) /\ (f | tail_ q) /\ Forall (fun m => needed (zlen m) = f) ms.

Lemma tryWrite_head q data b q' :
  tryWrite data q = Ret (b, q') ->
  head_ q' = head_ q \/ head_ q' = head_ q + needed (zlen data) \/ head_ q' = needed (zlen data).
Proof.
  unfold tryWrite, outcome_bind. intros H.
  repeat case_match; simplify_eq/=; auto.
Qed.

Lemma tryWrite_uniform f q ms data :
  uniform f q ms -> needed (zlen data) = f ->
  exists b q', tryWrite data q = Ret (b, q') /\ uniform f q' (if b then ms ++ [data] else ms).
Proof.
  intros (Hq & Hh & Ht & Hf) Hn. destruct (tryWrite_cases q ms data Hq) as (q' & Hw & Hq' & Htl & _).
  eexists _, q'. split; [done|]. split; [done|]. split.
  - destruct (tryWrite_head _ _ _ _ Hw) as [-> | [-> | ->]]; rewrite ?Hn; [done| |apply Z.divide_refl].
    apply Z.divide_add_r; [done|apply Z.divide_refl].
  - rewrite Htl. split; [done|]. destruct (accepts _ _); [|done]. apply Forall_app. by split; [|constructor].
Qed.

Lemma tryRead_uniform f q ms :
  uniform f q ms -> ~ (f | B) ->
  exists r, tryRead q = Ret r /\ exists ms', uniform f r.2 ms'.
Proof.
  intros (Hq & Hh & Ht & Hf) HB. destruct ms as [|m ms].
  { eexists. split; [by apply tryRead_nil|]. exists []. done. }
  destruct (tryRead_cons q m ms Hq) as (q' & Hr & Hq' & Hh' & Ht').
  { destruct Hq as [[_ _ ? _ _] _]. destruct (Z.eq_dec (tail_ q) B) as [E|]; [by rewrite E in Ht | lia]. }
  eexists. split; [done|]. exists ms. inversion Hf as [|? ? Hm Hms]; subst. simpl.
  split; [done|]. rewrite Hh'. split; [done|]. split; [|done].
  destruct Ht' as [-> | ->]; [apply Z.divide_refl|]. apply Z.divide_add_r; [done|apply Z.divide_refl].
Qed.

Lemma run_uniform f ops q ms :
  uniform f q ms -> ~ (f | B) ->
  Forall (fun o => match o with OpWrite data => needed (zlen data) = f | OpRead => True end) ops ->
  run ops q <> UB.
Proof.
  intros Hq HB Hops. revert q ms Hq. induction Hops as [|o ops Ho Hops IH]; intros q ms Hq; [done|].
  destruct o as [data|]; simpl.
  - destruct (tryWrite_uniform f q ms data Hq Ho) as (b & q' & -> & Hq'). simpl.
    specialize (IH _ _ Hq'). by destruct (run ops q').
  - destruct (tryRead_uniform f q ms Hq HB) as (r & -> & ms' & Hq'). simpl.
    specialize (IH _ _ Hq'). by destruct (run ops r.2).
Qed.

(** ** Properties *)

(** C22: [tryWrite] never leaves the buffer; it returns [true] exactly when the
    message has 1 to 2040 bytes and its frame fits, and then the queue holds the
    message behind the earlier ones; otherwise the contents are unchanged. *)
Theorem tryWrite_fifo (q : ring) (ms : list (list Z)) (data : list Z) :
  repr q ms ->
  exists q', tryWrite data q = Ret (accepts q data, q')
    /\ repr q' (if accepts q data then ms ++ [data] else ms).
Proof. intros Hq. destruct (tryWrite_cases q ms data Hq) as (q' & ? & ? & _). eauto. Qed.

(** While the read index is below [BUFFER_SIZE], [tryRead] on a non-empty queue
    delivers the oldest message byte for byte and removes exactly it; on an empty
    queue it returns [false] and changes nothing. *)
Theorem tryRead_fifo (q : ring) (ms : list (list Z)) :
  repr q ms -> tail_ q < B ->
  exists q', tryRead q = Ret (hd_error ms, q') /\ repr q' (tail ms).
Proof.
  intros Hq HB. destruct ms as [|m ms].
  - exists q. by rewrite tryRead_nil.
  - destruct (tryRead_cons q m ms Hq HB) as (q' & ? & ? & _). eauto.
Qed.

(** [tryRead] reads outside [buffer_] exactly when messages are queued while the
    read index stands at [BUFFER_SIZE]: the consumer has no test for that position
    and the producer writes no padding there. *)
Theorem tryRead_ub_iff (q : ring) (ms : list (list Z)) :
  repr q ms -> (tryRead q = UB <-> tail_ q = B /\ ms <> []).
Proof.
  intros Hq. split; [|intros []; by eapply tryRead_at_end].
  intros HU. destruct ms as [|m ms]; [by rewrite tryRead_nil in HU|].
  split; [|done]. destruct (Z.eq_dec (tail_ q) B) as [|HB]; [done|].
  destruct (tryRead_cons q m ms Hq) as (q' & Hr & _); [destruct Hq as [[] _]; lia|].
  by rewrite Hr in HU.
Qed.

(** Over any sequence of calls on a fresh queue that stays inside the buffer, the
    delivered messages followed by the messages still queued are the accepted
    messages in order: nothing is lost, duplicated, reordered or altered. *)
Theorem run_fifo (ops : list op) (q : ring) (accepted delivered : list (list Z)) :
  run ops init = Ret (q, accepted, delivered) ->
  exists pending, repr q pending /\ accepted = delivered ++ pending.
Proof.
  intros H. destruct (run_repr _ _ _ _ init_repr H) as (ms & ? & Heq). simpl in *. eauto.
Qed.

(** When all frames have one size that does not divide [BUFFER_SIZE], no
    sequence of calls ever leaves the buffer. *)
Theorem run_uniform_safe (f : Z) (ops : list op) :
  ~ (f | B) ->
  Forall (fun o => match o with OpWrite data => needed (zlen data) = f | OpRead => True end) ops ->
  run ops init <> UB.
Proof.
  intros HB Hops. eapply run_uniform; [|done|done]. split; [apply init_repr|].
  simpl. split; [apply Z.divide_0_r|]. split; [apply Z.divide_0_r|constructor].
Qed.

End Ring.

(** ** Witnesses *)

Definition msg_a : list Z := [1; 2; 3].

Definition msg_b : list Z := [4; 5; 6; 7; 8; 9; 10; 11; 12].

Lemma init_repr_64 : repr 64 (init 64) [].
Proof. apply init_repr; lia. Qed.

Lemma tryWrite_fifo_witness :
  exists q', tryWrite 64 msg_a (init 64) = Ret (true, q') /\ repr 64 q' [msg_a].
Proof.
  exact (tryWrite_fifo 64 ltac:(by exists 8) ltac:(lia) (init 64) [] msg_a init_repr_64).
Defined.

Lemma tryRead_fifo_witness : exists q', tryRead (init 64) = Ret (None, q') /\ repr 64 q' [].
Proof.
  exact (tryRead_fifo 64 ltac:(by exists 8) ltac:(lia) (init 64) [] init_repr_64 ltac:(done)).
Defined.

Lemma tryRead_ub_iff_witness : tryRead (init 64) = UB <-> 0 = 64 /\ @nil (list Z) <> [].
Proof.
  exact (tryRead_ub_iff 64 ltac:(by exists 8) ltac:(lia) (init 64) [] init_repr_64).
Defined.

Definition sample_ops : list op := [OpWrite msg_a; OpWrite msg_b; OpRead; OpWrite msg_a; OpRead].

Definition sample_run := Eval vm_compute in run 64 sample_ops (init 64).

Lemma run_fifo_witness :
  exists q pending, run 64 sample_ops (init 64) = Ret (q, [msg_a; msg_b; msg_a], [msg_a; msg_b])
    /\ repr 64 q pending /\ [msg_a; msg_b; msg_a] = [msg_a; msg_b] ++ pending.
Proof.
  eexists.
  destruct (run_fifo 64 ltac:(by exists 8) ltac:(lia) sample_ops _ _ _ (eq_refl sample_run))
    as (pending & Hp & Heq).
  exists pending. split; [vm_compute; reflexivity|]. split; [exact Hp | exact Heq].
Defined.

Lemma run_uniform_safe_witness :
  run 64 [OpWrite msg_b; OpRead; OpWrite msg_b; OpRead; OpWrite msg_b] (init 64) <> UB.
Proof.
  apply (run_uniform_safe 64 ltac:(by exists 8) ltac:(lia) 24).
  - intros [k Hk]. lia.
  - repeat constructor.
Defined.

(** The queue sizes of [SharedMemoryTransportV3]. *)
Definition CONTROL_QUEUE_SIZE_BYTES : Z := 16 * 1024.

Definition DATA_QUEUE_SIZE_BYTES : Z := 524288.

(** With the control queue's real size, eight messages of the maximum size fill
    the buffer to its end; once they are read, the next message makes [tryRead]
    read outside the buffer. *)
Theorem control_queue_overrun :
  let m := replicate 2040 7 in
  run CONTROL_QUEUE_SIZE_BYTES
    (replicate 8 (OpWrite m) ++ replicate 8 OpRead ++ [OpWrite m]) (init CONTROL_QUEUE_SIZE_BYTES)
    <> UB
  /\ run CONTROL_QUEUE_SIZE_BYTES
    (replicate 8 (OpWrite m) ++ replicate 8 OpRead ++ [OpWrite m; OpRead])
    (init CONTROL_QUEUE_SIZE_BYTES) = UB.
Proof. split; [vm_compute; discriminate | vm_compute; reflexivity]. Qed.
