(* ===== verification/RingThreads.v ===== *)
(** * The ring buffer under its two threads

    [LockFreeQueue.v] runs each call as one step. Here the calls of
    [LockFreeRingBuffer] ([include/nexus/transport/LockFreeQueue.h]) are cut into their accesses to
    shared memory: every load and store of [head_] and [tail_], every byte of the two
    [memcpy]s and every counter update is a step of its own, and the steps of one producer and
    one consumer interleave in any order. *)

From S2P Require Import Prelude LockFreeQueue.

(** The results the calls return. *)
Inductive event :=
| WriteRet (data : list Z) (ok : bool)
| ReadRet (out : option (list Z)).

(** ** The producer *)

(** Where a call of [tryWrite(data, size)] stands. *)
Inductive producer :=
| PIdle
| PLoadTail (data : list Z) (head : Z)                        (* [head_] is loaded *)
| PStore (writes : list (Z * Z)) (next : Z) (data : list Z)   (* bytes to store, then [head_.store(next)] *)
| PCount (data : list Z)                                      (* [head_] is stored *)
| PDropped (data : list Z).                                   (* the queue is full *)

(** [memcpy(&buffer_[o], bs, ...)] as single bytes. *)
Fixpoint bytes_at (o : Z) (bs : list Z) : list (Z * Z) :=
  match bs with
  | [] => []
  | b :: bs => (o, b) :: bytes_at (o + 1) bs
  end.

Definition frame_writes (o : Z) (data : list Z) : list (Z * Z) :=
  bytes_at o (header_bytes (mkFrameHeader (u32 (zlen data)) MAGIC_VALID))
  ++ bytes_at (o + sizeof_FrameHeader) data.

Definition padding_writes (B head : Z) : list (Z * Z) :=
  let pad_len := B - head in
  if sizeof_FrameHeader <=? pad_len
  then bytes_at head (header_bytes (mkFrameHeader (u32 pad_len) MAGIC_PADDING)) else [].

(** The choice [tryWrite] makes once it has both indices. *)
Definition place (B : Z) (data : list Z) (head tail : Z) : producer :=
  let need := needed (zlen data) in
  if tail <=? head then
    if head + need <=? B then PStore (frame_writes head data) (head + need) data
    else if need <? tail then PStore (padding_writes B head ++ frame_writes 0 data) need data
    else PDropped data
  else
    if head + need <? tail then PStore (frame_writes head data) (head + need) data
    else PDropped data.

Definition set_buffer (q : ring) (buf : list Z) : ring :=
  mkRing (head_ q) (tail_ q) (stats_messages_written_ q) (stats_messages_read_ q) (stats_messages_dropped_ q) buf.

Definition set_head (q : ring) (h : Z) : ring :=
  mkRing h (tail_ q) (stats_messages_written_ q) (stats_messages_read_ q) (stats_messages_dropped_ q) (buffer_ q).

(** The call up to the load of [head_]. *)
Definition write_call (data : list Z) (q : ring) : producer * option event :=
  if (MAX_MSG_SIZE <? zlen data) || (zlen data =? 0) then (PIdle, Some (WriteRet data false))
  else (PLoadTail data (head_ q), None).

(** One access of the producer. *)
Definition producer_step (B : Z) (p : producer) (q : ring) : outcome (producer * ring * option event) :=
  match p with
  | PIdle => Ret (PIdle, q, None)
  | PLoadTail data head => Ret (place B data head (tail_ q), q, None)
  | PStore ((o, b) :: ws) next data =>
      do! buf := mem_wr o [b] (buffer_ q) in
      Ret (PStore ws next data, set_buffer q buf, None)
  | PStore [] next data => Ret (PCount data, set_head q next, None)
  | PCount data => Ret (PIdle, commit q (buffer_ q) (head_ q), Some (WriteRet data true))
  | PDropped data => Ret (PIdle, drop_one q, Some (WriteRet data false))
  end.

(** ** The consumer *)

(** Where a call of [tryRead] stands; [acc] holds the bytes copied so far. *)
Inductive consumer :=
| CIdle
| CLoadHead (tail : Z)                                        (* [tail_] is loaded *)
| CHeader (again : bool) (tail head : Z) (acc : list Z)       (* copying the header *)
| CWrap (head : Z)                                            (* padding: [tail_.store(0)] *)
| CData (tail payload_len : Z) (acc : list Z)                 (* copying the payload *)
| CAdvance (next : Z) (out : list Z)                          (* [tail_.store(next)] *)
| CCount (out : list Z).

(** The tests on a copied header; after the wrap padding is not looked for again. *)
Definition inspect (again : bool) (tail head : Z) (header : FrameHeader) : consumer * option event :=
  if negb again && (fh_magic header =? MAGIC_PADDING) then (CWrap head, None)
  else if negb (fh_magic header =? MAGIC_VALID) then (CIdle, Some (ReadRet None))
  else if MAX_MSG_SIZE <? fh_length header then (CIdle, Some (ReadRet None))
  else (CData tail (fh_length header) [], None).

Definition count_read (q : ring) : ring := read_done q (tail_ q).

(** One access of the consumer. *)
Definition consumer_step (c : consumer) (q : ring) : outcome (consumer * ring * option event) :=
  match c with
  | CIdle => Ret (CLoadHead (tail_ q), q, None)
  | CLoadHead tail =>
      if tail =? head_ q then Ret (CIdle, q, Some (ReadRet None))
      else Ret (CHeader false tail (head_ q) [], q, None)
  | CHeader again tail head acc =>
      if zlen acc <? sizeof_FrameHeader then
        do! b := mem_rd (tail + zlen acc) 1 (buffer_ q) in
        Ret (CHeader again tail head (acc ++ b), q, None)
      else let '(c', ev) := inspect again tail head (header_of_bytes acc) in Ret (c', q, ev)
  | CWrap head =>
      let q1 := set_tail q 0 in
      if 0 =? head then Ret (CIdle, q1, Some (ReadRet None))
      else Ret (CHeader true 0 head [], q1, None)
  | CData tail payload_len acc =>
      if zlen acc <? payload_len then
        do! b := mem_rd (tail + sizeof_FrameHeader + zlen acc) 1 (buffer_ q) in
        Ret (CData tail payload_len (acc ++ b), q, None)
      else Ret (CAdvance (tail + needed payload_len) acc, q, None)
  | CAdvance next out => Ret (CCount out, set_tail q next, None)
  | CCount out => Ret (CIdle, count_read q, Some (ReadRet (Some out)))
  end.

#[global] Instance producer_eq_dec : EqDecision producer.
Proof. solve_decision. Defined.

#[global] Instance consumer_eq_dec : EqDecision consumer.
Proof. solve_decision. Defined.

(** ** Interleavings *)

Record threads := mkThreads {
  prod : producer;
  cons : consumer;
  shared : ring
}.

Inductive step (B : Z) : threads -> option event -> threads -> Prop :=
| step_call data c q p ev :
    write_call data q = (p, ev) -> step B (mkThreads PIdle c q) ev (mkThreads p c q)
| step_producer p c q p' q' ev :
    p <> PIdle -> producer_step B p q = Ret (p', q', ev) ->
    step B (mkThreads p c q) ev (mkThreads p' c q')
| step_consumer p c q c' q' ev :
    consumer_step c q = Ret (c', q', ev) ->
    step B (mkThreads p c q) ev (mkThreads p c' q').

(** A schedule names the thread that takes each step; a call can start when the producer is idle. *)
Inductive action := ACall (data : list Z) | AProducer | AConsumer.

Definition act (B : Z) (a : action) (t : threads) : outcome (threads * option event) :=
  match a, prod t with
  | ACall data, PIdle => let '(p, ev) := write_call data (shared t) in Ret (mkThreads p (cons t) (shared t), ev)
  | ACall _, _ | AProducer, PIdle => Ret (t, None)
  | AProducer, p =>
      do! '(p', q', ev) := producer_step B p (shared t) in Ret (mkThreads p' (cons t) q', ev)
  | AConsumer, _ =>
      do! '(c', q', ev) := consumer_step (cons t) (shared t) in Ret (mkThreads (prod t) c' q', ev)
  end.

Fixpoint schedule (B : Z) (acts : list action) (evs : list event) (t : threads) : outcome (list event * threads) :=
  match acts with
  | [] => Ret (evs, t)
  | a :: acts => do! '(t', ev) := act B a t in schedule B acts (evs ++ option_list ev) t'
  end.

(** Finite executions with the results returned on the way. *)
Inductive exec (B : Z) (t0 : threads) : list event -> threads -> Prop :=
| exec_refl : exec B t0 [] t0
| exec_snoc evs t ev t' : exec B t0 evs t -> step B t ev t' -> exec B t0 (evs ++ option_list ev) t'.

(** The messages of the calls that returned [true]. *)
Definition ev_written (e : event) : list (list Z) :=
  match e with WriteRet data true => [data] | _ => [] end.

Definition ev_read (e : event) : list (list Z) :=
  match e with ReadRet o => option_list o | _ => [] end.

Definition written (evs : list event) : list (list Z) := evs ≫= ev_written.

Definition delivered (evs : list event) : list (list Z) := evs ≫= ev_read.

(** A message that is in the queue while its call has not returned, and one that has left the
    queue while its call has not returned. *)
Definition returning_write (p : producer) : list (list Z) :=
  match p with PCount data => [data] | _ => [] end.

Definition returning_read (c : consumer) : list (list Z) :=
  match c with CCount out => [out] | _ => [] end.

Definition start (B : Z) : threads := mkThreads PIdle CIdle (init B).

Section Interleaved.
Variable B : Z.
Hypothesis B_aligned : (8 | B).
Hypothesis B_range : 0 < B < 2 ^ 32.

(** ** Writing byte by byte *)

Definition apply_writes (ws : list (Z * Z)) (buf : list Z) : list Z :=
  fold_left (fun buf w => splice w.1 [w.2] buf) ws buf.

Lemma apply_writes_app ws1 ws2 buf : apply_writes (ws1 ++ ws2) buf = apply_writes ws2 (apply_writes ws1 buf).
Proof. apply fold_left_app. Qed.

Lemma splice_nil o buf : splice o [] buf = buf.
Proof. unfold splice. simpl. rewrite Nat.add_0_r. apply take_drop. Qed.

Lemma splice_cons o b bs buf :
  0 <= o -> o + zlen (b :: bs) <= zlen buf -> splice o (b :: bs) buf = splice (o + 1) bs (splice o [b] buf).
Proof.
  unfold splice, zlen. cbn [length]. intros Ho Hl.
  rewrite (take_app_ge (take _ _)) by (rewrite length_take; lia).
  rewrite (drop_app_ge (take _ _)) by (rewrite length_take; lia). rewrite length_take.
  replace (Z.to_nat (o + 1) - _)%nat with 1%nat by lia.
  replace (Z.to_nat (o + 1) + length bs - _)%nat with (S (length bs)) by lia.
  cbn [app take drop]. rewrite take_0, <- app_assoc. cbn [app]. do 3 f_equal. rewrite drop_drop. f_equal. lia.
Qed.

Lemma apply_bytes_at o bs buf :
  0 <= o -> o + zlen bs <= zlen buf -> apply_writes (bytes_at o bs) buf = splice o bs buf.
Proof.
  revert o buf. induction bs as [|b bs IH]; intros o buf Ho Hl; [by rewrite splice_nil|].
  pose proof (zlen_nonneg bs). rewrite zlen_cons in Hl. rewrite splice_cons by (rewrite ?zlen_cons; lia).
  cbn [bytes_at]. unfold apply_writes. cbn [fold_left fst snd]. apply IH; [lia|].
  rewrite splice_zlen; unfold zlen in *; cbn [length]; lia.
Qed.

Lemma apply_frame_writes o m buf :
  msg_ok m -> 0 <= o -> o + needed (zlen m) <= zlen buf -> apply_writes (frame_writes o m) buf = framed o m buf.
Proof.
  intros Hm Ho Hl. pose proof (zlen_nonneg m). destruct (needed_bounds (zlen m) ltac:(done)).
  unfold frame_writes, framed, valid_header, u32, sizeof_FrameHeader. rewrite wrap_small by (unfold msg_ok, MAX_MSG_SIZE in Hm; lia).
  rewrite apply_writes_app, (apply_bytes_at o) by (rewrite ?header_zlen; lia).
  apply apply_bytes_at; [lia|]. rewrite splice_zlen; rewrite ?header_zlen; lia.
Qed.

Lemma apply_padding_writes head buf :
  (8 | head) -> 0 <= head <= B -> zlen buf = B -> apply_writes (padding_writes B head) buf = padded B head buf.
Proof.
  intros Ha Hh Hb. unfold padding_writes, padded, sizeof_FrameHeader, u32. rewrite wrap_small by lia.
  destruct (decide (head < B)).
  - pose proof (aligned_gap B B_aligned head Ha ltac:(lia)). rewrite (proj2 (Z.leb_le 8 _)) by lia.
    apply apply_bytes_at; rewrite ?header_zlen; lia.
  - rewrite (proj2 (Z.leb_gt 8 _)) by lia. done.
Qed.

Lemma bytes_at_range o bs w : w ∈ bytes_at o bs -> o <= w.1 < o + zlen bs.
Proof.
  revert o. induction bs as [|b bs IH]; intros o; [by intros ?%elem_of_nil|].
  cbn [bytes_at]. rewrite zlen_cons. pose proof (zlen_nonneg bs).
  intros [->|Hw%IH]%elem_of_cons; simpl; lia.
Qed.

Lemma frame_writes_range o m w :
  w ∈ frame_writes o m -> o <= w.1 < o + needed (zlen m).
Proof.
  pose proof (zlen_nonneg m). destruct (needed_bounds (zlen m) ltac:(done)). unfold frame_writes, sizeof_FrameHeader.
  intros [Hw|Hw]%elem_of_app; apply bytes_at_range in Hw; rewrite ?header_zlen in Hw; lia.
Qed.

Lemma padding_writes_range head w : w ∈ padding_writes B head -> head <= w.1 < B.
Proof.
  unfold padding_writes, sizeof_FrameHeader. destruct (_ <=? _) eqn:E; [|by intros ?%elem_of_nil].
  btest. intros Hw%bytes_at_range. rewrite header_zlen in Hw. lia.
Qed.

(** ** What the producer is about to publish *)

(** Storing [next] into [head_] appends [data] to the queue. *)
Definition ready (buf : list Z) (head tail next : Z) (data : list Z) : Prop :=
  0 <= next <= B /\ (8 | next)
  /\ (chain buf head next [data] /\ (head < tail -> next < tail)
      \/ tail <= head /\ next < tail /\ chain buf 0 next [data]
         /\ (head < B -> slice head sizeof_FrameHeader buf = header_bytes (mkFrameHeader (B - head) MAGIC_PADDING))).

Lemma ready_commit buf head tail next data ms :
  0 <= head <= B -> layout B buf head tail ms -> ready buf head tail next data ->
  layout B buf next tail (ms ++ [data]).
Proof.
  intros Hh Hl (_ & _ & [[Hc Hw]|(Ht & Hn & Hc & Hp)]); [by eapply layout_extend|].
  eapply layout_wrap; eauto with lia.
Qed.

(** How the consumer moves [tail_]: forward, never past [head_], or from the padding to 0. *)
Definition moves (head tail tail' : Z) : Prop :=
  if decide (tail <= head) then tail <= tail' <= head else tail <= tail' <= B \/ tail' = 0.

Lemma free_moves head tail tail' o n :
  0 <= head -> tail <= B -> moves head tail tail' -> free B head tail o n -> free B head tail' o n.
Proof. unfold moves, free. intros ? ? Hm (? & ? & Hf). split; [done|]. split; [done|]. repeat case_decide; lia. Qed.

Lemma ready_moves buf head tail tail' next data :
  0 <= head -> moves head tail tail' -> ready buf head tail next data -> ready buf head tail' next data.
Proof.
  unfold moves. intros ? Hm (Hn & Ha & Hr). split; [done|]. split; [done|].
  destruct Hr as [[Hc Hw]|(Ht & Hlt & Hc & Hp)]; [left|right].
  - split; [done|]. intros. case_decide; lia.
  - rewrite decide_True in Hm by done. split; [lia|]. split; [lia|]. done.
Qed.

(** A byte in free space leaves the used bytes alone. *)
Definition used (head tail p n : Z) : Prop :=
  tail <= p /\ 0 <= n /\ p + n <= (if decide (tail <= head) then head else B).

Lemma free_used_disjoint head tail o n p k :
  free B head tail o n -> used head tail p k -> p + k <= o \/ o + n <= p.
Proof. unfold free, used. intros (? & ? & Hf) (? & ? & Hu). repeat case_decide; lia. Qed.

Lemma used_slice head tail o n p k buf buf' :
  0 <= tail -> free B head tail o n -> only_differs o n buf buf' -> used head tail p k ->
  slice p k buf' = slice p k buf.
Proof.
  intros Ht Hf [_ Hd] Hu. destruct (free_used_disjoint _ _ _ _ _ _ Hf Hu); destruct Hu as (? & ? & _); apply Hd; lia.
Qed.

(** ** Invariants of the two threads *)

(** The frame of [m] stands at [t]. *)
Definition frame_at (buf : list Z) (t : Z) (m : list Z) : Prop :=
  msg_ok m /\ slice t sizeof_FrameHeader buf = valid_header m
  /\ slice (t + sizeof_FrameHeader) (zlen m) buf = m /\ t + needed (zlen m) <= B.

Definition prod_inv (q : ring) (p : producer) : Prop :=
  match p with
  | PLoadTail data head => msg_ok data /\ head = head_ q
  | PStore ws next data =>
      Forall (fun w => free B (head_ q) (tail_ q) w.1 1) ws
      /\ ready (apply_writes ws (buffer_ q)) (head_ q) (tail_ q) next data
  | _ => True
  end.

Definition cons_inv (q : ring) (ms : list (list Z)) (c : consumer) : Prop :=
  match c with
  | CIdle | CCount _ => True
  | CLoadHead t => t = tail_ q
  | CHeader again t h acc =>
      t = tail_ q /\ ms <> [] /\ h <> 0 /\ zlen acc <= 8 /\ (acc <> [] -> t < B)
      /\ acc = slice t (zlen acc) (buffer_ q) /\ (again = true -> t = 0)
  | CWrap h =>
      ms <> [] /\ h <> 0 /\ tail_ q < B
      /\ fh_magic (header_of_bytes (slice (tail_ q) 8 (buffer_ q))) = MAGIC_PADDING
  | CData t len acc =>
      t = tail_ q /\ exists m ms', ms = m :: ms' /\ frame_at (buffer_ q) t m /\ len = zlen m
        /\ acc = take (length acc) m
  | CAdvance next out =>
      exists ms', ms = out :: ms' /\ frame_at (buffer_ q) (tail_ q) out /\ next = tail_ q + needed (zlen out)
  end.

Definition inv (t : threads) (ms : list (list Z)) : Prop :=
  repr B (shared t) ms /\ prod_inv (shared t) (prod t) /\ cons_inv (shared t) ms (cons t).

Lemma place_inv q ms data :
  repr B q ms -> msg_ok data -> prod_inv q (place B data (head_ q) (tail_ q)).
Proof.
  intros [[Hb Hh Ht Hha Hta] Hl] Hm. pose proof (zlen_nonneg data). destruct (needed_bounds (zlen data) ltac:(done)).
  assert (Hfit : head_ q + needed (zlen data) <= B -> (head_ q < tail_ q -> head_ q + needed (zlen data) < tail_ q) ->
    prod_inv q (PStore (frame_writes (head_ q) data) (head_ q + needed (zlen data)) data)).
  { intros Hf Hw. split.
    - apply Forall_forall. intros w Hr%frame_writes_range. unfold free. case_decide; lia.
    - rewrite apply_frame_writes by lia || done. split; [lia|]. split; [by apply Z.divide_add_r|].
      left. split; [apply framed_chain; done || lia|done]. }
  unfold place. repeat ctest; try (apply Hfit; lia); try done. split.
  - apply Forall_app. split; apply Forall_forall; intros w Hr.
    + apply padding_writes_range in Hr. unfold free. case_decide; lia.
    + apply frame_writes_range in Hr. unfold free. case_decide; lia.
  - destruct (padded_only_differs B B_aligned _ _ Hha Hh Hb) as [Hpl _].
    rewrite apply_writes_app, apply_padding_writes, apply_frame_writes by lia || done.
    split; [lia|]. split; [done|]. right. split; [done|]. split; [done|]. split.
    + apply (framed_chain 0); done || lia.
    + intros. rewrite framed_slice by (unfold sizeof_FrameHeader; lia). apply padded_header; done || lia.
Qed.

(** The used bytes at the front of the queue. *)
Lemma front_header_used buf head tail ms :
  (8 | tail) -> tail < B -> ms <> [] -> layout B buf head tail ms -> used head tail tail 8.
Proof.
  intros Ha HB Hne Hl. unfold used. split; [lia|]. split; [lia|].
  destruct Hl as [ms Hle Hc|p ms1 ms2 Hlt Hp _ _ _ _]; case_decide; try lia.
  - destruct ms as [|m ms]; [done|]. apply chain_cons_lt in Hc. lia.
  - by apply aligned_gap.
Qed.

Lemma valid_not_padding m : msg_ok m ->
  fh_magic (header_of_bytes (valid_header m)) = MAGIC_VALID.
Proof. unfold msg_ok, MAX_MSG_SIZE, valid_header. intros. by rewrite header_roundtrip by (unfold MAGIC_VALID; lia). Qed.

(** A frame at the front of the queue is the oldest message, and ends inside the used bytes. *)
Lemma front_frame buf head tail m ms :
  layout B buf head tail (m :: ms) -> frame_at buf tail m ->
  used head tail tail (needed (zlen m)) /\ layout B buf head (tail + needed (zlen m)) ms
  /\ moves head tail (tail + needed (zlen m)).
Proof.
  intros Hl (Hm & Hh & _ & HB). pose proof (zlen_nonneg m). destruct (needed_bounds (zlen m) ltac:(done)).
  unfold used, moves.
  inversion Hl as [ms' Hle Hc|p ms1 ms2 Hlt Hp Hc1 Hc2 Hne Hpad Heq]; subst; repeat case_decide; try lia.
  - inversion Hc as [|? ? ? ? ? ? ? Hr]; subst. pose proof (chain_le _ _ _ _ Hr).
    split; [lia|]. split; [by apply layout_linear|lia].
  - destruct ms1 as [|m1 ms1]; simplify_eq/=.
    + apply chain_nil_inv in Hc1 as ->. exfalso.
      pose proof (valid_not_padding m Hm) as E. rewrite <- Hh, Hpad in E by lia.
      pose proof (chain_le _ _ _ _ Hc2).
      rewrite header_roundtrip in E by (unfold MAGIC_PADDING; lia). discriminate E.
    + inversion Hc1 as [|? ? ? ? ? ? ? Hr]; subst. pose proof (chain_le _ _ _ _ Hr).
      split; [lia|]. split; [by eapply layout_wrapped; try done; lia|lia].
Qed.

(** What stands at the front of a non-empty queue. *)
Lemma front_cases buf head tail m ms :
  head <= B -> 0 <= tail -> tail < B -> layout B buf head tail (m :: ms) ->
  frame_at buf tail m
  \/ fh_magic (header_of_bytes (slice tail 8 buf)) = MAGIC_PADDING
     /\ layout B buf head 0 (m :: ms) /\ head < tail.
Proof.
  intros HhB Ht HB Hl.
  assert (Hf : forall e ms', e <= B -> chain buf tail e (m :: ms') -> frame_at buf tail m).
  { intros e ms' He Hc. inversion Hc as [|? ? ? ? ? ? ? Hr]; subst. pose proof (chain_le _ _ _ _ Hr).
    unfold frame_at. eauto with lia. }
  inversion Hl as [ms' Hle Hc|p ms1 ms2 Hlt Hp Hc1 Hc2 Hne Hpad Heq]; subst; [eauto|].
  destruct ms1 as [|m1 ms1]; cbn [app] in Heq; simplify_eq; [|eauto].
  apply chain_nil_inv in Hc1 as ->. right. pose proof (chain_le _ _ _ _ Hc2). unfold sizeof_FrameHeader in Hpad.
  rewrite Hpad, header_roundtrip by (unfold MAGIC_PADDING; lia). split; [done|]. split; [by apply layout_linear; [lia|]|done].
Qed.

(** The head moves only when a frame was written, so a non-empty queue has a head above 0. *)
Lemma head_nonzero buf head tail ms : 0 <= tail -> tail <> head -> layout B buf head tail ms -> head <> 0.
Proof.
  intros Ht Hne Hl. destruct Hl as [ms Hle Hc|p ms1 ms2 Hlt Hp Hc1 Hc2 Hn _]; [lia|].
  destruct ms2 as [|m ms2]; [done|]. apply chain_cons_lt in Hc2. lia.
Qed.

(** ** Interference *)

(** The producer's bytes do not disturb the consumer. *)
Lemma cons_inv_write q ms c o b :
  repr B q ms -> cons_inv q ms c -> free B (head_ q) (tail_ q) o 1 ->
  cons_inv (set_buffer q (splice o [b] (buffer_ q))) ms c
  /\ repr B (set_buffer q (splice o [b] (buffer_ q))) ms.
Proof.
  intros [[Hb Hh Ht Hha Hta] Hl] Hc Hf.
  assert (Hd : only_differs o 1 (buffer_ q) (splice o [b] (buffer_ q))).
  { assert (0 <= o /\ o + 1 <= B) by (unfold free in Hf; case_decide; lia).
    split; [rewrite splice_zlen; unfold zlen; simpl; unfold zlen in *; lia|].
    intros p k ? ? [?|?]; [apply slice_splice_before|apply slice_splice_after]; unfold zlen in *; simpl; lia. }
  assert (Hu : forall p n, used (head_ q) (tail_ q) p n ->
    slice p n (splice o [b] (buffer_ q)) = slice p n (buffer_ q)) by (intros; eapply used_slice; eauto; lia).
  assert (Hfr : forall m ms', ms = m :: ms' -> frame_at (buffer_ q) (tail_ q) m ->
    frame_at (splice o [b] (buffer_ q)) (tail_ q) m).
  { intros m ms' -> Hfr. destruct (front_frame _ _ _ _ _ Hl Hfr) as [(? & ? & Hu1) _]. destruct Hfr as (Hm & H1 & H2 & H3).
    pose proof (zlen_nonneg m). destruct (needed_bounds (zlen m) ltac:(done)). unfold frame_at, sizeof_FrameHeader in *.
    rewrite !Hu by (unfold used; case_decide; lia). done. }
  split.
  - destruct c as [|t|again t h acc|h|t len acc|next out|out]; simpl in *; try done.
    + destruct Hc as (-> & Hne & Hh0 & H8 & HB & Hacc & Hag). do 5 (split; [done|]). split; [|done].
      destruct acc as [|a acc]; [done|]. rewrite Hacc at 1. symmetry. apply Hu.
      destruct (front_header_used _ _ _ _ Hta (HB ltac:(done)) Hne Hl) as (? & ? & ?).
      pose proof (zlen_nonneg (a :: acc)). unfold used. lia.
    + destruct Hc as (Hne & Hh0 & HB & Hm). do 3 (split; [done|]). rewrite Hu; [done|]. by eapply front_header_used.
    + destruct Hc as (-> & m & ms' & -> & Hfm & -> & Hacc). split; [done|]. eauto 10.
    + destruct Hc as (ms' & -> & Hfm & ->). eauto 10.
  - split; [split; simpl; try done; destruct Hd; lia|]. simpl. eapply layout_preserved; eauto; lia.
Qed.

(** Publishing a message neither. *)
Lemma cons_inv_publish q ms c next data :
  cons_inv q ms c -> cons_inv (set_head q next) (ms ++ [data]) c.
Proof.
  destruct c as [|t|again t h acc|h|t len acc|next' out|out]; simpl; try done.
  - intros (-> & Hne & ?). split; [done|]. split; [by destruct ms|done].
  - intros (Hne & ?). split; [by destruct ms|done].
  - intros (-> & m & ms' & -> & ?). split; [done|]. by exists m, (ms' ++ [data]).
  - intros (ms' & -> & ?). by exists (ms' ++ [data]).
Qed.

(** The consumer's progress only gives the producer more room. *)
Lemma prod_inv_moves q p t :
  0 <= head_ q -> tail_ q <= B -> moves (head_ q) (tail_ q) t -> prod_inv q p -> prod_inv (set_tail q t) p.
Proof.
  intros Hh Ht Hm. destruct p as [|data head|ws next data|data|data]; simpl; try done.
  intros [Hf Hr]. split; [|by eapply ready_moves].
  eapply Forall_impl; [exact Hf|]. intros w. by apply free_moves.
Qed.

Lemma set_tail_repr q ms t :
  repr B q ms -> 0 <= t <= B -> (8 | t) -> layout B (buffer_ q) (head_ q) t ms -> repr B (set_tail q t) ms.
Proof. intros [Hwf _] Ht Ha Hl. split; [by apply set_tail_wf|done]. Qed.

(** ** Steps preserve the invariant *)

(** What a step of the producer publishes, and what a step of the consumer takes. *)
Definition publishes (p : producer) : list (list Z) :=
  match p with PStore [] _ data => [data] | _ => [] end.

Definition takes (c : consumer) : list (list Z) :=
  match c with CAdvance _ out => [out] | _ => [] end.

Lemma write_call_inv data q p ev : write_call data q = (p, ev) ->
  prod_inv q p /\ returning_write p = [] /\ publishes p = []
  /\ written (option_list ev) = [] /\ delivered (option_list ev) = [].
Proof. unfold write_call. ctest; intros [= <- <-]; [done|]. simpl. unfold msg_ok. pose proof (zlen_nonneg data). split; [|done]. split; [lia|done]. Qed.

Lemma producer_step_inv p c q ms :
  inv (mkThreads p c q) ms ->
  exists p' q' ev, producer_step B p q = Ret (p', q', ev)
    /\ inv (mkThreads p' c q') (ms ++ publishes p)
    /\ written (option_list ev) ++ returning_write p' = returning_write p ++ publishes p
    /\ delivered (option_list ev) = [].
Proof.
  intros (Hr & Hp & Hc). simpl in *. destruct (Hr) as [[Hb Hh Ht Hha Hta] Hl].
  destruct p as [|data head|[|[o b] ws] next data|data|data]; cbn [producer_step publishes returning_write].
  - do 3 eexists. split; [done|]. rewrite !app_nil_r. done.
  - destruct Hp as [Hm ->]. do 3 eexists. split; [done|]. rewrite !app_nil_r. split; [|by unfold place; repeat ctest].
    split; [done|]. split; [|done]. by eapply place_inv.
  - destruct Hp as [_ Hrd]. do 3 eexists. split; [done|]. split; [|done].
    split; [|split; [done|by apply cons_inv_publish]]. simpl in *.
    destruct (Hrd) as (Hn & Ha & _). split; [by split|]. eapply ready_commit; [|exact Hl|exact Hrd]; lia.
  - destruct Hp as [Hf Hrd]. inversion Hf as [|? ? Hf1 Hf2]; subst. simpl in Hf1.
    destruct (cons_inv_write q ms c o b Hr Hc Hf1) as [Hc' Hr'].
    assert (0 <= o /\ o + 1 <= B) by (unfold free in Hf1; case_decide; lia).
    rewrite mem_wr_ok by (unfold zlen in *; simpl; lia). do 3 eexists. split; [done|]. rewrite app_nil_r.
    split; [|done]. split; [done|]. split; [|done]. by split.
  - do 3 eexists. split; [done|]. rewrite !app_nil_r. split; [|done]. split; [|done].
    destruct Hr as [[] ?]. by split.
  - do 3 eexists. split; [done|]. rewrite !app_nil_r. split; [|done]. split; [|done]. by apply drop_one_repr.
Qed.

(** The consumer leaves the buffer exactly when it starts to copy a header from its end. *)
Definition at_end (t : threads) : Prop :=
  match cons t with CHeader _ tail _ [] => tail = B | _ => False end.

Lemma header_done q ms t acc :
  repr B q ms -> ms <> [] -> t = tail_ q -> zlen acc = 8 -> acc = slice t 8 (buffer_ q) -> t < B ->
  exists m ms', ms = m :: ms' /\ (frame_at (buffer_ q) t m \/
    fh_magic (header_of_bytes acc) = MAGIC_PADDING /\ layout B (buffer_ q) (head_ q) 0 ms /\ head_ q < t).
Proof.
  intros [[Hb Hh Ht Hha Hta] Hl] Hne -> H8 Hacc HB. destruct ms as [|m ms]; [done|]. exists m, ms. split; [done|].
  rewrite Hacc. apply front_cases; lia || done.
Qed.

Lemma inspect_frame again t h acc m buf :
  frame_at buf t m -> acc = slice t 8 buf -> inspect again t h (header_of_bytes acc) = (CData t (zlen m) [], None).
Proof.
  intros (Hm & Hh & _) ->. unfold inspect, sizeof_FrameHeader in *. rewrite Hh. unfold valid_header.
  unfold msg_ok, MAX_MSG_SIZE in Hm. rewrite header_roundtrip by (unfold MAGIC_VALID; lia).
  cbn [fh_magic fh_length]. rewrite andb_false_r. rewrite Z.eqb_refl. cbn [negb]. unfold MAX_MSG_SIZE.
  by rewrite (proj2 (Z.ltb_ge 2040 _)) by lia.
Qed.

Lemma slice_snoc t n buf : 0 <= t -> 0 <= n -> t + n + 1 <= zlen buf -> slice t n buf ++ slice (t + n) 1 buf = slice t (n + 1) buf.
Proof.
  intros. unfold slice. rewrite Z2Nat.inj_add, <- drop_drop by lia.
  replace (Z.to_nat (n + 1)) with (Z.to_nat n + 1)%nat by lia. change (Z.to_nat 1) with 1%nat.
  by rewrite take_take_drop.
Qed.

(** The consumer's copy of a byte of the header and of the payload. *)
Lemma header_byte q ms again t h acc :
  repr B q ms -> cons_inv q ms (CHeader again t h acc) -> zlen acc < 8 -> t < B ->
  exists b, mem_rd (t + zlen acc) 1 (buffer_ q) = Ret b /\ cons_inv q ms (CHeader again t h (acc ++ b)).
Proof.
  intros [[Hb Hh Ht Hha Hta] Hl] (-> & Hne & Hh0 & H8 & _ & Hacc & Hag) Hlt HB.
  pose proof (zlen_nonneg acc). pose proof (aligned_gap B B_aligned _ Hta HB).
  rewrite mem_rd_ok by lia. eexists. split; [done|]. simpl.
  assert (Hn : acc ++ slice (tail_ q + zlen acc) 1 (buffer_ q) = slice (tail_ q) (zlen acc + 1) (buffer_ q)).
  { rewrite Hacc at 1. apply slice_snoc; lia. }
  assert (zlen (acc ++ slice (tail_ q + zlen acc) 1 (buffer_ q)) = zlen acc + 1) as Hz by (rewrite zlen_app, slice_length; lia).
  do 3 (split; [done|]). split; [lia|]. split; [done|]. split; [|done]. by rewrite Hz.
Qed.

Lemma data_byte q ms t len acc :
  repr B q ms -> cons_inv q ms (CData t len acc) -> zlen acc < len ->
  exists b, mem_rd (t + sizeof_FrameHeader + zlen acc) 1 (buffer_ q) = Ret b
    /\ cons_inv q ms (CData t len (acc ++ b)).
Proof.
  intros [[Hb Hh Ht Hha Hta] Hl] (-> & m & ms' & -> & Hf & -> & Hacc) Hlt.
  destruct (Hf) as (Hm & _ & Hd & HB). pose proof (zlen_nonneg acc). pose proof (zlen_nonneg m).
  destruct (needed_bounds (zlen m) ltac:(done)). unfold sizeof_FrameHeader in *.
  rewrite mem_rd_ok by lia. eexists. split; [done|]. simpl. split; [done|]. exists m, ms'. do 3 (split; [done|]).
  assert (length (slice (tail_ q + 8 + zlen acc) 1 (buffer_ q)) = 1%nat) as Hone.
  { enough (zlen (slice (tail_ q + 8 + zlen acc) 1 (buffer_ q)) = 1) by (unfold zlen in *; lia). apply slice_length; lia. }
  rewrite length_app, Hone. rewrite Hacc at 1. rewrite <- (slice_slice (tail_ q + 8) (zlen m)) by lia. rewrite Hd.
  unfold slice, zlen. rewrite Nat2Z.id. change (Z.to_nat 1) with 1%nat. apply take_take_drop.
Qed.

(** What a step of the consumer that stays inside the buffer establishes. *)
Definition consumer_ok (p : producer) (c : consumer) (q : ring) (ms : list (list Z)) : Prop :=
  exists c' q' ev ms', consumer_step c q = Ret (c', q', ev)
    /\ inv (mkThreads p c' q') ms' /\ ms = takes c ++ ms'
    /\ delivered (option_list ev) ++ returning_read c' = returning_read c ++ takes c
    /\ written (option_list ev) = []
    /\ (ev = Some (ReadRet None) -> ms = []).

(** A step that only changes where the consumer stands. *)
Lemma consumer_ok_local p c q ms c' :
  inv (mkThreads p c q) ms -> consumer_step c q = Ret (c', q, None) -> takes c = [] ->
  returning_read c = [] -> returning_read c' = [] -> cons_inv q ms c' -> consumer_ok p c q ms.
Proof.
  intros (Hr & Hp & _) Hs Ht H1 H2 Hc. exists c', q, None, ms. rewrite Ht, H1, H2. split; [done|]. split; [done|]. by split.
Qed.

Lemma header_inspected p again t h acc q ms :
  inv (mkThreads p (CHeader again t h acc) q) ms -> zlen acc = 8 ->
  consumer_ok p (CHeader again t h acc) q ms.
Proof.
  intros Hi Hz. destruct (Hi) as (Hr & Hp & Ht & Hne & Hh0 & _ & Hlt & Hacc & Hag).
  simpl in Hr, Ht, Hacc. rewrite Hz in Hacc. assert (t < B) as HB by (apply Hlt; by intros ->).
  assert (Hs : forall c', inspect again t h (header_of_bytes acc) = (c', None) ->
    consumer_step (CHeader again t h acc) q = Ret (c', q, None)).
  { intros c' Hc'. cbn [consumer_step]. unfold sizeof_FrameHeader. rewrite Hz. change (8 <? 8) with false. by rewrite Hc'. }
  destruct (header_done q ms t acc Hr Hne Ht Hz Hacc HB) as (m & ms' & -> & [Hf|(Hpad & _ & Hw)]).
  - eapply consumer_ok_local; eauto using inspect_frame. simpl. split; [done|]. by exists m, ms'.
  - assert (again = false) as ->.
    { destruct again; [|done]. rewrite (Hag eq_refl) in Hw. destruct Hr as [[_ ? _ _ _] _]. lia. }
    apply (consumer_ok_local p _ q _ (CWrap h) Hi); try done.
    + apply Hs. unfold inspect. by rewrite Hpad, Z.eqb_refl.
    + simpl. subst t. by rewrite <- Hacc.
Qed.

(** The consumer passes the padding. *)
Lemma padding_passed p h q ms : inv (mkThreads p (CWrap h) q) ms -> consumer_ok p (CWrap h) q ms.
Proof.
  intros (Hr & Hp & Hne & Hh0 & HB & Hpad). cbn [shared prod] in *. destruct (Hr) as [[Hb Hh Ht Hha Hta] Hl].
  destruct ms as [|m ms]; [done|].
  destruct (front_cases _ _ _ _ _ (proj2 Hh) (proj1 Ht) HB Hl) as [(Hm & Hv & _)|(_ & Hl0 & Hw)].
  { pose proof (valid_not_padding m Hm) as E. unfold sizeof_FrameHeader in Hv. rewrite <- Hv, Hpad in E. discriminate E. }
  unfold consumer_ok. cbn [consumer_step]. rewrite (proj2 (Z.eqb_neq 0 h)) by done.
  exists (CHeader true 0 h []), (set_tail q 0), None, (m :: ms). split; [done|]. split; [|done].
  split; [|split].
  - apply set_tail_repr; [done|lia|apply Z.divide_0_r|done].
  - apply prod_inv_moves; [lia..| |done]. unfold moves. rewrite decide_False by lia. by right.
  - simpl. change (zlen []) with 0. by repeat (split; [done || lia|]).
Qed.

(** The consumer gives the space of a copied message back. *)
Lemma message_taken p next out q ms :
  inv (mkThreads p (CAdvance next out) q) ms -> consumer_ok p (CAdvance next out) q ms.
Proof.
  intros (Hr & Hp & ms' & -> & Hf & ->). cbn [shared prod] in *. destruct (Hr) as [[Hb Hh Ht Hha Hta] Hl].
  destruct (front_frame _ _ _ _ _ Hl Hf) as (Hu & Hl' & Hmv).
  destruct Hf as (Hm & _ & _ & HB). pose proof (zlen_nonneg out). destruct (needed_bounds (zlen out) ltac:(done)).
  do 4 eexists. split; [done|]. split; [|by repeat split].
  split; [|split; [|done]].
  - destruct Hr as [Hwf _]. split; [|done]. apply set_tail_wf; [done|lia|by apply Z.divide_add_r].
  - apply prod_inv_moves; lia || done.
Qed.

Lemma consumer_step_inv p c q ms :
  inv (mkThreads p c q) ms ->
  at_end (mkThreads p c q) /\ consumer_step c q = UB \/ ~ at_end (mkThreads p c q) /\ consumer_ok p c q ms.
Proof.
  intros Hi. destruct (Hi) as (Hr & Hp & Hc). simpl in Hr, Hp, Hc. destruct (Hr) as [[Hb Hh Ht Hha Hta] Hl].
  destruct c as [|t|again t h acc|h|t len acc|next out|out]; try (right; split; [by intros []|]).
  - by eapply consumer_ok_local.
  - simpl in Hc. subst t. destruct (Z.eqb_spec (tail_ q) (head_ q)) as [E|E].
    + unfold consumer_ok. cbn [consumer_step]. rewrite E, Z.eqb_refl. exists CIdle, q, (Some (ReadRet None)), ms.
      do 5 (split; [done|]). intros _. destruct ms as [|m ms]; [done|]. by apply layout_cons_ne in Hl.
    + apply (consumer_ok_local p _ q _ (CHeader false (tail_ q) (head_ q) []) Hi); try done.
      { cbn [consumer_step]. by rewrite (proj2 (Z.eqb_neq _ _)). }
      simpl. split; [done|]. split; [intros ->; by apply layout_nil_inv in Hl|].
      split; [eapply head_nonzero; eauto; lia|]. rewrite zlen_nil. by split; [lia|].
  - destruct (decide (zlen acc < 8)) as [H8|H8].
    + destruct (decide (t < B)) as [HB|HB].
      * right. split; [unfold at_end; simpl; destruct acc; [lia|tauto]|].
        destruct (header_byte q ms again t h acc Hr Hc H8 HB) as (b & Hb' & Hc').
        apply (consumer_ok_local p _ q _ (CHeader again t h (acc ++ b)) Hi); try done. cbn [consumer_step]. unfold sizeof_FrameHeader.
        rewrite (proj2 (Z.ltb_lt _ 8)), Hb' by done. done.
      * left. destruct Hc as (-> & _ & _ & _ & Hlt & _). unfold at_end. simpl.
        destruct acc as [|a acc]; [|by exfalso; apply HB, Hlt].
        split; [lia|]. rewrite zlen_nil. cbn. rewrite mem_rd_ub; [done|]. lia.
    + right. destruct (Hc) as (_ & _ & _ & H8' & _). split; [|apply header_inspected; [done|lia]].
      unfold at_end. simpl. destruct acc; [|tauto]. rewrite zlen_nil in H8. lia.
  - by apply padding_passed.
  - destruct (decide (zlen acc < len)) as [El|El].
    + destruct (data_byte q ms t len acc Hr Hc El) as (b & Hb' & Hc').
      apply (consumer_ok_local p _ q _ (CData t len (acc ++ b)) Hi); try done. cbn [consumer_step].
      by rewrite (proj2 (Z.ltb_lt _ len)), Hb' by done.
    + destruct Hc as (-> & m & ms' & -> & Hf & -> & Hacc).
      assert (acc = m) as -> by (rewrite Hacc, firstn_all2 by (unfold zlen in El; lia); done).
      apply (consumer_ok_local p _ q _ (CAdvance (tail_ q + needed (zlen m)) m) Hi); try done; [|by exists ms'].
      cbn [consumer_step]. by rewrite Z.ltb_irrefl.
  - by apply message_taken.
  - do 4 eexists. split; [done|]. split; [|by repeat split]. destruct Hr as [[] ?]. by split.
Qed.

(** ** Executions *)

(** The number of calls of [tryRead] that returned. *)
Definition reads (evs : list event) : nat :=
  length (evs ≫= fun e => match e with ReadRet o => [o] | WriteRet _ _ => [] end).

Lemma written_app evs1 evs2 : written (evs1 ++ evs2) = written evs1 ++ written evs2.
Proof. apply bind_app. Qed.

Lemma delivered_app evs1 evs2 : delivered (evs1 ++ evs2) = delivered evs1 ++ delivered evs2.
Proof. apply bind_app. Qed.

(** [ms0] is in the queue at [t0]; after the results [evs] the threads stand at [t] and [ms] is. *)
Definition history (t0 : threads) (ms0 : list (list Z)) (evs : list event) (t : threads) (ms : list (list Z)) : Prop :=
  inv t ms
  /\ exists new, written evs ++ returning_write (prod t) = returning_write (prod t0) ++ new
     /\ delivered evs ++ returning_read (cons t) ++ ms = returning_read (cons t0) ++ ms0 ++ new.

Lemma producer_step_event p q p' q' o : producer_step B p q <> Ret (p', q', Some (ReadRet o)).
Proof. unfold producer_step, outcome_bind. by repeat case_match. Qed.

Lemma step_history t0 ms0 evs t ms ev t' :
  history t0 ms0 evs t ms -> step B t ev t' ->
  exists ms', history t0 ms0 (evs ++ option_list ev) t' ms'
    /\ (ev = Some (ReadRet None) -> ms = [] /\ returning_read (cons t) = []).
Proof.
  intros (Hi & new & Hw & Hd) Hs. unfold history. setoid_rewrite written_app. setoid_rewrite delivered_app.
  destruct Hs as [data c q p ev Hc | p c q p' q' ev Hp Hs | p c q c' q' ev Hs]; cbn [prod cons] in *.
  - destruct (write_call_inv _ _ _ _ Hc) as (Hp & Hrw & _ & H1 & H2). exists ms. rewrite H1, H2, Hrw, !app_nil_r.
    split; [|by intros ->; unfold write_call in Hc; case_match]. destruct Hi as (Hr & _ & Hci). split; [by split|].
    exists new. by rewrite app_nil_r in Hw.
  - destruct (producer_step_inv _ _ _ _ Hi) as (p1 & q1 & ev1 & Hs1 & Hi' & H1 & H2). rewrite Hs1 in Hs. simplify_eq.
    exists (ms ++ publishes p). split; [|intros ->; by apply producer_step_event in Hs1].
    split; [done|]. exists (new ++ publishes p). rewrite H2, app_nil_r.
    rewrite <- (app_assoc (written evs)), H1, (app_assoc (written evs)), Hw.
    split; [by rewrite <- app_assoc|]. by rewrite !app_assoc, <- (app_assoc (delivered evs)), Hd, <- !app_assoc.
  - destruct (consumer_step_inv _ _ _ _ Hi) as [[_ HU]|[_ (c1 & q1 & ev1 & ms' & Hs1 & Hi' & Hms & H1 & H2 & H3)]].
    { by rewrite HU in Hs. }
    rewrite Hs1 in Hs. simplify_eq. exists ms'. rewrite H2, app_nil_r. split.
    + split; [done|]. exists new. split; [done|].
      by rewrite <- Hd, <- (app_assoc (delivered evs)), (app_assoc (delivered _) (returning_read c')), H1, <- !app_assoc.
    + intros ->. split; [by apply H3|]. by destruct c; simplify_eq/=.
Qed.

Lemma exec_history t0 ms0 evs t :
  inv t0 ms0 -> exec B t0 evs t -> exists ms, history t0 ms0 evs t ms.
Proof.
  intros Hi. induction 1 as [|evs t ev t' _ [ms IH] Hs].
  - exists ms0. split; [done|]. exists []. by rewrite !app_nil_r.
  - destruct (step_history _ _ _ _ _ _ _ IH Hs) as (ms' & ? & _). eauto.
Qed.

Lemma start_inv : inv (start B) [].
Proof. split; [by apply init_repr|done]. Qed.

Lemma exec_start_inv evs t : exec B (start B) evs t -> exists ms, inv t ms.
Proof. intros He. destruct (exec_history _ _ _ _ start_inv He) as (ms & Hi & _). eauto. Qed.

(** The offset in [buffer_] that a thread's next step accesses. *)
Definition next_store (p : producer) : option Z :=
  match p with PStore ((o, _) :: _) _ _ => Some o | _ => None end.

Definition next_load (c : consumer) : option Z :=
  match c with
  | CHeader _ tail _ acc => if zlen acc <? sizeof_FrameHeader then Some (tail + zlen acc) else None
  | CData tail payload_len acc =>
      if zlen acc <? payload_len then Some (tail + sizeof_FrameHeader + zlen acc) else None
  | _ => None
  end.

Lemma inv_race_free t ms o o' :
  inv t ms -> next_store (prod t) = Some o -> next_load (cons t) = Some o' -> o <> o'.
Proof.
  intros ([[Hb Hh Ht Hha Hta] Hl] & Hp & Hc) Hs Hld.
  destruct (prod t) as [| |[|[o1 b] ws] next data| |]; simplify_eq/=.
  destruct Hp as [[Hf _]%Forall_cons_1 _]. simpl in Hf.
  enough (exists n, used (head_ (shared t)) (tail_ (shared t)) (tail_ (shared t)) n
            /\ tail_ (shared t) <= o' < tail_ (shared t) + n \/ B <= o') as (n & [[Hu Ho]|Ho]).
  { destruct (free_used_disjoint _ _ _ _ _ _ Hf Hu); lia. }
  { unfold free in Hf. case_decide; lia. }
  destruct (cons t) as [| |again tl h acc| |tl len acc| |]; simplify_eq/=; case_match; simplify_eq; btest; pose proof (zlen_nonneg acc).
  - destruct Hc as (-> & Hne & _). unfold sizeof_FrameHeader in *. exists 8.
    destruct (decide (tail_ (shared t) < B)); [left|right; lia]. split; [by eapply front_header_used|lia].
  - destruct Hc as (-> & m & ms' & -> & Hfr & -> & _). exists (needed (zlen m)). left.
    destruct (front_frame _ _ _ _ _ Hl Hfr) as [Hu _]. split; [done|].
    destruct (needed_bounds (zlen m) (zlen_nonneg m)). unfold sizeof_FrameHeader in *. lia.
Qed.

Lemma history_reads t0 ms0 evs t :
  inv t0 ms0 -> cons t0 = CIdle -> exec B t0 evs t ->
  (length (delivered evs) <= reads evs)%nat /\ (reads evs `min` length ms0 <= length (delivered evs))%nat.
Proof.
  intros Hi Hc He. induction He as [|evs t ev t' He [IH1 IH2] Hs]; [done|].
  destruct (exec_history _ _ _ _ Hi He) as (ms & Hh). destruct (step_history _ _ _ _ _ _ _ Hh Hs) as (_ & _ & Hnone).
  destruct Hh as (_ & new & _ & Hd). rewrite Hc in Hd. simpl in Hd.
  unfold reads. rewrite delivered_app, bind_app, !length_app. fold (reads evs).
  destruct ev as [[data ok|[out|]]|]; simpl; try lia.
  destruct (Hnone eq_refl) as [-> Hrr]. apply (f_equal length) in Hd. rewrite Hrr in Hd. rewrite !length_app in Hd. simpl in Hd. lia.
Qed.

(** ** Steps to the end of a call *)

Definition producer_work (p : producer) : nat :=
  match p with
  | PIdle => 0
  | PLoadTail data _ => 19 + length data
  | PStore ws _ _ => 2 + length ws
  | PCount _ | PDropped _ => 1
  end.

Definition consumer_work (c : consumer) : nat :=
  match c with
  | CIdle => 0
  | CLoadHead _ => 2064
  | CHeader false _ _ acc => 2055 + (8 - length acc)
  | CWrap _ => 2053
  | CHeader true _ _ acc => 2044 + (8 - length acc)
  | CData _ payload_len acc => 3 + (Z.to_nat payload_len - length acc)
  | CAdvance _ _ => 2
  | CCount _ => 1
  end.

Lemma bytes_at_length o bs : length (bytes_at o bs) = length bs.
Proof. revert o. induction bs as [|b bs IH]; intros o; simpl; [done|]. by rewrite IH. Qed.

Lemma header_bytes_length h : length (header_bytes h) = 8%nat.
Proof. pose proof (header_zlen h). unfold zlen in *. lia. Qed.

Lemma place_work data head tail : (producer_work (place B data head tail) < 19 + length data)%nat.
Proof.
  unfold place, padding_writes, frame_writes.
  repeat case_match; simpl; rewrite ?length_app, ?bytes_at_length, ?header_bytes_length; simpl; lia.
Qed.

Lemma producer_step_work p q p' q' ev :
  p <> PIdle -> producer_step B p q = Ret (p', q', ev) -> (producer_work p' < producer_work p)%nat.
Proof.
  intros Hp. unfold producer_step, outcome_bind. destruct p as [|data head|[|[o b] ws] next data|data|data];
    repeat case_match; intros ?; simplify_eq/=; try lia. apply place_work.
Qed.

Lemma mem_rd_one o buf b : mem_rd o 1 buf = Ret b -> length b = 1%nat.
Proof.
  unfold mem_rd, in_bounds. case_match eqn:E; [|done]. btest. intros [= <-].
  enough (zlen (slice o 1 buf) = 1) by (unfold zlen in *; lia). apply slice_length; lia.
Qed.

Lemma consumer_step_work c q c' q' ev :
  c <> CIdle -> consumer_step c q = Ret (c', q', ev) -> (consumer_work c' < consumer_work c)%nat.
Proof.
  intros Hc Hs. destruct c as [|t|again t h acc|h|t len acc|next out|out]; cbn [consumer_step] in Hs; [done|..].
  - case_match; simplify_eq/=; lia.
  - case_match eqn:E; unfold sizeof_FrameHeader, zlen in E; btest.
    + destruct (mem_rd _ _ _) as [b|] eqn:Eb; simplify_eq/=. apply mem_rd_one in Eb.
      destruct again; rewrite length_app; lia.
    + unfold inspect in Hs. destruct again; cbn [negb andb] in Hs;
        repeat case_match; simplify_eq/=; unfold MAX_MSG_SIZE in *; btest; lia.
  - case_match; simplify_eq/=; lia.
  - case_match eqn:E; unfold zlen in E; btest; [|simplify_eq/=; lia].
    destruct (mem_rd _ _ _) as [b|] eqn:Eb; simplify_eq/=. apply mem_rd_one in Eb. rewrite length_app. lia.
  - simplify_eq/=. lia.
  - simplify_eq/=. lia.
Qed.

Lemma exec_work evs t : exec B (start B) evs t ->
  (producer_work (prod t) <= 2059)%nat /\ (consumer_work (cons t) <= 2064)%nat.
Proof.
  induction 1 as [|evs t ev t' _ [IH1 IH2] Hs]; [simpl; lia|].
  destruct Hs as [data c q p ev Hc|p c q p' q' ev Hp Hs|p c q c' q' ev Hs]; simpl in *; split; try done.
  - unfold write_call in Hc. case_match eqn:E; simplify_eq/=; [lia|]. unfold MAX_MSG_SIZE, zlen in E. btest. lia.
  - apply producer_step_work in Hs; [lia|done].
  - destruct (decide (c = CIdle)) as [->|Hc]; [simplify_eq/=; lia|].
    apply consumer_step_work in Hs; [lia|done].
Qed.

(** ** A call that is not disturbed *)

(** The steps of one thread alone, up to the end of its call. *)
Inductive producer_returns : producer -> ring -> bool -> ring -> Prop :=
| write_returns p q p' q' data ok :
    producer_step B p q = Ret (p', q', Some (WriteRet data ok)) -> producer_returns p q ok q'
| write_continues p q p' q' ok r :
    producer_step B p q = Ret (p', q', None) -> producer_returns p' q' ok r -> producer_returns p q ok r.

Inductive consumer_returns : consumer -> ring -> option (list Z) -> ring -> Prop :=
| read_returns c q c' q' o :
    consumer_step c q = Ret (c', q', Some (ReadRet o)) -> consumer_returns c q o q'
| read_continues c q c' q' o r :
    consumer_step c q = Ret (c', q', None) -> consumer_returns c' q' o r -> consumer_returns c q o r.

Lemma stores_alone ws next data q :
  Forall (fun w => 0 <= w.1 < zlen (buffer_ q)) ws ->
  producer_returns (PStore ws next data) q true (commit q (apply_writes ws (buffer_ q)) next).
Proof.
  revert q. induction ws as [|[o b] ws IH]; intros q Hw.
  - eapply write_continues; [done|]. by eapply write_returns.
  - apply Forall_cons in Hw as [Ho Hw]. simpl in Ho.
    eapply write_continues.
    { cbn [producer_step]. rewrite mem_wr_ok by (unfold zlen in *; simpl; lia). done. }
    refine (IH (set_buffer q _) _). simpl. rewrite splice_zlen; [done|lia|unfold zlen in *; simpl; lia].
Qed.

Lemma place_alone data q ms :
  repr B q ms -> msg_ok data ->
  exists q', tryWrite B data q = Ret (room B (head_ q) (tail_ q) (needed (zlen data)), q')
    /\ producer_returns (place B data (head_ q) (tail_ q)) q (room B (head_ q) (tail_ q) (needed (zlen data))) q'.
Proof.
  intros [[Hb Hh Ht Hha Hta] Hl] Hm. pose proof (zlen_nonneg data). destruct (needed_bounds (zlen data) ltac:(done)).
  unfold tryWrite, room, place. rewrite (proj2 (Z.ltb_ge MAX_MSG_SIZE _)), (proj2 (Z.eqb_neq _ 0)) by (unfold msg_ok in Hm; lia).
  cbn [orb].
  assert (Hdrop : producer_returns (PDropped data) q false (drop_one q)) by by eapply write_returns.
  assert (Hfit : head_ q + needed (zlen data) <= B -> producer_returns
    (PStore (frame_writes (head_ q) data) (head_ q + needed (zlen data)) data) q true
    (commit q (framed (head_ q) data (buffer_ q)) (head_ q + needed (zlen data)))).
  { intros. rewrite <- apply_frame_writes by lia || done. apply stores_alone.
    apply Forall_forall. intros w Hw%frame_writes_range. lia. }
  repeat ctest; cbn [orb]; try (eexists; split; [done|exact Hdrop]); try (rewrite writeFrame_ok by lia || done; eexists; split; [done|apply Hfit; lia]).
  destruct (padded_only_differs B B_aligned _ _ Hha Hh Hb) as [Hpl _].
  rewrite writePadding_ok by done. cbn [outcome_bind]. rewrite writeFrame_ok by lia || done. eexists. split; [done|].
  rewrite <- apply_padding_writes, <- apply_frame_writes, <- apply_writes_app by
    (rewrite ?apply_padding_writes by done; lia || done).
  apply stores_alone, Forall_app. split; apply Forall_forall; intros w Hw;
    [apply padding_writes_range in Hw|apply frame_writes_range in Hw]; lia.
Qed.

Lemma mem_rd_inv o n buf bs : mem_rd o n buf = Ret bs -> 0 <= o /\ 0 <= n /\ o + n <= zlen buf /\ bs = slice o n buf.
Proof. unfold mem_rd, in_bounds. case_match eqn:E; [|done]. btest. intros [= <-]. auto. Qed.

Lemma header_alone again t h n q o r :
  0 <= t -> t + 8 <= zlen (buffer_ q) -> 0 <= n <= 8 ->
  consumer_returns (CHeader again t h (slice t 8 (buffer_ q))) q o r ->
  consumer_returns (CHeader again t h (slice t n (buffer_ q))) q o r.
Proof.
  intros Ht Hb Hn H8. replace n with (8 - (8 - n)) by lia.
  assert (Hk : 0 <= 8 - n <= 8) by lia. revert Hk. generalize (8 - n). clear n Hn.
  intros k [Hk Hk8]. revert Hk8. pattern k. apply natlike_ind; [by intros _; rewrite Z.sub_0_r| |done].
  clear k Hk. intros k Hk IH Hk8. eapply read_continues; [|apply IH; lia].
  cbn [consumer_step]. unfold sizeof_FrameHeader. rewrite slice_length by lia.
  rewrite (proj2 (Z.ltb_lt _ 8)), mem_rd_ok by lia. cbn [outcome_bind]. rewrite slice_snoc by lia. do 5 f_equal. lia.
Qed.

Lemma data_alone t len n q :
  0 <= t + 8 -> t + 8 + len <= zlen (buffer_ q) -> 0 <= n <= len ->
  consumer_returns (CData t len (slice (t + 8) n (buffer_ q))) q
    (Some (slice (t + 8) len (buffer_ q))) (read_done q (t + needed len)).
Proof.
  intros Ht Hb Hn. replace n with (len - (len - n)) by lia.
  assert (Hk : 0 <= len - n <= len) by lia. revert Hk. generalize (len - n). clear n Hn.
  intros k [Hk Hkl]. revert Hkl. pattern k. apply natlike_ind; [| |done]; clear k Hk.
  - intros Hl. rewrite Z.sub_0_r. eapply read_continues.
    { cbn [consumer_step]. rewrite slice_length, Z.ltb_irrefl by lia. done. }
    eapply read_continues; [done|]. by eapply read_returns.
  - intros k Hk IH Hkl. eapply read_continues; [|apply IH; lia].
    cbn [consumer_step]. unfold sizeof_FrameHeader. rewrite slice_length by lia.
    rewrite (proj2 (Z.ltb_lt _ len)), mem_rd_ok by lia. cbn [outcome_bind]. rewrite slice_snoc by lia. do 5 f_equal. lia.
Qed.

(** After the padding test the two models agree. *)
Lemma frame_alone again t h q o r :
  negb again && (fh_magic (header_of_bytes (slice t 8 (buffer_ q))) =? MAGIC_PADDING) = false ->
  0 <= t -> t + 8 <= zlen (buffer_ q) ->
  readFrame t (header_of_bytes (slice t 8 (buffer_ q))) q = Ret (o, r) ->
  consumer_returns (CHeader again t h []) q o r.
Proof.
  intros Hp Ht Hb Hr. apply (header_alone again t h 0); [done|done|lia|].
  set (header := header_of_bytes (slice t 8 (buffer_ q))) in *.
  assert (Hs : consumer_step (CHeader again t h (slice t 8 (buffer_ q))) q
    = let '(c', ev) := inspect again t h header in Ret (c', q, ev)).
  { cbn [consumer_step]. unfold sizeof_FrameHeader. rewrite slice_length by lia. done. }
  unfold inspect, readFrame in *. rewrite Hp in Hs.
  destruct (fh_magic header =? MAGIC_VALID); cbn [negb] in *; [|simplify_eq; by eapply read_returns].
  destruct (MAX_MSG_SIZE <? fh_length header); [simplify_eq; by eapply read_returns|].
  destruct (mem_rd _ _ _) as [out|] eqn:Ed; simplify_eq/=.
  apply mem_rd_inv in Ed as (? & ? & ? & ->). unfold sizeof_FrameHeader in *.
  eapply read_continues; [exact Hs|]. apply (data_alone t _ 0); lia.
Qed.

Lemma tryRead_alone q o r : tryRead q = Ret (o, r) -> consumer_returns CIdle q o r.
Proof.
  unfold tryRead. intros Hr. eapply read_continues; [done|].
  destruct (Z.eqb_spec (tail_ q) (head_ q)) as [E|E].
  { simplify_eq. eapply read_returns. cbn [consumer_step]. by rewrite E, Z.eqb_refl. }
  eapply read_continues; [cbn [consumer_step]; by rewrite (proj2 (Z.eqb_neq _ _))|].
  destruct (mem_rd _ _ _) as [hb|] eqn:Eh; [|done]. apply mem_rd_inv in Eh as (? & _ & ? & ->).
  unfold sizeof_FrameHeader in *. cbn [outcome_bind] in Hr.
  destruct (_ =? MAGIC_PADDING) eqn:Ep; [|apply frame_alone; done || lia].
  apply (header_alone false _ _ 0); [lia..|]. eapply read_continues.
  { cbn [consumer_step]. unfold sizeof_FrameHeader, inspect. rewrite slice_length, Ep by lia. done. }
  destruct (0 =? head_ q) eqn:E0.
  { simplify_eq. eapply read_returns. cbn [consumer_step]. by rewrite E0. }
  eapply read_continues; [cbn [consumer_step]; by rewrite E0|].
  destruct (mem_rd _ _ _) as [hb|] eqn:Eh in Hr; [|done]. apply mem_rd_inv in Eh as (? & _ & ? & ->).
  by apply frame_alone.
Qed.

Lemma act_step a t t' ev : act B a t = Ret (t', ev) -> t' = t /\ ev = None \/ step B t ev t'.
Proof.
  destruct t as [p c q]. unfold act, outcome_bind. cbn [prod cons shared].
  destruct a as [data| |]; destruct p; repeat case_match; intros ?; simplify_eq; auto;
    right; solve [by eapply step_call | by apply step_producer | by apply step_consumer].
Qed.

Lemma schedule_exec acts t0 evs t evs' t' :
  exec B t0 evs t -> schedule B acts evs t = Ret (evs', t') -> exec B t0 evs' t'.
Proof.
  revert evs t. induction acts as [|a acts IH]; intros evs t He Hs; cbn [schedule] in Hs; [by simplify_eq|].
  destruct (act B a t) as [[t1 ev]|] eqn:Ea; [|done]. refine (IH _ _ _ Hs).
  destruct (act_step _ _ _ _ Ea) as [[-> ->]|Hst]; [by rewrite app_nil_r|]. by apply exec_snoc with t.
Qed.

(** ** Properties *)

(** C2: in every interleaving of a producer and a consumer on a fresh ring, the messages
    delivered, then the one being returned, then those in the queue, are the messages
    written so far in order; the queue holds them as complete frames. *)
Theorem threads_fifo evs t :
  exec B (start B) evs t ->
  exists pending, repr B (shared t) pending
    /\ delivered evs ++ returning_read (cons t) ++ pending = written evs ++ returning_write (prod t).
Proof.
  intros He. destruct (exec_history _ _ _ _ start_inv He) as (ms & (Hr & _) & new & -> & Hd). eauto.
Qed.

(** C5: no two threads ever stand before accesses to the same byte of [buffer_], one of
    them a store: the acquire and release accesses to the two indices order all others. *)
Theorem threads_race_free evs t o o' :
  exec B (start B) evs t -> next_store (prod t) = Some o -> next_load (cons t) = Some o' -> o <> o'.
Proof. intros (ms & Hi)%exec_start_inv. by eapply inv_race_free. Qed.

(** C6: whatever the other thread does, a call of [tryWrite] that has started can always
    take its next step and ends within 2059 of its own steps, and a call of [tryRead] within
    2064; only a consumer that copies a header from the end of the buffer leaves it. *)
Theorem calls_wait_free evs t :
  exec B (start B) evs t ->
  (producer_work (prod t) <= 2059 /\ consumer_work (cons t) <= 2064)%nat
  /\ (prod t <> PIdle -> exists p' q' ev, producer_step B (prod t) (shared t) = Ret (p', q', ev)
        /\ (producer_work p' < producer_work (prod t))%nat)
  /\ (cons t <> CIdle -> ~ at_end t -> exists c' q' ev, consumer_step (cons t) (shared t) = Ret (c', q', ev)
        /\ (consumer_work c' < consumer_work (cons t))%nat)
  /\ (consumer_step (cons t) (shared t) = UB <-> at_end t).
Proof.
  intros He. split; [by eapply exec_work|]. destruct (exec_start_inv _ _ He) as (ms & Hi). destruct t as [p c q].
  cbn [prod cons shared] in *. split; [|split].
  - intros Hp. destruct (producer_step_inv _ _ _ _ Hi) as (p' & q' & ev & Hs & _). eauto 6 using producer_step_work.
  - intros Hc Hn. destruct (consumer_step_inv _ _ _ _ Hi) as [[? _]|[_ (c' & q' & ev & _ & Hs & _)]]; [done|].
    eauto 6 using consumer_step_work.
  - destruct (consumer_step_inv _ _ _ _ Hi) as [[? ?]|[? (c' & q' & ev & _ & Hs & _)]]; [done|]. rewrite Hs. by split.
Qed.


(** C28: a call that the other thread does not disturb takes the ring to the state and
    returns the result that [LockFreeQueue.v] gives it in one step. *)
Theorem calls_alone q ms :
  repr B q ms ->
  (forall o r, tryRead q = Ret (o, r) -> consumer_returns CIdle q o r)
  /\ (forall data, exists ok r, tryWrite B data q = Ret (ok, r)
       /\ (write_call data q = (PIdle, Some (WriteRet data ok)) /\ r = q
           \/ write_call data q = (PLoadTail data (head_ q), None)
              /\ producer_returns (PLoadTail data (head_ q)) q ok r)).
Proof.
  intros Hr. split; [apply tryRead_alone|]. intros data. unfold write_call.
  destruct ((MAX_MSG_SIZE <? zlen data) || (zlen data =? 0)) eqn:E.
  - exists false, q. unfold tryWrite. rewrite E. auto.
  - btest. pose proof (zlen_nonneg data). destruct (place_alone data q ms Hr) as (q' & Hw & Hp); [unfold msg_ok; lia|].
    eexists _, q'. split; [done|]. right. split; [done|]. by eapply write_continues.
Qed.

End Interleaved.

(** ** Witnesses *)

(** A producer that writes two messages while the consumer reads, step by step in turn. *)
Definition in_turn (n : nat) : list action := concat (replicate n [AProducer; AConsumer]).

Definition sample_schedule : list action := ACall msg_a :: in_turn 20 ++ ACall msg_b :: in_turn 25.

Definition sample_threads : list event * threads :=
  Eval vm_compute in match schedule 64 sample_schedule [] (start 64) with Ret r => r | UB => ([], start 64) end.

Lemma sample_exec : exec 64 (start 64) sample_threads.1 sample_threads.2.
Proof.
  apply (schedule_exec 64 sample_schedule (start 64) [] (start 64)); [apply exec_refl|]. vm_compute. reflexivity.
Qed.

Lemma threads_fifo_witness :
  exists pending, repr 64 (shared sample_threads.2) pending
    /\ delivered sample_threads.1 ++ returning_read (cons sample_threads.2) ++ pending
       = written sample_threads.1 ++ returning_write (prod sample_threads.2).
Proof. exact (threads_fifo 64 ltac:(by exists 8) ltac:(lia) _ _ sample_exec). Defined.

Example sample_results :
  written sample_threads.1 = [msg_a; msg_b] /\ delivered sample_threads.1 = [msg_a]
  /\ next_load (cons sample_threads.2) <> None.
Proof. vm_compute. by repeat split. Qed.

(** The first message is queued, the second about to be stored, and the consumer about to load. *)
Definition both_schedule : list action :=
  ACall msg_a :: replicate 14 AProducer ++ [ACall msg_b; AProducer; AConsumer; AConsumer].

Definition both_threads : list event * threads :=
  Eval vm_compute in match schedule 64 both_schedule [] (start 64) with Ret r => r | UB => ([], start 64) end.

Lemma both_exec : exec 64 (start 64) both_threads.1 both_threads.2.
Proof.
  apply (schedule_exec 64 both_schedule (start 64) [] (start 64)); [apply exec_refl|]. vm_compute. reflexivity.
Qed.

Lemma threads_race_free_witness :
  next_store (prod both_threads.2) = Some 16 /\ next_load (cons both_threads.2) = Some 0 /\ 16 <> 0.
Proof.
  split; [reflexivity|]. split; [reflexivity|].
  exact (threads_race_free 64 ltac:(by exists 8) ltac:(lia) _ _ 16 0 both_exec eq_refl eq_refl).
Defined.

Lemma calls_wait_free_witness :
  exists p' q' ev, producer_step 64 (prod both_threads.2) (shared both_threads.2) = Ret (p', q', ev)
    /\ (producer_work p' < producer_work (prod both_threads.2))%nat.
Proof.
  destruct (calls_wait_free 64 ltac:(by exists 8) ltac:(lia) _ _ both_exec) as (_ & Hp & _). by apply Hp.
Defined.

(** Two messages are queued and the consumer is idle; then it reads while a third is written. *)
Definition queued_schedule : list action :=
  ACall msg_a :: replicate 14 AProducer ++ ACall msg_b :: replicate 20 AProducer.

Definition queued_threads : list event * threads :=
  Eval vm_compute in match schedule 64 queued_schedule [] (start 64) with Ret r => r | UB => ([], start 64) end.

Lemma queued_exec : exec 64 (start 64) queued_threads.1 queued_threads.2.
Proof.
  apply (schedule_exec 64 queued_schedule (start 64) [] (start 64)); [apply exec_refl|]. vm_compute. reflexivity.
Qed.

Definition drained_threads : list event * threads :=
  Eval vm_compute in
    match schedule 64 (ACall msg_a :: in_turn 40) [] queued_threads.2 with Ret r => r | UB => ([], start 64) end.

Lemma drained_exec : exec 64 queued_threads.2 drained_threads.1 drained_threads.2.
Proof.
  apply (schedule_exec 64 (ACall msg_a :: in_turn 40) queued_threads.2 [] queued_threads.2); [apply exec_refl|].
  vm_compute. reflexivity.
Qed.


Lemma calls_alone_witness :
  exists ok r, tryWrite 64 msg_a (init 64) = Ret (ok, r)
    /\ producer_returns 64 (PLoadTail msg_a 0) (init 64) ok r.
Proof.
  destruct (calls_alone 64 ltac:(by exists 8) ltac:(lia) (init 64) [] init_repr_64) as [_ Hw].
  destruct (Hw msg_a) as (ok & r & H1 & [[H2 _]|[_ H2]]); [discriminate H2|]. by exists ok, r.
Defined.
