(* ===== verification/Message.v ===== *)
(** * Message packets

    Models [include/nexus/core/Message.h]: the [MessagePacket] layout, the
    checksum, [isValid], the accessors and [MessageBuilder::build], on a byte
    buffer as the transports carry it.  The layout is the Linux one:
    [offsetof(data)] is 86 and [sizeof(MessagePacket)] is 88. *)

From S2P Require Import Prelude.

(** [enum class MessageType : uint8_t] *)
Inductive MessageType :=
| DATA
| SUBSCRIBE
| UNSUBSCRIBE
| QUERY_SUBSCRIPTIONS
| SUBSCRIPTION_REPLY
| SERVICE_REGISTER
| SERVICE_UNREGISTER
| NODE_JOIN
| NODE_LEAVE
| HEARTBEAT.

#[export] Instance MessageType_eq_dec : EqDecision MessageType.
Proof. solve_decision. Defined.

Definition MessageType_code (t : MessageType) : Z :=
  match t with
  | DATA => 0
  | SUBSCRIBE => 1
  | UNSUBSCRIBE => 2
  | QUERY_SUBSCRIPTIONS => 3
  | SUBSCRIPTION_REPLY => 4
  | SERVICE_REGISTER => 5
  | SERVICE_UNREGISTER => 6
  | NODE_JOIN => 7
  | NODE_LEAVE => 8
  | HEARTBEAT => 9
  end.

(** [static_cast<MessageType>(code)]; [None] for a value that is no enumerator. *)
Definition MessageType_of (code : Z) : option MessageType :=
  match code with
  | 0 => Some DATA
  | 1 => Some SUBSCRIBE
  | 2 => Some UNSUBSCRIBE
  | 3 => Some QUERY_SUBSCRIPTIONS
  | 4 => Some SUBSCRIPTION_REPLY
  | 5 => Some SERVICE_REGISTER
  | 6 => Some SERVICE_UNREGISTER
  | 7 => Some NODE_JOIN
  | 8 => Some NODE_LEAVE
  | 9 => Some HEARTBEAT
  | _ => None
  end.

Definition MAGIC : Z := 0x4C525043.

Definition VERSION : Z := 1.

Definition MAX_GROUP_LEN : Z := 128.

Definition MAX_TOPIC_LEN : Z := 128.

Definition MAX_PAYLOAD_LEN : Z := 65000.

Definition sizeof_MessagePacket : Z := 88.

Definition offsetof_data : Z := 86.

(** The fixed fields of a packet. *)
Record MessagePacket := mkPacket {
  magic : Z;
  version : Z;
  msg_type : Z;
  reserved : Z;
  group_len : Z;
  topic_len : Z;
  payload_len : Z;
  checksum : Z;
  node_id : list Z;
  udp_port : Z
}.

(** The fields as the 86 bytes that precede [data]. *)
Definition packet_bytes (p : MessagePacket) : list Z :=
  le_enc 4 (magic p) ++ le_enc 2 (version p) ++ le_enc 1 (msg_type p) ++ le_enc 1 (reserved p)
  ++ le_enc 2 (group_len p) ++ le_enc 2 (topic_len p) ++ le_enc 4 (payload_len p)
  ++ le_enc 4 (checksum p) ++ node_id p ++ le_enc 2 (udp_port p).

Definition packet_of_bytes (h : list Z) : MessagePacket :=
  mkPacket (le_dec (slice 0 4 h)) (le_dec (slice 4 2 h)) (le_dec (slice 6 1 h))
    (le_dec (slice 7 1 h)) (le_dec (slice 8 2 h)) (le_dec (slice 10 2 h))
    (le_dec (slice 12 4 h)) (le_dec (slice 16 4 h)) (slice 20 64 h) (le_dec (slice 84 2 h)).

(** [reinterpret_cast<const MessagePacket*>(data)] and a read of its fields. *)
Definition view (buf : list Z) : outcome MessagePacket :=
  do! h := mem_rd 0 offsetof_data buf in Ret (packet_of_bytes h).

Definition packetSize (group_len topic_len payload_len : Z) : Z :=
  u64 (sizeof_MessagePacket + group_len + topic_len + payload_len).

Definition getGroup (p : MessagePacket) (buf : list Z) : outcome (list Z) :=
  mem_rd offsetof_data (group_len p) buf.

Definition getTopic (p : MessagePacket) (buf : list Z) : outcome (list Z) :=
  mem_rd (offsetof_data + group_len p) (topic_len p) buf.

Definition getPayload (p : MessagePacket) (buf : list Z) : outcome (list Z) :=
  mem_rd (offsetof_data + group_len p + topic_len p) (payload_len p) buf.

(** [sum += x] for each [x], in [uint32_t]. *)
Definition sum_add (sum : Z) (xs : list Z) : Z := fold_left (fun s x => u32 (s + x)) xs sum.

(** [calculateChecksum]; [total_len] is computed in 32 bits. *)
Definition calculateChecksum (p : MessagePacket) (buf : list Z) : outcome Z :=
  let sum := sum_add 0 [magic p; version p; msg_type p; group_len p; topic_len p; payload_len p;
                        udp_port p] in
  let sum := sum_add sum (until_nul (node_id p)) in
  let total_len := u32 (group_len p + topic_len p + payload_len p) in
  do! data := mem_rd offsetof_data total_len buf in
  Ret (sum_add sum data).

Definition isValid_packet (p : MessagePacket) (buf : list Z) : outcome bool :=
  if negb (magic p =? MAGIC) then Ret false
  else if negb (version p =? VERSION) then Ret false
  else if MAX_GROUP_LEN <? group_len p then Ret false
  else if MAX_TOPIC_LEN <? topic_len p then Ret false
  else if MAX_PAYLOAD_LEN <? payload_len p then Ret false
  else
    do! c := calculateChecksum p buf in
    Ret (checksum p =? c).

Definition isValid (buf : list Z) : outcome bool :=
  do! p := view buf in isValid_packet p buf.

(** [node_id] after the truncating copy of the builder. *)
Definition node_id_field (id : string) : list Z := strncpy 63 id ++ [0].

(** [MessageBuilder::build] *)
Definition build (id group topic : string) (payload : list Z) (port : Z) (t : MessageType)
    : outcome (list Z) :=
  let buffer := replicate (Z.to_nat (packetSize (str_size group) (str_size topic) (zlen payload))) 0 in
  let packet := mkPacket MAGIC VERSION (MessageType_code t) 0 (u16 (str_size group))
                  (u16 (str_size topic)) (u32 (zlen payload)) 0 (node_id_field id) (u16 port) in
  do! b1 := mem_wr 0 (packet_bytes packet) buffer in
  do! b2 := mem_wr offsetof_data (bytes_of_string group) b1 in
  do! b3 := mem_wr (offsetof_data + group_len packet) (bytes_of_string topic) b2 in
  do! b4 := mem_wr (offsetof_data + group_len packet + topic_len packet) payload b3 in
  do! p := view b4 in
  do! c := calculateChecksum p b4 in
  mem_wr 16 (le_enc 4 c) b4.

(** [struct SubscriptionKey] *)
Record SubscriptionKey := mkKey {
  key_group : string;
  key_topic : string
}.

#[export] Instance SubscriptionKey_eq_dec : EqDecision SubscriptionKey.
Proof. solve_decision. Defined.

Definition key_lt (a b : SubscriptionKey) : bool :=
  if negb (String.eqb (key_group a) (key_group b))
  then String.ltb (key_group a) (key_group b)
  else String.ltb (key_topic a) (key_topic b).

Definition key_eqb (a b : SubscriptionKey) : bool :=
  String.eqb (key_group a) (key_group b) && String.eqb (key_topic a) (key_topic b).

Definition key_toString (a : SubscriptionKey) : string :=
  (key_group a ++ "/" ++ key_topic a)%string.

(** ** The checksum as a sum modulo [2^32] *)

Definition zsum (l : list Z) : Z := foldr Z.add 0 l.

Lemma zsum_app l k : zsum (l ++ k) = zsum l + zsum k.
Proof. induction l; simpl; lia. Qed.

Lemma u32_range z : 0 <= u32 z < 2 ^ 32.
Proof. apply wrap_range. lia. Qed.

Lemma u32_add_l a b : u32 (u32 a + b) = u32 (a + b).
Proof. apply Zplus_mod_idemp_l. Qed.

Lemma sum_add_zsum xs s : sum_add (u32 s) xs = u32 (s + zsum xs).
Proof.
  revert s. induction xs as [|x xs IH]; intros s; simpl; [by rewrite Z.add_0_r|].
  rewrite u32_add_l, IH. f_equal. lia.
Qed.

(** The checksum of a packet with the data bytes [d]. *)
Definition packet_sum (p : MessagePacket) (d : list Z) : Z :=
  u32 (magic p + version p + msg_type p + group_len p + topic_len p + payload_len p + udp_port p
       + zsum (until_nul (node_id p)) + zsum d).

Lemma packet_sum_range p d : 0 <= packet_sum p d < 2 ^ 32.
Proof. apply u32_range. Qed.

Lemma calculateChecksum_sum p buf d :
  mem_rd offsetof_data (u32 (group_len p + topic_len p + payload_len p)) buf = Ret d ->
  calculateChecksum p buf = Ret (packet_sum p d).
Proof.
  intros H. unfold calculateChecksum. rewrite H. cbn [outcome_bind]. f_equal.
  change 0 with (u32 0) at 1. rewrite !sum_add_zsum. unfold packet_sum. f_equal.
  simpl zsum. lia.
Qed.

(** ** The fields of a packet in memory *)

Definition packet_ok (p : MessagePacket) : Prop :=
  0 <= magic p < 2 ^ 32 /\ 0 <= version p < 2 ^ 16 /\ 0 <= msg_type p < 2 ^ 8
  /\ 0 <= reserved p < 2 ^ 8 /\ 0 <= group_len p < 2 ^ 16 /\ 0 <= topic_len p < 2 ^ 16
  /\ 0 <= payload_len p < 2 ^ 32 /\ 0 <= checksum p < 2 ^ 32 /\ zlen (node_id p) = 64
  /\ 0 <= udp_port p < 2 ^ 16.

(** Resolves a slice of a concatenation of fields of known sizes. *)
Ltac field_slice :=
  repeat first
    [ rewrite slice_all_eq by (rewrite ?le_enc_zlen; done)
    | rewrite slice_app_l by (autorewrite with zlen; lia)
    | rewrite slice_app_r by (autorewrite with zlen; lia);
      rewrite ?le_enc_zlen;
      match goal with |- context [ slice (?a - Z.of_nat ?b) _ _ ] =>
        let c := eval vm_compute in (a - Z.of_nat b) in change (a - Z.of_nat b) with c end ].

Lemma packet_roundtrip p : packet_ok p -> packet_of_bytes (packet_bytes p) = p.
Proof.
  intros (?&?&?&?&?&?&?&?&Hn&?). unfold packet_of_bytes, packet_bytes.
  destruct p as [m v t r g tl pl c n u]. cbn [magic version msg_type reserved group_len topic_len
    payload_len checksum node_id udp_port] in *.
  f_equal; field_slice; try (apply le_dec_enc_small; simpl; lia); try done.
  - rewrite slice_app_r, Hn by lia. change (64 - 64) with 0. field_slice.
    apply le_dec_enc_small; simpl; lia.
Qed.

Lemma packet_bytes_zlen p : zlen (node_id p) = 64 -> zlen (packet_bytes p) = 86.
Proof. intros Hn. unfold packet_bytes. autorewrite with zlen. rewrite Hn. done. Qed.

Lemma node_id_field_zlen id : zlen (node_id_field id) = 64.
Proof. unfold node_id_field. rewrite zlen_app, strncpy_zlen by lia. done. Qed.

Lemma until_nul_node_id id :
  no_nul id -> str_size id <= 63 -> until_nul (node_id_field id) = bytes_of_string id.
Proof. intros. by apply strncpy_until_nul. Qed.

(** The packet stored at the start of a buffer. *)
Lemma view_splice p buf rest :
  packet_ok p -> buf = packet_bytes p ++ rest -> view buf = Ret p.
Proof.
  intros Hp ->. pose proof Hp as (_&_&_&_&_&_&_&_&Hn&_). unfold view, offsetof_data.
  pose proof (packet_bytes_zlen p Hn). pose proof (zlen_nonneg rest).
  rewrite mem_rd_ok by (rewrite ?zlen_app; lia).
  cbn [outcome_bind]. rewrite slice_app_l by lia. rewrite slice_all_eq by done.
  by rewrite packet_roundtrip.
Qed.

Definition with_checksum (p : MessagePacket) (c : Z) : MessagePacket :=
  mkPacket (magic p) (version p) (msg_type p) (reserved p) (group_len p) (topic_len p)
    (payload_len p) c (node_id p) (udp_port p).

Lemma checksum_store p c rest :
  mem_wr 16 (le_enc 4 c) (packet_bytes p ++ rest) = Ret (packet_bytes (with_checksum p c) ++ rest).
Proof.
  unfold packet_bytes, with_checksum.
  cbn [magic version msg_type reserved group_len topic_len payload_len checksum node_id udp_port].
  set (a := le_enc 4 (magic p) ++ le_enc 2 (version p) ++ le_enc 1 (msg_type p)
    ++ le_enc 1 (reserved p) ++ le_enc 2 (group_len p) ++ le_enc 2 (topic_len p)
    ++ le_enc 4 (payload_len p)).
  set (d := node_id p ++ le_enc 2 (udp_port p)).
  pose proof (mem_wr_mid a (le_enc 4 (checksum p)) (le_enc 4 c) (d ++ rest) 16) as H.
  subst a d. rewrite <- !app_assoc in *. apply H.
  - autorewrite with zlen. done.
  - by rewrite !le_enc_length.
Qed.

Lemma bytes_of_string_length s : Z.of_nat (length (bytes_of_string s)) = str_size s.
Proof. apply bytes_of_string_zlen. Qed.

(** The fields [build] stores before the checksum. *)
Definition draft (id group topic : string) (payload : list Z) (port : Z) (t : MessageType)
    : MessagePacket :=
  mkPacket MAGIC VERSION (MessageType_code t) 0 (u16 (str_size group))
    (u16 (str_size topic)) (u32 (zlen payload)) 0 (node_id_field id) (u16 port).

Lemma draft_ok id group topic payload port t : packet_ok (draft id group topic payload port t).
Proof.
  unfold packet_ok, draft, MAGIC, VERSION.
  cbn [magic version msg_type reserved group_len topic_len payload_len checksum node_id udp_port].
  pose proof (node_id_field_zlen id). pose proof (u32_range (zlen payload)).
  unfold u16. pose proof (wrap_range 16 (str_size group)). pose proof (wrap_range 16 (str_size topic)).
  pose proof (wrap_range 16 port). destruct t; simpl; repeat split; done || lia.
Qed.

Lemma with_checksum_ok p c : packet_ok p -> 0 <= c < 2 ^ 32 -> packet_ok (with_checksum p c).
Proof. unfold packet_ok. simpl. tauto. Qed.

(** Reading inside the variable-length part of a packet. *)
Lemma mem_rd_data a d rest o n x :
  zlen a = offsetof_data -> o = offsetof_data + x -> 0 <= x -> 0 <= n -> x + n <= zlen d ->
  mem_rd o n (a ++ d ++ rest) = Ret (slice x n d).
Proof.
  intros Ha -> ? ? ?. unfold offsetof_data in *. pose proof (zlen_nonneg rest).
  rewrite mem_rd_ok by (rewrite ?zlen_app; lia).
  rewrite slice_app_r by lia. rewrite Ha. replace (86 + x - 86) with x by lia.
  by rewrite slice_app_l.
Qed.

Lemma mem_rd_app_mid a d rest n :
  zlen a = offsetof_data -> zlen d = n -> mem_rd offsetof_data n (a ++ d ++ rest) = Ret d.
Proof.
  intros Ha <-. pose proof (zlen_nonneg d).
  by rewrite (mem_rd_data a d rest _ _ 0), slice_all by lia || done.
Qed.

(** The packet [build] returns when no length is truncated. *)
Lemma build_layout id group topic payload port t :
  str_size group < 2 ^ 16 -> str_size topic < 2 ^ 16 -> zlen payload < 2 ^ 31 ->
  let d := bytes_of_string group ++ bytes_of_string topic ++ payload in
  let p := draft id group topic payload port t in
  build id group topic payload port t
  = Ret (packet_bytes (with_checksum p (packet_sum p d)) ++ d ++ [0; 0]).
Proof.
  intros Hg Ht Hp d p. unfold build. fold (draft id group topic payload port t). fold p.
  pose proof (str_size_nonneg group). pose proof (str_size_nonneg topic). pose proof (zlen_nonneg payload).
  assert (group_len p = str_size group /\ topic_len p = str_size topic /\ payload_len p = zlen payload)
    as (Eg & Et & Ep) by (unfold p, draft, u16, u32; simpl; rewrite !wrap_small by lia; done).
  pose proof (draft_ok id group topic payload port t) as Hok. fold p in Hok.
  assert (zlen (packet_bytes p) = 86) as Hpl by (apply packet_bytes_zlen, Hok).
  unfold packetSize, u64. rewrite wrap_small by (unfold sizeof_MessagePacket; lia).
  set (n := Z.to_nat _). assert (Z.of_nat n = 88 + str_size group + str_size topic + zlen payload) as Hn
    by (unfold n, sizeof_MessagePacket; lia).
  rewrite (mem_wr_fill [] (packet_bytes p) n) by (rewrite ?Hpl; done || lia). cbn [outcome_bind app].
  pose proof (bytes_of_string_zlen group). pose proof (bytes_of_string_zlen topic).
  unfold zlen in Hpl.
  rewrite mem_wr_fill by (rewrite ?Eg, ?bytes_of_string_zlen; unfold zlen, offsetof_data; lia).
  cbn [outcome_bind].
  rewrite mem_wr_fill by (rewrite ?zlen_app, ?bytes_of_string_zlen; unfold zlen, offsetof_data in *; lia).
  cbn [outcome_bind].
  rewrite mem_wr_fill by (rewrite ?zlen_app, ?bytes_of_string_zlen; unfold zlen, offsetof_data in *; lia).
  cbn [outcome_bind].
  replace (n - _ - _ - _ - _)%nat with 2%nat by (unfold zlen in *; lia).
  change (replicate 2 0) with [0; 0]. rewrite <- !app_assoc.
  assert (packet_bytes p ++ bytes_of_string group ++ bytes_of_string topic ++ payload ++ [0; 0]
    = packet_bytes p ++ d ++ [0; 0]) as -> by (unfold d; by rewrite <- !app_assoc).
  rewrite (view_splice p) with (rest := d ++ [0; 0]) by done. cbn [outcome_bind].
  rewrite (calculateChecksum_sum p _ d).
  - cbn [outcome_bind]. apply checksum_store.
  - rewrite Eg, Et, Ep. unfold u32. rewrite wrap_small by lia.
    apply mem_rd_app_mid; [done|]. unfold d. rewrite !zlen_app, !bytes_of_string_zlen. lia.
Qed.

(** The lengths a receiver accepts. *)
Definition header_acceptable (p : MessagePacket) : bool :=
  (magic p =? MAGIC) && (version p =? VERSION) && (group_len p <=? MAX_GROUP_LEN)
  && (topic_len p <=? MAX_TOPIC_LEN) && (payload_len p <=? MAX_PAYLOAD_LEN).

(** Bytes of [data] a packet announces. *)
Definition announced (p : MessagePacket) : Z := group_len p + topic_len p + payload_len p.

Lemma isValid_packet_eq p buf :
  isValid_packet p buf
  = if header_acceptable p then (do! c := calculateChecksum p buf in Ret (checksum p =? c))
    else Ret false.
Proof.
  unfold isValid_packet, header_acceptable. rewrite !Z.ltb_antisym.
  destruct (magic p =? MAGIC), (version p =? VERSION), (group_len p <=? _), (topic_len p <=? _),
    (payload_len p <=? _); done.
Qed.

Lemma bytes_ok_slice o n buf : bytes_ok buf -> bytes_ok (slice o n buf).
Proof. intros. apply Forall_take. by apply Forall_drop. Qed.

(** Fields read from bytes are never negative. *)
Lemma view_nonneg buf p :
  bytes_ok buf -> view buf = Ret p -> 0 <= group_len p /\ 0 <= topic_len p /\ 0 <= payload_len p.
Proof.
  intros Hb. unfold view, outcome_bind, mem_rd. intros H. repeat case_match; simplify_eq/=.
  repeat split; apply le_dec_range; repeat apply bytes_ok_slice; done.
Qed.

Lemma checksum_read p buf :
  0 <= group_len p -> 0 <= topic_len p -> 0 <= payload_len p -> header_acceptable p = true ->
  calculateChecksum p buf
  = (do! d := mem_rd offsetof_data (announced p) buf in Ret (packet_sum p d)).
Proof.
  intros Hg Ht Hp Ha. unfold header_acceptable, MAX_GROUP_LEN, MAX_TOPIC_LEN, MAX_PAYLOAD_LEN in Ha. btest.
  assert (u32 (group_len p + topic_len p + payload_len p) = announced p) as E
    by (unfold announced; apply wrap_small; lia).
  destruct (mem_rd offsetof_data (announced p) buf) as [d|] eqn:Ed.
  - rewrite (calculateChecksum_sum p buf d); [done|]. by rewrite E.
  - unfold calculateChecksum. by rewrite E, Ed.
Qed.

Lemma isValid_data p buf d :
  view buf = Ret p -> 0 <= group_len p -> 0 <= topic_len p -> 0 <= payload_len p ->
  header_acceptable p = true -> mem_rd offsetof_data (announced p) buf = Ret d ->
  isValid buf = Ret (checksum p =? packet_sum p d).
Proof.
  intros Hv Hg Ht Hp Ha Hd. unfold isValid. rewrite Hv. cbn [outcome_bind].
  rewrite isValid_packet_eq, Ha, checksum_read, Hd by done. done.
Qed.

(** ** Replacing one byte *)

Lemma zsum_splice_one i b' d :
  0 <= i < zlen d ->
  zsum (splice i [b'] d) = zsum d + b' - default 0 (d !! Z.to_nat i).
Proof.
  intros Hi. unfold splice. rewrite !zsum_app. simpl zsum.
  destruct (lookup_lt_is_Some_2 d (Z.to_nat i)) as [b Hb]; [unfold zlen in Hi; lia|].
  rewrite Hb. rewrite <- (take_drop_middle d (Z.to_nat i) b) at 3 by done.
  rewrite zsum_app. simpl. replace (Z.to_nat i + 1)%nat with (S (Z.to_nat i)) by lia. lia.
Qed.

Lemma slice_lookup o n i buf :
  0 <= o -> 0 <= i < n -> slice o n buf !! Z.to_nat i = buf !! Z.to_nat (o + i).
Proof.
  intros. unfold slice. rewrite lookup_take_lt, lookup_drop by lia. f_equal. lia.
Qed.

Lemma splice_insert i b buf : 0 <= i < zlen buf -> splice i [b] buf = <[Z.to_nat i := b]> buf.
Proof.
  unfold zlen. intros. rewrite insert_take_drop by lia. unfold splice. simpl.
  by replace (Z.to_nat i + 1)%nat with (S (Z.to_nat i)) by lia.
Qed.

Lemma slice_splice_one o n i b buf :
  0 <= o -> o <= i < o + n -> o + n <= zlen buf ->
  slice o n (splice i [b] buf) = splice (i - o) [b] (slice o n buf).
Proof.
  intros Ho Hi Hn. rewrite !splice_insert by (rewrite ?slice_length; lia). unfold slice.
  rewrite drop_insert_ge, take_insert_lt by lia. f_equal. lia.
Qed.

(** What the receiver of a built packet sees. *)
Lemma build_parts (id group topic : string) (payload : list Z) (port : Z) (t : MessageType) :
  no_nul id -> str_size id <= 63 ->
  str_size group <= MAX_GROUP_LEN -> str_size topic <= MAX_TOPIC_LEN ->
  zlen payload <= MAX_PAYLOAD_LEN -> 0 <= port < 2 ^ 16 ->
  exists buf p, build id group topic payload port t = Ret buf
    /\ isValid buf = Ret true /\ view buf = Ret p
    /\ getGroup p buf = Ret (bytes_of_string group)
    /\ getTopic p buf = Ret (bytes_of_string topic)
    /\ getPayload p buf = Ret payload
    /\ MessageType_of (msg_type p) = Some t
    /\ cstring (node_id p) = id /\ udp_port p = port
    /\ node_id p = node_id_field id /\ sizeof_MessagePacket <= zlen buf.
Proof.
  intros Hid Hids Hg Ht Hp Hport. unfold MAX_GROUP_LEN, MAX_TOPIC_LEN, MAX_PAYLOAD_LEN in *.
  pose proof (build_layout id group topic payload port t ltac:(lia) ltac:(lia) ltac:(lia)) as HB.
  cbv zeta in HB. set (p := draft id group topic payload port t) in *.
  set (d := bytes_of_string group ++ bytes_of_string topic ++ payload) in *.
  set (p' := with_checksum p (packet_sum p d)) in *.
  pose proof (str_size_nonneg group). pose proof (str_size_nonneg topic). pose proof (zlen_nonneg payload).
  assert (packet_ok p') as Hok by (apply with_checksum_ok; [apply draft_ok | apply packet_sum_range]).
  assert (group_len p' = str_size group /\ topic_len p' = str_size topic
    /\ payload_len p' = zlen payload /\ udp_port p' = port) as (Eg & Et & Ep & Eu)
    by (unfold p', p, draft, u16, u32; simpl; rewrite !wrap_small by lia; done).
  assert (zlen (packet_bytes p') = offsetof_data) as Hpl by (apply packet_bytes_zlen, Hok).
  assert (view (packet_bytes p' ++ d ++ [0; 0]) = Ret p') as Hv by (by eapply view_splice).
  pose proof (bytes_of_string_zlen group). pose proof (bytes_of_string_zlen topic).
  exists (packet_bytes p' ++ d ++ [0; 0]), p'. split; [done|]. split; [|split; [done|]].
  { rewrite (isValid_data p' _ d); [|done|lia..| |].
    - change (checksum p') with (packet_sum p d). change (packet_sum p' d) with (packet_sum p d).
      by rewrite Z.eqb_refl.
    - unfold header_acceptable, MAX_GROUP_LEN, MAX_TOPIC_LEN, MAX_PAYLOAD_LEN.
      rewrite Eg, Et, Ep, !(proj2 (Z.leb_le _ _)) by lia. done.
    - apply mem_rd_app_mid; [done|]. unfold announced, d. rewrite !zlen_app. lia. }
  assert (zlen d = str_size group + str_size topic + zlen payload) as Hd
    by (unfold d; rewrite !zlen_app; lia).
  split; [|split; [|split; [|split; [|split]]]].
  - unfold getGroup. rewrite (mem_rd_data _ d _ _ _ 0) by lia || done. unfold d.
    rewrite slice_app_l by lia. by rewrite slice_all_eq by lia.
  - unfold getTopic. rewrite (mem_rd_data _ d _ _ _ (str_size group)) by lia || done. unfold d.
    rewrite slice_app_r by lia. replace (_ - _) with 0 by lia.
    rewrite slice_app_l by lia. by rewrite slice_all_eq by lia.
  - unfold getPayload. rewrite (mem_rd_data _ d _ _ _ (str_size group + str_size topic)) by lia || done. unfold d.
    rewrite !slice_app_r by lia. replace (_ - _ - _) with 0 by lia. by rewrite slice_all_eq by lia.
  - by destruct t.
  - unfold cstring. change (node_id p') with (node_id_field id).
    by rewrite until_nul_node_id, string_of_bytes_of_string.
  - split; [done|]. split; [done|]. rewrite !zlen_app, Hpl. pose proof (zlen_nonneg d). unfold sizeof_MessagePacket, offsetof_data, zlen at 2. simpl. lia.
Qed.

(** ** Properties *)

(** C20: a packet built with a group and topic of at most 128 bytes and a payload of at
    most 65000 bytes is accepted by [isValid], and the receiver's accessors return
    the group, the topic, the payload, the type and the sender that were put in. *)
Theorem build_roundtrip (id group topic : string) (payload : list Z) (port : Z) (t : MessageType) :
  no_nul id -> str_size id <= 63 ->
  str_size group <= MAX_GROUP_LEN -> str_size topic <= MAX_TOPIC_LEN ->
  zlen payload <= MAX_PAYLOAD_LEN -> 0 <= port < 2 ^ 16 ->
  exists buf p, build id group topic payload port t = Ret buf
    /\ isValid buf = Ret true /\ view buf = Ret p
    /\ getGroup p buf = Ret (bytes_of_string group)
    /\ getTopic p buf = Ret (bytes_of_string topic)
    /\ getPayload p buf = Ret payload
    /\ MessageType_of (msg_type p) = Some t
    /\ cstring (node_id p) = id /\ udp_port p = port.
Proof.
  intros Hid Hids Hg Ht Hp Hport.
  destruct (build_parts id group topic payload port t Hid Hids Hg Ht Hp Hport)
    as (buf & p & H1 & H2 & H3 & H4 & H5 & H6 & H7 & H8 & H9 & _ & _).
  exists buf, p. done.
Qed.

(** A group or topic longer than 128 bytes or a payload longer than 65000 bytes is
    still built into a packet, and every receiver drops that packet. *)
Theorem build_oversize_rejected (id group topic : string) (payload : list Z) (port : Z)
    (t : MessageType) :
  str_size group < 2 ^ 16 -> str_size topic < 2 ^ 16 -> zlen payload < 2 ^ 31 ->
  MAX_GROUP_LEN < str_size group \/ MAX_TOPIC_LEN < str_size topic
    \/ MAX_PAYLOAD_LEN < zlen payload ->
  exists buf, build id group topic payload port t = Ret buf /\ isValid buf = Ret false.
Proof.
  intros Hg Ht Hp Hbig. pose proof (build_layout id group topic payload port t Hg Ht Hp) as HB.
  cbv zeta in HB. eexists. split; [exact HB|]. unfold isValid.
  erewrite view_splice; [|apply with_checksum_ok; [apply draft_ok | apply packet_sum_range]|done].
  cbn [outcome_bind]. rewrite isValid_packet_eq.
  pose proof (str_size_nonneg group). pose proof (str_size_nonneg topic). pose proof (zlen_nonneg payload).
  replace (header_acceptable _) with false; [done|]. symmetry.
  unfold header_acceptable, with_checksum, draft, u16, u32. simpl. rewrite !wrap_small by lia.
  rewrite <- !andb_assoc. apply not_true_is_false. intros E. btest. lia.
Qed.

(** C35: on a received buffer that holds the fixed fields, [isValid] reads outside the
    buffer exactly when the header passes its tests and announces more data than
    was received: the announced lengths are never compared with the received size. *)
Theorem isValid_overread_iff (buf : list Z) (p : MessagePacket) :
  bytes_ok buf -> view buf = Ret p ->
  (isValid buf = UB
   <-> header_acceptable p = true /\ zlen buf < offsetof_data + announced p).
Proof.
  intros Hb Hv. destruct (view_nonneg buf p Hb Hv) as (? & ? & ?).
  unfold isValid. rewrite Hv. cbn [outcome_bind]. rewrite isValid_packet_eq.
  destruct (header_acceptable p) eqn:Ha; [|by split; [|intros []]].
  rewrite checksum_read by done. unfold announced in *. split.
  - intros HU. split; [done|]. destruct (Z.lt_ge_cases (zlen buf) (offsetof_data + (group_len p + topic_len p + payload_len p))) as [|Hge]; [done|].
    by rewrite mem_rd_ok in HU by (done || lia).
  - intros [_ Hlt]. by rewrite mem_rd_ub.
Qed.

(** Changing one byte of the group, topic or payload of an accepted packet to any
    other byte makes [isValid] reject it. *)
Theorem single_byte_detected (buf : list Z) (p : MessagePacket) (i b' : Z) :
  bytes_ok buf -> view buf = Ret p -> isValid buf = Ret true ->
  offsetof_data <= i < offsetof_data + announced p ->
  byte_ok b' -> buf !! Z.to_nat i <> Some b' ->
  isValid (splice i [b'] buf) = Ret false.
Proof.
  intros Hb Hv HV Hi Hb' Hne. destruct (view_nonneg buf p Hb Hv) as (Hg & Ht & Hp).
  assert (86 + announced p <= zlen buf /\ header_acceptable p = true
    /\ checksum p = packet_sum p (slice offsetof_data (announced p) buf)) as (Hlen & Ha & Hc).
  { unfold isValid in HV. rewrite Hv in HV. cbn [outcome_bind] in HV. rewrite isValid_packet_eq in HV.
    destruct (header_acceptable p) eqn:Ha; [|done]. rewrite checksum_read in HV by done.
    unfold mem_rd, in_bounds in HV. destruct (_ && _) eqn:E; [|done]. simplify_eq/=. btest.
    unfold offsetof_data in *. done. }
  unfold offsetof_data in *. set (d := slice 86 (announced p) buf) in *.
  assert (zlen d = announced p) as Hd by (apply slice_length; unfold announced in *; lia).
  assert (view (splice i [b'] buf) = Ret p) as Hv'.
  { rewrite <- Hv. unfold view, offsetof_data. rewrite !mem_rd_ok by (rewrite ?splice_zlen; unfold zlen in *; simpl; lia).
    by rewrite slice_splice_before by (unfold zlen in *; simpl; lia). }
  rewrite (isValid_data p _ (splice (i - 86) [b'] d) Hv' Hg Ht Hp Ha).
  2:{ unfold offsetof_data. rewrite mem_rd_ok; [|lia|lia|rewrite splice_zlen; unfold zlen in *; simpl; lia].
      by rewrite slice_splice_one by lia. }
  f_equal. apply Z.eqb_neq. rewrite Hc. unfold packet_sum. rewrite zsum_splice_one by lia.
  destruct (lookup_lt_is_Some_2 d (Z.to_nat (i - 86))) as [b Hbd]; [unfold zlen in Hd; lia|].
  assert (buf !! Z.to_nat i = Some b) as Hbi
    by (rewrite <- Hbd; unfold d; rewrite slice_lookup by lia; do 2 f_equal; lia).
  assert (byte_ok b) as Hbb by (eapply Forall_lookup_1; [apply Hb | done]).
  rewrite Hbd. change (default 0 (Some b)) with b. unfold byte_ok, u32, wrap in *. intros E.
  assert (b <> b') by congruence.
  match type of E with ?x mod _ = ?y mod _ => assert ((y - x) mod 2 ^ 32 = 0)
    as E0 by (rewrite Zminus_mod, E, Z.sub_diag; done) end.
  rewrite Z.mod_divide in E0 by lia. destruct E0 as [k Hk]. lia.
Qed.

(** A group name of [n] letters. *)
Definition long_name (n : nat) : string := string_of_bytes (replicate n 65).

(** The 16-bit length field silently truncates a group name of 65537 bytes: the packet
    passes [isValid] and the receiver sees a group of one byte. *)
Theorem long_group_aliased :
  (do! buf := build "n" (long_name (N.to_nat 65537)) "t" [9] 0 DATA in
   do! ok := isValid buf in
   do! p := view buf in
   do! g := getGroup p buf in
   do! t := getTopic p buf in
   Ret (ok, g, t)) = Ret (true, bytes_of_string "A", bytes_of_string "t").
Proof. vm_compute. reflexivity. Qed.

(** ** Witnesses *)

Lemma build_roundtrip_witness :
  exists buf p, build "node1" "sensor" "temp" [1; 2; 3] 47200 SERVICE_REGISTER = Ret buf
    /\ isValid buf = Ret true /\ view buf = Ret p
    /\ getGroup p buf = Ret (bytes_of_string "sensor")
    /\ getTopic p buf = Ret (bytes_of_string "temp")
    /\ getPayload p buf = Ret [1; 2; 3]
    /\ MessageType_of (msg_type p) = Some SERVICE_REGISTER
    /\ cstring (node_id p) = "node1" /\ udp_port p = 47200.
Proof.
  apply (build_roundtrip "node1" "sensor" "temp" [1; 2; 3] 47200 SERVICE_REGISTER);
    [repeat constructor; discriminate | vm_compute; discriminate .. | lia].
Defined.

Lemma build_oversize_rejected_witness :
  exists buf, build "n" (long_name 200) "t" [] 0 DATA = Ret buf /\ isValid buf = Ret false.
Proof.
  apply (build_oversize_rejected "n" (long_name 200) "t" [] 0 DATA);
    [vm_compute; reflexivity .. | left; vm_compute; reflexivity].
Defined.

(** A packet that announces 1000 bytes of payload and carries none. *)
Definition short_packet : MessagePacket := mkPacket MAGIC VERSION 0 0 0 0 1000 0 (replicate 64 0) 0.

Definition short_buffer : list Z := packet_bytes short_packet ++ [0; 0].

Lemma isValid_overread_iff_witness :
  isValid short_buffer = UB
  <-> header_acceptable short_packet = true /\ zlen short_buffer < offsetof_data + announced short_packet.
Proof.
  apply (isValid_overread_iff short_buffer short_packet); [|vm_compute; reflexivity].
  apply Forall_forall. intros x Hx. unfold byte_ok.
  assert (forallb (fun b => (0 <=? b) && (b <? 256)) short_buffer = true) as H by (vm_compute; reflexivity).
  rewrite forallb_forall in H. apply list_elem_of_In, H in Hx. btest. lia.
Defined.

(** A small accepted packet with the payload byte 5 at offset 88. *)
Definition tiny_packet : MessagePacket :=
  mkPacket MAGIC VERSION 0 0 1 1 1 (u32 (MAGIC + VERSION + 3 + 110 + 65 + 66 + 5))
    (110 :: replicate 63 0) 0.

Definition tiny_buffer : list Z := packet_bytes tiny_packet ++ [65; 66; 5; 0; 0].

Lemma single_byte_detected_witness : isValid (splice 88 [6] tiny_buffer) = Ret false.
Proof.
  apply (single_byte_detected tiny_buffer tiny_packet 88 6).
  - apply Forall_forall. intros x Hx. unfold byte_ok.
    assert (forallb (fun b => (0 <=? b) && (b <? 256)) tiny_buffer = true) as H by (vm_compute; reflexivity).
    rewrite forallb_forall in H. apply list_elem_of_In, H in Hx. btest. lia.
  - vm_compute; reflexivity.
  - vm_compute; reflexivity.
  - vm_compute. split; [discriminate | reflexivity].
  - unfold byte_ok. lia.
  - vm_compute. discriminate.
Defined.
