(* ===== verification/Os.v ===== *)
(** * The operating system as the library sees it

    The results of the system calls the sources use, as data: [kill(pid, 0)],
    [pthread_mutex_lock]/[pthread_mutex_timedlock], the process id and the clocks.
    A call of a modelled operation takes these results as an argument, so every
    theorem holds for all of them. *)

From S2P Require Import Prelude.

(** [kill(pid, 0)]: the return value and [errno]. *)
Inductive KillResult :=
| KillOk      (* 0: the process exists *)
| KillEsrch   (* -1, ESRCH: no such process *)
| KillEperm.  (* -1, EPERM: it exists, no permission *)

(** The result of taking a robust process-shared mutex. *)
Inductive LockResult :=
| LockOk
| LockOwnerDead
| LockTimedOut
| LockError.

Record os := mkOs {
  getpid : Z;
  kill0 : Z -> KillResult;
  steady_ms : Z;     (* steady_clock, milliseconds *)
  time_s : Z         (* time(nullptr), seconds *)
}.

(** [kill(pid, 0) == 0] *)
Definition kill_ok (e : os) (pid : Z) : bool :=
  match kill0 e pid with KillOk => true | _ => false end.

(** [kill(pid, 0) == 0 || errno == EPERM], equally [errno != ESRCH] on failure. *)
Definition kill_exists (e : os) (pid : Z) : bool :=
  match kill0 e pid with KillEsrch => false | _ => true end.

(** [RegistryLock::isLocked]: an owner that died leaves the lock recovered. *)
Definition isLocked (r : LockResult) : bool :=
  match r with LockOk | LockOwnerDead => true | _ => false end.
