(* ===== verification/SharedMemoryRegistry.v ===== *)
(** * The node registry in shared memory

    Models [include/nexus/registry/SharedMemoryRegistry.h] and
    [src/registry/SharedMemoryRegistry.cpp]: the entry table with its header, the
    strings stored as arrays of 64-bit words, registration, heartbeats, lookups,
    stale-node cleanup, attachment with its reference counts, and removal.
    Every operation that the code runs under [global_lock] is one step. *)

From S2P Require Import Prelude Os.

Definition MAX_REGISTRY_ENTRIES : nat := 256.

Definition NODE_ID_SIZE : Z := 64.

Definition SHM_NAME_SIZE : Z := 64.

Definition MAGIC : Z := 0x4C525247.

Definition VERSION : Z := 1.

Record NodeInfo := mkNodeInfo {
  ni_node_id : string;
  ni_shm_name : string;
  ni_pid : Z;
  ni_last_heartbeat : Z;
  ni_active : bool
}.

Record RegistryEntry := mkEntry {
  flags : Z;
  version : Z;
  pid : Z;
  last_heartbeat : Z;
  node_id_atomic : list Z;
  shm_name_atomic : list Z
}.

Record RegistryHeader := mkHeader {
  h_magic : Z;
  h_version : Z;
  num_entries : Z;
  capacity : Z;
  ref_count : Z;
  ref_pids : list Z
}.

Record RegistryRegion := mkRegion {
  header : RegistryHeader;
  entries : list RegistryEntry
}.

(** ** Strings as arrays of atomic 64-bit words *)

(** The words of [n] consecutive 8-byte chunks. *)
Fixpoint pack (n : nat) (bs : list Z) : list Z :=
  match n with
  | O => []
  | S n' => le_dec (take 8 bs) :: pack n' (drop 8 bs)
  end.

Definition unpack (words : list Z) : list Z := words ≫= le_enc 8.

(** [writeAtomicString]: the words stored in the array. *)
Definition writeAtomicString (str : string) (max_bytes : Z) : list Z :=
  pack (Z.to_nat (max_bytes / 8)) (strncpy (max_bytes - 1) str ++ [0]).

(** [readAtomicString]: the last byte is forced to NUL before [strnlen]. *)
Definition readAtomicString (words : list Z) (max_bytes : Z) : string :=
  string_of_bytes (until_nul (take (Z.to_nat (max_bytes - 1)) (unpack words))).

(** ** Entries *)

Definition entry_valid (e : RegistryEntry) : bool := negb (Z.land (flags e) 0x1 =? 0).

Definition entry_node_id (e : RegistryEntry) : string :=
  readAtomicString (node_id_atomic e) NODE_ID_SIZE.

Definition entry_info (e : RegistryEntry) : NodeInfo :=
  mkNodeInfo (entry_node_id e) (readAtomicString (shm_name_atomic e) SHM_NAME_SIZE)
    (i32 (pid e)) (last_heartbeat e) (negb (Z.land (flags e) 0x2 =? 0)).

Definition zero_words : list Z := replicate 8 0.

Definition entry_zero : RegistryEntry := mkEntry 0 0 0 0 zero_words zero_words.

Definition set_entry (r : RegistryRegion) (i : nat) (e : RegistryEntry) : RegistryRegion :=
  mkRegion (header r) (<[i := e]> (entries r)).

Definition set_header (r : RegistryRegion) (h : RegistryHeader) : RegistryRegion :=
  mkRegion h (entries r).

Definition add_num_entries (h : RegistryHeader) (d : Z) : RegistryHeader :=
  mkHeader (h_magic h) (h_version h) (u32 (num_entries h + d)) (capacity h) (ref_count h) (ref_pids h).

(** The first valid entry holding [node_id]; [None] is the result -1. *)
Definition findEntryIndex (node_id : string) (r : RegistryRegion) : option nat :=
  fst <$> list_find (fun e => entry_valid e = true /\ entry_node_id e = node_id) (entries r).

(** The context of a call: the operating system, the outcome of taking
    [global_lock], and the object's [initialized_] flag. *)
Record call := mkCall {
  c_os : os;
  c_lock : LockResult;
  c_initialized : bool
}.

(** The entry written for a node by [registerNode]. *)
Definition updated_entry (e : RegistryEntry) (shm_name : string) (my_pid now : Z) : RegistryEntry :=
  mkEntry 0x3 (u32 (version e + 1)) (u32 my_pid) now (node_id_atomic e)
    (writeAtomicString shm_name SHM_NAME_SIZE).

Definition fresh_entry (e : RegistryEntry) (node_id shm_name : string) (my_pid now : Z) : RegistryEntry :=
  mkEntry 0x3 (u32 (version e + 1)) (u32 my_pid) now (writeAtomicString node_id NODE_ID_SIZE)
    (writeAtomicString shm_name SHM_NAME_SIZE).

Definition registerNode (c : call) (node_id shm_name : string) (r : RegistryRegion)
    : bool * RegistryRegion :=
  if negb (c_initialized c) then (false, r)
  else if str_empty node_id || str_empty shm_name then (false, r)
  else if (NODE_ID_SIZE <=? str_size node_id) || (SHM_NAME_SIZE <=? str_size shm_name) then (false, r)
  else if negb (isLocked (c_lock c)) then (false, r)
  else
    let now := steady_ms (c_os c) in
    let my_pid := getpid (c_os c) in
    match findEntryIndex node_id r with
    | Some i =>
        match entries r !! i with
        | Some e => (true, set_entry r i (updated_entry e shm_name my_pid now))
        | None => (false, r)
        end
    | None =>
        match list_find (fun e => flags e = 0) (entries r) with
        | None => (false, r)
        | Some (i, e) =>
            (true, set_header (set_entry r i (fresh_entry e node_id shm_name my_pid now))
                     (add_num_entries (header r) 1))
        end
    end.

(** An entry cleared by [unregisterNode] ([d = 1]) or [cleanupStaleNodes] ([d = 2]). *)
Definition cleared_entry (e : RegistryEntry) (d : Z) : RegistryEntry :=
  mkEntry 0 (u32 (version e + d)) 0 0 zero_words zero_words.

Definition unregisterNode (c : call) (node_id : string) (r : RegistryRegion) : bool * RegistryRegion :=
  if negb (c_initialized c) then (false, r)
  else if negb (isLocked (c_lock c)) then (false, r)
  else
    match findEntryIndex node_id r with
    | None => (false, r)
    | Some i =>
        match entries r !! i with
        | Some e => (true, set_header (set_entry r i (cleared_entry e 1)) (add_num_entries (header r) (-1)))
        | None => (false, r)
        end
    end.

Definition with_heartbeat (e : RegistryEntry) (ts : Z) : RegistryEntry :=
  mkEntry (flags e) (version e) (pid e) ts (node_id_atomic e) (shm_name_atomic e).

(** [updateHeartbeat]; under the lock the version cannot change between its two
    reads, so the final test always passes. *)
Definition updateHeartbeat (c : call) (node_id : string) (r : RegistryRegion) : bool * RegistryRegion :=
  if negb (c_initialized c) then (false, r)
  else if negb (isLocked (c_lock c)) then (false, r)
  else
    match findEntryIndex node_id r with
    | None => (false, r)
    | Some i =>
        match entries r !! i with
        | Some e =>
            let version_before := version e in
            let e' := with_heartbeat e (steady_ms (c_os c)) in
            let version_after := version e' in
            (version_before =? version_after, set_entry r i e')
        | None => (false, r)
        end
    end.

Definition getAllNodes (c : call) (r : RegistryRegion) : list NodeInfo :=
  if negb (c_initialized c) then []
  else if negb (isLocked (c_lock c)) then []
  else entry_info <$> filter (fun e => entry_valid e = true) (entries r).

Definition findNode (c : call) (node_id : string) (r : RegistryRegion) : option NodeInfo :=
  if negb (c_initialized c) then None
  else if negb (isLocked (c_lock c)) then None
  else
    match findEntryIndex node_id r with
    | None => None
    | Some i => entry_info <$> entries r !! i
    end.

Definition nodeExists (c : call) (node_id : string) (r : RegistryRegion) : bool :=
  if negb (c_initialized c) then false
  else if negb (isLocked (c_lock c)) then false
  else
    match findEntryIndex node_id r with
    | None => false
    | Some i =>
        match entries r !! i with
        | Some e => Z.land (flags e) 0x3 =? 0x3
        | None => false
        end
    end.

Definition isProcessAlive (e : os) (p : Z) : bool :=
  if p <=? 0 then false else kill_ok e p.

(** The test of one entry in [cleanupStaleNodes]. *)
Definition entry_stale (e : os) (timeout_ms : Z) (x : RegistryEntry) : bool :=
  if negb (entry_valid x) then false
  else if last_heartbeat x =? 0 then false
  else
    let now := steady_ms e in
    let last_hb := last_heartbeat x in
    let time_since_hb := if last_hb <=? now then now - last_hb else 0 in
    let timeout := timeout_ms <? time_since_hb in
    let process_dead := negb (isProcessAlive e (i32 (pid x))) in
    timeout || process_dead.

(** The pass over the entries: the new table and the number of entries cleaned. *)
Fixpoint clean_entries (e : os) (timeout_ms : Z) (es : list RegistryEntry) : list RegistryEntry * Z :=
  match es with
  | [] => ([], 0)
  | x :: rest =>
      let '(rest', n) := clean_entries e timeout_ms rest in
      if entry_stale e timeout_ms x then (cleared_entry x 2 :: rest', n + 1) else (x :: rest', n)
  end.

Definition cleanupStaleNodes (c : call) (timeout_ms : Z) (r : RegistryRegion) : Z * RegistryRegion :=
  if negb (c_initialized c) then (0, r)
  else if negb (isLocked (c_lock c)) then (0, r)
  else
    let '(es, cleaned) := clean_entries (c_os c) timeout_ms (entries r) in
    (cleaned, mkRegion (add_num_entries (header r) (- cleaned)) es).

Definition getActiveNodeCount (c : call) (r : RegistryRegion) : Z :=
  if negb (c_initialized c) then 0 else i32 (num_entries (header r)).

(** The election loop: the smallest live pid, starting from [INT32_MAX]. *)
Definition smallest_active_pid (e : os) (pids : list Z) : Z :=
  fold_left (fun m p => let p := i32 p in
    if (0 <? p) && kill_exists e p && (p <? m) then p else m) pids (2 ^ 31 - 1).

Definition amICleanupMaster (c : call) (r : RegistryRegion) : bool :=
  if negb (c_initialized c) then false
  else if negb (isLocked (c_lock c)) then false
  else getpid (c_os c) =? smallest_active_pid (c_os c) (ref_pids (header r)).

(** ** The life of the shared-memory object *)

(** [/librpc_registry]: absent, or present with its size and contents. *)
Inductive shm_obj :=
| Absent
| Present (sz : Z) (r : RegistryRegion).

(** The outcomes of the system calls of one operation on the object. *)
Record shm_calls := mkCalls {
  open_ok : bool;
  fstat_ok : bool;
  ftruncate_ok : bool;
  mmap_ok : bool;
  unlink_ok : bool
}.

Definition add_ref (h : RegistryHeader) (pids : list Z) (d : Z) : RegistryHeader :=
  mkHeader (h_magic h) (h_version h) (num_entries h) (capacity h) (u32 (ref_count h + d)) pids.

(** A region initialized by its creator. *)
Definition init_region (my_pid : Z) : RegistryRegion :=
  mkRegion
    (mkHeader MAGIC VERSION 0 (Z.of_nat MAX_REGISTRY_ENTRIES) 1
       (u32 my_pid :: replicate (MAX_REGISTRY_ENTRIES - 1) 0))
    (replicate MAX_REGISTRY_ENTRIES entry_zero).

(** A region no process has written yet. *)
Definition zero_region : RegistryRegion :=
  mkRegion (mkHeader 0 0 0 0 0 (replicate MAX_REGISTRY_ENTRIES 0)) (replicate MAX_REGISTRY_ENTRIES entry_zero).

(** Recording the process in [ref_pids] and counting it; [None] when the array is full. *)
Definition record_pid (my_pid : Z) (r : RegistryRegion) : option RegistryRegion :=
  match list_find (fun p => p = 0) (ref_pids (header r)) with
  | Some (i, _) =>
      Some (set_header r (add_ref (header r) (<[i := u32 my_pid]> (ref_pids (header r))) 1))
  | None => None
  end.

(** The wait for the magic number: each retry sees the region as it is then and
    takes the lock with some result. *)
Fixpoint attach_loop (my_pid : Z) (obs : list (RegistryRegion * LockResult)) : option RegistryRegion :=
  match obs with
  | [] => None
  | (r, lk) :: rest =>
      if (h_magic (header r) =? MAGIC) && isLocked lk then
        match record_pid my_pid r with
        | Some r' => Some r'
        | None => attach_loop my_pid rest
        end
      else attach_loop my_pid rest
  end.

Definition attach (my_pid : Z) (obs : list (RegistryRegion * LockResult)) : option RegistryRegion :=
  attach_loop my_pid (take 100 obs).

Section Object.
Variable sizeof_RegistryRegion : Z.

(** An object removed by [shm_unlink] whose failure the code ignores: what is left
    of a creation that failed half-way. *)
Definition unlinked (s : shm_calls) (sz : Z) : shm_obj :=
  if unlink_ok s then Absent else Present sz zero_region.

(** [initialize] of a fresh object ([initialized_] false). *)
Definition initialize (e : os) (s : shm_calls) (obs : list (RegistryRegion * LockResult))
    (obj : shm_obj) : bool * shm_obj :=
  match obj with
  | Absent =>
      if negb (open_ok s) then (false, Absent)
      else if negb (ftruncate_ok s) then (false, unlinked s 0)
      else if negb (mmap_ok s) then (false, unlinked s sizeof_RegistryRegion)
      else (true, Present sizeof_RegistryRegion (init_region (getpid e)))
  | Present sz r =>
      if negb (open_ok s) then (false, obj)
      else if fstat_ok s && (sz =? 0) then
        if negb (ftruncate_ok s) then (false, obj)
        else if negb (mmap_ok s) then (false, unlinked s sizeof_RegistryRegion)
        else (true, Present sizeof_RegistryRegion (init_region (getpid e)))
      else if fstat_ok s && negb (sz =? sizeof_RegistryRegion) then (false, obj)
      else if negb (mmap_ok s) then (false, obj)
      else
        match attach (getpid e) obs with
        | Some r' => (true, Present sz r')
        | None => (false, obj)
        end
  end.

(** The pids counted as alive by [cleanupOrphanedRegistry]. *)
Definition alive_pids (e : os) (r : RegistryRegion) : gset Z :=
  list_to_set
    (filter (fun p => 0 < p /\ kill_ok e p = true)
       ((i32 <$> ref_pids (header r))
        ++ ((fun x => i32 (pid x)) <$> filter (fun x => entry_valid x = true) (entries r)))).

Definition cleanupOrphanedRegistry (e : os) (s : shm_calls) (lk : LockResult) (obj : shm_obj)
    : bool * shm_obj :=
  match obj with
  | Absent => (true, Absent)
  | Present sz r =>
      if negb (open_ok s) then (true, obj)
      else if negb (mmap_ok s) then (false, obj)
      else if negb (isLocked lk) then (true, obj)
      else if h_magic (header r) =? MAGIC then
        let alive_count := size (alive_pids e r) in
        if (Z.of_nat alive_count =? 0) && unlink_ok s then (true, Absent) else (true, obj)
      else if (h_magic (header r) =? 0) && unlink_ok s then (true, Absent)
      else (true, obj)
  end.

(** [forceRemoveRegistry]; a failed [shm_open] of a present object is not ENOENT. *)
Definition forceRemoveRegistry (s : shm_calls) (lk : LockResult) (obj : shm_obj) : bool * shm_obj :=
  match obj with
  | Absent => (true, Absent)
  | Present _ _ =>
      let unlink := if unlink_ok s then (true, Absent) else (false, obj) in
      if negb (open_ok s) then unlink
      else if negb (mmap_ok s) then unlink
      else if isLocked lk then unlink
      else (false, obj)
  end.

(** The destructor's update under the lock. *)
Definition release_ref (my_pid : Z) (r : RegistryRegion) : RegistryRegion :=
  let pids := ref_pids (header r) in
  let pids' := match list_find (fun p => p = u32 my_pid) pids with
               | Some (i, _) => <[i := 0]> pids
               | None => pids
               end in
  set_header r (add_ref (header r) pids' (-1)).

(** [~SharedMemoryRegistry] of an initialized object; [lk2] is the lock result of
    the cleanup it may call. *)
Definition destroy (e : os) (s : shm_calls) (lk lk2 : LockResult) (obj : shm_obj) : shm_obj :=
  match obj with
  | Absent => Absent
  | Present sz r =>
      if isLocked lk then
        let r' := release_ref (getpid e) r in
        if ref_count (header r') =? 0
        then snd (cleanupOrphanedRegistry e s lk2 (Present sz r'))
        else Present sz r'
      else obj
  end.

End Object.

(** ** Atomic strings *)

Lemma pack_length n bs : length (pack n bs) = n.
Proof. revert bs. induction n; intros; simpl; auto. Qed.

Lemma unpack_pack n bs :
  bytes_ok bs -> length bs = (8 * n)%nat -> unpack (pack n bs) = bs.
Proof.
  revert bs. induction n as [|n IH]; intros bs Hb Hl.
  - by destruct bs.
  - cbn [pack]. unfold unpack in *. cbn [mbind list_bind].
    rewrite IH; [|by apply Forall_drop|rewrite length_drop; lia].
    assert (length (take 8 bs) = 8%nat) as H8 by (rewrite length_take; lia).
    rewrite <- H8 at 1. rewrite le_enc_dec by (by apply Forall_take).
    apply take_drop.
Qed.

(** A string that fits and has no NUL is read back as it was written. *)
Lemma atomic_string_roundtrip s :
  no_nul s -> str_size s < 64 -> readAtomicString (writeAtomicString s 64) 64 = s.
Proof.
  intros Hn Hs. unfold readAtomicString, writeAtomicString.
  pose proof (strncpy_zlen (64 - 1) s ltac:(lia)) as Hl. unfold zlen in Hl.
  rewrite unpack_pack.
  - rewrite take_app_length' by lia.
    pose proof (strncpy_until_nul 63 s [] Hn ltac:(lia)) as HU.
    replace (until_nul (strncpy (64 - 1) s)) with (bytes_of_string s); [apply string_of_bytes_of_string|].
    rewrite <- HU. clear. change (64 - 1) with 63. generalize (strncpy 63 s). intros l.
    induction l as [|b l IH]; simpl; [done|]. destruct (b =? 0); [done|]. by f_equal.
  - apply Forall_app. split; [apply strncpy_bytes_ok|]. constructor; [unfold byte_ok; lia|constructor].
  - rewrite length_app. simpl. lia.
Qed.

(** ** The abstract registry: a finite map from node id to node *)

Definition valid_pairs (es : list RegistryEntry) : list (string * NodeInfo) :=
  (fun e => (entry_node_id e, entry_info e)) <$> filter (fun e => entry_valid e = true) es.

Definition nodes (r : RegistryRegion) : gmap string NodeInfo := list_to_map (valid_pairs (entries r)).

Record reg_wf (r : RegistryRegion) : Prop := mkRegWf {
  wf_length : length (entries r) = MAX_REGISTRY_ENTRIES;
  wf_flags : Forall (fun e => flags e = 0 \/ flags e = 3) (entries r);
  wf_ids : NoDup (valid_pairs (entries r)).*1;
  wf_count : num_entries (header r) = zlen (valid_pairs (entries r));
  wf_ref_pids : length (ref_pids (header r)) = MAX_REGISTRY_ENTRIES
}.

Lemma valid_pairs_app a b : valid_pairs (a ++ b) = valid_pairs a ++ valid_pairs b.
Proof. unfold valid_pairs. by rewrite filter_app, fmap_app. Qed.

Lemma valid_pairs_cons_valid e l :
  entry_valid e = true -> valid_pairs (e :: l) = (entry_node_id e, entry_info e) :: valid_pairs l.
Proof. intros. unfold valid_pairs. by rewrite filter_cons_True. Qed.

Lemma valid_pairs_cons_invalid e l : entry_valid e = false -> valid_pairs (e :: l) = valid_pairs l.
Proof. intros H. unfold valid_pairs. rewrite filter_cons_False; [done|]. by rewrite H. Qed.

Lemma valid_pairs_zlen es : zlen (valid_pairs es) <= zlen es.
Proof.
  unfold valid_pairs, zlen. rewrite length_fmap.
  pose proof (length_filter (fun e => entry_valid e = true) es). lia.
Qed.

Section Middle.
Context (a b : list RegistryEntry) (e : RegistryEntry).

Lemma pairs_middle_valid :
  entry_valid e = true ->
  valid_pairs (a ++ e :: b) ≡ₚ (entry_node_id e, entry_info e) :: valid_pairs (a ++ b).
Proof.
  intros. rewrite !valid_pairs_app, valid_pairs_cons_valid by done. by rewrite Permutation_middle.
Qed.

Lemma pairs_middle_invalid :
  entry_valid e = false -> valid_pairs (a ++ e :: b) = valid_pairs (a ++ b).
Proof. intros. by rewrite !valid_pairs_app, valid_pairs_cons_invalid. Qed.

Lemma nodup_middle :
  entry_valid e = true ->
  NoDup ((valid_pairs (a ++ e :: b)).*1) <->
  (entry_node_id e ∉ (valid_pairs (a ++ b)).*1) /\ NoDup ((valid_pairs (a ++ b)).*1).
Proof.
  intros Hv. rewrite (pairs_middle_valid Hv). cbn [fmap list_fmap fst]. by rewrite NoDup_cons.
Qed.

Lemma nodes_middle :
  entry_valid e = true -> NoDup (valid_pairs (a ++ e :: b)).*1 ->
  (list_to_map (valid_pairs (a ++ e :: b)) : gmap string NodeInfo)
  = <[entry_node_id e := entry_info e]> (list_to_map (valid_pairs (a ++ b))).
Proof.
  intros Hv Hn. rewrite (list_to_map_proper _ _ Hn (pairs_middle_valid Hv)). done.
Qed.

Lemma zlen_middle_valid :
  entry_valid e = true -> zlen (valid_pairs (a ++ e :: b)) = 1 + zlen (valid_pairs (a ++ b)).
Proof.
  intros Hv. unfold zlen. rewrite (pairs_middle_valid Hv). cbn [length]. lia.
Qed.

End Middle.

Lemma not_in_ids es id :
  (id ∉ (valid_pairs es).*1) <-> (list_to_map (valid_pairs es) : gmap string NodeInfo) !! id = None.
Proof. symmetry. rewrite <- not_elem_of_list_to_map. done. Qed.

(** Reading an entry at an index splits the table around it. *)
Lemma entries_split (r : RegistryRegion) i e e' :
  entries r !! i = Some e ->
  exists a b, entries r = a ++ e :: b /\ <[i := e']> (entries r) = a ++ e' :: b /\ length a = i.
Proof.
  intros H. exists (take i (entries r)), (drop (S i) (entries r)).
  pose proof (lookup_lt_Some _ _ _ H). split; [symmetry; by apply take_drop_middle|].
  split; [by apply insert_take_drop|]. rewrite length_take. lia.
Qed.

Lemma findEntryIndex_Some id r i :
  findEntryIndex id r = Some i ->
  exists e, entries r !! i = Some e /\ entry_valid e = true /\ entry_node_id e = id.
Proof.
  unfold findEntryIndex. intros H. apply fmap_Some in H as ([j e] & H & ->).
  apply list_find_Some in H as (? & [? ?] & _). eauto.
Qed.

Lemma findEntryIndex_None id r :
  findEntryIndex id r = None -> nodes r !! id = None.
Proof.
  unfold findEntryIndex. intros H. apply fmap_None, list_find_None in H.
  apply not_in_ids. intros Hin. apply list_elem_of_fmap in Hin as ([k info] & -> & Hin).
  unfold valid_pairs in Hin. apply list_elem_of_fmap in Hin as (e & Heq & He).
  apply list_elem_of_filter in He as [Hv He]. simplify_eq/=.
  rewrite Forall_forall in H. by apply (H e).
Qed.

(** The lookup in the table is the lookup in the map. *)
Lemma findEntryIndex_nodes id r i e :
  reg_wf r -> findEntryIndex id r = Some i -> entries r !! i = Some e ->
  nodes r !! id = Some (entry_info e).
Proof.
  intros Hwf Hf He. destruct (findEntryIndex_Some _ _ _ Hf) as (e' & He' & Hv & <-). simplify_eq.
  destruct (entries_split r i e e He) as (a & b & Hs & _). unfold nodes.
  destruct Hwf as [_ _ Hn _ _]. rewrite Hs in *. rewrite nodes_middle by done. apply lookup_insert_eq.
Qed.

Lemma fresh_entry_id e id name p now :
  no_nul id -> str_size id < 64 -> entry_node_id (fresh_entry e id name p now) = id.
Proof. intros. by apply atomic_string_roundtrip. Qed.

(** The node a successful registration publishes. *)
Definition registered (c : call) (id name : string) : NodeInfo :=
  mkNodeInfo id name (i32 (u32 (getpid (c_os c)))) (steady_ms (c_os c)) true.

Lemma fresh_entry_info e id name c :
  no_nul id -> str_size id < 64 -> no_nul name -> str_size name < 64 ->
  entry_info (fresh_entry e id name (getpid (c_os c)) (steady_ms (c_os c))) = registered c id name.
Proof.
  intros. unfold entry_info, registered. rewrite fresh_entry_id by done.
  unfold fresh_entry. cbn [shm_name_atomic pid last_heartbeat flags]. f_equal.
  by apply atomic_string_roundtrip.
Qed.

Lemma updated_entry_info e name c :
  no_nul name -> str_size name < 64 ->
  entry_info (updated_entry e name (getpid (c_os c)) (steady_ms (c_os c)))
  = registered c (entry_node_id e) name.
Proof.
  intros. unfold entry_info, registered, updated_entry, entry_node_id.
  cbn [shm_name_atomic node_id_atomic pid last_heartbeat flags]. f_equal.
  by apply atomic_string_roundtrip.
Qed.

(** Replacing entry [e] at [i] by the valid entry [e'] whose id no other entry has. *)
Lemma replace_valid r i e e' :
  reg_wf r -> entries r !! i = Some e -> flags e' = 3 ->
  (entry_valid e = true -> entry_node_id e' = entry_node_id e) ->
  (entry_valid e = false -> nodes r !! entry_node_id e' = None) ->
  nodes (set_entry r i e') = <[entry_node_id e' := entry_info e']> (nodes r)
  /\ NoDup (valid_pairs (entries (set_entry r i e'))).*1
  /\ zlen (valid_pairs (entries (set_entry r i e')))
     = zlen (valid_pairs (entries r)) + (if entry_valid e then 0 else 1).
Proof.
  intros [_ _ Hn _ _] He Hf Hid Hfree. unfold nodes, set_entry in *. cbn [entries].
  destruct (entries_split r i e e' He) as (a & b & Hs & -> & _).
  assert (entry_valid e' = true) as Hv' by (unfold entry_valid; by rewrite Hf).
  rewrite Hs in *. destruct (entry_valid e) eqn:Hv.
  - specialize (Hid eq_refl). assert (NoDup (valid_pairs (a ++ e' :: b)).*1) as Hn'.
    { apply nodup_middle; [done|]. rewrite Hid. by apply nodup_middle. }
    split; [|split; [done|]].
    + rewrite !nodes_middle by done. rewrite Hid. by rewrite insert_insert_eq.
    + rewrite !zlen_middle_valid by done. lia.
  - specialize (Hfree eq_refl). rewrite (pairs_middle_invalid a b e Hv) in *.
    assert (NoDup (valid_pairs (a ++ e' :: b)).*1) as Hn'.
    { apply nodup_middle; [done|]. split; [by apply not_in_ids|done]. }
    split; [by rewrite nodes_middle|]. split; [done|]. rewrite zlen_middle_valid by done. lia.
Qed.

(** Invalidating entry [e] at [i]. *)
Lemma replace_cleared r i e e' :
  reg_wf r -> entries r !! i = Some e -> entry_valid e = true -> flags e' = 0 ->
  nodes (set_entry r i e') = delete (entry_node_id e) (nodes r)
  /\ NoDup (valid_pairs (entries (set_entry r i e'))).*1
  /\ zlen (valid_pairs (entries (set_entry r i e'))) = zlen (valid_pairs (entries r)) - 1.
Proof.
  intros [_ _ Hn _ _] He Hv Hf. unfold nodes, set_entry. cbn [entries].
  destruct (entries_split r i e e' He) as (a & b & Hs & -> & _).
  assert (entry_valid e' = false) as Hv' by (unfold entry_valid; by rewrite Hf).
  rewrite Hs in *. rewrite (pairs_middle_invalid a b e' Hv').
  pose proof Hn as Hn2. apply nodup_middle in Hn2 as [Hni Hn2]; [|done].
  split; [|split; [done|]].
  - rewrite nodes_middle by done. rewrite delete_insert_id; [done|]. by apply not_in_ids.
  - rewrite zlen_middle_valid by done. lia.
Qed.

Lemma valid_count_bound r : length (entries r) = MAX_REGISTRY_ENTRIES -> 0 <= zlen (valid_pairs (entries r)) <= 256.
Proof.
  intros H. pose proof (valid_pairs_zlen (entries r)). pose proof (zlen_nonneg (valid_pairs (entries r))).
  unfold zlen at 2 in H0. rewrite H in H0. unfold MAX_REGISTRY_ENTRIES in H0. lia.
Qed.

Lemma wf_set_entry r i e' d :
  reg_wf r -> flags e' = 0 \/ flags e' = 3 ->
  NoDup (valid_pairs (entries (set_entry r i e'))).*1 ->
  zlen (valid_pairs (entries (set_entry r i e'))) = zlen (valid_pairs (entries r)) + d ->
  reg_wf (set_header (set_entry r i e') (add_num_entries (header r) d)).
Proof.
  intros [Hl Hfl Hn Hc Hp] Hf Hn' Hz. split; cbn [entries set_header header set_entry]; try done.
  - by rewrite length_insert.
  - by apply Forall_insert.
  - unfold add_num_entries. cbn [num_entries]. rewrite Hc.
    cbn [entries set_entry] in Hz. rewrite Hz. apply wrap_small. rewrite <- Hz.
    pose proof (valid_count_bound (set_entry r i e') ltac:(simpl; by rewrite length_insert)) as Hb.
    cbn [entries set_entry] in Hb. lia.
Qed.

Lemma wf_set_entry_same r i e' :
  reg_wf r -> flags e' = 0 \/ flags e' = 3 ->
  NoDup (valid_pairs (entries (set_entry r i e'))).*1 ->
  zlen (valid_pairs (entries (set_entry r i e'))) = zlen (valid_pairs (entries r)) ->
  reg_wf (set_entry r i e').
Proof.
  intros [Hl Hfl Hn Hc Hp] Hf Hn' Hz. split; cbn [entries header set_entry] in *; try done.
  - by rewrite length_insert.
  - by apply Forall_insert.
  - by rewrite Hz.
Qed.

Lemma nodes_size r : reg_wf r -> Z.of_nat (size (nodes r)) = zlen (valid_pairs (entries r)).
Proof.
  intros [_ _ Hn _ _]. unfold nodes, zlen. rewrite map_size_list_to_map by done. done.
Qed.

(** A table of entries with flags 0 or 3 has a free slot unless all are valid. *)
Lemma all_valid_length (es : list RegistryEntry) :
  Forall (fun e => ~ flags e = 0) es -> Forall (fun e => flags e = 0 \/ flags e = 3) es ->
  length (valid_pairs es) = length es.
Proof.
  intros H1 H2. induction es as [|e es IH]; [done|]. inversion_clear H1 as [|? ? Ha Hb]. inversion_clear H2 as [|? ? Hc Hd].
  rewrite valid_pairs_cons_valid; [simpl; by rewrite IH|].
  unfold entry_valid. destruct Hc as [Hc|Hc]; [done|]. by rewrite Hc.
Qed.

Lemma free_slot r :
  reg_wf r ->
  (exists i e, list_find (fun e => flags e = 0) (entries r) = Some (i, e)) <-> (size (nodes r) < 256)%nat.
Proof.
  intros Hwf. pose proof (nodes_size r Hwf) as Hs. destruct (Hwf) as [Hl Hf Hn _ _].
  split.
  - intros (i & e & H). apply list_find_Some in H as (He & Hfl & _).
    destruct (entries_split r i e e He) as (a & b & Heq & _).
    assert (valid_pairs (entries r) = valid_pairs (a ++ b)) as E
      by (rewrite Heq; apply pairs_middle_invalid; unfold entry_valid; by rewrite Hfl).
    rewrite E in Hs. pose proof (valid_pairs_zlen (a ++ b)). unfold MAX_REGISTRY_ENTRIES in Hl.
    unfold zlen in *. rewrite Heq in Hl. rewrite length_app in *. simpl in Hl. lia.
  - intros Hlt. destruct (list_find _ _) as [[i e]|] eqn:E; [eauto|]. apply list_find_None in E.
    pose proof (all_valid_length _ E Hf). unfold zlen, MAX_REGISTRY_ENTRIES in *. lia.
Qed.

(** The conditions under which [registerNode] succeeds. *)
Definition admissible (c : call) (id name : string) (m : gmap string NodeInfo) : bool :=
  c_initialized c && negb (str_empty id || str_empty name)
  && negb ((NODE_ID_SIZE <=? str_size id) || (SHM_NAME_SIZE <=? str_size name))
  && isLocked (c_lock c)
  && (bool_decide (is_Some (m !! id)) || bool_decide (size m < 256)%nat).

Lemma registerNode_cases c id name r :
  reg_wf r -> no_nul id -> no_nul name ->
  reg_wf (registerNode c id name r).2
  /\ (registerNode c id name r).1 = admissible c id name (nodes r)
  /\ nodes (registerNode c id name r).2
     = if admissible c id name (nodes r) then <[id := registered c id name]> (nodes r) else nodes r.
Proof.
  intros Hwf Hid Hname. unfold registerNode, admissible, NODE_ID_SIZE, SHM_NAME_SIZE.
  destruct (c_initialized c); [|done]. destruct (str_empty id || str_empty name); [done|].
  destruct (_ || _) eqn:Esz; [done|]. btest. destruct (isLocked (c_lock c)); [|done]. simpl.
  destruct (findEntryIndex id r) as [i|] eqn:Ef.
  - destruct (findEntryIndex_Some _ _ _ Ef) as (e & He & Hv & Eid).
    rewrite (findEntryIndex_nodes _ _ _ _ Hwf Ef He), He, bool_decide_eq_true_2 by eauto. simpl.
    destruct (replace_valid r i e (updated_entry e name (getpid (c_os c)) (steady_ms (c_os c))))
      as (Hm & Hn & Hz); [done|done|done|done|congruence|].
    rewrite Hv, Z.add_0_r in Hz. split; [apply wf_set_entry_same; auto|]. split; [done|].
    rewrite Hm. rewrite updated_entry_info by done. rewrite Eid.
    unfold entry_node_id, updated_entry at 1. cbn [node_id_atomic]. by fold (entry_node_id e); rewrite Eid.
  - pose proof (findEntryIndex_None _ _ Ef) as Hnone. rewrite Hnone, (bool_decide_eq_false_2 (is_Some None)) by (by intros []).
    simpl. pose proof (free_slot r Hwf) as Hfs.
    destruct (list_find _ (entries r)) as [[i e]|] eqn:Efree.
    + rewrite bool_decide_eq_true_2 by (apply Hfs; eauto). apply list_find_Some in Efree as (He & Hfl & _).
      assert (entry_valid e = false) as Hv by (unfold entry_valid; by rewrite Hfl).
      destruct (replace_valid r i e (fresh_entry e id name (getpid (c_os c)) (steady_ms (c_os c))))
        as (Hm & Hn & Hz); [done|done|done|congruence|by rewrite fresh_entry_id|].
      rewrite Hv in Hz. split; [apply wf_set_entry; auto|]. split; [done|].
      cbn [snd]. change (nodes (set_header ?x _)) with (nodes x). rewrite Hm.
      by rewrite fresh_entry_info, fresh_entry_id.
    + rewrite bool_decide_eq_false_2; [done|]. intros Hlt. apply Hfs in Hlt as (? & ? & ?). done.
Qed.

Lemma unregisterNode_cases c id r :
  reg_wf r ->
  reg_wf (unregisterNode c id r).2
  /\ (unregisterNode c id r).1
     = c_initialized c && isLocked (c_lock c) && bool_decide (is_Some (nodes r !! id))
  /\ nodes (unregisterNode c id r).2
     = if c_initialized c && isLocked (c_lock c) then delete id (nodes r) else nodes r.
Proof.
  intros Hwf. unfold unregisterNode. destruct (c_initialized c); [|done].
  destruct (isLocked (c_lock c)); [|done]. simpl. destruct (findEntryIndex id r) as [i|] eqn:Ef.
  - destruct (findEntryIndex_Some _ _ _ Ef) as (e & He & Hv & Eid).
    rewrite (findEntryIndex_nodes _ _ _ _ Hwf Ef He), He, bool_decide_eq_true_2 by eauto.
    destruct (replace_cleared r i e (cleared_entry e 1)) as (Hm & Hn & Hz); [done..|].
    rewrite Eid in Hm. split; [apply wf_set_entry; auto|]. done.
  - apply findEntryIndex_None in Ef. rewrite Ef, bool_decide_eq_false_2 by (by intros []).
    split; [done|]. split; [done|]. by rewrite delete_id.
Qed.

Definition beat (ts : Z) (i : NodeInfo) : NodeInfo :=
  mkNodeInfo (ni_node_id i) (ni_shm_name i) (ni_pid i) ts (ni_active i).

Lemma updateHeartbeat_cases c id r :
  reg_wf r ->
  reg_wf (updateHeartbeat c id r).2
  /\ (updateHeartbeat c id r).1
     = c_initialized c && isLocked (c_lock c) && bool_decide (is_Some (nodes r !! id))
  /\ nodes (updateHeartbeat c id r).2
     = if c_initialized c && isLocked (c_lock c) then alter (beat (steady_ms (c_os c))) id (nodes r)
       else nodes r.
Proof.
  intros Hwf. unfold updateHeartbeat. destruct (c_initialized c); [|done].
  destruct (isLocked (c_lock c)); [|done]. simpl. destruct (findEntryIndex id r) as [i|] eqn:Ef.
  - destruct (findEntryIndex_Some _ _ _ Ef) as (e & He & Hv & Eid).
    pose proof (findEntryIndex_nodes _ _ _ _ Hwf Ef He) as Hlook.
    rewrite Hlook, He, bool_decide_eq_true_2, Z.eqb_refl by eauto.
    assert (flags e = 3) as Hfl.
    { destruct Hwf as [_ Hf _ _ _]. pose proof (Forall_lookup_1 _ _ _ _ Hf He) as [E|E]; [|done].
      unfold entry_valid in Hv. by rewrite E in Hv. }
    destruct (replace_valid r i e (with_heartbeat e (steady_ms (c_os c)))) as (Hm & Hn & Hz);
      [done|done|done|done|congruence|].
    rewrite Hv, Z.add_0_r in Hz. split; [apply wf_set_entry_same; auto|]. split; [done|].
    cbn [snd]. rewrite Hm. change (entry_node_id (with_heartbeat e _)) with (entry_node_id e). rewrite Eid.
    apply map_eq. intros k. rewrite lookup_alter, lookup_insert. case_decide; [|done].
    subst. by rewrite Hlook.
  - apply findEntryIndex_None in Ef. rewrite Ef, bool_decide_eq_false_2 by (by intros []).
    split; [done|]. split; [done|]. apply map_eq. intros k. rewrite lookup_alter.
    case_decide; [|done]. subst. by rewrite Ef.
Qed.

(** ** Stale nodes *)

(** The staleness test on a published node. *)
Definition info_stale (e : os) (timeout_ms : Z) (i : NodeInfo) : bool :=
  negb (ni_last_heartbeat i =? 0)
  && ((timeout_ms <? (if ni_last_heartbeat i <=? steady_ms e then steady_ms e - ni_last_heartbeat i else 0))
      || negb (isProcessAlive e (ni_pid i))).

Lemma entry_stale_info e t x : entry_valid x = true -> entry_stale e t x = info_stale e t (entry_info x).
Proof.
  intros Hv. unfold entry_stale, info_stale, entry_info. rewrite Hv. cbn [ni_last_heartbeat ni_pid negb].
  by destruct (last_heartbeat x =? 0).
Qed.

Lemma clean_entries_spec e t es :
  let r := clean_entries e t es in
  valid_pairs r.1 = filter (fun p => info_stale e t p.2 = false) (valid_pairs es)
  /\ r.2 = zlen (filter (fun p => info_stale e t p.2 = true) (valid_pairs es))
  /\ length r.1 = length es
  /\ (Forall (fun x => flags x = 0 \/ flags x = 3) es -> Forall (fun x => flags x = 0 \/ flags x = 3) r.1).
Proof.
  induction es as [|x es IH]; [done|]. cbn [clean_entries].
  destruct (clean_entries e t es) as [es' n]. simpl in IH. destruct IH as (IH1 & IH2 & IH3 & IH4).
  destruct (entry_valid x) eqn:Hv.
  - rewrite (valid_pairs_cons_valid x es Hv), entry_stale_info by done. rewrite !filter_cons. simpl.
    destruct (info_stale e t (entry_info x)) eqn:Es; simpl.
    + rewrite valid_pairs_cons_invalid by done. split; [done|]. split.
      * rewrite IH2. unfold zlen. simpl. lia.
      * split; [by f_equal|]. inversion 1; subst. constructor; auto.
    + rewrite valid_pairs_cons_valid by done. split; [by f_equal|]. split; [done|].
      split; [by f_equal|]. inversion 1; subst. constructor; auto.
  - assert (entry_stale e t x = false) as -> by (unfold entry_stale; by rewrite Hv).
    rewrite (valid_pairs_cons_invalid x es Hv). simpl. rewrite valid_pairs_cons_invalid by done.
    split; [done|]. split; [done|]. split; [by f_equal|]. inversion 1; subst. constructor; auto.
Qed.

Lemma list_to_map_filter_snd {A} (f : A -> bool) (l : list (string * A)) :
  NoDup (l.*1) ->
  (list_to_map (filter (fun p => f p.2 = false) l) : gmap string A)
  = filter (fun p => f p.2 = false) (list_to_map l).
Proof.
  induction l as [|[k x] l IH]; intros Hn; [done|].
  cbn [fmap list_fmap fst] in Hn. apply NoDup_cons in Hn as [Hk Hn].
  rewrite filter_cons. simpl. case_decide as HP; simpl.
  - rewrite IH by done. symmetry. by apply map_filter_insert_True.
  - rewrite IH by done. rewrite map_filter_insert_False by done.
    f_equal. rewrite delete_id; [done|]. by apply not_elem_of_list_to_map.
Qed.

Lemma filter_split_length {A} (f : A -> bool) (l : list A) :
  zlen l = zlen (filter (fun x => f x = false) l) + zlen (filter (fun x => f x = true) l).
Proof.
  induction l as [|x l IH]; [done|]. rewrite !filter_cons. unfold zlen in *.
  destruct (f x); simpl; lia.
Qed.

Lemma NoDup_fst_filter {A} (P : string * A -> Prop) `{!forall x, Decision (P x)} (l : list (string * A)) :
  NoDup (l.*1) -> NoDup ((filter P l).*1).
Proof.
  intros Hn. eapply sublist_NoDup; [exact Hn|]. apply fmap_sublist, sublist_filter.
Qed.

Lemma cleanupStaleNodes_cases c t r :
  reg_wf r ->
  let r' := cleanupStaleNodes c t r in
  reg_wf r'.2
  /\ nodes r'.2
     = (if c_initialized c && isLocked (c_lock c)
        then filter (fun p => info_stale (c_os c) t p.2 = false) (nodes r) else nodes r)
  /\ r'.1 = Z.of_nat (size (nodes r)) - Z.of_nat (size (nodes r'.2)).
Proof.
  intros Hwf r'. unfold r', cleanupStaleNodes.
  destruct (c_initialized c); [|simpl; split; [done|]; split; [done|lia]].
  destruct (isLocked (c_lock c)); [|simpl; split; [done|]; split; [done|lia]]. simpl.
  pose proof (clean_entries_spec (c_os c) t (entries r)) as Hs. cbv zeta in Hs.
  destruct (clean_entries (c_os c) t (entries r)) as [es n]. simpl in *. destruct Hs as (Hv & Hn & Hl & Hf).
  pose proof (nodes_size r Hwf) as Hsz. destruct (Hwf) as [Hlen Hfl Hnd Hc Hp].
  pose proof (filter_split_length (fun p => info_stale (c_os c) t p.2) (valid_pairs (entries r))) as Hsplit.
  cbv beta in Hsplit.
  pose proof (valid_count_bound r Hlen).
  assert (reg_wf (mkRegion (add_num_entries (header r) (- n)) es)) as Hwf'.
  { split; cbn [entries header]; [lia|auto|rewrite Hv; by apply NoDup_fst_filter| |done].
    unfold add_num_entries. cbn [num_entries]. rewrite Hc, Hv, Hn, Hsplit.
    pose proof (zlen_nonneg (filter (fun p => info_stale (c_os c) t p.2 = false) (valid_pairs (entries r)))).
    pose proof (zlen_nonneg (filter (fun p => info_stale (c_os c) t p.2 = true) (valid_pairs (entries r)))).
    unfold u32. rewrite wrap_small by lia. lia. }
  split; [done|]. split.
  - unfold nodes. cbn [entries]. rewrite Hv.
    by apply (list_to_map_filter_snd (info_stale (c_os c) t)).
  - rewrite !nodes_size by done. cbn [entries]. rewrite Hv, Hsplit. lia.
Qed.

(** ** Operations and their specification on the map *)

Inductive reg_op :=
| ORegister (id name : string)
| OUnregister (id : string)
| OHeartbeat (id : string)
| OCleanup (timeout_ms : Z).

(** Names without an embedded NUL: the table stores C strings. *)
Definition op_ok (o : reg_op) : Prop :=
  match o with
  | ORegister id name => no_nul id /\ no_nul name
  | _ => True
  end.

Definition exec (c : call) (o : reg_op) (r : RegistryRegion) : RegistryRegion :=
  match o with
  | ORegister id name => (registerNode c id name r).2
  | OUnregister id => (unregisterNode c id r).2
  | OHeartbeat id => (updateHeartbeat c id r).2
  | OCleanup t => (cleanupStaleNodes c t r).2
  end.

(** What each operation promises on the map of nodes. *)
Definition spec (c : call) (o : reg_op) (m : gmap string NodeInfo) : gmap string NodeInfo :=
  match o with
  | ORegister id name => if admissible c id name m then <[id := registered c id name]> m else m
  | _ =>
      if c_initialized c && isLocked (c_lock c) then
        match o with
        | OUnregister id => delete id m
        | OHeartbeat id => alter (beat (steady_ms (c_os c))) id m
        | OCleanup t => filter (fun p => info_stale (c_os c) t p.2 = false) m
        | ORegister _ _ => m
        end
      else m
  end.

Lemma exec_refines c o r :
  reg_wf r -> op_ok o -> reg_wf (exec c o r) /\ nodes (exec c o r) = spec c o (nodes r).
Proof.
  intros Hwf Ho. destruct o as [id name|id|id|t]; simpl in *.
  - destruct Ho. destruct (registerNode_cases c id name r) as (? & _ & ?); auto.
  - destruct (unregisterNode_cases c id r Hwf) as (? & _ & ?); auto.
  - destruct (updateHeartbeat_cases c id r Hwf) as (? & _ & ?); auto.
  - destruct (cleanupStaleNodes_cases c t r Hwf) as (? & ? & _); auto.
Qed.

(** One operation by some process. *)
Inductive reg_step : RegistryRegion -> RegistryRegion -> Prop :=
| reg_step_intro c o r : op_ok o -> reg_step r (exec c o r).

Lemma init_wf p : reg_wf (init_region p).
Proof.
  assert (valid_pairs (replicate MAX_REGISTRY_ENTRIES entry_zero) = []) as E by (vm_compute; reflexivity).
  split; cbn [entries header init_region num_entries ref_pids].
  - apply length_replicate.
  - apply Forall_replicate. by left.
  - rewrite E. constructor.
  - by rewrite E.
  - vm_compute. reflexivity.
Qed.

Lemma findNode_nodes c id r :
  reg_wf r -> c_initialized c = true -> isLocked (c_lock c) = true ->
  findNode c id r = nodes r !! id.
Proof.
  intros Hwf Hi Hl. unfold findNode. rewrite Hi, Hl. simpl.
  destruct (findEntryIndex id r) as [i|] eqn:Ef; [|symmetry; by apply findEntryIndex_None].
  destruct (findEntryIndex_Some _ _ _ Ef) as (e & He & _). rewrite He. simpl.
  symmetry. by eapply findEntryIndex_nodes.
Qed.

Lemma findEntryIndex_iff id r : is_Some (findEntryIndex id r) <-> is_Some (nodes r !! id).
Proof.
  split; intros H.
  - destruct (nodes r !! id) eqn:E; [done|]. apply not_in_ids in E. exfalso. apply E.
    destruct H as [i H]. destruct (findEntryIndex_Some _ _ _ H) as (e & He & Hv & <-).
    apply list_elem_of_fmap. exists (entry_node_id e, entry_info e). split; [done|].
    unfold valid_pairs. apply list_elem_of_fmap. exists e. split; [done|].
    apply list_elem_of_filter. split; [done|]. by eapply list_elem_of_lookup_2.
  - destruct (findEntryIndex id r) eqn:E; [done|]. apply findEntryIndex_None in E. rewrite E in H. by destruct H.
Qed.

Lemma nodeExists_nodes c id r :
  reg_wf r -> c_initialized c = true -> isLocked (c_lock c) = true ->
  nodeExists c id r = bool_decide (is_Some (nodes r !! id)).
Proof.
  intros Hwf Hi Hl. unfold nodeExists. rewrite Hi, Hl. simpl.
  destruct (findEntryIndex id r) as [i|] eqn:Ef.
  - destruct (findEntryIndex_Some _ _ _ Ef) as (e & He & Hv & _). rewrite He.
    rewrite bool_decide_eq_true_2 by (apply findEntryIndex_iff; eauto).
    destruct Hwf as [_ Hf _ _ _]. destruct (Forall_lookup_1 _ _ _ _ Hf He) as [E|E]; unfold entry_valid in Hv; by rewrite E in *.
  - rewrite (findEntryIndex_None _ _ Ef). done.
Qed.

Lemma valid_pairs_info es : (valid_pairs es).*2 = entry_info <$> filter (fun e => entry_valid e = true) es.
Proof. unfold valid_pairs. rewrite <- list_fmap_compose. done. Qed.

Lemma getAllNodes_nodes c r :
  reg_wf r -> c_initialized c = true -> isLocked (c_lock c) = true ->
  getAllNodes c r ≡ₚ (map_to_list (nodes r)).*2.
Proof.
  intros [_ _ Hn _ _] Hi Hl. unfold getAllNodes. rewrite Hi, Hl. simpl. rewrite <- valid_pairs_info.
  apply fmap_Permutation. unfold nodes. symmetry. by apply map_to_list_to_map.
Qed.

(** ** Election of the cleanup master *)

(** The processes recorded in [ref_pids] that [kill] finds. *)
Definition live_pids (e : os) (pids : list Z) : list Z :=
  filter (fun p => 0 < p /\ kill_exists e p = true) (i32 <$> pids).

Lemma smallest_active_pid_spec e pids m0 :
  let m := fold_left (fun m p => let p := i32 p in
             if (0 <? p) && kill_exists e p && (p <? m) then p else m) pids m0 in
  m <= m0 /\ Forall (fun q => m <= q) (live_pids e pids) /\ (m = m0 \/ m ∈ live_pids e pids).
Proof.
  revert m0. induction pids as [|p pids IH]; intros m0; [simpl; split; [lia|]; split; [constructor|auto]|].
  unfold live_pids. cbn [fmap list_fmap fold_left]. rewrite filter_cons. fold (live_pids e pids). cbv zeta in *.
  set (m1 := if _ && _ && _ then _ else _). destruct (IH m1) as (H1 & H2 & H3).
  set (m := fold_left _ _ m1) in *.
  case_decide as Hd; unfold m1 in H1, H3.
  - destruct Hd as [Hp Hk]. rewrite (proj2 (Z.ltb_lt 0 _) Hp), Hk in H1, H3. cbn [andb] in H1, H3.
    destruct (Z.ltb_spec (i32 p) m0).
    + split; [lia|]. split; [constructor; [lia|done]|]. right. destruct H3 as [->|H3]; [left|by right].
    + split; [lia|]. split; [constructor; [lia|done]|]. destruct H3; [by left|right; by right].
  - assert ((0 <? i32 p) && kill_exists e (i32 p) = false) as E.
    { apply andb_false_iff. destruct (Z.ltb_spec 0 (i32 p)); [|by left]. right.
      destruct (kill_exists _ _); [|done]. exfalso. apply Hd. done. }
    rewrite E in H1, H3. auto.
Qed.

(** ** Reference counting *)

(** [ref_count] counts the occupied slots of [ref_pids]. *)
Definition occupied (pids : list Z) : Z := zlen (filter (fun p => p <> 0) pids).

Definition refs_ok (r : RegistryRegion) : Prop :=
  ref_count (header r) = occupied (ref_pids (header r))
  /\ length (ref_pids (header r)) = MAX_REGISTRY_ENTRIES.

Lemma occupied_insert pids i p q :
  pids !! i = Some p ->
  occupied (<[i := q]> pids) = occupied pids - (if p =? 0 then 0 else 1) + (if q =? 0 then 0 else 1).
Proof.
  intros H. pose proof (lookup_lt_Some _ _ _ H).
  rewrite insert_take_drop by done. rewrite <- (take_drop_middle _ _ _ H) at 3.
  unfold occupied, zlen. rewrite !filter_app, !filter_cons, !length_app.
  repeat case_decide; simpl; destruct (Z.eqb_spec p 0), (Z.eqb_spec q 0); try done; lia.
Qed.

Lemma occupied_bound pids : 0 <= occupied pids <= zlen pids.
Proof. unfold occupied, zlen. pose proof (length_filter (fun p : Z => p <> 0) pids). lia. Qed.

Lemma record_pid_refs p r r' :
  refs_ok r -> u32 p <> 0 -> record_pid p r = Some r' ->
  refs_ok r' /\ ref_count (header r') = ref_count (header r) + 1 /\ u32 p ∈ ref_pids (header r').
Proof.
  intros [Hc Hl] Hp. unfold record_pid. destruct (list_find _ _) as [[i q]|] eqn:E; [|done]. intros [= <-].
  apply list_find_Some in E as (Hi & -> & _). pose proof (lookup_lt_Some _ _ _ Hi).
  pose proof (occupied_insert _ _ _ (u32 p) Hi) as Ho. simpl in Ho. rewrite (proj2 (Z.eqb_neq _ _) Hp) in Ho.
  pose proof (occupied_bound (<[i := u32 p]> (ref_pids (header r)))) as Hb. unfold zlen in Hb.
  rewrite length_insert, Hl in Hb. unfold MAX_REGISTRY_ENTRIES in Hb.
  unfold refs_ok, set_header, add_ref. cbn [header ref_count ref_pids].
  rewrite length_insert, Hc. unfold u32 at 1 3. rewrite wrap_small by lia.
  split; [split; [lia|done]|]. split; [lia|]. apply list_elem_of_insert. lia.
Qed.

Lemma release_ref_refs p r :
  refs_ok r -> u32 p <> 0 -> u32 p ∈ ref_pids (header r) ->
  refs_ok (release_ref p r) /\ ref_count (header (release_ref p r)) = ref_count (header r) - 1.
Proof.
  intros [Hc Hl] Hp Hin. unfold release_ref. destruct (list_find _ _) as [[i q]|] eqn:E.
  - apply list_find_Some in E as (Hi & -> & _).
    pose proof (occupied_insert _ _ _ 0 Hi) as Ho. rewrite (proj2 (Z.eqb_neq _ _) Hp) in Ho. simpl in Ho.
    pose proof (occupied_bound (<[i := 0]> (ref_pids (header r)))) as Hb. unfold zlen in Hb.
    rewrite length_insert, Hl in Hb. unfold MAX_REGISTRY_ENTRIES in Hb.
    unfold refs_ok, set_header, add_ref. cbn [header ref_count ref_pids].
    rewrite length_insert, Hc. unfold u32. rewrite wrap_small by lia. split; [split; [lia|done]|lia].
  - apply list_find_None in E. rewrite Forall_forall in E. by destruct (E _ Hin).
Qed.

(** ** Registration as single stores

    [registerNode] publishes a new entry by separate stores after its
    compare-and-swap on [flags]; a process can die between any two of them, and the
    robust lock is then recovered by the next process. *)

Definition register_writes (id name : string) (my_pid now : Z) : list (RegistryEntry -> RegistryEntry) :=
  [ (fun e => mkEntry 0x1 (version e) (pid e) (last_heartbeat e) (node_id_atomic e) (shm_name_atomic e));
    (fun e => mkEntry (flags e) (version e) (pid e) (last_heartbeat e) (writeAtomicString id NODE_ID_SIZE) (shm_name_atomic e));
    (fun e => mkEntry (flags e) (version e) (pid e) (last_heartbeat e) (node_id_atomic e) (writeAtomicString name SHM_NAME_SIZE));
    (fun e => mkEntry (flags e) (version e) (u32 my_pid) (last_heartbeat e) (node_id_atomic e) (shm_name_atomic e));
    (fun e => mkEntry (flags e) (version e) (pid e) now (node_id_atomic e) (shm_name_atomic e));
    (fun e => mkEntry (flags e) (u32 (version e + 1)) (pid e) (last_heartbeat e) (node_id_atomic e) (shm_name_atomic e));
    (fun e => mkEntry 0x3 (version e) (pid e) (last_heartbeat e) (node_id_atomic e) (shm_name_atomic e)) ].

(** The entry after the first [k] stores. *)
Definition partial_entry (k : nat) (id name : string) (my_pid now : Z) (e : RegistryEntry) : RegistryEntry :=
  fold_left (fun e w => w e) (take k (register_writes id name my_pid now)) e.

(** The registration of a new node interrupted after [k] of its stores. *)
Definition registerNode_interrupted (k : nat) (c : call) (id name : string) (r : RegistryRegion)
    : RegistryRegion :=
  match list_find (fun e => flags e = 0) (entries r) with
  | Some (i, e) => set_entry r i (partial_entry k id name (getpid (c_os c)) (steady_ms (c_os c)) e)
  | None => r
  end.

(** All seven stores make the entry of the uninterrupted registration. *)
Lemma partial_entry_complete id name p now e :
  partial_entry 7 id name p now e = fresh_entry e id name p now.
Proof. reflexivity. Qed.

(** Any number of cleanup passes, each with its own clock and process table. *)
Definition cleanups (cs : list (call * Z)) (r : RegistryRegion) : RegistryRegion :=
  fold_left (fun r ct => (cleanupStaleNodes ct.1 ct.2 r).2) cs r.

Lemma clean_entries_keeps e t es i x :
  es !! i = Some x -> entry_stale e t x = false -> (clean_entries e t es).1 !! i = Some x.
Proof.
  revert i. induction es as [|y es IH]; intros i Hi Hs; [done|]. cbn [clean_entries].
  destruct (clean_entries e t es) as [es' n] eqn:E. simpl in IH. destruct i as [|i]; simpl in Hi.
  - simplify_eq. by rewrite Hs.
  - destruct (entry_stale e t y); simpl; by apply IH.
Qed.

Lemma cleanups_keep cs r i x :
  entries r !! i = Some x -> last_heartbeat x = 0 -> entries (cleanups cs r) !! i = Some x.
Proof.
  revert r. induction cs as [|[c t] cs IH]; intros r Hi H0; [done|]. simpl. apply IH; [|done].
  unfold cleanupStaleNodes. destruct (negb _); [done|]. destruct (negb _); [done|]. simpl.
  pose proof (clean_entries_keeps (c_os c) t (entries r) i x Hi) as Hk.
  destruct (clean_entries _ _ _) as [es n]. apply Hk. unfold entry_stale. rewrite H0. by destruct (negb _).
Qed.

(** ** Properties *)

(** C11: registration, unregistration, heartbeat and cleanup, each with
    any lock outcome, clock and process table, implement the specification on
    the finite map of nodes and keep the table well formed: 256 entries, no
    half-claimed entry, no two valid entries with the same id, and
    [num_entries] equal to the number of valid entries. *)
Theorem registry_refines c o r :
  reg_wf r -> op_ok o ->
  reg_wf (exec c o r)
  /\ nodes (exec c o r) = spec c o (nodes r)
  /\ getActiveNodeCount c (exec c o r)
     = if c_initialized c then Z.of_nat (size (spec c o (nodes r))) else 0.
Proof.
  intros Hwf Ho. destruct (exec_refines c o r Hwf Ho) as [Hwf' Hm]. split; [done|]. split; [done|].
  unfold getActiveNodeCount. destruct (c_initialized c); [|done]. rewrite <- Hm, nodes_size by done.
  destruct Hwf' as [Hl _ _ Hc _]. rewrite Hc. pose proof (valid_count_bound _ Hl).
  unfold i32. simpl. rewrite Z.mod_small by lia. lia.
Qed.

(** C21: every table reached from a fresh one by the operations of any
    processes is well formed, and never reports more than 256 nodes. *)
Theorem registry_reachable p r :
  rtc reg_step (init_region p) r -> reg_wf r /\ (size (nodes r) <= 256)%nat.
Proof.
  intros H. assert (reg_wf r) as Hwf.
  { pose proof (init_wf p) as H0. induction H as [|x y z [c o x' Ho] Hr IH]; [done|].
    apply IH. by apply exec_refines. }
  split; [done|]. pose proof (nodes_size r Hwf) as Hs. destruct Hwf as [Hl _ _ _ _].
  pose proof (valid_count_bound _ Hl). lia.
Qed.

(** [findNode], [nodeExists] and [getAllNodes] answer from the same map;
    in particular [getAllNodes] lists every node exactly once. *)
Theorem lookups_agree c r :
  reg_wf r -> c_initialized c = true -> isLocked (c_lock c) = true ->
  (forall id, findNode c id r = nodes r !! id)
  /\ (forall id, nodeExists c id r = bool_decide (is_Some (nodes r !! id)))
  /\ getAllNodes c r ≡ₚ (map_to_list (nodes r)).*2.
Proof.
  intros. split; [|split]; intros; [by apply findNode_nodes|by apply nodeExists_nodes|by apply getAllNodes_nodes].
Qed.

(** [registerNode] succeeds exactly when the object is initialized,
    both names are non-empty and shorter than 64 bytes, the lock is taken, and
    the id is known or fewer than 256 nodes are registered; [unregisterNode]
    and [updateHeartbeat] succeed exactly for a registered id; the return value of
    [cleanupStaleNodes] is the number of nodes that disappeared. *)
Theorem registerNode_outcome c id name t r :
  reg_wf r -> no_nul id -> no_nul name ->
  (registerNode c id name r).1 = admissible c id name (nodes r)
  /\ (unregisterNode c id r).1
     = c_initialized c && isLocked (c_lock c) && bool_decide (is_Some (nodes r !! id))
  /\ (updateHeartbeat c id r).1
     = c_initialized c && isLocked (c_lock c) && bool_decide (is_Some (nodes r !! id))
  /\ (cleanupStaleNodes c t r).1
     = Z.of_nat (size (nodes r)) - Z.of_nat (size (nodes (cleanupStaleNodes c t r).2)).
Proof.
  intros Hwf Hid Hname. split; [by apply registerNode_cases|]. split; [by apply unregisterNode_cases|].
  split; [by apply updateHeartbeat_cases|]. by apply cleanupStaleNodes_cases.
Qed.

(** C32: a process with a valid pid is cleanup master exactly when it is
    recorded, alive, and no live recorded process has a smaller pid; so all
    processes that see the same table agree on one master. *)
Theorem master_elected c r :
  c_initialized c = true -> isLocked (c_lock c) = true -> 0 < getpid (c_os c) < 2 ^ 31 - 1 ->
  amICleanupMaster c r = true
  <-> getpid (c_os c) ∈ live_pids (c_os c) (ref_pids (header r))
      /\ Forall (fun q => getpid (c_os c) <= q) (live_pids (c_os c) (ref_pids (header r))).
Proof.
  intros Hi Hl Hp. unfold amICleanupMaster. rewrite Hi, Hl. simpl. rewrite Z.eqb_eq.
  destruct (smallest_active_pid_spec (c_os c) (ref_pids (header r)) (2 ^ 31 - 1)) as (H1 & H2 & H3).
  unfold smallest_active_pid. set (m := fold_left _ _ _) in *. clearbody m. split.
  - intros <-. split; [|done]. destruct H3 as [H3|H3]; [lia|done].
  - intros [Hin Hall]. rewrite Forall_forall in H2, Hall. pose proof (H2 _ Hin).
    destruct H3 as [H3|H3]; [|pose proof (Hall _ H3)]; lia.
Qed.

(** When its system calls succeed, [cleanupOrphanedRegistry] removes an
    initialized registry exactly when no recorded process, neither in
    [ref_pids] nor in a valid entry, answers [kill(pid, 0)] with success. *)
Theorem orphan_removal_iff e s lk sz r :
  open_ok s = true -> mmap_ok s = true -> unlink_ok s = true -> isLocked lk = true ->
  h_magic (header r) = MAGIC ->
  (cleanupOrphanedRegistry e s lk (Present sz r)).2 = Absent
  <-> (forall p, 0 < p ->
         (p ∈ i32 <$> ref_pids (header r))
         \/ (exists x, x ∈ entries r /\ entry_valid x = true /\ i32 (pid x) = p) ->
         kill_ok e p = false).
Proof.
  intros Ho Hm Hu Hl Hmag. unfold cleanupOrphanedRegistry. rewrite Ho, Hm, Hl, Hmag, Hu, andb_true_r. simpl.
  assert (alive_pids e r ≡ ∅ <->
    (forall p, 0 < p -> (p ∈ i32 <$> ref_pids (header r))
       \/ (exists x, x ∈ entries r /\ entry_valid x = true /\ i32 (pid x) = p) -> kill_ok e p = false)) as <-.
  { unfold alive_pids. rewrite elem_of_equiv_empty. split.
    - intros H p Hp Hin. specialize (H p). rewrite elem_of_list_to_set, list_elem_of_filter, elem_of_app in H.
      destruct (kill_ok e p) eqn:Ek; [|done]. exfalso. apply H. split; [done|].
      destruct Hin as [Hin|(x & Hx & Hv & <-)]; [by left|right].
      apply list_elem_of_fmap. exists x. split; [done|]. by apply list_elem_of_filter.
    - intros H p. rewrite elem_of_list_to_set, list_elem_of_filter, elem_of_app. intros ([Hp Hk] & Hin).
      rewrite H in Hk; [done|done|]. destruct Hin as [Hin|Hin]; [by left|right].
      apply list_elem_of_fmap in Hin as (x & -> & Hx). apply list_elem_of_filter in Hx as [? ?]. eauto. }
  rewrite <- (size_empty_iff (alive_pids e r)).
  destruct (Z.eqb_spec (Z.of_nat (size (alive_pids e r))) 0); simpl; split; intros; [lia|done|done|lia].
Qed.

(** C33: attaching and detaching keep [ref_count] equal to the number of
    occupied slots of [ref_pids]: attaching adds one, detaching of a recorded
    process subtracts one, so the last detaching process, and only it, sees zero. *)
Theorem ref_count_exact p r :
  refs_ok r -> u32 p <> 0 ->
  (forall r', record_pid p r = Some r' -> refs_ok r' /\ ref_count (header r') = ref_count (header r) + 1)
  /\ (u32 p ∈ ref_pids (header r) ->
      refs_ok (release_ref p r)
      /\ (ref_count (header (release_ref p r)) = 0 <-> occupied (ref_pids (header r)) = 1)).
Proof.
  intros Hr Hp. split.
  - intros r' H. destruct (record_pid_refs p r r' Hr Hp H) as (? & ? & _). done.
  - intros Hin. destruct (release_ref_refs p r Hr Hp Hin) as [H1 H2]. split; [done|].
    destruct Hr as [Hc _]. rewrite H2, Hc. lia.
Qed.

Lemma attach_loop_some p obs r' :
  attach_loop p obs = Some r' ->
  exists r lk, (r, lk) ∈ obs /\ h_magic (header r) = MAGIC /\ isLocked lk = true /\ record_pid p r = Some r'.
Proof.
  induction obs as [|[r lk] obs IH]; [done|]. simpl. intros H.
  assert (attach_loop p obs = Some r' -> exists r0 lk0, (r0, lk0) ∈ (r, lk) :: obs
    /\ h_magic (header r0) = MAGIC /\ isLocked lk0 = true /\ record_pid p r0 = Some r') as IH'.
  { intros Ha. destruct (IH Ha) as (r0 & lk0 & Hin & ?). exists r0, lk0. split; [by right|done]. }
  destruct ((h_magic (header r) =? MAGIC) && isLocked lk) eqn:E; [|auto].
  destruct (record_pid p r) eqn:Er; [|auto]. btest. exists r, lk. simplify_eq. split; [left|auto].
Qed.

(** A successful [initialize] leaves an object whose region is
    initialized and records the calling process, with [ref_count] equal to the number of
    recorded processes, provided the regions other processes left obey that count. *)
Theorem initialize_attached sz e s obs obj obj' :
  u32 (getpid e) <> 0 -> Forall (fun o => refs_ok o.1) obs ->
  initialize sz e s obs obj = (true, obj') ->
  exists sz' r', obj' = Present sz' r' /\ h_magic (header r') = MAGIC
    /\ u32 (getpid e) ∈ ref_pids (header r') /\ refs_ok r'.
Proof.
  intros Hp Hobs H.
  assert (refs_ok (init_region (getpid e)) /\ u32 (getpid e) ∈ ref_pids (header (init_region (getpid e)))) as [Hr Hin].
  { split; [|left]. split; [|vm_compute; reflexivity]. cbn [init_region header ref_count ref_pids].
    unfold occupied. rewrite filter_cons_True by done. reflexivity. }
  assert (h_magic (header (init_region (getpid e))) = MAGIC) as Hmg by done.
  unfold initialize in H. revert Hr Hin Hmg H. generalize (init_region (getpid e)). intros r0 Hr Hin Hmg H.
  destruct obj as [|sz0 r].
  { destruct (open_ok s), (ftruncate_ok s), (mmap_ok s); cbn [negb] in H; try discriminate. simplify_eq. eauto 6. }
  destruct (open_ok s); cbn [negb] in H; [|discriminate].
  destruct (fstat_ok s && (sz0 =? 0)).
  { destruct (ftruncate_ok s), (mmap_ok s); cbn [negb] in H; try discriminate. simplify_eq. eauto 6. }
  destruct (fstat_ok s && negb _); [discriminate|]. destruct (mmap_ok s); cbn [negb] in H; [|discriminate].
  destruct (attach (getpid e) obs) as [r'|] eqn:Ea; simplify_eq.
  unfold attach in Ea; apply attach_loop_some in Ea as (r1 & lk & Hi & Hm & _ & Hrec).
  assert (refs_ok r1) as H0.
  { apply (Forall_take _ 100) in Hobs. rewrite Forall_forall in Hobs. by apply (Hobs (r1, lk)). }
  destruct (record_pid_refs _ _ _ H0 Hp Hrec) as (? & _ & ?).
  eexists _, r'; split; [done|]; split; [|done].
  unfold record_pid in Hrec; destruct (list_find _ _) as [[??]|]; simplify_eq; done.
Qed.

(** C40: a process that dies while registering, after claiming a slot
    and before storing its heartbeat, leaves a valid entry that no sequence
    of cleanup passes ever reclaims, whatever the clocks, the timeouts and
    the processes alive. *)
Theorem interrupted_slot_leaks k c id name r cs :
  reg_wf r -> (size (nodes r) < 256)%nat -> Forall (fun e => flags e = 0 -> last_heartbeat e = 0) (entries r) ->
  (1 <= k <= 4)%nat ->
  exists i x, entries (cleanups cs (registerNode_interrupted k c id name r)) !! i = Some x
    /\ flags x = 1 /\ entries r !! i <> Some x.
Proof.
  intros Hwf Hsz Hz Hk. apply free_slot in Hsz as (i & e & He); [|done]. unfold registerNode_interrupted. rewrite He.
  apply list_find_Some in He as (He & Hfl & _). pose proof (lookup_lt_Some _ _ _ He).
  pose proof (Forall_lookup_1 _ _ _ _ Hz He Hfl) as Hhb. set (x := partial_entry _ _ _ _ _ _).
  assert (last_heartbeat x = 0 /\ flags x = 1) as [Hx Hf].
  { unfold x. destruct k as [|[|[|[|[|k]]]]]; [lia| | | | |lia]; done. }
  exists i, x. split; [|split; [done|]].
  - apply cleanups_keep; [|done]. by apply list_lookup_insert_eq.
  - rewrite He. intros [= E]. rewrite <- E in Hf. congruence.
Qed.

(** ** Witnesses *)

Definition demo_os (me : Z) (now : Z) : os :=
  mkOs me (fun p => if p =? me then KillOk else KillEsrch) now 0.

Definition demo_call (me now : Z) : call := mkCall (demo_os me now) LockOk true.

Definition demo_calls : shm_calls := mkCalls true true true true true.

(** A process that dies between storing its heartbeat and counting
    its entry makes the node count negative: the cleanup pass that removes
    the entry decrements [num_entries], which was never incremented, and
    [getActiveNodeCount] then returns -1 for the empty table. *)
Theorem interrupted_count_drift k :
  (5 <= k <= 7)%nat ->
  let r := registerNode_interrupted k (demo_call 7 100) "n" "/s" (init_region 7) in
  let r' := (cleanupStaleNodes (demo_call 8 200) 1000 r).2 in
  nodes r' = ∅ /\ getActiveNodeCount (demo_call 8 200) r' = -1.
Proof.
  intros Hk. destruct k as [|[|[|[|[|[|[|[|k]]]]]]]]; try lia;
    (split; [apply map_empty; intros i|]; vm_compute; reflexivity).
Qed.

Lemma demo_no_nul_n : no_nul "n".
Proof. repeat constructor; discriminate. Qed.

Lemma demo_no_nul_s : no_nul "/s".
Proof. repeat constructor; discriminate. Qed.

Lemma registry_refines_witness :
  nodes (exec (demo_call 7 100) (ORegister "n" "/s") (init_region 7))
  = spec (demo_call 7 100) (ORegister "n" "/s") (nodes (init_region 7)).
Proof.
  apply (registry_refines (demo_call 7 100) (ORegister "n" "/s") (init_region 7)); [apply init_wf|].
  split; [apply demo_no_nul_n|apply demo_no_nul_s].
Defined.

Lemma registry_reachable_witness :
  reg_wf (exec (demo_call 7 100) (ORegister "n" "/s") (init_region 7)).
Proof.
  apply (registry_reachable 7). apply rtc_once. constructor.
  split; [apply demo_no_nul_n|apply demo_no_nul_s].
Defined.

Lemma lookups_agree_witness :
  findNode (demo_call 7 100) "n" (init_region 7) = nodes (init_region 7) !! "n".
Proof. apply (lookups_agree (demo_call 7 100) (init_region 7)); [apply init_wf|reflexivity..]. Defined.

Lemma registerNode_outcome_witness :
  (registerNode (demo_call 7 100) "n" "/s" (init_region 7)).1
  = admissible (demo_call 7 100) "n" "/s" (nodes (init_region 7)).
Proof.
  apply (registerNode_outcome (demo_call 7 100) "n" "/s" 0 (init_region 7));
    [apply init_wf|apply demo_no_nul_n|apply demo_no_nul_s].
Defined.

Lemma master_elected_witness :
  amICleanupMaster (demo_call 7 100) (init_region 7) = true
  <-> (7 ∈ live_pids (demo_os 7 100) (ref_pids (header (init_region 7))))
      /\ Forall (fun q => 7 <= q) (live_pids (demo_os 7 100) (ref_pids (header (init_region 7)))).
Proof. apply (master_elected (demo_call 7 100) (init_region 7)); [reflexivity|reflexivity|simpl; lia]. Defined.

Lemma orphan_removal_iff_witness :
  (cleanupOrphanedRegistry (demo_os 8 100) demo_calls LockOk (Present 1 (init_region 7))).2 = Absent
  <-> (forall p, 0 < p ->
         (p ∈ i32 <$> ref_pids (header (init_region 7)))
         \/ (exists x, x ∈ entries (init_region 7) /\ entry_valid x = true /\ i32 (pid x) = p) ->
         kill_ok (demo_os 8 100) p = false).
Proof. apply (orphan_removal_iff (demo_os 8 100) demo_calls LockOk 1 (init_region 7)); reflexivity. Defined.

Lemma ref_count_exact_witness :
  ref_count (header (release_ref 7 (init_region 7))) = 0
  <-> occupied (ref_pids (header (init_region 7))) = 1.
Proof.
  apply (ref_count_exact 7 (init_region 7)); [split; vm_compute; reflexivity|discriminate|left].
Defined.

Lemma interrupted_slot_leaks_witness :
  exists i x, entries (cleanups [(demo_call 8 200, 1000)]
                         (registerNode_interrupted 3 (demo_call 7 100) "n" "/s" (init_region 7))) !! i = Some x
    /\ flags x = 1 /\ entries (init_region 7) !! i <> Some x.
Proof.
  apply (interrupted_slot_leaks 3 (demo_call 7 100) "n" "/s" (init_region 7)); [apply init_wf| |..].
  - vm_compute. lia.
  - apply Forall_replicate. reflexivity.
  - lia.
Defined.

Lemma interrupted_count_drift_witness :
  getActiveNodeCount (demo_call 8 200)
    (cleanupStaleNodes (demo_call 8 200) 1000
       (registerNode_interrupted 5 (demo_call 7 100) "n" "/s" (init_region 7))).2 = -1.
Proof. apply (interrupted_count_drift 5). lia. Defined.

Lemma initialize_attached_witness :
  exists sz' r', (initialize 100 (demo_os 7 1) demo_calls [] Absent).2 = Present sz' r'
    /\ h_magic (header r') = MAGIC /\ u32 7 ∈ ref_pids (header r') /\ refs_ok r'.
Proof.
  apply (initialize_attached 100 (demo_os 7 1) demo_calls [] Absent); [discriminate|constructor|reflexivity].
Defined.
