(* ===== verification/StdMap.v ===== *)
(** * [std::map] with string keys

    Iteration over [std::map<std::string, T>] visits the keys in increasing order,
    and the code returns lists in that order; so the map is an association list
    kept strictly sorted, with its abstraction to a finite map. *)

From S2P Require Import Prelude.
From Stdlib Require Import Sorted.

Abbreviation smap A := (list (string * A)).

(** [std::string::operator<] *)
Definition slt (a b : string) : Prop := String.ltb a b = true.

Section StdMap.
Context {A : Type}.
Implicit Types (m : smap A) (k : string) (v : A).

Fixpoint sm_find k m : option A :=
  match m with
  | [] => None
  | (k', v) :: r => if String.eqb k k' then Some v else sm_find k r
  end.

(** [m[k] = v] *)
Fixpoint sm_insert k v m : smap A :=
  match m with
  | [] => [(k, v)]
  | (k', v') :: r =>
      if String.eqb k k' then (k, v) :: r
      else if String.ltb k k' then (k, v) :: m
      else (k', v') :: sm_insert k v r
  end.

(** [m.erase(k)] *)
Fixpoint sm_erase k m : smap A :=
  match m with
  | [] => []
  | (k', v') :: r => if String.eqb k k' then r else (k', v') :: sm_erase k r
  end.

Definition sm_keys m : list string := m.*1.

(** Strictly increasing keys. *)
Definition sm_ok m : Prop := StronglySorted slt (sm_keys m).

Definition sm_map m : gmap string A := list_to_map m.

End StdMap.

(** ** The order on keys *)

Lemma ltb_compare a b : String.ltb a b = true <-> String.compare a b = Lt.
Proof. unfold String.ltb. destruct (String.compare a b); split; done. Qed.

Lemma slt_le a b : slt a b <-> (String.leb a b = true /\ a <> b).
Proof.
  unfold slt. rewrite ltb_compare. unfold String.leb. split.
  - intros H. rewrite H. split; [done|]. intros ->.
    pose proof (String.compare_antisym b b) as E. by rewrite H in E.
  - intros [H1 H2]. destruct (String.compare a b) eqn:E; [|done..]. by apply String.compare_eq_iff in E.
Qed.

Lemma slt_irrefl a : ~ slt a a.
Proof. rewrite slt_le. by intros [_ []]. Qed.

Lemma slt_trans a b c : slt a b -> slt b c -> slt a c.
Proof.
  rewrite !slt_le. intros [H1 N1] [H2 N2]. split.
  - apply Is_true_true. apply Is_true_true in H1, H2. by apply (transitivity (R := String.le) H1 H2).
  - intros ->. apply N1. by apply String.leb_antisym.
Qed.

Lemma slt_total a b : a <> b -> ~ slt a b -> slt b a.
Proof.
  rewrite !slt_le. intros Hn Hl. split; [|done].
  destruct (String.leb_total a b) as [H|H]; [|done]. exfalso. by apply Hl.
Qed.

#[export] Instance slt_transitive : Transitive slt.
Proof. intros a b c. apply slt_trans. Qed.

(** ** Operations *)

Section Lemmas.
Context {A : Type}.
Implicit Types (m : smap A) (k : string) (v : A).

Lemma sm_find_map k m : sm_find k m = sm_map m !! k.
Proof.
  induction m as [|[k' v] m IH]; [done|]. simpl. destruct (String.eqb_spec k k') as [->|Hn].
  - unfold sm_map. simpl. by rewrite lookup_insert_eq.
  - unfold sm_map in *. simpl. by rewrite lookup_insert_ne.
Qed.

Lemma sm_ok_nodup m : sm_ok m -> NoDup (m.*1).
Proof.
  unfold sm_ok, sm_keys. induction 1 as [|k l Hs IH Hf]; constructor; [|done].
  intros Hin. rewrite Forall_forall in Hf. by apply (slt_irrefl k), Hf.
Qed.

Lemma sm_ok_cons k v m : sm_ok ((k, v) :: m) <-> Forall (fun p => slt k p.1) m /\ sm_ok m.
Proof.
  unfold sm_ok, sm_keys. cbn [fmap list_fmap fst]. split.
  - intros H. apply StronglySorted_inv in H as [? H]. by rewrite Forall_fmap in H.
  - intros [? ?]. constructor; [done|]. by rewrite Forall_fmap.
Qed.

Lemma sm_find_notin k m : Forall (fun p => slt k p.1) m -> sm_find k m = None.
Proof.
  induction 1 as [|[k' v] m Hk Hm IH]; [done|]. simpl in *.
  destruct (String.eqb_spec k k') as [->|]; [by apply slt_irrefl in Hk|done].
Qed.

Lemma sm_find_insert k k' v m :
  sm_find k' (sm_insert k v m) = if String.eqb k' k then Some v else sm_find k' m.
Proof.
  induction m as [|[j w] m IH]; [done|]. simpl.
  destruct (String.eqb_spec k j) as [->|Hn].
  - simpl. by destruct (String.eqb_spec k' j).
  - destruct (String.ltb k j); simpl; [done|]. rewrite IH.
    destruct (String.eqb_spec k' j) as [->|]; [|done]. destruct (String.eqb_spec j k); [congruence|done].
Qed.

Lemma sm_insert_lt j k v m :
  slt j k -> Forall (fun p : string * A => slt j p.1) m -> Forall (fun p => slt j p.1) (sm_insert k v m).
Proof.
  intros Hj. induction 1 as [|[k' v'] m Hk Hm IH]; simpl; [by constructor|].
  destruct (String.eqb_spec k k'); [by constructor|]. destruct (String.ltb k k'); by repeat constructor.
Qed.

Lemma sm_insert_ok k v m : sm_ok m -> sm_ok (sm_insert k v m).
Proof.
  induction m as [|[k' v'] m IH]; intros H; simpl.
  - apply sm_ok_cons. split; [constructor|done].
  - pose proof H as H0. apply sm_ok_cons in H as [Hf Hs]. destruct (String.eqb_spec k k') as [->|Hn].
    + apply sm_ok_cons. done.
    + destruct (String.ltb k k') eqn:E.
      * apply sm_ok_cons. split; [|done]. constructor; [done|].
        eapply Forall_impl; [exact Hf|]. intros p Hp. by transitivity k'.
      * apply sm_ok_cons. split; [|auto]. apply sm_insert_lt; [|done].
        apply slt_total; [done|]. unfold slt. by rewrite E.
Qed.

Lemma sm_erase_Forall (P : string * A -> Prop) k m : Forall P m -> Forall P (sm_erase k m).
Proof. induction 1 as [|[k' v'] m Hk Hm IH]; simpl; [done|]. destruct (String.eqb k k'); auto. Qed.

Lemma sm_erase_ok k m : sm_ok m -> sm_ok (sm_erase k m).
Proof.
  induction m as [|[k' v'] m IH]; intros H; [done|]. simpl. apply sm_ok_cons in H as [Hf Hs].
  destruct (String.eqb k k'); [done|]. apply sm_ok_cons. split; [by apply sm_erase_Forall|auto].
Qed.

Lemma sm_find_erase k k' m :
  sm_ok m -> sm_find k' (sm_erase k m) = if String.eqb k' k then None else sm_find k' m.
Proof.
  induction m as [|[j w] m IH]; intros H; simpl; [by destruct (String.eqb k' k)|].
  apply sm_ok_cons in H as [Hf Hs]. destruct (String.eqb_spec k j) as [->|Hn].
  - destruct (String.eqb_spec k' j) as [->|]; [by apply sm_find_notin|done].
  - simpl. rewrite IH by done. destruct (String.eqb_spec k' j) as [->|]; [|done].
    destruct (String.eqb_spec j k); [congruence|done].
Qed.

Lemma sm_insert_Forall (P : string * A -> Prop) k v m :
  P (k, v) -> Forall P m -> Forall P (sm_insert k v m).
Proof.
  intros Hk. induction 1 as [|[k' v'] m H Hm IH]; simpl; [by constructor|].
  destruct (String.eqb k k'); [by constructor|]. destruct (String.ltb k k'); by repeat constructor.
Qed.

Lemma sm_find_Some_elem k v m : sm_find k m = Some v -> (k, v) ∈ m.
Proof.
  induction m as [|[k' v'] m IH]; [done|]. simpl. destruct (String.eqb_spec k k') as [->|].
  - intros [= ->]. left.
  - intros H. right. auto.
Qed.

Lemma sm_elem_find k v m : sm_ok m -> (k, v) ∈ m -> sm_find k m = Some v.
Proof.
  intros H. rewrite sm_find_map. unfold sm_map. apply elem_of_list_to_map. by apply sm_ok_nodup.
Qed.

(** Filtering the entries of a map, as an erase loop over the iterators does. *)
Lemma sm_filter_ok (P : string * A -> Prop) `{!forall x, Decision (P x)} m : sm_ok m -> sm_ok (filter P m).
Proof.
  induction m as [|[k v] m IH]; intros Hok; [done|]. apply sm_ok_cons in Hok as [Hf Hs].
  rewrite filter_cons. case_decide; [|auto]. apply sm_ok_cons. split; [|auto].
  apply Forall_forall. intros p Hp. apply list_elem_of_filter in Hp as [_ Hp].
  rewrite Forall_forall in Hf. auto.
Qed.

Lemma sm_find_filter (P : string * A -> Prop) `{!forall x, Decision (P x)} k m :
  sm_ok m -> sm_find k (filter P m) = v ← sm_find k m; if decide (P (k, v)) then Some v else None.
Proof.
  intros Hok. destruct (sm_find k m) as [v|] eqn:E; cbn.
  - case_decide as Hp.
    + apply sm_elem_find; [by apply sm_filter_ok|]. apply list_elem_of_filter. split; [done|]. by apply sm_find_Some_elem.
    + destruct (sm_find k (filter P m)) as [w|] eqn:Ef; [|done]. apply sm_find_Some_elem, list_elem_of_filter in Ef as [Hw Hin].
      apply sm_elem_find in Hin; [|done]. congruence.
  - destruct (sm_find k (filter P m)) as [w|] eqn:Ef; [|done]. apply sm_find_Some_elem, list_elem_of_filter in Ef as [_ Hin].
    apply sm_elem_find in Hin; [|done]. congruence.
Qed.

End Lemmas.
