(* ===== verification/NodeTypes.v ===== *)
(** * Public types of the library

    The enumerations and the service descriptor of [include/nexus/core/Node.h]. The
    two enumerations that a received byte is cast to have a constructor for the values
    without a name. *)

From stdpp Require Import pretty.
From S2P Require Import Prelude.

Inductive TransportType := INPROCESS | SHARED_MEMORY | UDP | TT_unnamed (code : Z).

#[export] Instance TransportType_eq_dec : EqDecision TransportType.
Proof. solve_decision. Defined.

(** [static_cast<int>(transport)] *)
Definition TransportType_code (t : TransportType) : Z :=
  match t with INPROCESS => 0 | SHARED_MEMORY => 1 | UDP => 2 | TT_unnamed c => c end.

(** [static_cast<TransportType>(code)] *)
Definition TransportType_of (code : Z) : TransportType :=
  if code =? 0 then INPROCESS else if code =? 1 then SHARED_MEMORY else if code =? 2 then UDP else TT_unnamed code.

Inductive ServiceType := ST_ALL | NORMAL_MESSAGE | LARGE_DATA | ST_unnamed (code : Z).

#[export] Instance ServiceType_eq_dec : EqDecision ServiceType.
Proof. solve_decision. Defined.

Definition ServiceType_code (t : ServiceType) : Z :=
  match t with ST_ALL => 0 | NORMAL_MESSAGE => 1 | LARGE_DATA => 2 | ST_unnamed c => c end.

(** [static_cast<ServiceType>(code)] *)
Definition ServiceType_of (code : Z) : ServiceType :=
  if code =? 0 then ST_ALL else if code =? 1 then NORMAL_MESSAGE else if code =? 2 then LARGE_DATA else ST_unnamed code.

Record ServiceDescriptor := mkService {
  sd_node_id : string;
  sd_group : string;
  sd_topic : string;
  sd_type : ServiceType;
  sd_channel_name : string;
  sd_transport : TransportType;
  sd_udp_address : string
}.

#[export] Instance ServiceDescriptor_eq_dec : EqDecision ServiceDescriptor.
Proof. solve_decision. Defined.

Definition getCapability (s : ServiceDescriptor) : string :=
  match sd_type s with
  | LARGE_DATA => sd_group s +:+ "/" +:+ sd_channel_name s +:+ "/" +:+ sd_topic s
  | _ => sd_group s +:+ "/" +:+ sd_topic s
  end.

(** [std::to_string] of the transport code. *)
Definition transport_digit (t : TransportType) : string := pretty (TransportType_code t).

Definition getServiceKey (s : ServiceDescriptor) : string :=
  sd_node_id s +:+ ":" +:+ getCapability s +:+ ":" +:+ transport_digit (sd_transport s).

Inductive ServiceEvent := SERVICE_ADDED | SERVICE_REMOVED | NODE_JOINED | NODE_LEFT.

#[export] Instance ServiceEvent_eq_dec : EqDecision ServiceEvent.
Proof. solve_decision. Defined.

Inductive QueueOverflowPolicy := DROP_OLDEST | DROP_NEWEST | BLOCK.

#[export] Instance QueueOverflowPolicy_eq_dec : EqDecision QueueOverflowPolicy.
Proof. solve_decision. Defined.

(** [Node::Error] *)
Inductive Error :=
| NO_ERROR | INVALID_ARG | NOT_INITIALIZED | ALREADY_EXISTS | NOT_FOUND
| NETWORK_ERROR | TIMEOUT | QUEUE_FULL | UNEXPECTED_ERROR.

#[export] Instance Error_eq_dec : EqDecision Error.
Proof. solve_decision. Defined.

Inductive TransportMode := TM_AUTO | TM_LOCK_FREE_SHM | TM_UDP.

#[export] Instance TransportMode_eq_dec : EqDecision TransportMode.
Proof. solve_decision. Defined.
