(* ===== verification/GlobalRegistry.v ===== *)
(** * The per-process registry of nodes and services

    Models [include/nexus/registry/GlobalRegistry.h] and
    [src/registry/GlobalRegistry.cpp]. A [weak_ptr] to a node is a handle; whether
    [lock()] still yields the node is an argument of the operations that ask. *)

From S2P Require Import Prelude StdMap NodeTypes.

(** A [std::weak_ptr<NodeImpl>]. *)
Definition handle : Type := nat.

Record GlobalRegistry := mkGR {
  gr_nodes : smap handle;
  gr_services : smap (list ServiceDescriptor)
}.

Definition gr_empty : GlobalRegistry := mkGR [] [].

Definition registerNode (node_id : string) (node : handle) (g : GlobalRegistry) : GlobalRegistry :=
  mkGR (sm_insert node_id node (gr_nodes g)) (gr_services g).

(** The erase loop over the groups in [unregisterNode]. *)
Definition erase_node_services (node_id : string) (s : smap (list ServiceDescriptor))
    : smap (list ServiceDescriptor) :=
  filter (fun p => p.2 <> [])
    ((fun p => (p.1, filter (fun d => sd_node_id d <> node_id) p.2)) <$> s).

Definition unregisterNode (node_id : string) (g : GlobalRegistry) : GlobalRegistry :=
  mkGR (sm_erase node_id (gr_nodes g)) (erase_node_services node_id (gr_services g)).

(** Expired handles are erased, the others are returned in key order. *)
Definition getAllNodes (alive : handle -> bool) (g : GlobalRegistry) : list handle * GlobalRegistry :=
  let kept := filter (fun p => alive p.2 = true) (gr_nodes g) in
  (kept.*2, mkGR kept (gr_services g)).

Definition findNode (alive : handle -> bool) (node_id : string) (g : GlobalRegistry) : option handle :=
  match sm_find node_id (gr_nodes g) with
  | Some h => if alive h then Some h else None
  | None => None
  end.

Definition same_service (svc existing : ServiceDescriptor) : bool :=
  String.eqb (sd_node_id existing) (sd_node_id svc) && String.eqb (getCapability existing) (getCapability svc).

(** The scan of the group's vector in [registerService]. *)
Fixpoint register_in (svc : ServiceDescriptor) (vec : list ServiceDescriptor) : list ServiceDescriptor :=
  match vec with
  | [] => [svc]
  | existing :: rest =>
      if same_service svc existing then
        if bool_decide (sd_transport existing = sd_transport svc) then vec
        else if bool_decide (sd_transport existing = SHARED_MEMORY) then vec
        else if bool_decide (sd_transport svc = SHARED_MEMORY) then svc :: rest
        else vec
      else existing :: register_in svc rest
  end.

Definition registerService (group : string) (svc : ServiceDescriptor) (g : GlobalRegistry) : GlobalRegistry :=
  let vec := default [] (sm_find group (gr_services g)) in
  mkGR (gr_nodes g) (sm_insert group (register_in svc vec) (gr_services g)).

Definition unregister_in (svc : ServiceDescriptor) (vec : list ServiceDescriptor) : list ServiceDescriptor :=
  filter (fun s => ~ (sd_node_id s = sd_node_id svc /\ sd_topic s = sd_topic svc)) vec.

Definition unregisterService (group : string) (svc : ServiceDescriptor) (g : GlobalRegistry) : GlobalRegistry :=
  match sm_find group (gr_services g) with
  | None => g
  | Some vec =>
      match unregister_in svc vec with
      | [] => mkGR (gr_nodes g) (sm_erase group (gr_services g))
      | vec' => mkGR (gr_nodes g) (sm_insert group vec' (gr_services g))
      end
  end.

Definition findServices (group : string) (g : GlobalRegistry) : list ServiceDescriptor :=
  if str_empty group then concat (gr_services g).*2
  else default [] (sm_find group (gr_services g)).

Definition clearServices (g : GlobalRegistry) : GlobalRegistry := mkGR (gr_nodes g) [].

Definition getNodeCount (g : GlobalRegistry) : Z := zlen (gr_nodes g).

Definition getServiceCount (g : GlobalRegistry) : Z :=
  fold_left (fun count p => count + zlen p.2) (gr_services g) 0.

(** ** The abstract service table *)

(** The service of a node for a capability in a group. *)
Definition in_vec (n c : string) (vec : list ServiceDescriptor) : option ServiceDescriptor :=
  snd <$> list_find (fun d => sd_node_id d = n /\ getCapability d = c) vec.

Definition provider (g : GlobalRegistry) (group n c : string) : option ServiceDescriptor :=
  in_vec n c (default [] (sm_find group (gr_services g))).

(** Which of two descriptors of one service is kept. *)
Definition prefer (old new : ServiceDescriptor) : ServiceDescriptor :=
  if bool_decide (sd_transport old <> SHARED_MEMORY /\ sd_transport new = SHARED_MEMORY) then new else old.

Definition svc_key (d : ServiceDescriptor) : string * string := (sd_node_id d, getCapability d).

Definition vec_ok (vec : list ServiceDescriptor) : Prop := NoDup (svc_key <$> vec).

(** Sorted groups, no empty group, one descriptor per node and capability. *)
Record gr_wf (g : GlobalRegistry) : Prop := mkGrWf {
  gr_nodes_ok : sm_ok (gr_nodes g);
  gr_services_ok : sm_ok (gr_services g);
  gr_vecs : Forall (fun p => p.2 <> [] /\ vec_ok p.2) (gr_services g)
}.

(** ** One group *)

Lemma same_service_true svc d :
  same_service svc d = true <-> sd_node_id d = sd_node_id svc /\ getCapability d = getCapability svc.
Proof. unfold same_service. by rewrite andb_true_iff, !String.eqb_eq. Qed.

Lemma in_vec_cons n c d vec :
  in_vec n c (d :: vec)
  = if decide (sd_node_id d = n /\ getCapability d = c) then Some d else in_vec n c vec.
Proof.
  unfold in_vec. cbn [list_find]. destruct (decide _); [done|].
  destruct (list_find _ vec) as [[i x]|]; done.
Qed.

(** The cascade of transport tests keeps the preferred descriptor. *)
Lemma register_in_cons svc d vec :
  register_in svc (d :: vec)
  = if same_service svc d then prefer d svc :: vec else d :: register_in svc vec.
Proof.
  cbn [register_in]. destruct (same_service svc d); [|done]. unfold prefer.
  repeat case_bool_decide; naive_solver congruence.
Qed.

Lemma prefer_key d svc : same_service svc d = true -> svc_key (prefer d svc) = svc_key d.
Proof.
  rewrite same_service_true. intros [E1 E2]. unfold prefer, svc_key. case_bool_decide; congruence.
Qed.

Lemma in_vec_register n c svc vec :
  in_vec n c (register_in svc vec)
  = if decide (sd_node_id svc = n /\ getCapability svc = c)
    then Some (match in_vec n c vec with Some old => prefer old svc | None => svc end)
    else in_vec n c vec.
Proof.
  induction vec as [|d vec IH]; [cbn [register_in]; by rewrite in_vec_cons|].
  rewrite register_in_cons. destruct (same_service svc d) eqn:Es; rewrite !in_vec_cons.
  - pose proof (prefer_key _ _ Es) as [= -> ->]. apply same_service_true in Es as [-> ->].
    by destruct (decide _).
  - rewrite IH. destruct (decide (sd_node_id d = n /\ getCapability d = c)) as [[<- <-]|]; [|done].
    destruct (decide _) as [[H1 H2]|]; [|done]. exfalso.
    assert (same_service svc d = true) by (by apply same_service_true). congruence.
Qed.

Lemma register_in_keys svc vec k :
  k ∈ svc_key <$> register_in svc vec <-> k = svc_key svc \/ k ∈ svc_key <$> vec.
Proof.
  induction vec as [|d vec IH]; [cbn; set_solver|]. rewrite register_in_cons.
  destruct (same_service svc d) eqn:Es; cbn [fmap list_fmap].
  - rewrite (prefer_key _ _ Es). apply same_service_true in Es as [E1 E2].
    assert (svc_key d = svc_key svc) as E by (unfold svc_key; congruence). rewrite E. set_solver.
  - rewrite !elem_of_cons, IH. tauto.
Qed.

Lemma register_in_ok svc vec : vec_ok vec -> vec_ok (register_in svc vec) /\ register_in svc vec <> [].
Proof.
  unfold vec_ok. induction vec as [|d vec IH]; intros H; [split; [cbn; apply NoDup_singleton|done]|].
  rewrite register_in_cons. cbn [fmap list_fmap] in H. apply NoDup_cons in H as [Hd H].
  destruct (same_service svc d) eqn:Es; (split; [|done]); cbn [fmap list_fmap]; apply NoDup_cons.
  - by rewrite (prefer_key _ _ Es).
  - split; [|by apply IH]. rewrite register_in_keys. intros [E|E]; [|done].
    unfold svc_key in E. simplify_eq. assert (same_service svc d = true) by (by apply same_service_true). congruence.
Qed.

Lemma vec_ok_filter (P : ServiceDescriptor -> Prop) `{!forall x, Decision (P x)} vec :
  vec_ok vec -> vec_ok (filter P vec).
Proof. unfold vec_ok. intros Hv. eapply sublist_NoDup; [exact Hv|]. apply fmap_sublist, sublist_filter. Qed.

Lemma in_vec_None n c vec : in_vec n c vec = None <-> (n, c) ∉ svc_key <$> vec.
Proof.
  induction vec as [|d vec IH]; [cbn; set_solver|]. rewrite in_vec_cons. cbn [fmap list_fmap].
  rewrite not_elem_of_cons. destruct (decide _) as [[<- <-]|Hn]; [naive_solver|].
  rewrite IH. unfold svc_key at 2. naive_solver congruence.
Qed.

(** Removing from a group the descriptors that fail a test. *)
Lemma in_vec_filter (P : ServiceDescriptor -> Prop) `{!forall x, Decision (P x)} n c vec :
  vec_ok vec ->
  in_vec n c (filter P vec)
  = match in_vec n c vec with Some d => if decide (P d) then Some d else None | None => None end.
Proof.
  unfold vec_ok. induction vec as [|d vec IH]; intros Hv; [done|]. cbn [fmap list_fmap] in Hv.
  apply NoDup_cons in Hv as [Hd Hv]. rewrite filter_cons, in_vec_cons. case_decide as HP.
  - rewrite in_vec_cons. destruct (decide _); [by rewrite decide_True|auto].
  - rewrite IH by done. destruct (decide _) as [[<- <-]|]; [|done].
    rewrite (proj2 (in_vec_None _ _ _) Hd). by rewrite decide_False.
Qed.

Lemma in_vec_Some n c vec d : in_vec n c vec = Some d -> d ∈ vec /\ sd_node_id d = n /\ getCapability d = c.
Proof.
  unfold in_vec. intros H. apply fmap_Some in H as ([i x] & H & ->). apply list_find_Some in H as (Hi & [? ?] & _).
  split; [by eapply list_elem_of_lookup_2|done].
Qed.

(** ** The whole registry *)

Inductive gr_op :=
| ORegisterNode (id : string) (h : handle)
| OUnregisterNode (id : string)
| OGetAllNodes (alive : handle -> bool)
| ORegisterService (group : string) (svc : ServiceDescriptor)
| OUnregisterService (group : string) (svc : ServiceDescriptor)
| OClearServices.

Definition gr_exec (o : gr_op) (g : GlobalRegistry) : GlobalRegistry :=
  match o with
  | ORegisterNode id h => registerNode id h g
  | OUnregisterNode id => unregisterNode id g
  | OGetAllNodes alive => (getAllNodes alive g).2
  | ORegisterService group svc => registerService group svc g
  | OUnregisterService group svc => unregisterService group svc g
  | OClearServices => clearServices g
  end.

(** What each operation promises on the service table. *)
Definition gr_spec (o : gr_op) (t : string -> string -> string -> option ServiceDescriptor)
    (group n c : string) : option ServiceDescriptor :=
  match o with
  | OUnregisterNode id => if decide (n = id) then None else t group n c
  | ORegisterService grp svc =>
      if decide (group = grp /\ sd_node_id svc = n /\ getCapability svc = c)
      then Some (match t group n c with Some old => prefer old svc | None => svc end)
      else t group n c
  | OUnregisterService grp svc =>
      match t group n c with
      | Some d => if decide (group = grp /\ sd_node_id d = sd_node_id svc /\ sd_topic d = sd_topic svc)
                  then None else Some d
      | None => None
      end
  | OClearServices => None
  | _ => t group n c
  end.

(** The vector of a group, empty when the group is absent. *)
Definition group_vec (g : GlobalRegistry) (group : string) : list ServiceDescriptor :=
  default [] (sm_find group (gr_services g)).

Lemma group_vec_ok g group : gr_wf g -> vec_ok (group_vec g group).
Proof.
  intros [_ _ Hv]. unfold group_vec. destruct (sm_find _ _) as [vec|] eqn:E; [|constructor].
  apply sm_find_Some_elem in E. rewrite Forall_forall in Hv. by destruct (Hv _ E).
Qed.

Lemma sm_ok_fmap_snd {A B} (f : A -> B) (m : smap A) : sm_ok m -> sm_ok ((fun p => (p.1, f p.2)) <$> m).
Proof.
  unfold sm_ok, sm_keys. intros H. rewrite <- list_fmap_compose.
  done.
Qed.

Lemma erase_node_services_vec n g group :
  gr_wf g ->
  default [] (sm_find group (erase_node_services n (gr_services g)))
  = filter (fun d => sd_node_id d <> n) (group_vec g group).
Proof.
  intros [_ Hok _]. unfold group_vec, erase_node_services. revert Hok.
  generalize (gr_services g) as m. intros m. induction m as [|[k vec] m IH]; intros Hok; [done|].
  apply sm_ok_cons in Hok as [Hf Hok]. specialize (IH Hok). cbn [fmap list_fmap fst snd].
  rewrite filter_cons. cbn [sm_find fst snd].
  assert (sm_find k (filter (fun p : string * list ServiceDescriptor => p.2 <> [])
            ((fun p => (p.1, filter (fun d => sd_node_id d <> n) p.2)) <$> m)) = None) as Hk.
  { apply sm_find_notin. apply Forall_forall. intros p Hp. apply list_elem_of_filter in Hp as [_ Hp].
    apply list_elem_of_fmap in Hp as ([k' v'] & -> & Hp). rewrite Forall_forall in Hf. apply (Hf _ Hp). }
  case_decide as Hne.
  - cbn [sm_find]. destruct (String.eqb_spec group k) as [->|]; [done|]. apply IH.
  - destruct (String.eqb_spec group k) as [->|]; [|apply IH]. rewrite Hk. cbn [from_option id].
    symmetry. exact Hne.
Qed.

Lemma erase_node_services_wf n g :
  gr_wf g -> sm_ok (erase_node_services n (gr_services g))
  /\ Forall (fun p => p.2 <> [] /\ vec_ok p.2) (erase_node_services n (gr_services g)).
Proof.
  intros [_ Hok Hv]. unfold erase_node_services. split; [by apply sm_filter_ok, sm_ok_fmap_snd|].
  apply Forall_forall. intros p Hp. apply list_elem_of_filter in Hp as [Hne Hp]. split; [done|].
  apply list_elem_of_fmap in Hp as ([k vec] & -> & Hp). rewrite Forall_forall in Hv.
  apply vec_ok_filter. by apply (Hv _ Hp).
Qed.

Lemma unregisterService_vec grp svc g group :
  gr_wf g ->
  group_vec (unregisterService grp svc g) group
  = if String.eqb group grp then unregister_in svc (group_vec g group) else group_vec g group.
Proof.
  intros [_ Hok _]. unfold unregisterService, group_vec.
  destruct (sm_find grp (gr_services g)) as [vec|] eqn:Ef.
  - destruct (unregister_in svc vec) as [|d r] eqn:Eu; cbn [gr_services].
    + rewrite sm_find_erase by done. destruct (String.eqb_spec group grp) as [->|]; [|done]. by rewrite Ef.
    + rewrite sm_find_insert. destruct (String.eqb_spec group grp) as [->|]; [|done]. by rewrite Ef.
  - destruct (String.eqb_spec group grp) as [->|]; [|done]. by rewrite Ef.
Qed.

Lemma unregisterService_wf grp svc g : gr_wf g -> gr_wf (unregisterService grp svc g).
Proof.
  intros Hwf. pose proof (group_vec_ok g grp Hwf) as Hg. destruct (Hwf) as [Hn Hok Hv].
  unfold unregisterService, group_vec in *. destruct (sm_find grp (gr_services g)) as [vec|]; [|done].
  simpl in Hg. assert (vec_ok (unregister_in svc vec)) as Hu by (by apply vec_ok_filter).
  destruct (unregister_in svc vec) as [|d r]; split; cbn [gr_nodes gr_services]; try done.
  - by apply sm_erase_ok.
  - by apply sm_erase_Forall.
  - by apply sm_insert_ok.
  - by apply sm_insert_Forall.
Qed.

Lemma gr_exec_wf o g : gr_wf g -> gr_wf (gr_exec o g).
Proof.
  intros Hwf. pose proof Hwf as [Hn Hok Hv]. destruct o as [id h|id|alive|grp svc|grp svc|]; cbn [gr_exec].
  - split; [by apply sm_insert_ok|done|done].
  - destruct (erase_node_services_wf id g Hwf). split; [by apply sm_erase_ok|done|done].
  - split; [by apply sm_filter_ok|done|done].
  - destruct (register_in_ok svc _ (group_vec_ok g grp Hwf)).
    split; [done|by apply sm_insert_ok|by apply sm_insert_Forall].
  - by apply unregisterService_wf.
  - split; [done|constructor|constructor].
Qed.

Lemma gr_exec_spec o g group n c :
  gr_wf g -> provider (gr_exec o g) group n c = gr_spec o (provider g) group n c.
Proof.
  intros Hwf. pose proof (group_vec_ok g group Hwf) as Hg.
  destruct o as [id h|id|alive|grp svc|grp svc|]; cbn [gr_exec gr_spec]; try done.
  - unfold provider at 1, unregisterNode. cbn [gr_services]. rewrite erase_node_services_vec by done.
    rewrite in_vec_filter by done. unfold provider. fold (group_vec g group).
    destruct (in_vec n c (group_vec g group)) as [d|] eqn:E; [|by case_decide].
    apply in_vec_Some in E as (_ & <- & _). repeat case_decide; naive_solver.
  - unfold provider, registerService. cbn [gr_services]. rewrite sm_find_insert.
    destruct (String.eqb_spec group grp) as [->|Hne]; cbn [from_option id].
    + rewrite in_vec_register. repeat case_decide; naive_solver.
    + rewrite decide_False by naive_solver. done.
  - unfold provider at 1. fold (group_vec (unregisterService grp svc g) group).
    rewrite unregisterService_vec by done. unfold provider. fold (group_vec g group).
    destruct (String.eqb_spec group grp) as [->|Hne].
    + unfold unregister_in. rewrite in_vec_filter by done.
      destruct (in_vec n c _) as [d|]; [|done]. repeat case_decide; naive_solver.
    + destruct (in_vec n c _); [|done]. rewrite decide_False by naive_solver. done.
Qed.

Inductive gr_step : GlobalRegistry -> GlobalRegistry -> Prop :=
| gr_step_intro o g : gr_step g (gr_exec o g).

Lemma gr_empty_wf : gr_wf gr_empty.
Proof. split; constructor. Qed.

Lemma getServiceCount_acc (m : smap (list ServiceDescriptor)) acc :
  fold_left (fun count p => count + zlen p.2) m acc = acc + zlen (concat m.*2).
Proof.
  revert acc. induction m as [|[k vec] m IH]; intros acc; [cbn; unfold zlen; cbn; lia|].
  cbn [fold_left fmap list_fmap concat]. rewrite IH. cbn [snd]. rewrite zlen_app. lia.
Qed.

(** Repeated registrations of one service. *)
Definition register_all (group : string) (svcs : list ServiceDescriptor) (g : GlobalRegistry) : GlobalRegistry :=
  fold_left (fun g svc => registerService group svc g) svcs g.

Lemma register_all_keeps group svcs g n c d :
  gr_wf g -> Forall (fun s => sd_node_id s = n /\ getCapability s = c) svcs ->
  provider g group n c = Some d ->
  exists d', provider (register_all group svcs g) group n c = Some d'
    /\ (sd_transport d = SHARED_MEMORY \/ (exists s, s ∈ svcs /\ sd_transport s = SHARED_MEMORY)
        -> sd_transport d' = SHARED_MEMORY)
    /\ (d' = d \/ d' ∈ svcs).
Proof.
  revert g d. induction svcs as [|s svcs IH]; intros g d Hwf Hs Hp.
  - exists d. split; [done|]. split; [|by left]. intros [|(s & Hs' & _)]; [done|]. by apply not_elem_of_nil in Hs'.
  - apply Forall_cons in Hs as [[Hn Hc] Hs]. cbn [register_all fold_left].
    pose proof (gr_exec_spec (ORegisterService group s) g group n c Hwf) as Hx. cbn [gr_exec gr_spec] in Hx.
    rewrite decide_True, Hp in Hx by done.
    destruct (IH (registerService group s g) (prefer d s)) as (d' & Hd' & Ht & Hin); [|done|done|].
    { by apply (gr_exec_wf (ORegisterService group s)). }
    exists d'. split; [done|]. split.
    + intros Hor. apply Ht. unfold prefer. case_bool_decide as Hb; [left; tauto|].
      destruct Hor as [Hor|(x & Hi & Hxt)]; [by left|]. apply elem_of_cons in Hi as [->|Hi]; [|by eauto].
      left. destruct (decide (sd_transport d = SHARED_MEMORY)); [done|tauto].
    + rewrite elem_of_cons. unfold prefer in Hin. case_bool_decide; tauto.
Qed.

(** ** Properties *)

(** C13: registering and unregistering nodes and services, pruning expired
    nodes and clearing keep the registry well formed (groups sorted and never
    empty, one descriptor per node and capability) and implement the service
    table: a registration changes only its own entry, where SHARED_MEMORY
    replaces the other transports and everything else keeps the first descriptor;
    an unregistration removes the node's services of that topic; a leaving
    node takes all of its services and no others with it. *)
Theorem services_refine o g :
  gr_wf g ->
  gr_wf (gr_exec o g)
  /\ forall group n c, provider (gr_exec o g) group n c = gr_spec o (provider g) group n c.
Proof. intros Hwf. split; [by apply gr_exec_wf|]. intros. by apply gr_exec_spec. Qed.

(** In every registry reached from the empty one, a group listed
    has a service, no group lists two descriptors of the same node and
    capability, and [getServiceCount] is the length of what [findServices]
    returns for the empty group. *)
Theorem services_reachable g :
  rtc gr_step gr_empty g ->
  (forall group vec, sm_find group (gr_services g) = Some vec -> vec <> [] /\ NoDup (svc_key <$> vec))
  /\ getServiceCount g = zlen (findServices "" g).
Proof.
  intros H. assert (gr_wf g) as [_ _ Hv].
  { pose proof gr_empty_wf as H0. induction H as [|x y z [o x'] Hr IH]; [done|]. apply IH. by apply gr_exec_wf. }
  split.
  - intros group vec Hf. apply sm_find_Some_elem in Hf. rewrite Forall_forall in Hv. by apply (Hv _ Hf).
  - unfold getServiceCount, findServices. simpl. rewrite getServiceCount_acc. lia.
Qed.

(** Whatever the order in which one service is registered over
    several transports, the descriptor kept is one of those registered, and
    it is a SHARED_MEMORY one as soon as one of them is. *)
Theorem shared_memory_wins g group svcs n c :
  gr_wf g -> provider g group n c = None -> svcs <> [] ->
  Forall (fun s => sd_node_id s = n /\ getCapability s = c) svcs ->
  exists d, provider (register_all group svcs g) group n c = Some d /\ d ∈ svcs
    /\ ((exists s, s ∈ svcs /\ sd_transport s = SHARED_MEMORY) -> sd_transport d = SHARED_MEMORY).
Proof.
  intros Hwf Hp Hne Hs. destruct svcs as [|s svcs]; [done|]. apply Forall_cons in Hs as [[Hn Hc] Hs].
  pose proof (gr_exec_spec (ORegisterService group s) g group n c Hwf) as Hx. cbn [gr_exec gr_spec] in Hx.
  rewrite decide_True, Hp in Hx by done.
  destruct (register_all_keeps group svcs (registerService group s g) n c s) as (d & Hd & Ht & Hin); [|done|done|].
  { by apply (gr_exec_wf (ORegisterService group s)). }
  exists d. split; [done|]. rewrite elem_of_cons. split; [tauto|]. intros (x & Hx' & Hxt). apply Ht.
  apply elem_of_cons in Hx' as [->|Hx']; [by left|right; eauto].
Qed.

(** [unregisterService] matches by topic, not by capability: taking
    back a normal service also removes the large-data channel the same node
    offers under the same group and topic. *)
Theorem unregister_takes_large_data g group n topic channel t1 t2 a1 a2 :
  gr_wf g ->
  let normal := mkService n group topic NORMAL_MESSAGE "" t1 a1 in
  let large := mkService n group topic LARGE_DATA channel t2 a2 in
  provider g group n (getCapability large) = Some large ->
  provider (unregisterService group normal g) group n (getCapability large) = None.
Proof.
  intros Hwf normal large Hp. rewrite (gr_exec_spec (OUnregisterService group normal) g group n _ Hwf).
  cbn [gr_spec]. rewrite Hp. by rewrite decide_True.
Qed.

(** ** Witnesses *)

Definition demo_udp : ServiceDescriptor := mkService "n" "g" "t" NORMAL_MESSAGE "" UDP "1.2.3.4:5".

Definition demo_shm : ServiceDescriptor := mkService "n" "g" "t" NORMAL_MESSAGE "" SHARED_MEMORY "".

Definition demo_large : ServiceDescriptor := mkService "n" "g" "t" LARGE_DATA "ch" SHARED_MEMORY "".

Lemma services_refine_witness :
  provider (gr_exec (ORegisterService "g" demo_shm) gr_empty) "g" "n" "g/t" = Some demo_shm.
Proof.
  transitivity (gr_spec (ORegisterService "g" demo_shm) (provider gr_empty) "g" "n" "g/t"); [|reflexivity].
  apply (services_refine (ORegisterService "g" demo_shm) gr_empty gr_empty_wf).
Defined.

Lemma services_reachable_witness :
  getServiceCount (registerService "g" demo_shm gr_empty)
  = zlen (findServices "" (registerService "g" demo_shm gr_empty)).
Proof.
  apply (services_reachable (registerService "g" demo_shm gr_empty)).
  apply rtc_once, (gr_step_intro (ORegisterService "g" demo_shm)).
Defined.

Lemma shared_memory_wins_witness :
  exists d, provider (register_all "g" [demo_udp; demo_shm] gr_empty) "g" "n" "g/t" = Some d
    /\ d ∈ [demo_udp; demo_shm]
    /\ ((exists s, s ∈ [demo_udp; demo_shm] /\ sd_transport s = SHARED_MEMORY) -> sd_transport d = SHARED_MEMORY).
Proof.
  apply (shared_memory_wins gr_empty "g" [demo_udp; demo_shm] "n" "g/t"); [exact gr_empty_wf|reflexivity|discriminate|].
  repeat constructor.
Defined.

Lemma unregister_takes_large_data_witness :
  provider (unregisterService "g" demo_shm (registerService "g" demo_large gr_empty)) "g" "n" "g/ch/t" = None.
Proof.
  apply (unregister_takes_large_data (registerService "g" demo_large gr_empty) "g" "n" "t" "ch"
           SHARED_MEMORY SHARED_MEMORY "" ""); [|reflexivity].
  exact (gr_exec_wf (ORegisterService "g" demo_large) gr_empty gr_empty_wf).
Defined.
