(* ===== verification/Crc32.v ===== *)
(** * CRC-32 of the large-data channel

    Models the lookup table and [LargeDataChannel::calculateCRC32] of
    [src/transport/LargeDataChannel.cpp], and proves the table-driven loop equal to
    the bitwise definition of the reflected CRC-32, and its detection of every
    error confined to one byte. *)

From S2P Require Import Prelude.

Definition crc32_table : list Z :=
  [0x00000000; 0x77073096; 0xee0e612c; 0x990951ba; 0x076dc419; 0x706af48f; 0xe963a535; 0x9e6495a3;
   0x0edb8832; 0x79dcb8a4; 0xe0d5e91e; 0x97d2d988; 0x09b64c2b; 0x7eb17cbd; 0xe7b82d07; 0x90bf1d91;
   0x1db71064; 0x6ab020f2; 0xf3b97148; 0x84be41de; 0x1adad47d; 0x6ddde4eb; 0xf4d4b551; 0x83d385c7;
   0x136c9856; 0x646ba8c0; 0xfd62f97a; 0x8a65c9ec; 0x14015c4f; 0x63066cd9; 0xfa0f3d63; 0x8d080df5;
   0x3b6e20c8; 0x4c69105e; 0xd56041e4; 0xa2677172; 0x3c03e4d1; 0x4b04d447; 0xd20d85fd; 0xa50ab56b;
   0x35b5a8fa; 0x42b2986c; 0xdbbbc9d6; 0xacbcf940; 0x32d86ce3; 0x45df5c75; 0xdcd60dcf; 0xabd13d59;
   0x26d930ac; 0x51de003a; 0xc8d75180; 0xbfd06116; 0x21b4f4b5; 0x56b3c423; 0xcfba9599; 0xb8bda50f;
   0x2802b89e; 0x5f058808; 0xc60cd9b2; 0xb10be924; 0x2f6f7c87; 0x58684c11; 0xc1611dab; 0xb6662d3d;
   0x76dc4190; 0x01db7106; 0x98d220bc; 0xefd5102a; 0x71b18589; 0x06b6b51f; 0x9fbfe4a5; 0xe8b8d433;
   0x7807c9a2; 0x0f00f934; 0x9609a88e; 0xe10e9818; 0x7f6a0dbb; 0x086d3d2d; 0x91646c97; 0xe6635c01;
   0x6b6b51f4; 0x1c6c6162; 0x856530d8; 0xf262004e; 0x6c0695ed; 0x1b01a57b; 0x8208f4c1; 0xf50fc457;
   0x65b0d9c6; 0x12b7e950; 0x8bbeb8ea; 0xfcb9887c; 0x62dd1ddf; 0x15da2d49; 0x8cd37cf3; 0xfbd44c65;
   0x4db26158; 0x3ab551ce; 0xa3bc0074; 0xd4bb30e2; 0x4adfa541; 0x3dd895d7; 0xa4d1c46d; 0xd3d6f4fb;
   0x4369e96a; 0x346ed9fc; 0xad678846; 0xda60b8d0; 0x44042d73; 0x33031de5; 0xaa0a4c5f; 0xdd0d7cc9;
   0x5005713c; 0x270241aa; 0xbe0b1010; 0xc90c2086; 0x5768b525; 0x206f85b3; 0xb966d409; 0xce61e49f;
   0x5edef90e; 0x29d9c998; 0xb0d09822; 0xc7d7a8b4; 0x59b33d17; 0x2eb40d81; 0xb7bd5c3b; 0xc0ba6cad;
   0xedb88320; 0x9abfb3b6; 0x03b6e20c; 0x74b1d29a; 0xead54739; 0x9dd277af; 0x04db2615; 0x73dc1683;
   0xe3630b12; 0x94643b84; 0x0d6d6a3e; 0x7a6a5aa8; 0xe40ecf0b; 0x9309ff9d; 0x0a00ae27; 0x7d079eb1;
   0xf00f9344; 0x8708a3d2; 0x1e01f268; 0x6906c2fe; 0xf762575d; 0x806567cb; 0x196c3671; 0x6e6b06e7;
   0xfed41b76; 0x89d32be0; 0x10da7a5a; 0x67dd4acc; 0xf9b9df6f; 0x8ebeeff9; 0x17b7be43; 0x60b08ed5;
   0xd6d6a3e8; 0xa1d1937e; 0x38d8c2c4; 0x4fdff252; 0xd1bb67f1; 0xa6bc5767; 0x3fb506dd; 0x48b2364b;
   0xd80d2bda; 0xaf0a1b4c; 0x36034af6; 0x41047a60; 0xdf60efc3; 0xa867df55; 0x316e8eef; 0x4669be79;
   0xcb61b38c; 0xbc66831a; 0x256fd2a0; 0x5268e236; 0xcc0c7795; 0xbb0b4703; 0x220216b9; 0x5505262f;
   0xc5ba3bbe; 0xb2bd0b28; 0x2bb45a92; 0x5cb36a04; 0xc2d7ffa7; 0xb5d0cf31; 0x2cd99e8b; 0x5bdeae1d;
   0x9b64c2b0; 0xec63f226; 0x756aa39c; 0x026d930a; 0x9c0906a9; 0xeb0e363f; 0x72076785; 0x05005713;
   0x95bf4a82; 0xe2b87a14; 0x7bb12bae; 0x0cb61b38; 0x92d28e9b; 0xe5d5be0d; 0x7cdcefb7; 0x0bdbdf21;
   0x86d3d2d4; 0xf1d4e242; 0x68ddb3f8; 0x1fda836e; 0x81be16cd; 0xf6b9265b; 0x6fb077e1; 0x18b74777;
   0x88085ae6; 0xff0f6a70; 0x66063bca; 0x11010b5c; 0x8f659eff; 0xf862ae69; 0x616bffd3; 0x166ccf45;
   0xa00ae278; 0xd70dd2ee; 0x4e048354; 0x3903b3c2; 0xa7672661; 0xd06016f7; 0x4969474d; 0x3e6e77db;
   0xaed16a4a; 0xd9d65adc; 0x40df0b66; 0x37d83bf0; 0xa9bcae53; 0xdebb9ec5; 0x47b2cf7f; 0x30b5ffe9;
   0xbdbdf21c; 0xcabac28a; 0x53b39330; 0x24b4a3a6; 0xbad03605; 0xcdd70693; 0x54de5729; 0x23d967bf;
   0xb3667a2e; 0xc4614ab8; 0x5d681b02; 0x2a6f2b94; 0xb40bbe37; 0xc30c8ea1; 0x5a05df1b; 0x2d02ef8d].

(** One round of the loop: [crc = crc32_table[(crc ^ data[i]) & 0xFF] ^ (crc >> 8)]. *)
Definition crc_step (crc b : Z) : Z :=
  Z.lxor (nth (Z.to_nat (Z.land (Z.lxor crc b) 0xFF)) crc32_table 0) (Z.shiftr crc 8).

(** [~crc] on 32 bits. *)
Definition not32 (z : Z) : Z := Z.lxor z 0xFFFFFFFF.

Definition calculateCRC32 (data : list Z) : Z := not32 (fold_left crc_step data 0xFFFFFFFF).

(** ** The bitwise reference *)

(** One bit of the division by the reflected polynomial 0xEDB88320. *)
Definition crc_bit (r : Z) : Z :=
  if Z.testbit r 0 then Z.lxor (Z.shiftr r 1) 0xEDB88320 else Z.shiftr r 1.

Definition crc_byte_ref (crc b : Z) : Z := Nat.iter 8 crc_bit (Z.lxor crc b).

Definition crc32_ref (data : list Z) : Z := not32 (fold_left crc_byte_ref data 0xFFFFFFFF).

(** ** Equivalence *)

Lemma crc32_table_ref :
  map (fun i => Nat.iter 8 crc_bit (Z.of_nat i)) (seq 0 256) = crc32_table.
Proof. vm_compute. reflexivity. Qed.

Lemma table_nth i : 0 <= i < 256 -> nth (Z.to_nat i) crc32_table 0 = Nat.iter 8 crc_bit i.
Proof.
  intros Hi. rewrite <- crc32_table_ref.
  rewrite (nth_indep _ 0 (Nat.iter 8 crc_bit (Z.of_nat 0))) by (rewrite length_map, length_seq; lia).
  rewrite (map_nth (fun i => Nat.iter 8 crc_bit (Z.of_nat i))).
  rewrite seq_nth by lia. simpl Nat.add. by rewrite Z2Nat.id by lia.
Qed.

(** The bit step is linear over exclusive or. *)
Lemma crc_bit_xor a b : crc_bit (Z.lxor a b) = Z.lxor (crc_bit a) (crc_bit b).
Proof.
  unfold crc_bit. rewrite Z.lxor_spec, Z.shiftr_lxor.
  destruct (Z.testbit a 0), (Z.testbit b 0); simpl xorb; cbn iota;
    apply Z.bits_inj'; intros n Hn; rewrite !Z.lxor_spec;
    destruct (Z.testbit (Z.shiftr a 1) n), (Z.testbit (Z.shiftr b 1) n), (Z.testbit 3988292384 n); reflexivity.
Qed.

Lemma crc_iter_xor n a b :
  Nat.iter n crc_bit (Z.lxor a b) = Z.lxor (Nat.iter n crc_bit a) (Nat.iter n crc_bit b).
Proof. induction n as [|n IH]; [done|]. simpl. by rewrite IH, crc_bit_xor. Qed.

(** On a value whose low [n] bits are zero, [n] rounds only shift. *)
Lemma crc_iter_shift n h : Nat.iter n crc_bit (Z.shiftl h (Z.of_nat n)) = h.
Proof.
  induction n as [|n IH]; [by rewrite Z.shiftl_0_r|].
  rewrite Nat.iter_succ_r. replace (crc_bit (Z.shiftl h (Z.of_nat (S n)))) with (Z.shiftl h (Z.of_nat n)); [done|].
  unfold crc_bit. rewrite Z.shiftl_spec_low by lia. rewrite Z.shiftr_shiftl_l by lia. f_equal. lia.
Qed.

Lemma split_low_byte x : x = Z.lxor (Z.shiftl (Z.shiftr x 8) 8) (Z.land x 0xFF).
Proof.
  apply Z.bits_inj'. intros n Hn. rewrite Z.lxor_spec, Z.land_spec.
  change 0xFF with (Z.ones 8). destruct (Z.lt_ge_cases n 8).
  - rewrite Z.shiftl_spec_low, Z.ones_spec_low by lia. by rewrite andb_true_r, xorb_false_l.
  - rewrite Z.shiftl_spec, Z.shiftr_spec, Z.ones_spec_high by lia.
    rewrite andb_false_r, xorb_false_r. f_equal. lia.
Qed.

Lemma crc_iter_byte x :
  Nat.iter 8 crc_bit x = Z.lxor (nth (Z.to_nat (Z.land x 0xFF)) crc32_table 0) (Z.shiftr x 8).
Proof.
  rewrite table_nth by (change 0xFF with (Z.ones 8); rewrite Z.land_ones by lia; apply Z.mod_pos_bound; lia).
  rewrite (split_low_byte x) at 1. rewrite crc_iter_xor.
  change 8 with (Z.of_nat 8) at 2. rewrite crc_iter_shift. apply Z.lxor_comm.
Qed.

Lemma shiftr_byte b : byte_ok b -> Z.shiftr b 8 = 0.
Proof. intros Hb. rewrite Z.shiftr_div_pow2 by lia. apply Z.div_small. exact Hb. Qed.

Lemma crc_step_ref crc b : byte_ok b -> crc_step crc b = crc_byte_ref crc b.
Proof.
  intros Hb. unfold crc_step, crc_byte_ref. rewrite crc_iter_byte, Z.shiftr_lxor, (shiftr_byte b) by done.
  by rewrite Z.lxor_0_r.
Qed.

Lemma crc_fold_ref data acc :
  bytes_ok data -> fold_left crc_step data acc = fold_left crc_byte_ref data acc.
Proof.
  intros H. revert acc. induction H as [|b data Hb Hd IH]; intros acc; [done|].
  simpl. by rewrite crc_step_ref.
Qed.

(** ** Range *)

Definition u32_ok (z : Z) : Prop := 0 <= z < 2 ^ 32.

Lemma bits_u32 z : u32_ok z <-> 0 <= z /\ forall n, 32 <= n -> Z.testbit z n = false.
Proof.
  unfold u32_ok. split.
  - intros H. split; [lia|]. intros n Hn. destruct (Z.eq_dec z 0) as [->|]; [apply Z.bits_0|].
    apply Z.bits_above_log2; [lia|]. apply Z.log2_lt_pow2; [lia|].
    apply Z.lt_le_trans with (2 ^ 32); [lia|]. apply Z.pow_le_mono_r; lia.
  - intros [H0 H]. split; [done|]. destruct (Z.eq_dec z 0) as [->|]; [lia|].
    apply Z.log2_lt_pow2; [lia|]. destruct (Z.lt_ge_cases (Z.log2 z) 32) as [|Hg]; [done|].
    specialize (H _ Hg). rewrite Z.bit_log2 in H by lia. done.
Qed.

Lemma lxor_u32 a b : u32_ok a -> u32_ok b -> u32_ok (Z.lxor a b).
Proof.
  rewrite !bits_u32. intros [Ha Ha'] [Hb Hb']. split; [by apply Z.lxor_nonneg|].
  intros n Hn. by rewrite Z.lxor_spec, Ha', Hb'.
Qed.

Lemma table_u32 : Forall (fun z => 0 <= z < 2 ^ 32) crc32_table.
Proof.
  apply Forall_forall. intros z Hz.
  assert (forallb (fun z => (0 <=? z) && (z <? 2 ^ 32)) crc32_table = true) as E by (vm_compute; reflexivity).
  rewrite forallb_forall in E. apply list_elem_of_In in Hz. specialize (E z Hz). btest. lia.
Qed.

Lemma nth_table_u32 i : u32_ok (nth i crc32_table 0).
Proof.
  destruct (nth_in_or_default i crc32_table 0) as [H|H].
  - apply list_elem_of_In in H. pose proof table_u32 as HT. rewrite Forall_forall in HT. by apply HT.
  - rewrite H. unfold u32_ok. lia.
Qed.

Lemma shiftr8_range z : u32_ok z -> 0 <= Z.shiftr z 8 < 2 ^ 24.
Proof.
  unfold u32_ok. intros. rewrite Z.shiftr_div_pow2 by lia.
  split; [apply Z.div_pos; lia|]. apply Z.div_lt_upper_bound; lia.
Qed.

Lemma crc_step_u32 crc b : u32_ok crc -> u32_ok (crc_step crc b).
Proof.
  intros H. apply lxor_u32; [apply nth_table_u32|]. pose proof (shiftr8_range crc H). unfold u32_ok. lia.
Qed.

Lemma crc_fold_u32 data acc : u32_ok acc -> u32_ok (fold_left crc_step data acc).
Proof. revert acc. induction data as [|b data IH]; intros acc H; [done|]. simpl. apply IH. by apply crc_step_u32. Qed.

Lemma calculateCRC32_range data : 0 <= calculateCRC32 data < 2 ^ 32.
Proof.
  apply lxor_u32; [apply crc_fold_u32|]; unfold u32_ok; lia.
Qed.

(** ** Error detection *)

Lemma lxor_cancel_r a b c : Z.lxor a c = Z.lxor b c -> a = b.
Proof.
  intros H. assert (Z.lxor (Z.lxor a c) c = Z.lxor (Z.lxor b c) c) as E by (by rewrite H).
  by rewrite !Z.lxor_assoc, Z.lxor_nilpotent, !Z.lxor_0_r in E.
Qed.

Lemma lxor_cancel_l a b c : Z.lxor c a = Z.lxor c b -> a = b.
Proof. rewrite !(Z.lxor_comm c). apply lxor_cancel_r. Qed.

(** The top byte of a table entry determines its index. *)
Lemma table_top_inj i j :
  (i < 256)%nat -> (j < 256)%nat ->
  Z.shiftr (nth i crc32_table 0) 24 = Z.shiftr (nth j crc32_table 0) 24 -> i = j.
Proof.
  intros Hi Hj H.
  assert (NoDup (map (fun z => Z.shiftr z 24) crc32_table)) as HN.
  { apply NoDup_ListNoDup. apply (NoDup_count_occ' Z.eq_dec). intros x Hx.
    assert (forallb (fun x => Nat.eqb (count_occ Z.eq_dec (map (fun z => Z.shiftr z 24) crc32_table) x) 1)
              (map (fun z => Z.shiftr z 24) crc32_table) = true) as E by (vm_compute; reflexivity).
    rewrite forallb_forall in E. by apply Nat.eqb_eq, E. }
  apply NoDup_ListNoDup in HN. rewrite (NoDup_nth _ (Z.shiftr 0 24)) in HN. apply HN.
  - rewrite length_map. exact Hi.
  - rewrite length_map. exact Hj.
  - by rewrite !(map_nth (fun z => Z.shiftr z 24)).
Qed.

Lemma land_ff_lt x : (Z.to_nat (Z.land x 0xFF) < 256)%nat.
Proof.
  change 0xFF with (Z.ones 8). rewrite Z.land_ones by lia.
  pose proof (Z.mod_pos_bound x (2 ^ 8) ltac:(lia)). lia.
Qed.

(** The index used in a round is determined by its result. *)
Lemma crc_step_index c1 c2 b1 b2 :
  u32_ok c1 -> u32_ok c2 -> crc_step c1 b1 = crc_step c2 b2 ->
  Z.land (Z.lxor c1 b1) 0xFF = Z.land (Z.lxor c2 b2) 0xFF /\ Z.shiftr c1 8 = Z.shiftr c2 8.
Proof.
  intros H1 H2 H. pose proof (shiftr8_range c1 H1). pose proof (shiftr8_range c2 H2).
  assert (Z.land (Z.lxor c1 b1) 0xFF = Z.land (Z.lxor c2 b2) 0xFF) as E.
  { assert (Z.shiftr (crc_step c1 b1) 24 = Z.shiftr (crc_step c2 b2) 24) as Hs by (by rewrite H).
    unfold crc_step in Hs. rewrite !Z.shiftr_lxor in Hs.
    assert (forall x, 0 <= x < 2 ^ 24 -> Z.shiftr x 24 = 0) as Hz
      by (intros; rewrite Z.shiftr_div_pow2 by lia; by apply Z.div_small).
    rewrite (Hz (Z.shiftr c1 8)), (Hz (Z.shiftr c2 8)), !Z.lxor_0_r in Hs by done. apply table_top_inj in Hs; try apply land_ff_lt.
    apply Z2Nat.inj in Hs; [done|..]; apply Z.land_nonneg; lia. }
  split; [done|]. unfold crc_step in H. rewrite E in H. by apply lxor_cancel_l in H.
Qed.

Lemma crc_step_inj_state c1 c2 b : u32_ok c1 -> u32_ok c2 -> crc_step c1 b = crc_step c2 b -> c1 = c2.
Proof.
  intros H1 H2 H. destruct (crc_step_index _ _ _ _ H1 H2 H) as [E1 E2].
  rewrite (split_low_byte c1), (split_low_byte c2), E2. f_equal. apply Z.bits_inj'. intros n Hn.
  apply (f_equal (fun z => Z.testbit z n)) in E1. rewrite !Z.land_spec, !Z.lxor_spec in E1. rewrite !Z.land_spec.
  destruct (Z.testbit 255 n), (Z.testbit c1 n), (Z.testbit c2 n), (Z.testbit b n); simpl in *; congruence.
Qed.

Lemma crc_step_inj_byte c b1 b2 : u32_ok c -> byte_ok b1 -> byte_ok b2 -> crc_step c b1 = crc_step c b2 -> b1 = b2.
Proof.
  intros Hc H1 H2 H. destruct (crc_step_index _ _ _ _ Hc Hc H) as [E _].
  assert (forall b, byte_ok b -> Z.land b 0xFF = b) as Hl.
  { intros b Hb. change 0xFF with (Z.ones 8). rewrite Z.land_ones by lia. by apply Z.mod_small. }
  rewrite <- (Hl b1), <- (Hl b2) by done. apply Z.bits_inj'. intros n Hn.
  apply (f_equal (fun z => Z.testbit z n)) in E. rewrite !Z.land_spec, !Z.lxor_spec in E. rewrite !Z.land_spec.
  destruct (Z.testbit 255 n), (Z.testbit c n), (Z.testbit b1 n), (Z.testbit b2 n); simpl in *; congruence.
Qed.

Lemma crc_fold_inj data c1 c2 :
  u32_ok c1 -> u32_ok c2 -> fold_left crc_step data c1 = fold_left crc_step data c2 -> c1 = c2.
Proof.
  revert c1 c2. induction data as [|b data IH]; intros c1 c2 H1 H2 H; [done|]. simpl in H.
  apply IH in H; [|by apply crc_step_u32..]. by apply crc_step_inj_state in H.
Qed.

(** ** Properties *)

(** C29: the table-driven loop computes the reflected CRC-32 of polynomial
    0xEDB88320, bit by bit, on every byte string. *)
Theorem crc32_correct data : bytes_ok data -> calculateCRC32 data = crc32_ref data.
Proof. intros H. unfold calculateCRC32, crc32_ref. by rewrite crc_fold_ref. Qed.

(** Two byte strings of equal length that differ in exactly one byte
    have different checksums. *)
Theorem crc32_detects_byte pre b1 b2 post :
  byte_ok b1 -> byte_ok b2 -> b1 <> b2 ->
  calculateCRC32 (pre ++ b1 :: post) <> calculateCRC32 (pre ++ b2 :: post).
Proof.
  intros H1 H2 Hne H. unfold calculateCRC32, not32 in H. apply lxor_cancel_r in H.
  rewrite !fold_left_app in H. simpl in H. apply Hne.
  assert (u32_ok (fold_left crc_step pre 0xFFFFFFFF)) as Hp by (apply crc_fold_u32; unfold u32_ok; lia).
  apply crc_fold_inj in H; [|by apply crc_step_u32..]. by apply crc_step_inj_byte in H.
Qed.

(** ** Witnesses *)

(** The check value of CRC-32: the checksum of the ASCII string "123456789". *)
Lemma crc32_correct_witness :
  calculateCRC32 (bytes_of_string "123456789") = crc32_ref (bytes_of_string "123456789")
  /\ calculateCRC32 (bytes_of_string "123456789") = 0xCBF43926.
Proof. split; [apply crc32_correct, bytes_of_string_ok | vm_compute; reflexivity]. Defined.

Lemma crc32_detects_byte_witness : calculateCRC32 ([1; 2] ++ 3 :: [4]) <> calculateCRC32 ([1; 2] ++ 7 :: [4]).
Proof. apply (crc32_detects_byte [1; 2] 3 7 [4]); unfold byte_ok; lia. Defined.
