(* ===== verification/LargeDataChannel.v ===== *)
(** * The large-data channel

    Models [include/nexus/transport/LargeDataChannel.h] and
    [src/transport/LargeDataChannel.cpp]: the control block with its sixteen reader
    slots, the ring of data blocks, writing, zero-copy reading and releasing, the
    registration and clean-up of readers, and the life of the shared-memory object.
    A call is one step; a block handed out by [tryRead] is an offset into the shared
    buffer, so later writes show through it. *)

From S2P Require Import Prelude Os Crc32.

(** ** Data *)

Definition LARGE_DATA_CLEANUP_INTERVAL_S : Z := 30.

Definition LARGE_DATA_READER_TIMEOUT_S : Z := 60.

Definition LARGE_DATA_MIN_VALID_SIZE : Z := 4096.

(** The fields of [LargeDataHeader] by their offsets in the packed structure. *)
Definition sizeof_LargeDataHeader : Z := 128.

Definition off_magic : Z := 0.

Definition off_size : Z := 4.

Definition off_sequence : Z := 8.

Definition off_crc32 : Z := 16.

Definition off_topic : Z := 20.

Definition sizeof_topic : Z := 64.

Definition LDH_MAGIC : Z := 0x4C444154.

Definition MAX_READERS : nat := 16.

Definition sizeof_RingBufferControl : Z := 1152.

Record ReaderSlot := mkSlot {
  read_pos : Z;
  heartbeat : Z;
  r_pid : Z;
  active : bool
}.

Record RingBufferControl := mkControl {
  write_pos : Z;
  sequence : Z;
  writer_heartbeat : Z;
  writer_pid : Z;
  readers : list ReaderSlot;
  num_readers : Z;
  ref_count : Z;
  capacity : Z;
  ctl_max_block_size : Z;
  ctl_max_readers : Z
}.

Inductive LargeDataOverflowPolicy := LD_DROP_OLDEST | LD_DROP_NEWEST | LD_BLOCK.

(** [overflow_callback] is only tested for presence and called; the calls are
    returned as events. *)
Record Config := mkConfig {
  buffer_size : Z;
  max_block_size : Z;
  max_readers : Z;
  use_mmap_noreserve : bool;
  overflow_policy : LargeDataOverflowPolicy;
  overflow_callback : bool
}.

Definition default_config : Config :=
  mkConfig (64 * 1024 * 1024) (8 * 1024 * 1024) 8 true LD_DROP_OLDEST false.

Inductive ReadResult := SUCCESS | NO_DATA | CRC_ERROR | INVALID_MAGIC | SIZE_EXCEEDED | INSUFFICIENT.

#[export] Instance ReadResult_eq_dec : EqDecision ReadResult.
Proof. solve_decision. Defined.

(** A block handle: [header] and [data] are offsets into the shared buffer. *)
Record DataBlock := mkBlock {
  db_header : option Z;
  db_data : option Z;
  db_size : Z;
  db_result : ReadResult
}.

Definition empty_block : DataBlock := mkBlock None None 0 NO_DATA.

(** The shared-memory object: the control block and the bytes after it. *)
Record shared := mkShared {
  control : RingBufferControl;
  buffer : list Z
}.

(** A [LargeDataChannel] object in a process; [mapped] is the number of buffer
    bytes inside its mapping. *)
Record channel := mkChannel {
  config : Config;
  mapped : Z;
  reader_id : Z;
  total_writes : Z;
  total_reads : Z;
  total_bytes_written : Z;
  total_bytes_read : Z;
  total_dropped : Z
}.

(** ** Field updates *)

Definition set_readers (c : RingBufferControl) (rs : list ReaderSlot) (n : Z) : RingBufferControl :=
  mkControl (write_pos c) (sequence c) (writer_heartbeat c) (writer_pid c) rs n (ref_count c)
    (capacity c) (ctl_max_block_size c) (ctl_max_readers c).

Definition set_write_pos (c : RingBufferControl) (w : Z) : RingBufferControl :=
  mkControl w (sequence c) (writer_heartbeat c) (writer_pid c) (readers c) (num_readers c) (ref_count c)
    (capacity c) (ctl_max_block_size c) (ctl_max_readers c).

Definition set_writer (c : RingBufferControl) (hb seq : Z) : RingBufferControl :=
  mkControl (write_pos c) seq hb (writer_pid c) (readers c) (num_readers c) (ref_count c)
    (capacity c) (ctl_max_block_size c) (ctl_max_readers c).

Definition set_ref_count (c : RingBufferControl) (n : Z) : RingBufferControl :=
  mkControl (write_pos c) (sequence c) (writer_heartbeat c) (writer_pid c) (readers c) (num_readers c) n
    (capacity c) (ctl_max_block_size c) (ctl_max_readers c).

Definition set_read_pos (s : ReaderSlot) (p : Z) : ReaderSlot := mkSlot p (heartbeat s) (r_pid s) (active s).

Definition upd_reader (c : RingBufferControl) (i : nat) (f : ReaderSlot -> ReaderSlot) : RingBufferControl :=
  set_readers c (alter f i (readers c)) (num_readers c).

Definition set_reader_id (ch : channel) (r : Z) : channel :=
  mkChannel (config ch) (mapped ch) r (total_writes ch) (total_reads ch) (total_bytes_written ch)
    (total_bytes_read ch) (total_dropped ch).

(** ** Memory accesses through a mapping *)

Definition view_rd (ch : channel) (off n : Z) (buf : list Z) : outcome (list Z) :=
  if off + n <=? mapped ch then mem_rd off n buf else UB.

Definition view_wr (ch : channel) (off : Z) (bs buf : list Z) : outcome (list Z) :=
  if off + zlen bs <=? mapped ch then mem_wr off bs buf else UB.

(** ** Readers *)

(** [isProcessAlive] of [cleanupOrphanedChannels] and [cleanupDeadReaders]. *)
Definition isProcessAlive (e : os) (p : Z) : bool := if p <=? 0 then false else kill_exists e p.

Definition getMinReadPos (c : RingBufferControl) : Z :=
  fold_left (fun min_pos s => if active s then if read_pos s <? min_pos then read_pos s else min_pos else min_pos)
    (readers c) (write_pos c).

Definition registerReader (e : os) (c : RingBufferControl) : Z * RingBufferControl :=
  match list_find (fun s => active s = false) (readers c) with
  | Some (i, _) =>
      (Z.of_nat i,
       set_readers c (<[i := mkSlot 0 (u64 (time_s e)) (getpid e) true]> (readers c)) (u32 (num_readers c + 1)))
  | None => (-1, c)
  end.

Definition reader_id_valid (r : Z) : bool := (0 <=? r) && (r <? Z.of_nat MAX_READERS).

Definition unregisterReader (r : Z) (c : RingBufferControl) : RingBufferControl :=
  if reader_id_valid r then
    let c' := upd_reader c (Z.to_nat r) (fun s => mkSlot (read_pos s) (heartbeat s) 0 false) in
    set_readers c' (readers c') (u32 (num_readers c' - 1))
  else c.

Definition updateReaderHeartbeat (e : os) (r : Z) (c : RingBufferControl) : RingBufferControl :=
  if reader_id_valid r then
    upd_reader c (Z.to_nat r) (fun s => mkSlot (read_pos s) (u64 (time_s e)) (r_pid s) (active s))
  else c.

(** The test of one active slot in [cleanupDeadReaders]; the time difference is
    unsigned. *)
Definition reader_dead (e : os) (s : ReaderSlot) : bool :=
  active s
  && (negb (isProcessAlive e (r_pid s))
      || (LARGE_DATA_READER_TIMEOUT_S <? u64 (u64 (time_s e) - heartbeat s))).

Definition deactivate (s : ReaderSlot) : ReaderSlot := mkSlot (read_pos s) (heartbeat s) (r_pid s) false.

(** [last] is the function's static variable. *)
Definition cleanupDeadReaders (e : os) (last : Z) (c : RingBufferControl) : Z * RingBufferControl :=
  let now := u64 (time_s e) in
  if u64 (now - last) <? LARGE_DATA_CLEANUP_INTERVAL_S then (last, c)
  else
    (now,
     set_readers c (map (fun s => if reader_dead e s then deactivate s else s) (readers c))
       (u32 (num_readers c - zlen (filter (fun s => reader_dead e s = true) (readers c))))).

(** ** Writing *)

(** The stores of one block at [off]: the header without its magic number, the
    data, the checksum, and the magic number last. *)
Definition write_block (ch : channel) (off size seq : Z) (topic : string) (data buf : list Z)
    : outcome (list Z) :=
  do! b := view_wr ch (off + off_magic) (le_enc 4 0) buf in
  do! b := view_wr ch (off + off_size) (le_enc 4 (u32 size)) b in
  do! b := view_wr ch (off + off_sequence) (le_enc 8 seq) b in
  do! b := view_wr ch (off + off_topic) (strncpy (sizeof_topic - 1) topic) b in
  do! b := view_wr ch (off + off_topic + (sizeof_topic - 1)) [0] b in
  do! b := view_wr ch (off + sizeof_LargeDataHeader) data b in
  do! b := view_wr ch (off + off_crc32) (le_enc 4 (calculateCRC32 data)) b in
  view_wr ch (off + off_magic) (le_enc 4 LDH_MAGIC) b.

(** The skip of the readers when the ring wraps. *)
Definition skip_reader (cap wpos woff : Z) (s : ReaderSlot) : ReaderSlot :=
  if active s && (read_pos s <? wpos) && (woff <=? read_pos s mod cap) then set_read_pos s wpos else s.

Record write_result := mkWritten {
  w_ret : Z;                          (* the sequence number, or -1 *)
  w_channel : channel;
  w_last : Z;                         (* [last_cleanup] *)
  w_shared : shared;
  w_events : list (string * Z * Z)    (* calls of the overflow callback: topic, sequence, dropped *)
}.

Definition add_dropped (ch : channel) : channel :=
  mkChannel (config ch) (mapped ch) (reader_id ch) (total_writes ch) (total_reads ch) (total_bytes_written ch)
    (total_bytes_read ch) (u64 (total_dropped ch + 1)).

Definition add_written (ch : channel) (size : Z) : channel :=
  mkChannel (config ch) (mapped ch) (reader_id ch) (u64 (total_writes ch + 1)) (total_reads ch)
    (u64 (total_bytes_written ch + size)) (total_bytes_read ch) (total_dropped ch).

Definition i64 (z : Z) : Z := (z + 2 ^ 63) mod 2 ^ 64 - 2 ^ 63.

Definition write (e : os) (topic : string) (data : list Z) (ch : channel) (last : Z) (sh : shared)
    : outcome write_result :=
  let size := zlen data in
  if max_block_size (config ch) <? size then Ret (mkWritten (-1) ch last sh [])
  else
    let total_size := sizeof_LargeDataHeader + size in
    let '(last, c) := cleanupDeadReaders e last (control sh) in
    let min_read_pos := getMinReadPos c in
    let wpos := write_pos c in
    let used := u64 (wpos - min_read_pos) in
    if capacity c <? u64 (used + total_size) then
      match overflow_policy (config ch) with
      | LD_DROP_NEWEST =>
          let ch' := add_dropped ch in
          Ret (mkWritten (-1) ch' last (mkShared c (buffer sh))
                 (if overflow_callback (config ch) then [(topic, sequence c, total_dropped ch')] else []))
      | LD_DROP_OLDEST | LD_BLOCK => Ret (mkWritten (-1) ch last (mkShared c (buffer sh)) [])
      end
    else
      let seq := sequence c in
      let c := set_writer c (u64 (time_s e)) (u64 (seq + 1)) in
      let woff := wpos mod capacity c in
      let '(woff, c) :=
        if capacity c <? woff + total_size then
          let skip_size := capacity c - woff in
          let c := set_write_pos c (u64 (write_pos c + skip_size)) in
          (0, set_readers c (map (skip_reader (capacity c) (write_pos c) 0) (readers c)) (num_readers c))
        else (woff, c) in
      do! buf := write_block ch woff size seq topic data (buffer sh) in
      let c := set_write_pos c (u64 (write_pos c + total_size)) in
      Ret (mkWritten (i64 seq) (add_written ch size) last (mkShared c buf) []).

(** ** Reading *)

Definition rd_field (ch : channel) (off : Z) (n : Z) (buf : list Z) : outcome Z :=
  do! bs := view_rd ch off n buf in Ret (le_dec bs).

Definition validateBlock (ch : channel) (off available : Z) (buf : list Z) : outcome ReadResult :=
  do! magic := rd_field ch (off + off_magic) 4 buf in
  if negb (magic =? LDH_MAGIC) then Ret INVALID_MAGIC
  else
    do! size := rd_field ch (off + off_size) 4 buf in
    if max_block_size (config ch) <? size then Ret SIZE_EXCEEDED
    else
      let total_size := sizeof_LargeDataHeader + size in
      if available <? total_size then Ret INSUFFICIENT
      else
        do! data := view_rd ch (off + sizeof_LargeDataHeader) size buf in
        do! crc := rd_field ch (off + off_crc32) 4 buf in
        if calculateCRC32 data =? crc then Ret SUCCESS else Ret CRC_ERROR.

Definition slot_pos (c : RingBufferControl) (r : Z) : Z :=
  from_option read_pos 0 (readers c !! Z.to_nat r).

Definition set_result (b : DataBlock) (r : ReadResult) : DataBlock :=
  mkBlock (db_header b) (db_data b) (db_size b) r.

(** [tryRead] into the caller's [block]. *)
Definition tryRead (e : os) (block : DataBlock) (ch : channel) (sh : shared)
    : outcome (bool * DataBlock * channel * shared) :=
  let '(ch, c) :=
    if reader_id ch <? 0 then let '(r, c) := registerReader e (control sh) in (set_reader_id ch r, c)
    else (ch, control sh) in
  if reader_id ch <? 0 then Ret (false, block, ch, mkShared c (buffer sh))
  else
    let r := reader_id ch in
    let c := updateReaderHeartbeat e r c in
    let rpos := slot_pos c r in
    let wpos := write_pos c in
    let min_read_pos := getMinReadPos c in
    let '(rpos, c) :=
      if rpos <? min_read_pos
      then (min_read_pos, upd_reader c (Z.to_nat r) (fun s => set_read_pos s min_read_pos))
      else (rpos, c) in
    let sh := mkShared c (buffer sh) in
    if wpos <=? rpos then Ret (false, block, ch, sh)
    else
      let roff := rpos mod capacity c in
      let available := wpos - rpos in
      if available <? sizeof_LargeDataHeader then Ret (false, block, ch, sh)
      else
        do! v := validateBlock ch roff available (buffer sh) in
        match v with
        | SUCCESS =>
            do! size := rd_field ch (roff + off_size) 4 (buffer sh) in
            Ret (true, mkBlock (Some roff) (Some (roff + sizeof_LargeDataHeader)) size SUCCESS, ch, sh)
        | INVALID_MAGIC | INSUFFICIENT => Ret (false, set_result block v, ch, sh)
        | _ =>
            let c := upd_reader c (Z.to_nat r) (fun s => set_read_pos s (u64 (read_pos s + sizeof_LargeDataHeader))) in
            Ret (false, set_result block v, ch, mkShared c (buffer sh))
        end.

(** [DataBlock::isValid] looks at the shared memory again. *)
Definition isValid (ch : channel) (block : DataBlock) (buf : list Z) : outcome bool :=
  match db_result block, db_header block with
  | SUCCESS, Some h => do! magic := rd_field ch (h + off_magic) 4 buf in Ret (magic =? LDH_MAGIC)
  | _, _ => Ret false
  end.

(** [DataBlock::getTopic]: [std::string] of the topic array. *)
Definition getTopic (ch : channel) (block : DataBlock) (buf : list Z) : outcome string :=
  match db_header block with
  | Some h => do! bs := view_rd ch (h + off_topic) sizeof_topic buf in Ret (cstring bs)
  | None => Ret ""%string
  end.

Definition getResultString (block : DataBlock) : string :=
  match db_result block with
  | SUCCESS => "SUCCESS"
  | NO_DATA => "NO_DATA"
  | CRC_ERROR => "CRC_ERROR"
  | INVALID_MAGIC => "INVALID_MAGIC"
  | SIZE_EXCEEDED => "SIZE_EXCEEDED"
  | INSUFFICIENT => "INSUFFICIENT"
  end.

Definition add_read (ch : channel) (size : Z) : channel :=
  mkChannel (config ch) (mapped ch) (reader_id ch) (total_writes ch) (u64 (total_reads ch + 1))
    (total_bytes_written ch) (u64 (total_bytes_read ch + size)) (total_dropped ch).

Definition releaseBlock (block : DataBlock) (ch : channel) (sh : shared) : outcome (channel * shared) :=
  do! valid := isValid ch block (buffer sh) in
  if negb valid || (reader_id ch <? 0) then Ret (ch, sh)
  else
    let total_size := sizeof_LargeDataHeader + db_size block in
    let c := upd_reader (control sh) (Z.to_nat (reader_id ch))
               (fun s => set_read_pos s (u64 (read_pos s + total_size))) in
    Ret (add_read ch (db_size block), mkShared c (buffer sh)).

(** ** Statistics and space *)

Record Stats := mkStats {
  s_total_writes : Z;
  s_total_reads : Z;
  s_total_bytes_written : Z;
  s_total_bytes_read : Z;
  s_current_usage : Z;
  s_capacity : Z
}.

Definition getStats (ch : channel) (c : RingBufferControl) : Stats :=
  mkStats (total_writes ch) (total_reads ch) (total_bytes_written ch) (total_bytes_read ch)
    (if getMinReadPos c <? write_pos c then write_pos c - getMinReadPos c else 0) (capacity c).

Definition getAvailableSpace (c : RingBufferControl) : Z :=
  let used := u64 (write_pos c - getMinReadPos c) in
  if capacity c <=? used then 0 else capacity c - used.

Definition canWrite (size : Z) (c : RingBufferControl) : bool := size <=? getAvailableSpace c.

Definition set_config (ch : channel) (cf : Config) : channel :=
  mkChannel cf (mapped ch) (reader_id ch) (total_writes ch) (total_reads ch) (total_bytes_written ch)
    (total_bytes_read ch) (total_dropped ch).

Definition setOverflowPolicy (p : LargeDataOverflowPolicy) (ch : channel) : channel :=
  let cf := config ch in
  set_config ch (mkConfig (buffer_size cf) (max_block_size cf) (max_readers cf) (use_mmap_noreserve cf) p
                   (overflow_callback cf)).

Definition setOverflowCallback (cb : bool) (ch : channel) : channel :=
  let cf := config ch in
  set_config ch (mkConfig (buffer_size cf) (max_block_size cf) (max_readers cf) (use_mmap_noreserve cf)
                   (overflow_policy cf) cb).

(** ** The life of the shared-memory object *)

(** The outcomes of the system calls of [initialize] and of the destructor. *)
Record ld_calls := mkLdCalls {
  ld_open_ok : bool;
  ld_fstat_ok : bool;
  ld_ftruncate_ok : bool;
  ld_mmap_ok : bool;
  ld_unlink_ok : bool
}.

(** The object under a name: [None] when it does not exist; an existing object of
    size zero has no region yet. *)
Inductive ld_object :=
| LdAbsent
| LdEmpty
| LdRegion (sh : shared).

Definition fresh_slot : ReaderSlot := mkSlot 0 0 0 false.

(** The control block the creator writes; [writer_heartbeat] keeps the zero of the
    fresh memory. *)
Definition fresh_control (e : os) (cf : Config) : RingBufferControl :=
  mkControl 0 0 0 (getpid e) (replicate MAX_READERS fresh_slot) 0 1 (buffer_size cf)
    (u32 (max_block_size cf)) (u32 (max_readers cf)).

Definition new_channel (cf : Config) (m : Z) : channel := mkChannel cf m (-1) 0 0 0 0 0.

Definition round_up (z page : Z) : Z := (z + page - 1) / page * page.

Definition initialize (page : Z) (e : os) (s : ld_calls) (cf : Config) (obj : ld_object)
    : option channel * ld_object :=
  let shm_size := round_up (sizeof_RingBufferControl + buffer_size cf) page in
  let ch := new_channel cf (shm_size - sizeof_RingBufferControl) in
  if negb (ld_open_ok s) then (None, obj)
  else
    let obj := match obj with LdAbsent => LdEmpty | _ => obj end in
    if negb (ld_fstat_ok s) then (None, obj)
    else
      match obj with
      | LdRegion sh =>
          if negb (ld_mmap_ok s) then (None, obj)
          else (Some ch, LdRegion (mkShared (set_ref_count (control sh) (i32 (ref_count (control sh) + 1))) (buffer sh)))
      | _ =>
          if negb (ld_ftruncate_ok s) then (None, obj)
          else
            let zeros := replicate (Z.to_nat (mapped ch)) 0 in
            if negb (ld_mmap_ok s)
            then (None, LdRegion (mkShared (mkControl 0 0 0 0 (replicate MAX_READERS fresh_slot) 0 0 0 0 0) zeros))
            else (Some ch, LdRegion (mkShared (fresh_control e cf) zeros))
      end.

(** [~LargeDataChannel]; the object disappears with its last reference. *)
Definition destroy (s : ld_calls) (ch : channel) (sh : shared) : ld_object :=
  let c := if 0 <=? reader_id ch then unregisterReader (reader_id ch) (control sh) else control sh in
  if 0 <? ref_count c then
    let prev_count := ref_count c in
    let c := set_ref_count c (ref_count c - 1) in
    if (prev_count =? 1) && ld_unlink_ok s then LdAbsent else LdRegion (mkShared c (buffer sh))
  else LdRegion (mkShared c (buffer sh)).

(** ** Orphaned channels *)

(** An entry of [/dev/shm]: its name, size, modification time, the control block at
    its start and the results of the calls on it. *)
Record dir_entry := mkDirEntry {
  d_name : string;
  d_open_ok : bool;
  d_stat_ok : bool;
  d_size : Z;
  d_mtime : Z;
  d_mmap_ok : bool;
  d_control : RingBufferControl;
  d_unlink_ok : bool
}.

(** [name.find("channel") != npos] *)
Definition names_channel (name : string) : bool :=
  match String.index 0 "channel" name with Some _ => true | None => false end.

Definition any_reader_alive (e : os) (c : RingBufferControl) : bool :=
  existsb (fun s => active s && isProcessAlive e (r_pid s)) (readers c).

(** [current_time - hb] is unsigned: a heartbeat in the future counts as expired. *)
Definition hb_expired (e : os) (timeout hb : Z) : bool := timeout <? u64 (time_s e - hb).

Definition all_readers_timeout (e : os) (timeout : Z) (c : RingBufferControl) : bool :=
  forallb (fun s => negb (active s) || (negb (heartbeat s =? 0) && hb_expired e timeout (heartbeat s))) (readers c).

(** [should_cleanup] for a control block. *)
Definition control_orphaned (e : os) (timeout : Z) (c : RingBufferControl) : bool :=
  if ref_count c =? 0 then true
  else if negb (isProcessAlive e (writer_pid c)) && negb (any_reader_alive e c)
          && ((0 <? writer_pid c) || (0 <? num_readers c)) then true
  else
    let writer_timeout := (0 <? writer_heartbeat c) && hb_expired e timeout (writer_heartbeat c) in
    writer_timeout && ((num_readers c =? 0) || all_readers_timeout e timeout c).

Definition should_cleanup (e : os) (timeout : Z) (d : dir_entry) : bool :=
  if sizeof_RingBufferControl + LARGE_DATA_MIN_VALID_SIZE <=? d_size d
  then control_orphaned e timeout (d_control d)
  else timeout <? time_s e - d_mtime d.

(** Whether one directory entry is unlinked. *)
Definition entry_cleaned (e : os) (timeout : Z) (d : dir_entry) : bool :=
  names_channel (d_name d) && d_open_ok d && d_stat_ok d && d_mmap_ok d
  && should_cleanup e timeout d && d_unlink_ok d.

(** The number of removed channels and the entries that remain; [None] is a
    directory that cannot be opened. *)
Definition cleanupOrphanedChannels (e : os) (timeout : Z) (dir : option (list dir_entry))
    : Z * option (list dir_entry) :=
  match dir with
  | None => (0, None)
  | Some es =>
      (zlen (filter (fun d => entry_cleaned e timeout d = true) es),
       Some (filter (fun d => entry_cleaned e timeout d = false) es))
  end.

(** The object of [name] after the clean-up of the directory. *)
Definition create (page : Z) (e : os) (s : ld_calls) (cf : Config) (cleanup_done : bool)
    (dir : option (list dir_entry)) (obj : option (list dir_entry) -> ld_object)
    : option channel * ld_object * option (list dir_entry) * bool :=
  let dir := if cleanup_done then dir else (cleanupOrphanedChannels e 60 dir).2 in
  let '(ch, o) := initialize page e s cf (obj dir) in
  (ch, o, dir, true).
