(* ===== verification/LargeDataSpec.v ===== *)
(** * Correctness of the large-data channel

    The ring of [LargeDataChannel.v] against its abstract description: a log of the
    blocks written and, for every active reader, the list of blocks it has yet to
    receive. *)

From S2P Require Import Prelude Os Crc32 LargeDataChannel.

(** ** Blocks in the buffer *)

Record msg := mkMsg {
  m_seq : Z;
  m_topic : string;
  m_data : list Z
}.

Definition msg_size (m : msg) : Z := sizeof_LargeDataHeader + zlen (m_data m).

(** The bytes of [m] at offset [off]. *)
Record block_at (buf : list Z) (off : Z) (m : msg) : Prop := mkBlockAt {
  ba_magic : slice (off + off_magic) 4 buf = le_enc 4 LDH_MAGIC;
  ba_size : slice (off + off_size) 4 buf = le_enc 4 (u32 (zlen (m_data m)));
  ba_seq : slice (off + off_sequence) 8 buf = le_enc 8 (m_seq m);
  ba_crc : slice (off + off_crc32) 4 buf = le_enc 4 (calculateCRC32 (m_data m));
  ba_topic : slice (off + off_topic) sizeof_topic buf = strncpy (sizeof_topic - 1) (m_topic m) ++ [0];
  ba_data : slice (off + sizeof_LargeDataHeader) (zlen (m_data m)) buf = m_data m
}.

(** The blocks [ms] fill the positions from [p] to [q] of a ring of capacity [cap]. *)
Fixpoint ring_chain (cap maxb : Z) (buf : list Z) (p q : Z) (ms : list msg) : Prop :=
  match ms with
  | [] => p = q
  | m :: ms' =>
      zlen (m_data m) <= maxb /\ p mod cap + msg_size m <= cap /\ block_at buf (p mod cap) m
      /\ ring_chain cap maxb buf (p + msg_size m) q ms'
  end.

Ltac ld_consts :=
  unfold sizeof_LargeDataHeader, off_magic, off_size, off_sequence, off_crc32, off_topic, sizeof_topic in *.

Lemma msg_size_pos m : 128 <= msg_size m.
Proof. unfold msg_size, sizeof_LargeDataHeader. pose proof (zlen_nonneg (m_data m)). lia. Qed.

#[export] Hint Resolve msg_size_pos : nexus.

Section Ring.
Context (cap maxb : Z) (cap_pos : 0 < cap).

Lemma ring_chain_le buf p q ms : ring_chain cap maxb buf p q ms -> p <= q.
Proof.
  revert p. induction ms as [|m ms IH]; intros p; simpl; [lia|]. intros (_ & _ & _ & H).
  apply IH in H. pose proof (msg_size_pos m). lia.
Qed.

Lemma ring_chain_app buf p q r ms ks :
  ring_chain cap maxb buf p q ms -> ring_chain cap maxb buf q r ks -> ring_chain cap maxb buf p r (ms ++ ks).
Proof.
  revert p. induction ms as [|m ms IH]; intros p; simpl; [by intros ->|]. intros (? & ? & ? & ?) ?. auto.
Qed.

(** The empty chain is the one between equal positions. *)
Lemma ring_chain_nil_iff buf p q ms : ring_chain cap maxb buf p q ms -> (ms = [] <-> q <= p).
Proof.
  destruct ms as [|m ms]; simpl; [intros ->; split; [lia|done]|].
  intros (_ & _ & _ & H). apply ring_chain_le in H. pose proof (msg_size_pos m). split; [done|lia].
Qed.

(** Two buffers agree outside the bytes [o, o + n). *)
Definition agree_outside (o n : Z) (b b' : list Z) : Prop :=
  forall x k, 0 <= x -> 0 <= k -> x + k <= o \/ o + n <= x -> slice x k b' = slice x k b.

Lemma block_frame o n b b' off m :
  agree_outside o n b b' -> 0 <= off -> off + msg_size m <= o \/ o + n <= off ->
  block_at b off m -> block_at b' off m.
Proof.
  intros Ha Ho Hd [H1 H2 H3 H4 H5 H6]. pose proof (zlen_nonneg (m_data m)). unfold msg_size in Hd.
  split; rewrite Ha; ld_consts; (done || lia).
Qed.

(** A block before the write position, close enough to leave room for [n] bytes,
    does not meet those bytes. *)
Lemma ring_disjoint x sz w n :
  0 < sz -> 0 < n -> x + sz <= w -> w - x + n <= cap -> x mod cap + sz <= cap -> w mod cap + n <= cap ->
  x mod cap + sz <= w mod cap \/ w mod cap + n <= x mod cap.
Proof.
  intros Hs Hn Hx Hf Hxo Hwo.
  pose proof (Z.div_mod x cap ltac:(lia)) as Ex. pose proof (Z.div_mod w cap ltac:(lia)) as Ew.
  pose proof (Z.mod_pos_bound x cap cap_pos). pose proof (Z.mod_pos_bound w cap cap_pos).
  set (a := x / cap) in *. set (b := w / cap) in *. set (xo := x mod cap) in *. set (wo := w mod cap) in *.
  assert (b - a = 0 \/ b - a = 1) as [E|E].
  { assert (-1 < b - a < 2) by (split; nia). lia. }
  - left. assert (b = a) as -> by lia. lia.
  - right. assert (b = a + 1) as Hb by lia. rewrite Hb in Ew. nia.
Qed.

Lemma ring_chain_frame b b' p w ms n :
  ring_chain cap maxb b p w ms -> 0 < n -> w - p + n <= cap -> w mod cap + n <= cap ->
  agree_outside (w mod cap) n b b' -> ring_chain cap maxb b' p w ms.
Proof.
  revert p. induction ms as [|m ms IH]; intros p; simpl; [done|]. intros (Hm & Hf & Hb & Hc) Hn Hs Hw Ha.
  pose proof (ring_chain_le _ _ _ _ Hc). pose proof (msg_size_pos m).
  split; [done|]. split; [done|]. split.
  - eapply block_frame; [exact Ha| | |exact Hb]; [apply Z.mod_pos_bound; lia|].
    apply ring_disjoint; lia.
  - apply IH; try done. lia.
Qed.

End Ring.

(** ** The stores of a block *)

Lemma view_wr_ok ch off bs buf :
  0 <= off -> off + zlen bs <= zlen buf -> off + zlen bs <= mapped ch ->
  view_wr ch off bs buf = Ret (splice off bs buf).
Proof. intros. unfold view_wr. rewrite (proj2 (Z.leb_le _ _)) by done. by apply mem_wr_ok. Qed.

Lemma view_rd_ok ch off n buf :
  0 <= off -> 0 <= n -> off + n <= zlen buf -> off + n <= mapped ch ->
  view_rd ch off n buf = Ret (slice off n buf).
Proof. intros. unfold view_rd. rewrite (proj2 (Z.leb_le _ _)) by done. by apply mem_rd_ok. Qed.

(** Reading any range disjoint from or equal to a store, given the lengths. *)
Ltac rd_wr :=
  first [ rewrite slice_splice_before by lia
        | rewrite slice_splice_after by lia ].

Lemma agree_splice o n off bs buf :
  o <= off -> off + zlen bs <= o + n -> 0 <= off -> off + zlen bs <= zlen buf ->
  agree_outside o n buf (splice off bs buf).
Proof.
  intros H1 H2 H3 H4 x k Hx Hk Hd. destruct Hd; [apply slice_splice_before | apply slice_splice_after]; lia.
Qed.

Lemma agree_trans o n a b c : agree_outside o n a b -> agree_outside o n b c -> agree_outside o n a c.
Proof. intros H1 H2 x k Hx Hk Hd. rewrite H2 by done. by apply H1. Qed.

Lemma slice_splice_eq off off' n bs buf :
  n = zlen bs -> off' = off -> 0 <= off -> off + zlen bs <= zlen buf -> slice off' n (splice off bs buf) = bs.
Proof. intros -> ->. apply slice_splice_same. Qed.

(** The 64 bytes of the topic are its 63 copied bytes and the terminator. *)
Lemma slice_join off n k buf :
  0 <= off -> 0 <= n -> 0 <= k -> slice off (n + k) buf = slice off n buf ++ slice (off + n) k buf.
Proof.
  intros. unfold slice. rewrite !Z2Nat.inj_add by lia. rewrite <- drop_drop.
  generalize (drop (Z.to_nat off) buf) as l. intros l. apply list_eq. intros i.
  destruct (decide (i < Z.to_nat n + Z.to_nat k)%nat).
  - rewrite lookup_take_lt by lia. destruct (decide (i < Z.to_nat n)%nat).
    + destruct (decide (i < length l)%nat).
      * rewrite lookup_app_l by (rewrite length_take; lia). by rewrite lookup_take_lt.
      * rewrite lookup_ge_None_2 by lia. symmetry. apply lookup_ge_None_2.
        rewrite length_app, !length_take, length_drop. lia.
    + destruct (decide (i < length l)%nat).
      * rewrite lookup_app_r by (rewrite length_take; lia). rewrite length_take.
        rewrite lookup_take_lt, lookup_drop by lia. f_equal. lia.
      * rewrite lookup_ge_None_2 by lia. symmetry. apply lookup_ge_None_2.
        rewrite length_app, !length_take, length_drop. lia.
  - rewrite !lookup_ge_None_2; [done|rewrite length_app, !length_take, length_drop; lia|rewrite length_take; lia].
Qed.

Lemma write_block_spec ch off seq topic data buf :
  0 <= off -> off + 128 + zlen data <= zlen buf -> off + 128 + zlen data <= mapped ch ->
  exists buf', write_block ch off (zlen data) seq topic data buf = Ret buf'
    /\ zlen buf' = zlen buf
    /\ block_at buf' off (mkMsg seq topic data)
    /\ agree_outside off (128 + zlen data) buf buf'.
Proof.
  intros Ho Hb Hm. unfold write_block. pose proof (zlen_nonneg data) as Hd.
  pose proof (strncpy_zlen (sizeof_topic - 1) topic) as Ht. ld_consts.
  specialize (Ht ltac:(lia)). set (tp := strncpy (64 - 1) topic) in *.
  pose proof (fun n z => le_enc_zlen n z) as Hle.
  assert (zlen [0] = 1) as H1 by done.
  rewrite view_wr_ok by (rewrite ?Hle; lia). cbn [outcome_bind].
  set (b1 := splice (off + 0) (le_enc 4 0) buf).
  assert (zlen b1 = zlen buf) as L1 by (apply splice_zlen; rewrite ?Hle; lia).
  rewrite view_wr_ok by (rewrite ?Hle; lia). cbn [outcome_bind].
  set (b2 := splice (off + 4) (le_enc 4 (u32 (zlen data))) b1).
  assert (zlen b2 = zlen buf) as L2 by (rewrite <- L1; apply splice_zlen; rewrite ?Hle; lia).
  rewrite view_wr_ok by (rewrite ?Hle; lia). cbn [outcome_bind].
  set (b3 := splice (off + 8) (le_enc 8 seq) b2).
  assert (zlen b3 = zlen buf) as L3 by (rewrite <- L2; apply splice_zlen; rewrite ?Hle; lia).
  rewrite view_wr_ok by lia. cbn [outcome_bind].
  set (b4 := splice (off + 20) tp b3).
  assert (zlen b4 = zlen buf) as L4 by (rewrite <- L3; apply splice_zlen; lia).
  rewrite view_wr_ok by lia. cbn [outcome_bind].
  set (b5 := splice (off + 20 + (64 - 1)) [0] b4).
  assert (zlen b5 = zlen buf) as L5 by (rewrite <- L4; apply splice_zlen; lia).
  rewrite view_wr_ok by lia. cbn [outcome_bind].
  set (b6 := splice (off + 128) data b5).
  assert (zlen b6 = zlen buf) as L6 by (rewrite <- L5; apply splice_zlen; lia).
  rewrite view_wr_ok by (rewrite ?Hle; lia). cbn [outcome_bind].
  set (b7 := splice (off + 16) (le_enc 4 (calculateCRC32 data)) b6).
  assert (zlen b7 = zlen buf) as L7 by (rewrite <- L6; apply splice_zlen; rewrite ?Hle; lia).
  rewrite view_wr_ok by (rewrite ?Hle; lia). set (b8 := splice (off + 0) (le_enc 4 LDH_MAGIC) b7).
  assert (zlen b8 = zlen buf) as L8 by (rewrite <- L7; apply splice_zlen; rewrite ?Hle; lia).
  exists b8. split; [done|]. split; [done|].
  assert (forall z, zlen (le_enc 4 z) = 4) as E4 by (intros; by rewrite Hle).
  assert (forall z, zlen (le_enc 8 z) = 8) as E8 by (intros; by rewrite Hle).
  pose proof (E4 0). pose proof (E4 (u32 (zlen data))). pose proof (E8 seq).
  pose proof (E4 (calculateCRC32 data)). pose proof (E4 LDH_MAGIC). split.
  - split; ld_consts; cbn [m_data m_seq m_topic].
    + unfold b8. apply slice_splice_eq; lia.
    + unfold b8; rd_wr. unfold b7; rd_wr. unfold b6; rd_wr. unfold b5; rd_wr. unfold b4; rd_wr. unfold b3; rd_wr. apply slice_splice_eq; lia.
    + unfold b8; rd_wr. unfold b7; rd_wr. unfold b6; rd_wr. unfold b5; rd_wr. unfold b4; rd_wr. apply slice_splice_eq; lia.
    + unfold b8. rd_wr. apply slice_splice_eq; lia.
    + change 64 with (63 + 1) at 1. rewrite slice_join by lia. fold tp. f_equal.
      * unfold b8; rd_wr. unfold b7; rd_wr. unfold b6; rd_wr. unfold b5; rd_wr. apply slice_splice_eq; lia.
      * unfold b8; rd_wr. unfold b7; rd_wr. unfold b6; rd_wr. apply slice_splice_eq; lia.
    + unfold b8; rd_wr. unfold b7; rd_wr. apply slice_splice_eq; lia.
  - repeat (eapply agree_trans; [|apply agree_splice; lia]). intros x k ? ? ?. done.
Qed.

(** ** Reader positions *)

Lemma min_read_pos_spec rs w :
  let m := fold_left (fun min_pos s => if active s then if read_pos s <? min_pos then read_pos s else min_pos else min_pos) rs w in
  m <= w /\ Forall (fun s => active s = true -> m <= read_pos s) rs
  /\ (m = w \/ exists s, s ∈ rs /\ active s = true /\ m = read_pos s).
Proof.
  revert w. induction rs as [|s rs IH]; intros w; [simpl; split; [lia|]; split; [constructor|by left]|].
  cbn [fold_left]. cbv zeta in *. set (w1 := if active s then _ else _).
  destruct (IH w1) as (H1 & H2 & H3). set (m := fold_left _ rs w1) in *. clearbody m.
  assert (w1 <= w /\ (active s = true -> w1 <= read_pos s) /\ (w1 = w \/ active s = true /\ w1 = read_pos s)) as (Ha & Hb & Hc).
  { unfold w1. destruct (active s); [destruct (Z.ltb_spec (read_pos s) w)|]; (split; [lia|]); (split; [intros; lia || done|]); auto. }
  clearbody w1. split; [lia|]. split; [constructor; [intros Hs; specialize (Hb Hs); lia|done]|].
  destruct H3 as [->|(s' & Hin & Hs' & ->)].
  - destruct Hc as [->|[Hs ->]]; [by left|right]. exists s. split; [left|done].
  - right. exists s'. split; [by right|done].
Qed.

Lemma getMinReadPos_spec c :
  getMinReadPos c <= write_pos c
  /\ (forall i s, readers c !! i = Some s -> active s = true -> getMinReadPos c <= read_pos s)
  /\ (getMinReadPos c = write_pos c
      \/ exists i s, readers c !! i = Some s /\ active s = true /\ getMinReadPos c = read_pos s).
Proof.
  destruct (min_read_pos_spec (readers c) (write_pos c)) as (H1 & H2 & H3).
  unfold getMinReadPos. split; [done|]. split.
  - intros i s Hi Hs. by apply (Forall_lookup_1 _ _ _ _ H2 Hi).
  - destruct H3 as [H3|(s & Hin & H3)]; [by left|right]. apply list_elem_of_lookup in Hin as [i Hi]. eauto.
Qed.

(** ** The abstract channel *)

(** All blocks written, and what each active reader has still to receive. *)
Record abs := mkAbs {
  a_log : list msg;
  a_pend : nat -> list msg
}.

Record ld_inv (maxb : Z) (c : RingBufferControl) (buf : list Z) (a : abs) : Prop := mkLdInv {
  inv_cap : 0 < capacity c <= zlen buf;
  inv_slots : length (readers c) = MAX_READERS;
  inv_wpos : 0 <= write_pos c;
  inv_readers : forall i s, readers c !! i = Some s -> active s = true ->
    0 <= read_pos s /\ write_pos c - read_pos s <= capacity c
    /\ ring_chain (capacity c) maxb buf (read_pos s) (write_pos c) (a_pend a i);
  inv_log : write_pos c <= capacity c -> ring_chain (capacity c) maxb buf 0 (write_pos c) (a_log a)
}.

(** [c'] has the readers of [c], some of them deactivated. *)
Definition readers_dropped (c c' : RingBufferControl) : Prop :=
  length (readers c') = length (readers c)
  /\ forall i s', readers c' !! i = Some s' -> active s' = true -> readers c !! i = Some s'.

Lemma cleanupDeadReaders_spec e last c :
  let c' := (cleanupDeadReaders e last c).2 in
  readers_dropped c c' /\ write_pos c' = write_pos c /\ capacity c' = capacity c /\ sequence c' = sequence c.
Proof.
  unfold cleanupDeadReaders. destruct (_ <? _); cbn [snd]; [split; [split|]; auto|].
  split; [|done]. split; [cbn; by rewrite length_map|]. cbn [set_readers readers]. intros i s' Hi Ha.
  rewrite list_lookup_fmap in Hi. destruct (readers c !! i) as [s|]; [|done]. simpl in Hi.
  injection Hi as <-. destruct (reader_dead e s); [discriminate|done].
Qed.

Lemma inv_dropped maxb c c' buf a :
  ld_inv maxb c buf a -> readers_dropped c c' -> write_pos c' = write_pos c -> capacity c' = capacity c ->
  ld_inv maxb c' buf a.
Proof.
  intros [H1 H2 H3 H4 H5] [Hl Hr] Ew Ec. split; rewrite ?Ew, ?Ec, ?Hl; try done.
  intros i s Hi Hs. apply H4; [by apply Hr|done].
Qed.

Lemma min_read_pos_inv maxb c buf a :
  ld_inv maxb c buf a -> 0 <= getMinReadPos c <= write_pos c /\ write_pos c - getMinReadPos c <= capacity c.
Proof.
  intros [H1 _ H3 H4 _]. destruct (getMinReadPos_spec c) as (Ha & Hb & Hc).
  destruct Hc as [->|(i & s & Hi & Hs & ->)]; [lia|]. destruct (H4 _ _ Hi Hs) as (? & ? & Hch).
  apply ring_chain_le in Hch. lia.
Qed.

(** ** Writing *)

(** The wrap test of [write]. *)
Definition wraps (c : RingBufferControl) (total : Z) : bool :=
  capacity c <? write_pos c mod capacity c + total.

Definition abs_write (a : abs) (wrapped : bool) (m : msg) : abs :=
  mkAbs (a_log a ++ [m]) (fun i => (if wrapped then [] else a_pend a i) ++ [m]).

(** The control block after an accepted write. *)
Definition control_written (c : RingBufferControl) (e : os) (total : Z) : RingBufferControl :=
  let c1 := set_writer c (u64 (time_s e)) (u64 (sequence c + 1)) in
  let c2 := if wraps c total then
      let c3 := set_write_pos c1 (u64 (write_pos c + (capacity c - write_pos c mod capacity c))) in
      set_readers c3 (map (skip_reader (capacity c) (write_pos c3) 0) (readers c)) (num_readers c)
    else c1 in
  set_write_pos c2 (u64 (write_pos c2 + total)).

Definition write_offset (c : RingBufferControl) (total : Z) : Z :=
  if wraps c total then 0 else write_pos c mod capacity c.

Lemma ring_chain_single cap maxb buf p m :
  zlen (m_data m) <= maxb -> p mod cap + msg_size m <= cap -> block_at buf (p mod cap) m ->
  ring_chain cap maxb buf p (p + msg_size m) [m].
Proof. simpl. auto. Qed.

Lemma control_written_inv maxb c buf buf' a e m :
  ld_inv maxb c buf a -> zlen (m_data m) <= maxb ->
  write_pos c - getMinReadPos c + msg_size m <= capacity c -> write_pos c + 2 * capacity c < 2 ^ 64 ->
  zlen buf' = zlen buf -> block_at buf' (write_offset c (msg_size m)) m ->
  agree_outside (write_offset c (msg_size m)) (msg_size m) buf buf' ->
  ld_inv maxb (control_written c e (msg_size m)) buf' (abs_write a (wraps c (msg_size m)) m).
Proof.
  intros Hinv Hm Hfit Hov Hlen Hblk Hag. destruct (min_read_pos_inv _ _ _ _ Hinv) as [Hmin _].
  destruct (getMinReadPos_spec c) as (_ & Hmr & _). destruct Hinv as [Hcap Hsl Hw Hrd Hlog].
  pose proof (msg_size_pos m) as Hsz. pose proof (Z.mod_pos_bound (write_pos c) (capacity c) ltac:(lia)) as Hmod.
  unfold control_written, write_offset in *. destruct (wraps c (msg_size m)) eqn:Ew.
  - set (w' := write_pos c + (capacity c - write_pos c mod capacity c)).
    assert (w' mod capacity c = 0) as Hw0.
    { unfold w'. rewrite (Z.div_mod (write_pos c) (capacity c)) at 1 by lia.
      replace (_ + _) with ((write_pos c / capacity c + 1) * capacity c) by lia. apply Z.mod_mul. lia. }
    assert (capacity c <= w') as Hwc.
    { apply Z.divide_pos_le; [lia|]. apply Z.mod_divide; lia. }
    assert (write_pos c < w' <= write_pos c + capacity c) as Hwb by lia.
    cbn [set_write_pos set_readers set_writer capacity readers write_pos].
    unfold u64. rewrite (wrap_small 64 w') by lia. rewrite (wrap_small 64 (w' + _)) by lia.
    split; cbn [capacity readers write_pos set_write_pos set_readers set_writer]; [lia|by rewrite length_map|lia| |intros; lia].
    intros i s Hi Hs. rewrite list_lookup_fmap in Hi. destruct (readers c !! i) as [s0|] eqn:Hi0; [|done].
    simpl in Hi. injection Hi as <-. unfold skip_reader in *.
    assert (active s0 = true) as Hs0 by (destruct (_ && _) in Hs; done).
    destruct (Hrd _ _ Hi0 Hs0) as (Hr0 & _ & Hch). apply ring_chain_le in Hch.
    pose proof (Z.mod_pos_bound (read_pos s0) (capacity c) ltac:(lia)).
    rewrite Hs0, (proj2 (Z.ltb_lt _ _)), (proj2 (Z.leb_le _ _)) by lia. cbn [andb set_read_pos read_pos a_pend abs_write].
    split; [lia|]. split; [lia|]. apply ring_chain_single; rewrite ?Hw0; [done|lia|done].
  - unfold wraps in Ew. btest.
    cbn [set_write_pos set_writer capacity readers write_pos].
    unfold u64. rewrite (wrap_small 64 (write_pos c + _)) by lia.
    split; cbn [capacity readers write_pos set_write_pos set_readers set_writer]; [lia|done|lia| |].
    + intros i s Hi Hs. destruct (Hrd _ _ Hi Hs) as (Hr0 & _ & Hch). specialize (Hmr _ _ Hi Hs).
      split; [done|]. split; [lia|]. cbn [abs_write a_pend].
      apply (ring_chain_app (capacity c) maxb _ _ (write_pos c)); [|by apply ring_chain_single].
      apply (ring_chain_frame (capacity c) maxb ltac:(lia) buf buf' _ _ _ (msg_size m)); [exact Hch|lia|lia|lia|exact Hag].
    + intros Hle. cbn [abs_write a_log].
      apply (ring_chain_app (capacity c) maxb _ _ (write_pos c)); [|by apply ring_chain_single].
      apply (ring_chain_frame (capacity c) maxb ltac:(lia) buf buf' _ _ _ (msg_size m)); [apply Hlog; lia|lia|lia|lia|exact Hag].
Qed.

(** The message a write stores. *)
Definition msg_of (c : RingBufferControl) (topic : string) (data : list Z) : msg :=
  mkMsg (sequence c) topic data.

Section Write.
Context (maxb : Z) (ch : channel) (sh : shared) (a : abs).
Context (Hinv : ld_inv maxb (control sh) (buffer sh) a).
Context (Hcfg : max_block_size (config ch) = maxb) (Hmaxb : maxb < 2 ^ 32).
Context (Hmap : capacity (control sh) <= mapped ch).
Context (Hov : write_pos (control sh) + 2 * capacity (control sh) < 2 ^ 64).

(** Every outcome of [write]. *)
Lemma write_cases e topic data last :
  exists w, write e topic data ch last sh = Ret w
    /\ let c := if maxb <? zlen data then control sh else (cleanupDeadReaders e last (control sh)).2 in
       let m := msg_of c topic data in
       if (maxb <? zlen data) || (capacity c <? write_pos c - getMinReadPos c + msg_size m)
       then w_ret w = -1 /\ w_shared w = mkShared c (buffer sh) /\ ld_inv maxb c (buffer sh) a
       else w_ret w = i64 (sequence c)
            /\ control (w_shared w) = control_written c e (msg_size m)
            /\ ld_inv maxb (control (w_shared w)) (buffer (w_shared w)) (abs_write a (wraps c (msg_size m)) m).
Proof.
  unfold write. rewrite Hcfg. destruct (Z.ltb_spec maxb (zlen data)) as [Hbig|Hsmall].
  - eexists. split; [done|]. cbn. split; [done|]. split; [by destruct sh|done].
  - pose proof (cleanupDeadReaders_spec e last (control sh)) as Hcl. cbv zeta in Hcl.
    destruct (cleanupDeadReaders e last (control sh)) as [last' c]. cbn [snd] in Hcl.
    destruct Hcl as (Hdrop & Ew & Ec & _). cbn [snd orb].
    pose proof (inv_dropped _ _ c _ _ Hinv Hdrop Ew Ec) as Hinv'.
    destruct (min_read_pos_inv _ _ _ _ Hinv') as [Hmin Hspan].
    pose proof (zlen_nonneg data) as Hd. set (m := msg_of c topic data).
    assert (sizeof_LargeDataHeader + zlen data = msg_size m) as -> by done.
    pose proof (msg_size_pos m) as Hsz. assert (msg_size m <= 128 + maxb) by (unfold msg_size, m, msg_of; cbn; ld_consts; lia).
    pose proof (inv_cap _ _ _ _ Hinv') as Hcap. rewrite <- Ec in Hov, Hmap. rewrite <- Ew in Hov.
    unfold u64. rewrite (wrap_small 64 (write_pos c - _)) by lia. rewrite (wrap_small 64 (_ - _ + _)) by lia.
    destruct (Z.ltb_spec (capacity c) (write_pos c - getMinReadPos c + msg_size m)) as [Hfull|Hfit].
    + destruct (overflow_policy (config ch)); (eexists; split; [done|]); cbn; auto.
    + destruct (write_block_spec ch (write_offset c (msg_size m)) (sequence c) topic data (buffer sh))
        as (buf' & Hwb & Hlen & Hblk & Hag).
      { unfold write_offset. destruct (wraps c _); [lia|]. apply Z.mod_pos_bound. lia. }
      { unfold write_offset, wraps. unfold msg_size, m, msg_of in *. cbn [m_data] in *. ld_consts.
        destruct (Z.ltb_spec (capacity c) (write_pos c mod capacity c + (128 + zlen data))); lia. }
      { unfold write_offset, wraps. unfold msg_size, m, msg_of in *. cbn [m_data] in *. ld_consts.
        destruct (Z.ltb_spec (capacity c) (write_pos c mod capacity c + (128 + zlen data))); lia. }
      pose proof (control_written_inv _ _ _ _ _ e m Hinv' ltac:(done) ltac:(lia) ltac:(lia) Hlen Hblk Hag) as Hfin.
      assert (msg_size m = sizeof_LargeDataHeader + zlen data) as Em by done.
      unfold write_offset, control_written, wraps in *.
      cbn [set_writer capacity set_write_pos write_pos readers num_readers set_readers] in *.
      destruct (capacity c <? write_pos c mod capacity c + msg_size m) eqn:Ewr.
      * rewrite Hwb. cbn [outcome_bind]. eexists. split; [done|]. cbn [w_ret w_shared control buffer].
        split; [done|]. split; [done|exact Hfin].
      * rewrite Hwb. cbn [outcome_bind]. eexists. split; [done|]. cbn [w_ret w_shared control buffer].
        split; [done|]. split; [done|exact Hfin].
Qed.

End Write.

(** ** Reading *)

Definition set_pend (a : abs) (i : nat) (ms : list msg) : abs :=
  mkAbs (a_log a) (fun j => if Nat.eqb j i then ms else a_pend a j).

(** Changing one slot. *)
Lemma inv_upd_reader maxb c buf a i f ms :
  ld_inv maxb c buf a ->
  (forall s, readers c !! i = Some s -> active (f s) = true ->
     0 <= read_pos (f s) /\ write_pos c - read_pos (f s) <= capacity c
     /\ ring_chain (capacity c) maxb buf (read_pos (f s)) (write_pos c) ms) ->
  ld_inv maxb (upd_reader c i f) buf (set_pend a i ms).
Proof.
  intros [H1 H2 H3 H4 H5] Hf. split; cbn [upd_reader set_readers capacity readers write_pos a_log set_pend]; try done.
  - by rewrite length_alter.
  - intros j s Hj Hs. unfold set_pend. cbn [a_pend]. destruct (Nat.eqb_spec j i) as [->|Hn].
    + rewrite list_lookup_alter_eq in Hj. destruct (readers c !! i) as [s0|] eqn:E; [|done].
      simpl in Hj. injection Hj as <-. by apply Hf.
    + rewrite list_lookup_alter_ne in Hj by done. by apply H4.
Qed.

Lemma slot_pos_lookup c i s : readers c !! i = Some s -> slot_pos c (Z.of_nat i) = read_pos s.
Proof. intros H. unfold slot_pos. by rewrite Nat2Z.id, H. Qed.

Lemma rd_field_ok ch off n buf v :
  0 <= off -> off + Z.of_nat n <= zlen buf -> off + Z.of_nat n <= mapped ch ->
  slice off (Z.of_nat n) buf = le_enc n v -> 0 <= v < 256 ^ Z.of_nat n ->
  rd_field ch off (Z.of_nat n) buf = Ret v.
Proof.
  intros H1 H2 H3 H4 H5. unfold rd_field. rewrite view_rd_ok by lia. cbn [outcome_bind].
  rewrite H4. f_equal. by apply le_dec_enc_small.
Qed.

Section Read.
Context (maxb : Z) (ch : channel) (buf : list Z).
Context (Hcfg : max_block_size (config ch) = maxb) (Hmaxb : maxb < 2 ^ 32).

(** A whole block inside the mapping passes every test of [validateBlock]. *)
Lemma validateBlock_ok off avail m :
  block_at buf off m -> 0 <= off -> zlen (m_data m) <= maxb ->
  off + msg_size m <= zlen buf -> off + msg_size m <= mapped ch -> msg_size m <= avail ->
  validateBlock ch off avail buf = Ret SUCCESS
  /\ rd_field ch (off + off_size) 4 buf = Ret (zlen (m_data m))
  /\ rd_field ch (off + off_magic) 4 buf = Ret LDH_MAGIC
  /\ view_rd ch (off + sizeof_LargeDataHeader) (zlen (m_data m)) buf = Ret (m_data m)
  /\ view_rd ch (off + off_topic) sizeof_topic buf = Ret (strncpy (sizeof_topic - 1) (m_topic m) ++ [0]).
Proof.
  intros [B1 B2 B3 B4 B5 B6] Ho Hm Hb Hv Ha. unfold msg_size in *. pose proof (zlen_nonneg (m_data m)) as Hd.
  pose proof (calculateCRC32_range (m_data m)) as Hc. unfold u32 in B2. rewrite wrap_small in B2 by lia.
  assert (rd_field ch (off + off_magic) 4 buf = Ret LDH_MAGIC) as R1.
  { apply (rd_field_ok ch _ 4); ld_consts; try lia; [exact B1|unfold LDH_MAGIC; lia]. }
  assert (rd_field ch (off + off_size) 4 buf = Ret (zlen (m_data m))) as R2.
  { apply (rd_field_ok ch _ 4); ld_consts; try lia. exact B2. }
  assert (rd_field ch (off + off_crc32) 4 buf = Ret (calculateCRC32 (m_data m))) as R3.
  { apply (rd_field_ok ch _ 4); ld_consts; try lia. exact B4. }
  assert (view_rd ch (off + sizeof_LargeDataHeader) (zlen (m_data m)) buf = Ret (m_data m)) as R4.
  { rewrite view_rd_ok by (ld_consts; lia). by rewrite B6. }
  assert (view_rd ch (off + off_topic) sizeof_topic buf = Ret (strncpy (sizeof_topic - 1) (m_topic m) ++ [0])) as R5.
  { rewrite view_rd_ok by (ld_consts; lia). by rewrite B5. }
  split; [|auto]. unfold validateBlock. rewrite R1. cbn [outcome_bind]. rewrite Z.eqb_refl. cbn [negb].
  rewrite R2. cbn [outcome_bind]. rewrite Hcfg, (proj2 (Z.ltb_ge _ _)) by done.
  rewrite (proj2 (Z.ltb_ge _ _)) by done. rewrite R4. cbn [outcome_bind]. rewrite R3. cbn [outcome_bind].
  by rewrite Z.eqb_refl.
Qed.

End Read.

(** The use of a channel by a reader: read a block, copy it, release it. *)
Definition receive (e : os) (ch : channel) (sh : shared)
    : outcome (option (string * list Z) * channel * shared) :=
  do! '(ok, block, ch, sh) := tryRead e empty_block ch sh in
  if ok then
    do! topic := getTopic ch block (buffer sh) in
    do! data := view_rd ch (default 0 (db_data block)) (db_size block) (buffer sh) in
    do! '(ch, sh) := releaseBlock block ch sh in
    Ret (Some (topic, data), ch, sh)
  else Ret (None, ch, sh).

(** The topic as the reader sees it: at most 63 bytes, up to the first NUL. *)
Definition seen_topic (t : string) : string := cstring (strncpy (sizeof_topic - 1) t ++ [0]).

Lemma seen_topic_id t : no_nul t -> str_size t <= 63 -> seen_topic t = t.
Proof.
  intros Hn Hs. unfold seen_topic, cstring. change (sizeof_topic - 1) with 63. rewrite (strncpy_until_nul 63 t [] Hn Hs).
  apply string_of_bytes_of_string.
Qed.

Section Receive.
Context (maxb : Z) (ch : channel) (sh : shared) (a : abs) (i : nat) (s : ReaderSlot).
Context (Hinv : ld_inv maxb (control sh) (buffer sh) a).
Context (Hcfg : max_block_size (config ch) = maxb) (Hmaxb : maxb < 2 ^ 32).
Context (Hmap : capacity (control sh) <= mapped ch).
Context (Hid : reader_id ch = Z.of_nat i) (Hs : readers (control sh) !! i = Some s) (Hact : active s = true).
Context (Hov : write_pos (control sh) < 2 ^ 64).

Let beat (e : os) (s : ReaderSlot) : ReaderSlot := mkSlot (read_pos s) (u64 (time_s e)) (r_pid s) (active s).

Lemma reader_slot_valid : reader_id_valid (Z.of_nat i) = true.
Proof.
  pose proof (lookup_lt_Some _ _ _ Hs) as Hlt. rewrite (inv_slots _ _ _ _ Hinv) in Hlt.
  unfold reader_id_valid. apply andb_true_iff. split; [apply Z.leb_le|apply Z.ltb_lt]; lia.
Qed.

Lemma heartbeat_inv e :
  ld_inv maxb (upd_reader (control sh) i (beat e)) (buffer sh) (set_pend a i (a_pend a i)).
Proof.
  apply inv_upd_reader; [exact Hinv|]. intros s0 Hs0 _. assert (s0 = s) as -> by congruence. unfold beat. cbn [read_pos].
  exact (inv_readers _ _ _ _ Hinv _ _ Hs Hact).
Qed.

(** [tryRead] of a registered, active reader. *)
Lemma tryRead_active e blk :
  tryRead e blk ch sh
  = Ret (match a_pend a i with
         | [] => (false, blk)
         | m :: _ => (true, mkBlock (Some (read_pos s mod capacity (control sh)))
                              (Some (read_pos s mod capacity (control sh) + sizeof_LargeDataHeader))
                              (zlen (m_data m)) SUCCESS)
         end, ch, mkShared (upd_reader (control sh) i (beat e)) (buffer sh)).
Proof.
  unfold tryRead. rewrite Hid. rewrite (proj2 (Z.ltb_ge _ _)) by lia. rewrite Hid, (proj2 (Z.ltb_ge _ _)) by lia.
  unfold updateReaderHeartbeat. rewrite reader_slot_valid, Nat2Z.id. fold (beat e).
  set (c1 := upd_reader (control sh) i (beat e)).
  assert (readers c1 !! i = Some (beat e s)) as Hs1.
  { unfold c1. cbn. by rewrite list_lookup_alter_eq, Hs. }
  rewrite (slot_pos_lookup c1 i _ Hs1). cbn [beat read_pos].
  destruct (getMinReadPos_spec c1) as (_ & Hmr & _). specialize (Hmr _ _ Hs1 Hact). cbn [beat read_pos] in Hmr.
  rewrite (proj2 (Z.ltb_ge _ _)) by done. cbn [buffer].
  change (write_pos c1) with (write_pos (control sh)). change (capacity c1) with (capacity (control sh)).
  destruct (inv_readers _ _ _ _ Hinv _ _ Hs Hact) as (Hr & Hspan & Hch).
  destruct (a_pend a i) as [|m ms] eqn:Ep.
  - simpl in Hch. rewrite Hch, (proj2 (Z.leb_le _ _)) by lia. done.
  - cbn [ring_chain] in Hch. destruct Hch as (Hm & Hfit & Hblk & Hrest). apply ring_chain_le in Hrest.
    pose proof (msg_size_pos m). pose proof (inv_cap _ _ _ _ Hinv).
    rewrite (proj2 (Z.leb_gt _ _)) by lia. rewrite (proj2 (Z.ltb_ge _ _)) by (ld_consts; lia).
    destruct (validateBlock_ok maxb ch (buffer sh) Hcfg Hmaxb (read_pos s mod capacity (control sh))
                (write_pos (control sh) - read_pos s) m) as (V1 & V2 & _);
      [done|apply Z.mod_pos_bound; lia|done|lia|lia|lia|].
    rewrite V1. cbn [outcome_bind]. rewrite V2. cbn [outcome_bind]. done.
Qed.

(** One receive takes the oldest pending block, or reports that there is none. *)
Lemma receive_active e :
  exists ch' sh', receive e ch sh
    = Ret ((fun m => (seen_topic (m_topic m), m_data m)) <$> head (a_pend a i), ch', sh')
    /\ ld_inv maxb (control sh') (buffer sh') (set_pend a i (tail (a_pend a i)))
    /\ config ch' = config ch /\ mapped ch' = mapped ch /\ reader_id ch' = reader_id ch
    /\ write_pos (control sh') = write_pos (control sh) /\ capacity (control sh') = capacity (control sh)
    /\ (exists s', readers (control sh') !! i = Some s' /\ active s' = true).
Proof.
  unfold receive. rewrite tryRead_active. cbn [outcome_bind]. destruct (a_pend a i) as [|m ms] eqn:Ep.
  - eexists ch, _. split; [done|]. pose proof (heartbeat_inv e) as Hh. rewrite Ep in Hh. cbn [tail].
    split; [exact Hh|]. repeat split; auto. eexists (beat e s). cbn. by rewrite list_lookup_alter_eq, Hs.
  - destruct (inv_readers _ _ _ _ Hinv _ _ Hs Hact) as (Hr & Hspan & Hch). rewrite Ep in Hch. cbn [ring_chain] in Hch.
    destruct Hch as (Hm & Hfit & Hblk & Hrest). pose proof (ring_chain_le _ _ _ _ _ _ Hrest) as Hle.
    pose proof (msg_size_pos m) as Hsz. pose proof (inv_cap _ _ _ _ Hinv).
    destruct (validateBlock_ok maxb ch (buffer sh) Hcfg Hmaxb (read_pos s mod capacity (control sh))
                (msg_size m) m) as (_ & _ & V3 & V4 & V5); [done|apply Z.mod_pos_bound; lia|done|lia|lia|lia|].
    cbn [getTopic db_header db_data db_size from_option id buffer]. rewrite V5. cbn [outcome_bind].
    rewrite V4. cbn [outcome_bind]. unfold releaseBlock, isValid. cbn [db_result db_header buffer].
    rewrite V3. cbn [outcome_bind]. rewrite Z.eqb_refl, Hid. cbn [negb orb].
    rewrite (proj2 (Z.ltb_ge _ _)) by lia. rewrite Nat2Z.id. cbn [outcome_bind control buffer head fmap option_fmap option_map].
    eexists _, _. split; [reflexivity|]. cbn [control buffer tail db_size].
    split; [|split; [done|]; split; [done|]; split; [done|]; split; [done|]; split; [done|];
             eexists; split; [cbn; rewrite !list_lookup_alter_eq, Hs; reflexivity|done]].
    assert (ld_inv maxb (upd_reader (control sh) i (fun s => set_read_pos (beat e s) (u64 (read_pos s + msg_size m))))
              (buffer sh) (set_pend a i ms)) as Hfin.
    { apply inv_upd_reader; [exact Hinv|]. intros s0 Hs0 _. assert (s0 = s) as -> by congruence.
      cbn [set_read_pos beat read_pos]. unfold u64. rewrite wrap_small by lia. split; [lia|]. split; [lia|done]. }
    replace (upd_reader (upd_reader (control sh) i (beat e)) i _)
      with (upd_reader (control sh) i (fun s => set_read_pos (beat e s) (u64 (read_pos s + msg_size m)))); [done|].
    unfold upd_reader, set_readers. cbn [readers write_pos sequence writer_heartbeat writer_pid num_readers ref_count
      capacity ctl_max_block_size ctl_max_readers]. f_equal. rewrite list_alter_alter_eq. by apply list_alter_ext.
Qed.

End Receive.

(** ** Registration *)

Lemma registerReader_inv maxb c buf a e i s :
  ld_inv maxb c buf a -> list_find (fun s => active s = false) (readers c) = Some (i, s) ->
  write_pos c <= capacity c ->
  (registerReader e c).1 = Z.of_nat i
  /\ ld_inv maxb (registerReader e c).2 buf (set_pend a i (a_log a))
  /\ readers (registerReader e c).2 !! i = Some (mkSlot 0 (u64 (time_s e)) (getpid e) true).
Proof.
  intros Hinv Hf Hw. unfold registerReader. rewrite Hf. cbn [fst snd]. split; [done|].
  apply list_find_Some in Hf as (Hi & _ & _). pose proof (lookup_lt_Some _ _ _ Hi).
  destruct Hinv as [H1 H2 H3 H4 H5]. split; [|by apply list_lookup_insert_eq].
  split; cbn [set_readers capacity readers write_pos]; try done; [by rewrite length_insert|].
  intros j s0 Hj Hs. unfold set_pend. cbn [a_pend]. destruct (Nat.eqb_spec j i) as [->|Hn].
  - rewrite list_lookup_insert_eq in Hj by done. injection Hj as <-. cbn [read_pos].
    split; [lia|]. split; [lia|auto].
  - rewrite list_lookup_insert_ne in Hj by done. by apply H4.
Qed.

(** ** Runs of one writer and one reader among others *)

Inductive ld_event :=
| EvWrite (e : os) (topic : string) (data : list Z)
| EvRecv (e : os).

Record ld_world := mkWorld {
  lw_shared : shared;
  lw_writer : channel;
  lw_last : Z;
  lw_reader : channel
}.

(** One event: the block accepted, the block delivered, and the next state. *)
Definition ld_do (ev : ld_event) (w : ld_world) : outcome (list msg * list (string * list Z) * ld_world) :=
  match ev with
  | EvWrite e topic data =>
      do! r := write e topic data (lw_writer w) (lw_last w) (lw_shared w) in
      let c := (cleanupDeadReaders e (lw_last w) (control (lw_shared w))).2 in
      Ret (if w_ret r <? 0 then [] else [msg_of c topic data], [],
           mkWorld (w_shared r) (w_channel r) (w_last r) (lw_reader w))
  | EvRecv e =>
      do! '(x, ch, sh) := receive e (lw_reader w) (lw_shared w) in
      Ret ([], match x with Some d => [d] | None => [] end, mkWorld sh (lw_writer w) (lw_last w) ch)
  end.

Fixpoint ld_run (evs : list ld_event) (w : ld_world) : outcome (list msg * list (string * list Z) * ld_world) :=
  match evs with
  | [] => Ret ([], [], w)
  | ev :: rest =>
      do! '(acc1, del1, w1) := ld_do ev w in
      do! '(acc2, del2, w2) := ld_run rest w1 in
      Ret (acc1 ++ acc2, del1 ++ del2, w2)
  end.

Definition slot_active (i : nat) (sh : shared) : bool :=
  match readers (control sh) !! i with Some s => active s | None => false end.

(** Along the run the reader's slot [i] stays active and the counters stay clear of
    their 64-bit limits. *)
Fixpoint ld_steady (i : nat) (evs : list ld_event) (w : ld_world) : Prop :=
  slot_active i (lw_shared w) = true
  /\ write_pos (control (lw_shared w)) + 2 * capacity (control (lw_shared w)) < 2 ^ 64
  /\ 0 <= sequence (control (lw_shared w)) < 2 ^ 63
  /\ match evs with
     | [] => True
     | ev :: rest => match ld_do ev w with Ret (_, _, w') => ld_steady i rest w' | UB => True end
     end.

Definition seen (m : msg) : string * list Z := (seen_topic (m_topic m), m_data m).

Record ld_world_ok (maxb : Z) (i : nat) (w : ld_world) (a : abs) : Prop := mkWorldOk {
  wo_inv : ld_inv maxb (control (lw_shared w)) (buffer (lw_shared w)) a;
  wo_max : maxb < 2 ^ 32;
  wo_wcfg : max_block_size (config (lw_writer w)) = maxb;
  wo_wmap : capacity (control (lw_shared w)) <= mapped (lw_writer w);
  wo_rcfg : max_block_size (config (lw_reader w)) = maxb;
  wo_rmap : capacity (control (lw_shared w)) <= mapped (lw_reader w);
  wo_rid : reader_id (lw_reader w) = Z.of_nat i
}.

(** What one step does to the reader's view. *)
Definition ld_effect (i : nat) (w w' : ld_world) (a a' : abs) (acc : list msg) (del : list (string * list Z)) : Prop :=
  sublist (del ++ (seen <$> a_pend a' i)) ((seen <$> a_pend a i) ++ (seen <$> acc))
  /\ write_pos (control (lw_shared w)) <= write_pos (control (lw_shared w'))
  /\ capacity (control (lw_shared w')) = capacity (control (lw_shared w))
  /\ (write_pos (control (lw_shared w')) <= capacity (control (lw_shared w)) ->
      del ++ (seen <$> a_pend a' i) = (seen <$> a_pend a i) ++ (seen <$> acc)).

Lemma i64_small z : 0 <= z < 2 ^ 63 -> i64 z = z.
Proof. intros. unfold i64. rewrite Z.mod_small; lia. Qed.

Lemma write_config e topic data ch last sh r :
  write e topic data ch last sh = Ret r -> config (w_channel r) = config ch /\ mapped (w_channel r) = mapped ch.
Proof.
  unfold write. destruct (_ <? _); [by intros [= <-]|].
  destruct (cleanupDeadReaders _ _ _) as [l c]. destruct (_ <? _).
  - destruct (overflow_policy _); by intros [= <-].
  - destruct (if _ <? _ then _ else _) as [o c']. destruct (write_block _ _ _ _ _ _ _); [|done].
    cbn [outcome_bind]. by intros [= <-].
Qed.

Lemma control_written_pos c e total :
  0 < capacity c -> 0 <= write_pos c -> 0 <= total <= capacity c -> write_pos c + 2 * capacity c < 2 ^ 64 ->
  write_pos c <= write_pos (control_written c e total) /\ capacity (control_written c e total) = capacity c
  /\ (wraps c total = true -> capacity c + total <= write_pos (control_written c e total)).
Proof.
  intros Hc Hw Ht Hov. pose proof (Z.mod_pos_bound (write_pos c) (capacity c) Hc) as Hm.
  pose proof (Z.mod_le (write_pos c) (capacity c) Hw Hc). unfold control_written. destruct (wraps c total).
  - cbn [set_write_pos set_readers set_writer write_pos capacity]. unfold u64.
    rewrite (wrap_small 64 (write_pos c + (_ - _))) by lia. rewrite wrap_small by lia. repeat split; lia.
  - cbn [set_write_pos set_writer write_pos capacity]. unfold u64. rewrite wrap_small by lia. repeat split; lia.
Qed.

Lemma ld_do_effect maxb i ev w a :
  ld_world_ok maxb i w a -> ld_steady i [] w ->
  exists acc del w' a', ld_do ev w = Ret (acc, del, w') /\ ld_world_ok maxb i w' a' /\ ld_effect i w w' a a' acc del.
Proof.
  intros [Hinv Hmax Hwc Hwm Hrc Hrm Hid] (Hact & Hov & Hseq & _). destruct ev as [e topic data|e].
  - destruct (write_cases maxb (lw_writer w) (lw_shared w) a Hinv Hwc Hmax Hwm Hov e topic data (lw_last w)) as (r & Hr & Hcase).
    cbn [ld_do]. rewrite Hr. cbn [outcome_bind]. destruct (write_config _ _ _ _ _ _ _ Hr) as [Ecf Emp].
    pose proof (cleanupDeadReaders_spec e (lw_last w) (control (lw_shared w))) as Hcl. cbv zeta in Hcl, Hcase.
    destruct (maxb <? zlen data) eqn:Ebig; cbn [orb] in Hcase.
    + destruct Hcase as (-> & Hsh & Hi). eexists [], [], _, a. split; [reflexivity|].
      rewrite Hsh. split; [split; cbn [lw_shared control buffer lw_writer lw_reader]; (done || congruence)|].
      split; [cbn; by rewrite app_nil_r|]. cbn. rewrite app_nil_r. repeat split; (done || lia).
    + set (c := (cleanupDeadReaders e (lw_last w) (control (lw_shared w))).2) in *.
      destruct Hcl as (_ & Ew & Ec & Es). destruct (_ <? _) eqn:Efull in Hcase.
      * destruct Hcase as (-> & Hsh & Hi). eexists [], [], _, a. split; [reflexivity|].
        rewrite Hsh. split; [split; cbn [lw_shared control buffer lw_writer lw_reader]; (done || congruence)|].
        split; [cbn; by rewrite app_nil_r|]. cbn. rewrite app_nil_r, Ew, Ec. repeat split; (done || lia).
      * destruct Hcase as (Hret & Hctl & Hi). btest. rewrite Hret, Es, i64_small by done.
        rewrite (proj2 (Z.ltb_ge _ _)) by lia. set (m := msg_of c topic data) in *.
        assert (ld_inv maxb c (buffer (lw_shared w)) a) as Hic.
        { eapply inv_dropped; [exact Hinv|..]; [|done|done]. apply cleanupDeadReaders_spec. }
        pose proof (min_read_pos_inv _ _ _ _ Hic) as [Hmin _].
        pose proof (inv_cap _ _ _ _ Hic). pose proof (inv_wpos _ _ _ _ Hic). pose proof (msg_size_pos m).
        destruct (control_written_pos c e (msg_size m)) as (Hp1 & Hp2 & Hp3); [lia|lia|lia|rewrite Ew, Ec; lia|].
        eexists [m], [], _, (abs_write a (wraps c (msg_size m)) m). split; [reflexivity|].
        split; [split; cbn [lw_shared lw_writer lw_reader]; rewrite ?Hctl, ?Hp2, ?Ec, ?Ecf, ?Emp; try done; by rewrite <- Hctl|].
        unfold ld_effect. cbn [lw_shared abs_write a_pend]. rewrite Hctl, Hp2, Ec, <- Ew.
        split; [|split; [done|split; [done|]]].
        -- rewrite fmap_app. cbn [app fmap list_fmap]. apply sublist_app; [|done].
           destruct (wraps c (msg_size m)); [apply sublist_nil_l|done].
        -- intros Hle. destruct (wraps c (msg_size m)); [specialize (Hp3 eq_refl); lia|]. cbn [app]. by rewrite fmap_app.
  - unfold slot_active in Hact. destruct (readers (control (lw_shared w)) !! i) as [s|] eqn:Hs; [|done].
    destruct (receive_active maxb (lw_reader w) (lw_shared w) a i s Hinv Hrc Hmax Hrm Hid Hs Hact ltac:(pose proof (inv_cap _ _ _ _ Hinv); lia) e)
      as (ch' & sh' & Hrec & Hi & Ecf & Emp & Erid & Ew & Ec & _).
    cbn [ld_do]. rewrite Hrec. cbn [outcome_bind].
    eexists [], _, _, (set_pend a i (tail (a_pend a i))). split; [reflexivity|].
    split; [split; cbn [lw_shared lw_writer lw_reader]; (done || congruence)|].
    unfold ld_effect, set_pend. cbn [lw_shared a_pend]. rewrite Nat.eqb_refl, Ew, Ec, app_nil_r.
    assert (match (fun m => (seen_topic (m_topic m), m_data m)) <$> head (a_pend a i) with Some d => [d] | None => [] end
            ++ (seen <$> tail (a_pend a i)) = seen <$> a_pend a i) as E by (by destruct (a_pend a i)).
    rewrite E. repeat split; done.
Qed.

Lemma ld_run_effect maxb i evs w a :
  ld_world_ok maxb i w a -> ld_steady i evs w ->
  exists acc del w' a', ld_run evs w = Ret (acc, del, w') /\ ld_world_ok maxb i w' a' /\ ld_effect i w w' a a' acc del.
Proof.
  revert w a. induction evs as [|ev evs IH]; intros w a Hok Hst.
  - exists [], [], w, a. split; [done|]. split; [done|]. unfold ld_effect. cbn. rewrite app_nil_r. repeat split; (done || lia).
  - destruct (ld_do_effect maxb i ev w a Hok) as (acc1 & del1 & w1 & a1 & E1 & Hok1 & S1 & M1 & C1 & X1);
      [cbn in *; tauto|].
    cbn [ld_steady] in Hst. rewrite E1 in Hst. destruct Hst as (_ & _ & _ & Hst).
    destruct (IH w1 a1 Hok1 Hst) as (acc2 & del2 & w2 & a2 & E2 & Hok2 & S2 & M2 & C2 & X2).
    exists (acc1 ++ acc2), (del1 ++ del2), w2, a2. cbn [ld_run]. rewrite E1. cbn [outcome_bind]. rewrite E2.
    split; [done|]. split; [done|]. split; [|split; [lia|split; [congruence|]]].
    + rewrite fmap_app, app_assoc, <- app_assoc.
      transitivity (del1 ++ ((seen <$> a_pend a1 i) ++ (seen <$> acc2))); [by apply sublist_app|].
      rewrite app_assoc. by apply sublist_app.
    + intros Hle. rewrite fmap_app, <- app_assoc, X2, app_assoc, X1 by lia. by rewrite <- app_assoc.
Qed.

(** ** A fresh channel *)

Definition mapped_size (page : Z) (cf : Config) : Z :=
  round_up (sizeof_RingBufferControl + buffer_size cf) page - sizeof_RingBufferControl.

Definition fresh_shared (page : Z) (e : os) (cf : Config) : shared :=
  mkShared (fresh_control e cf) (replicate (Z.to_nat (mapped_size page cf)) 0).

Definition calls_ok : ld_calls := mkLdCalls true true true true true.

(** What [initialize] makes of an absent object when no call fails. *)
Lemma initialize_fresh page e cf :
  initialize page e calls_ok cf LdAbsent
  = (Some (new_channel cf (mapped_size page cf)), LdRegion (fresh_shared page e cf)).
Proof. reflexivity. Qed.

Lemma round_up_ge z page : 0 < page -> z <= round_up z page.
Proof.
  intros Hp. unfold round_up. pose proof (Z.div_mod (z + page - 1) page ltac:(lia)).
  pose proof (Z.mod_pos_bound (z + page - 1) page Hp). lia.
Qed.

(** The creator writes; one reader has opened the channel and registered. *)
Definition fresh_world (page : Z) (e er : os) (cf : Config) : ld_world :=
  let sh := fresh_shared page e cf in
  let '(r, c) := registerReader er (control sh) in
  mkWorld (mkShared c (buffer sh)) (new_channel cf (mapped_size page cf)) 0
    (set_reader_id (new_channel cf (mapped_size page cf)) r).

Lemma fresh_inv page e cf :
  0 < page -> 0 < buffer_size cf ->
  ld_inv (max_block_size cf) (fresh_control e cf) (buffer (fresh_shared page e cf)) (mkAbs [] (fun _ => [])).
Proof.
  intros Hp Hb. pose proof (round_up_ge (sizeof_RingBufferControl + buffer_size cf) page Hp).
  split; cbn [fresh_control capacity readers write_pos]; try done.
  - split; [done|]. unfold fresh_shared, mapped_size, zlen. cbn [buffer]. rewrite length_replicate. lia.
  - intros i s Hi Hs. apply lookup_replicate in Hi as [-> _]. done.
Qed.

Lemma fresh_world_ok page e er cf :
  0 < page -> 0 < buffer_size cf -> max_block_size cf < 2 ^ 32 ->
  ld_world_ok (max_block_size cf) 0 (fresh_world page e er cf) (set_pend (mkAbs [] (fun _ => [])) 0 []).
Proof.
  intros Hp Hb Hm. pose proof (round_up_ge (sizeof_RingBufferControl + buffer_size cf) page Hp) as Hr.
  assert (list_find (fun s => active s = false) (readers (fresh_control e cf)) = Some (0%nat, fresh_slot)) as Hf by done.
  destruct (registerReader_inv _ _ _ _ er 0 _ (fresh_inv page e cf Hp Hb) Hf) as (H1 & H2 & _); [cbn; lia|].
  unfold fresh_world. cbn [control fresh_shared].
  assert (capacity (registerReader er (fresh_control e cf)).2 = buffer_size cf) as Hc by done.
  destruct (registerReader er (fresh_control e cf)) as [r c]. cbn [fst snd] in *.
  split; cbn [lw_shared lw_writer lw_reader control buffer new_channel set_reader_id config mapped reader_id];
    rewrite ?Hc; try done; unfold mapped_size; lia.
Qed.

(** ** Opening and closing *)

Definition open_all (page : Z) (e : os) (cf : Config) (n : nat) (o : ld_object) : ld_object :=
  Nat.iter n (fun o => (initialize page e calls_ok cf o).2) o.

Definition close_one (ch : channel) (o : ld_object) : ld_object :=
  match o with LdRegion sh => destroy calls_ok ch sh | _ => o end.

Definition close_all (ch : channel) (n : nat) (o : ld_object) : ld_object := Nat.iter n (close_one ch) o.

Definition refs (o : ld_object) : Z := match o with LdRegion sh => ref_count (control sh) | _ => 0 end.

Lemma open_all_refs page e cf n :
  Z.of_nat n < 2 ^ 31 -> refs (open_all page e cf n LdAbsent) = Z.of_nat n
  /\ (n = 0%nat \/ exists sh, open_all page e cf n LdAbsent = LdRegion sh).
Proof.
  induction n as [|n IH]; intros Hn; [by split; [|left]|]. destruct IH as [IH1 IH2]; [lia|].
  unfold open_all in *. rewrite Nat.iter_succ.
  set (o := Nat.iter n _ LdAbsent) in *. destruct IH2 as [->|[sh E]].
  - subst o. cbn [Nat.iter nat_rect]. rewrite initialize_fresh. cbn. split; [done|right; eauto].
  - rewrite E in *. cbn [refs] in IH1. split; [|right; eexists; reflexivity].
    change (i32 (ref_count (control sh) + 1) = Z.of_nat (S n)). rewrite IH1. unfold i32. rewrite Z.mod_small by lia. lia.
Qed.

Lemma close_all_refs ch n o :
  reader_id ch < 0 -> Z.of_nat n <= refs o -> (exists sh, o = LdRegion sh) ->
  refs (close_all ch n o) = refs o - Z.of_nat n
  /\ (close_all ch n o = LdAbsent <-> 0 < Z.of_nat n /\ Z.of_nat n = refs o)
  /\ (Z.of_nat n < refs o -> exists sh, close_all ch n o = LdRegion sh).
Proof.
  intros Hr. induction n as [|n IH]; intros Hn [sh ->].
  - cbn [close_all Nat.iter nat_rect]. split; [lia|]. split; [split; [done|lia]|eauto].
  - destruct IH as (IH1 & IH2 & IH3); [lia|eauto|]. destruct IH3 as [sh' E]; [lia|].
    unfold close_all in *. rewrite Nat.iter_succ. rewrite E in *. cbn [close_one refs] in *. unfold destroy.
    rewrite (proj2 (Z.leb_gt _ _)) by lia. rewrite (proj2 (Z.ltb_lt _ _)) by lia.
    destruct (Z.eqb_spec (ref_count (control sh')) 1) as [E1|E1]; cbn [andb ld_unlink_ok calls_ok refs control set_ref_count ref_count].
    + split; [lia|]. split; [split; [lia|done]|lia].
    + split; [lia|]. split; [split; [done|lia]|eauto].
Qed.

(** ** Properties *)



(** C19: reading and releasing a block in any state that represents an
    abstract channel delivers the oldest pending block of that reader, with its
    topic and its bytes, and removes it; with nothing pending nothing is delivered. *)
Theorem large_receive_refines maxb ch sh a i s e :
  ld_inv maxb (control sh) (buffer sh) a -> max_block_size (config ch) = maxb -> maxb < 2 ^ 32 ->
  capacity (control sh) <= mapped ch -> reader_id ch = Z.of_nat i ->
  readers (control sh) !! i = Some s -> active s = true -> write_pos (control sh) < 2 ^ 64 ->
  exists ch' sh', receive e ch sh = Ret (seen <$> head (a_pend a i), ch', sh')
    /\ ld_inv maxb (control sh') (buffer sh') (set_pend a i (tail (a_pend a i))).
Proof.
  intros H1 H2 H3 H4 H5 H6 H7 H8.
  destruct (receive_active maxb ch sh a i s H1 H2 H3 H4 H5 H6 H7 H8 e) as (ch' & sh' & Hr & Hi & _). eauto.
Qed.

(** A reader that registers before the ring has wrapped has the
    whole log pending, including the blocks written before it registered. *)
Theorem early_reader_gets_log maxb c buf a e i s :
  ld_inv maxb c buf a -> list_find (fun s => active s = false) (readers c) = Some (i, s) ->
  write_pos c <= capacity c ->
  (registerReader e c).1 = Z.of_nat i /\ ld_inv maxb (registerReader e c).2 buf (set_pend a i (a_log a)).
Proof. intros H1 H2 H3. destruct (registerReader_inv _ _ _ _ e _ _ H1 H2 H3) as (? & ? & _). done. Qed.

(** A reader that registers after more than the capacity has been
    written starts at position 0, and until it reads, or is removed as dead,
    every write is refused. *)
Theorem late_reader_blocks_writer e ew ch last topic data buf c :
  (registerReader e c).1 <> -1 -> capacity c < write_pos c < 2 ^ 63 -> 0 <= capacity c ->
  zlen data < 2 ^ 32 ->
  (forall s, s ∈ readers (registerReader e c).2 -> reader_dead ew s = false) ->
  Forall (fun s => 0 <= read_pos s) (readers c) ->
  exists w, write ew topic data ch last (mkShared (registerReader e c).2 buf) = Ret w /\ w_ret w = -1.
Proof.
  intros Hreg Hw Hc Hd Hdead Hpos. unfold registerReader in *.
  destruct (list_find _ (readers c)) as [[i s]|] eqn:Hf; [|done]. cbn [fst snd] in *.
  apply list_find_Some in Hf as (Hi & _ & _). pose proof (lookup_lt_Some _ _ _ Hi).
  set (c1 := set_readers c _ _) in *. unfold write. cbn [control].
  destruct (_ <? zlen data); [eexists; split; [done|done]|].
  pose proof (cleanupDeadReaders_spec ew last c1) as (_ & Ew & Ec & _).
  assert (readers (cleanupDeadReaders ew last c1).2 = readers c1) as Er.
  { unfold cleanupDeadReaders. destruct (_ <? _); [done|]. cbn [snd set_readers readers].
    rewrite <- (list_fmap_id (readers c1)) at 2. apply list_fmap_ext. intros j s' Hj.
    rewrite Hdead; [done|]. by eapply list_elem_of_lookup_2. }
  destruct (cleanupDeadReaders ew last c1) as [l c2]. cbn [snd] in *.
  destruct (getMinReadPos_spec c2) as (_ & Hmin & Hex). rewrite Er in Hmin, Hex.
  assert (getMinReadPos c2 = 0) as ->.
  { assert (getMinReadPos c2 <= 0).
    { apply (Hmin i (mkSlot 0 (u64 (time_s e)) (getpid e) true)); [|done]. by apply list_lookup_insert_eq. }
    assert (0 <= getMinReadPos c2); [|lia].
    destruct Hex as [->|(j & s' & Hj & _ & ->)]; [rewrite Ew; cbn; lia|].
    assert (Forall (fun s => 0 <= read_pos s) (readers c1)) as Hf1 by (apply Forall_insert; [done|cbn; lia]).
    by apply (Forall_lookup_1 _ _ _ _ Hf1 Hj). }
  rewrite Ew, Ec. cbn [c1 set_readers write_pos capacity]. pose proof (zlen_nonneg data). ld_consts.
  unfold u64. rewrite !wrap_small by (rewrite ?wrap_small; lia). rewrite (proj2 (Z.ltb_lt _ _)) by lia.
  destruct (overflow_policy (config ch)); eexists; (split; [reflexivity|done]).
Qed.

(** For a referenced channel whose writer process is alive, the
    orphan scan removes it exactly when its last write is older than the timeout
    and no reader is registered or all registered readers' heartbeats have expired: an
    idle writer with no readers loses its channel. *)
Theorem live_writer_orphaned_iff e timeout c :
  ref_count c <> 0 -> isProcessAlive e (writer_pid c) = true ->
  control_orphaned e timeout c = true
  <-> 0 < writer_heartbeat c /\ timeout < u64 (time_s e - writer_heartbeat c)
      /\ (num_readers c = 0
          \/ Forall (fun s => active s = true -> heartbeat s <> 0 /\ timeout < u64 (time_s e - heartbeat s)) (readers c)).
Proof.
  intros Hr Ha. unfold control_orphaned. rewrite (proj2 (Z.eqb_neq _ _) Hr), Ha. cbn [negb andb].
  unfold hb_expired. rewrite !andb_true_iff, orb_true_iff, !Z.ltb_lt, Z.eqb_eq.
  assert (all_readers_timeout e timeout c = true
          <-> Forall (fun s => active s = true -> heartbeat s <> 0 /\ timeout < u64 (time_s e - heartbeat s)) (readers c)) as ->.
  { unfold all_readers_timeout, hb_expired. rewrite forallb_forall, Forall_forall. setoid_rewrite list_elem_of_In.
    split; intros H s Hs; specialize (H s Hs).
    - intros Hact. rewrite Hact in H. cbn [negb orb] in H. apply andb_true_iff in H as [H1 H2]. btest. done.
    - destruct (active s); [|done]. cbn [negb orb]. destruct (H eq_refl) as [H1 H2].
      apply andb_true_iff. split; [by apply negb_true_iff, Z.eqb_neq|by apply Z.ltb_lt]. }
  tauto.
Qed.

(** After [n] openings of an absent channel, [k] closings remove the
    shared-memory object exactly when all [n] openers have closed; until then
    it stays with [n - k] references. *)
Theorem last_close_unlinks page e cf n k :
  (0 < n)%nat -> (k <= n)%nat -> Z.of_nat n < 2 ^ 31 ->
  let o := close_all (new_channel cf (mapped_size page cf)) k (open_all page e cf n LdAbsent) in
  (o = LdAbsent <-> k = n) /\ refs o = Z.of_nat n - Z.of_nat k.
Proof.
  intros Hn Hk Hb o. destruct (open_all_refs page e cf n Hb) as [Hr He].
  destruct He as [->|He]; [lia|].
  destruct (close_all_refs (new_channel cf (mapped_size page cf)) k (open_all page e cf n LdAbsent)) as (H1 & H2 & _);
    [done|lia|done|].
  fold o in H1, H2. rewrite H1, Hr. split; [|lia]. rewrite H2, Hr. lia.
Qed.

(** ** Witnesses *)

Definition demo_os (now : Z) : os := mkOs 7 (fun _ => KillOk) (now * 1000) now.

(** A ring of 512 bytes: three blocks of 160 bytes fit before the wrap. *)
Definition demo_config : Config := mkConfig 512 256 8 true LD_DROP_OLDEST false.

Definition demo_data (b : Z) : list Z := replicate 32 b.

Definition demo_events : list ld_event :=
  [EvWrite (demo_os 10) "t" (demo_data 1); EvWrite (demo_os 10) "t" (demo_data 2); EvRecv (demo_os 11)].

Definition demo_world : ld_world := fresh_world 4096 (demo_os 10) (demo_os 10) demo_config.



Lemma demo_world_ok : ld_world_ok 256 0 demo_world (set_pend (mkAbs [] (fun _ => [])) 0 []).
Proof. apply (fresh_world_ok 4096 (demo_os 10) (demo_os 10) demo_config); cbn; lia. Qed.

Lemma large_receive_refines_witness :
  exists ch' sh', receive (demo_os 10) (lw_reader demo_world) (lw_shared demo_world) = Ret (None, ch', sh').
Proof.
  destruct (large_receive_refines 256 (lw_reader demo_world) (lw_shared demo_world)
              (set_pend (mkAbs [] (fun _ => [])) 0 []) 0 (mkSlot 0 10 7 true) (demo_os 10)) as (ch' & sh' & H & _).
  - apply (wo_inv _ _ _ _ demo_world_ok).
  - reflexivity.
  - lia.
  - vm_compute. discriminate.
  - reflexivity.
  - reflexivity.
  - reflexivity.
  - vm_compute. reflexivity.
  - exists ch', sh'. exact H.
Defined.

Lemma early_reader_gets_log_witness :
  (registerReader (demo_os 10) (fresh_control (demo_os 10) demo_config)).1 = Z.of_nat 0
  /\ ld_inv 256 (registerReader (demo_os 10) (fresh_control (demo_os 10) demo_config)).2
       (buffer (fresh_shared 4096 (demo_os 10) demo_config)) (set_pend (mkAbs [] (fun _ => [])) 0 []).
Proof.
  apply (early_reader_gets_log 256 (fresh_control (demo_os 10) demo_config)
           (buffer (fresh_shared 4096 (demo_os 10) demo_config)) (mkAbs [] (fun _ => [])) (demo_os 10) 0 fresh_slot).
  - apply (fresh_inv 4096 (demo_os 10) demo_config); cbn; lia.
  - reflexivity.
  - cbn. lia.
Defined.

Lemma late_reader_blocks_writer_witness :
  exists w, write (demo_os 10) "t" (demo_data 1) (lw_writer demo_world) 0
    (mkShared (registerReader (demo_os 10) (set_write_pos (fresh_control (demo_os 10) demo_config) 640)).2 (replicate 2944 0)) = Ret w
    /\ w_ret w = -1.
Proof.
  apply (late_reader_blocks_writer (demo_os 10) (demo_os 10) (lw_writer demo_world) 0 "t" (demo_data 1) (replicate 2944 0)
           (set_write_pos (fresh_control (demo_os 10) demo_config) 640)).
  - discriminate.
  - cbn. lia.
  - cbn. lia.
  - vm_compute. reflexivity.
  - intros s Hs. apply list_elem_of_In in Hs. apply negb_true_iff.
    revert s Hs. apply (proj1 (forallb_forall _ _)). vm_compute. reflexivity.
  - cbn. repeat constructor; cbn; lia.
Defined.

Definition demo_idle : RingBufferControl := set_writer (fresh_control (demo_os 10) demo_config) 10 1.

Lemma live_writer_orphaned_iff_witness :
  control_orphaned (demo_os 100) 60 demo_idle = true
  <-> 0 < writer_heartbeat demo_idle /\ 60 < u64 (time_s (demo_os 100) - writer_heartbeat demo_idle)
      /\ (num_readers demo_idle = 0
          \/ Forall (fun s => active s = true -> heartbeat s <> 0 /\ 60 < u64 (time_s (demo_os 100) - heartbeat s))
               (readers demo_idle)).
Proof. apply (live_writer_orphaned_iff (demo_os 100) 60 demo_idle); [discriminate|reflexivity]. Defined.

Lemma last_close_unlinks_witness :
  close_all (new_channel demo_config (mapped_size 4096 demo_config)) 2 (open_all 4096 (demo_os 10) demo_config 2 LdAbsent)
  = LdAbsent.
Proof. apply (last_close_unlinks 4096 (demo_os 10) demo_config 2 2); [lia|lia|lia|reflexivity]. Defined.

(** Three blocks fill the ring, the first is received, the second is held; a fourth
    write wraps; the held block is released and the reader tries again. *)
Definition wrap_scenario : outcome (Z * Z * Z * bool * option (string * list Z)) :=
  do! '(_, _, w1) := ld_run [EvWrite (demo_os 10) "t" (demo_data 1); EvWrite (demo_os 10) "t" (demo_data 2);
                             EvWrite (demo_os 10) "t" (demo_data 3); EvRecv (demo_os 10)] demo_world in
  do! '(ok, blk, ch1, sh1) := tryRead (demo_os 10) empty_block (lw_reader w1) (lw_shared w1) in
  do! r := write (demo_os 10) "t" (demo_data 4) (lw_writer w1) (lw_last w1) sh1 in
  do! '(ch2, sh2) := releaseBlock blk ch1 (w_shared r) in
  do! '(x, _, _) := receive (demo_os 10) ch2 sh2 in
  Ret (w_ret r, write_pos (control sh2), slot_pos (control sh2) 0, ok, x).

(** A reader that holds a block while the writer wraps the ring has its
    position moved by the writer and then moved again by [releaseBlock]: after the
    write of block 3 at position 512 both positions are 672, and the next
    receive finds nothing, so blocks 2 and 3 are never delivered. *)
Theorem release_after_wrap : wrap_scenario = Ret (3, 672, 672, true, None).
Proof. vm_compute. reflexivity. Qed.
