(* ===== verification/ByteQueue.v ===== *)
(** * The byte queue as the transport uses it

    The transport relies on its rings only through [tryWrite] and [tryRead]. The
    class states what a ring promises; the instance discharges it from
    [LockFreeQueue.v] for every buffer size. The second class adds the condition
    under which no call leaves the buffer. *)

From S2P Require Import Prelude LockFreeQueue.

Class ByteQueue (Q : Type) := mkByteQueue {
  bq_init : Q;
  bq_tryWrite : list Z -> Q -> outcome (bool * Q);
  bq_tryRead : Q -> outcome (option (list Z) * Q);
  bq_size : Q -> Z;
  bq_holds : Q -> list (list Z) -> Prop;
  bq_init_holds : bq_holds bq_init [];
  bq_write_holds q ms d :
    bq_holds q ms ->
    exists b q', bq_tryWrite d q = Ret (b, q') /\ bq_holds q' (if b then ms ++ [d] else ms);
  bq_read_holds q ms r :
    bq_holds q ms -> bq_tryRead q = Ret r -> r.1 = head ms /\ bq_holds r.2 (tail ms);
  bq_bounded q ms : bq_holds q ms -> zlen ms < 2 ^ 32;
  bq_small : list Z -> Prop;      (* accepted whenever the queue is empty *)
  bq_empty_accepts q d : bq_holds q [] -> bq_small d -> exists q', bq_tryWrite d q = Ret (true, q');
  bq_over_refused q d : MAX_MSG_SIZE < zlen d -> bq_tryWrite d q = Ret (false, q)
}.

(** Messages of one kind for which every call is defined. *)
Class CalmQueue (Q : Type) `{ByteQueue Q} := mkCalmQueue {
  bq_fits : list Z -> Prop;
  bq_calm : Q -> list (list Z) -> Prop;
  bq_calm_holds q ms : bq_calm q ms -> bq_holds q ms;
  bq_calm_init : bq_calm bq_init [];
  bq_calm_write q ms d b q' :
    bq_calm q ms -> bq_fits d -> bq_tryWrite d q = Ret (b, q') -> bq_calm q' (if b then ms ++ [d] else ms);
  bq_calm_read q ms : bq_calm q ms -> exists r, bq_tryRead q = Ret r /\ bq_calm r.2 (tail ms)
}.

(** A ring of [B] bytes. *)
Record sized_ring (B : Z) := mkSized { the_ring : ring }.

Arguments mkSized {B} the_ring.
Arguments the_ring {B} s.

Definition lift {B : Z} {A : Type} (o : outcome (A * ring)) : outcome (A * sized_ring B) :=
  do! r := o in Ret (r.1, mkSized r.2).

Section Instance_.
Context (B : Z) (B_aligned : (8 | B)) (B_range : 0 < B < 2 ^ 32).

Definition ring_tryWrite (d : list Z) (s : sized_ring B) : outcome (bool * sized_ring B) :=
  lift (tryWrite B d (the_ring s)).

Definition ring_tryRead (s : sized_ring B) : outcome (option (list Z) * sized_ring B) :=
  lift (tryRead (the_ring s)).

Lemma ring_write_holds (q : sized_ring B) ms d :
  repr B (the_ring q) ms ->
  exists b q', ring_tryWrite d q = Ret (b, q') /\ repr B (the_ring q') (if b then ms ++ [d] else ms).
Proof.
  intros Hq. destruct (tryWrite_cases B B_aligned B_range (the_ring q) ms d Hq) as (q' & Hw & Hr & _).
  exists (accepts B (the_ring q) d), (mkSized q'). unfold ring_tryWrite, lift. rewrite Hw. done.
Qed.

Lemma ring_read_holds (q : sized_ring B) ms r :
  repr B (the_ring q) ms -> ring_tryRead q = Ret r -> r.1 = head ms /\ repr B (the_ring r.2) (tail ms).
Proof.
  intros Hq Hr. unfold ring_tryRead, lift in Hr. destruct ms as [|m ms].
  - rewrite (tryRead_nil B (the_ring q) Hq) in Hr. cbn [outcome_bind] in Hr. simplify_eq. done.
  - destruct (Z.eq_dec (tail_ (the_ring q)) B) as [E|E].
    + rewrite (tryRead_at_end B _ (m :: ms) Hq) in Hr by done. done.
    + destruct (tryRead_cons B B_aligned B_range (the_ring q) m ms Hq) as (q' & Hq' & Hr' & _).
      { destruct Hq as [[] _]. lia. }
      rewrite Hq' in Hr. cbn [outcome_bind] in Hr. simplify_eq. done.
Qed.

Lemma chain_count buf p e ms : chain buf p e ms -> 8 * zlen ms <= e - p.
Proof.
  induction 1 as [p|p e m ms Hm _ _ _ IH]; [unfold zlen; simpl; lia|]. rewrite zlen_cons.
  destruct (needed_bounds (zlen m) (zlen_nonneg m)). pose proof (zlen_nonneg m). lia.
Qed.

Lemma ring_bounded (q : sized_ring B) ms : repr B (the_ring q) ms -> zlen ms < 2 ^ 32.
Proof.
  intros [[_ Hh Ht _ _] Hl]. destruct Hl as [ms Hle Hc|p ms1 ms2 Hlt Hp Hc1 Hc2 _ _].
  - apply chain_count in Hc. lia.
  - apply chain_count in Hc1, Hc2. rewrite zlen_app. lia.
Qed.

(** Twice the frame of the message fits. *)
Definition ring_small (d : list Z) : Prop := msg_ok d /\ 2 * needed (zlen d) <= B.

Lemma ring_empty_accepts (q : sized_ring B) d :
  repr B (the_ring q) [] -> ring_small d -> exists q', ring_tryWrite d q = Ret (true, q').
Proof.
  intros Hq [Hm Hs]. destruct (ring_write_holds q [] d Hq) as (b & q' & Hw & _). exists q'. rewrite Hw. do 2 f_equal.
  destruct (tryWrite_cases B B_aligned B_range (the_ring q) [] d Hq) as (q1 & Hw1 & _).
  unfold ring_tryWrite, lift in Hw. rewrite Hw1 in Hw. cbn [outcome_bind] in Hw. simplify_eq.
  destruct Hq as [_ He%layout_nil_inv]. unfold accepts, room, msg_ok in *. cbn [fst]. rewrite He, Z.leb_refl.
  rewrite (proj2 (Z.ltb_lt 0 _)), (proj2 (Z.leb_le (zlen d) _)) by lia. cbn [andb].
  apply orb_true_iff. rewrite Z.leb_le, Z.ltb_lt. lia.
Qed.

Lemma ring_over_refused (q : sized_ring B) d : MAX_MSG_SIZE < zlen d -> ring_tryWrite d q = Ret (false, q).
Proof.
  intros Hd. unfold ring_tryWrite, lift, tryWrite. rewrite (proj2 (Z.ltb_lt _ _)) by done. cbn. by destruct q.
Qed.

#[local] Instance ring_queue : ByteQueue (sized_ring B) := {|
  bq_init := mkSized (init B);
  bq_tryWrite := ring_tryWrite;
  bq_tryRead := ring_tryRead;
  bq_size := fun q => size B (the_ring q);
  bq_holds := fun q ms => repr B (the_ring q) ms;
  bq_init_holds := init_repr B B_range;
  bq_write_holds := ring_write_holds;
  bq_read_holds := ring_read_holds;
  bq_bounded := ring_bounded;
  bq_small := ring_small;
  bq_empty_accepts := ring_empty_accepts;
  bq_over_refused := ring_over_refused
|}.

(** Frames of [f] bytes, [f] not dividing the buffer size. *)
Context (f : Z) (Hf : ~ (f | B)).

Lemma ring_calm_write (q : sized_ring B) ms d b q' :
  uniform B f (the_ring q) ms -> needed (zlen d) = f -> bq_tryWrite d q = Ret (b, q') ->
  uniform B f (the_ring q') (if b then ms ++ [d] else ms).
Proof.
  intros Hq Hd Hw. destruct (tryWrite_uniform B B_aligned B_range f (the_ring q) ms d Hq Hd) as (b' & q'' & Hw' & Hu).
  cbn in Hw. unfold ring_tryWrite, lift in Hw. rewrite Hw' in Hw. cbn [outcome_bind] in Hw. by simplify_eq.
Qed.

Lemma ring_calm_read (q : sized_ring B) ms :
  uniform B f (the_ring q) ms -> exists r, bq_tryRead q = Ret r /\ uniform B f (the_ring r.2) (tail ms).
Proof.
  intros Hq. cbn. unfold ring_tryRead, lift. destruct ms as [|m ms].
  - destruct (Hq) as [Hr _]. rewrite (tryRead_nil B _ Hr). eexists. split; [reflexivity|]. exact Hq.
  - destruct (Hq) as (Hr & Hh & Ht & Hall).
    destruct (tryRead_cons B B_aligned B_range (the_ring q) m ms Hr) as (q' & Hq' & Hr' & Hh' & Ht').
    { destruct Hr as [[_ _ ? _ _] _]. destruct (Z.eq_dec (tail_ (the_ring q)) B) as [E|]; [by rewrite E in Ht|lia]. }
    rewrite Hq'. eexists. split; [reflexivity|]. cbn. inversion Hall as [|? ? Hm Hms]; subst.
    split; [done|]. rewrite Hh'. split; [done|]. split; [|done].
    destruct Ht' as [-> | ->]; [apply Z.divide_refl|]. apply Z.divide_add_r; [done|apply Z.divide_refl].
Qed.

#[local] Instance ring_calm : CalmQueue (sized_ring B).
Proof.
  refine {|
    bq_fits := fun d => needed (zlen d) = f;
    bq_calm := fun q ms => uniform B f (the_ring q) ms
  |}.
  - intros q ms [Hr _]. exact Hr.
  - split; [apply init_repr; exact B_range|]. cbn. split; [apply Z.divide_0_r|]. split; [apply Z.divide_0_r|constructor].
  - apply ring_calm_write.
  - apply ring_calm_read.
Defined.

End Instance_.

(** The two queues of the transport. *)

#[export] Instance control_ring : ByteQueue (sized_ring CONTROL_QUEUE_SIZE_BYTES) :=
  ring_queue CONTROL_QUEUE_SIZE_BYTES ltac:(by exists 2048) ltac:(unfold CONTROL_QUEUE_SIZE_BYTES; lia).

#[export] Instance data_ring : ByteQueue (sized_ring DATA_QUEUE_SIZE_BYTES) :=
  ring_queue DATA_QUEUE_SIZE_BYTES ltac:(by exists 65536) ltac:(unfold DATA_QUEUE_SIZE_BYTES; lia).
