(* ===== verification/TransportV3.v ===== *)
(** * The shared-memory transport

    Models [include/nexus/transport/SharedMemoryTransportV3.h] and
    [src/transport/SharedMemoryTransportV3.cpp]: every node owns a shared-memory object
    with inbound queues, one per sender, each a control ring and a data ring; senders
    connect on demand through the registry. The objects live in a heap of their own,
    so that a mapping survives the removal of its name. The rings are used through
    the class of [ByteQueue.v]. *)

From stdpp Require Import pretty.
From S2P Require Import Prelude Os SharedMemoryRegistry ByteQueue StdMap.

Module Reg := SharedMemoryRegistry.

(** ** Constants *)

Definition MAX_INBOUND_QUEUES : nat := 32.

Definition MAX_ACCESSORS : nat := 64.

Definition MAGIC : Z := 0x4C524E33.

Definition VERSION : Z := 1.

Definition SHM_BACKOFF_BASE_US : Z := 10.

Definition SHM_BACKOFF_MAX_US : Z := 1000.

Definition SHM_CONGESTION_INCREMENT : Z := 5.

Definition SHM_CONGESTION_DECREMENT : Z := 1.

Definition SHM_CONGESTION_MAX : Z := 100.

Definition SHM_CONGESTION_INITIAL : Z := 10.

Definition SHM_QUEUE_REFRESH_INTERVAL : Z := 10.

Definition SHM_EMPTY_LOOP_THRESHOLD_SHORT : Z := 3.

Definition SHM_EMPTY_LOOP_THRESHOLD_LONG : Z := 10.

Definition SHM_ADAPTIVE_THRESHOLD : Z := 50.

Definition SHM_TIMEOUT_SHORT_MS : Z := 1.

Definition SHM_TIMEOUT_LONG_MS : Z := 10.

Definition MAX_DATA_PER_QUEUE : nat := 16.

Definition NODE_TIMEOUT_MS : Z := 5000.

Inductive NotifyMechanism := CONDITION_VARIABLE | SEMAPHORE | SMART_POLLING.

#[export] Instance NotifyMechanism_eq_dec : EqDecision NotifyMechanism.
Proof. solve_decision. Defined.

Record Config := mkConfig {
  queue_capacity : Z;
  max_inbound_queues : Z;
  enable_stats : bool;
  auto_cleanup : bool;
  notify_mechanism : NotifyMechanism
}.

(** A message is a control message unless its type byte is DATA. *)
Definition isControlMessage (data : list Z) : bool :=
  if zlen data <? 4 + 2 + 1 then false else negb (nth 6 data 0 =? 0).

(** ** Shared data *)

Record NodeHeader := mkHeader {
  nh_magic : Z;
  nh_version : Z;
  num_queues : Z;
  max_queues : Z;
  nh_last_heartbeat : Z;
  ready : bool;
  owner_pid : Z;
  accessor_pids : list Z;
  num_accessors : Z
}.

(** What a call does to the synchronisation objects of a shared-memory object:
    [CondSignal k] is [pthread_cond_signal] at the address of [global_cond] displaced
    by [k] inbound queues. *)
Inductive wakeup :=
| SemPost (control : bool) (queue : nat)
| CondSignal (displacement : nat).

#[export] Instance wakeup_eq_dec : EqDecision wakeup.
Proof. solve_decision. Defined.

Section Transport.
Context {CQ DQ : Type} `{!ByteQueue CQ} `{!ByteQueue DQ}.

Record InboundQueue := mkQueue {
  sender_id_atomic : list Z;
  q_flags : Z;
  control_pending : Z;
  control_sem : Z;
  control_queue : CQ;
  data_pending : Z;
  data_sem : Z;
  data_queue : DQ;
  congestion_level : Z;
  drop_count : Z
}.

Record NodeSharedMemory := mkShm {
  nheader : NodeHeader;
  queues : list InboundQueue
}.

(** A queue of a fresh object: its memory is zero and the rings are empty. *)
Definition fresh_queue : InboundQueue :=
  mkQueue Reg.zero_words 0 0 0 bq_init 0 0 bq_init 0 0.

Definition fresh_shm (max_inbound now pid : Z) : NodeSharedMemory :=
  mkShm (mkHeader MAGIC VERSION 0 (u32 max_inbound) now false pid (replicate MAX_ACCESSORS 0) 0)
    (replicate MAX_INBOUND_QUEUES fresh_queue).

Definition queue_sender (q : InboundQueue) : string := Reg.readAtomicString (sender_id_atomic q) 64.

Definition q_valid (q : InboundQueue) : bool := negb (Z.land (q_flags q) 0x1 =? 0).

Definition q_active (q : InboundQueue) : bool := Z.land (q_flags q) 0x3 =? 0x3.

(** ** Sending into a queue *)

(** The pause before a data message on the fast path, in microseconds. *)
Definition backoff_us (congestion : Z) : Z :=
  if (0 <? congestion) && (congestion <=? SHM_CONGESTION_MAX) then
    let backoff := congestion * SHM_BACKOFF_BASE_US in
    if (0 <? backoff) && (backoff <=? SHM_BACKOFF_MAX_US) then backoff else 0
  else 0.

(** The notification of queue number [k] when its pending count was [prev]. *)
Definition notify (m : NotifyMechanism) (control : bool) (k : nat) (prev : Z) : list wakeup :=
  if prev =? 0 then
    match m with SEMAPHORE => [SemPost control k] | _ => [CondSignal k] end
  else [].

Definition posts (ws : list wakeup) : Z :=
  zlen (filter (fun w => match w with SemPost _ _ => true | _ => false end = true) ws).

Definition send_control (m : NotifyMechanism) (k : nat) (data : list Z) (q : InboundQueue)
    : outcome (bool * InboundQueue * list wakeup) :=
  do! '(success, cq) := bq_tryWrite data (control_queue q) in
  if success then
    let ws := notify m true k (control_pending q) in
    Ret (true,
         mkQueue (sender_id_atomic q) (q_flags q) (u32 (control_pending q + 1)) (control_sem q + posts ws) cq
           (data_pending q) (data_sem q) (data_queue q) (congestion_level q) (drop_count q),
         ws)
  else
    Ret (false,
         mkQueue (sender_id_atomic q) (q_flags q) (control_pending q) (control_sem q) cq
           (data_pending q) (data_sem q) (data_queue q) (congestion_level q) (drop_count q),
         []).

(** [fast] tells the path of an established connection from the first send after
    connecting: they treat the congestion level differently. *)
Definition congestion_after (fast success : bool) (c : Z) : Z :=
  match fast, success with
  | true, true => if 0 <? c then u32 (c - SHM_CONGESTION_DECREMENT) else c
  | true, false => if c <? SHM_CONGESTION_MAX then u32 (c + SHM_CONGESTION_INCREMENT) else c
  | false, true => c
  | false, false => SHM_CONGESTION_INITIAL
  end.

Definition send_data (fast : bool) (m : NotifyMechanism) (k : nat) (data : list Z) (q : InboundQueue)
    : outcome (bool * InboundQueue * list wakeup) :=
  do! '(success, dq) := bq_tryWrite data (data_queue q) in
  let c := congestion_after fast success (congestion_level q) in
  if success then
    let ws := notify m false k (data_pending q) in
    Ret (true,
         mkQueue (sender_id_atomic q) (q_flags q) (control_pending q) (control_sem q) (control_queue q)
           (u32 (data_pending q + 1)) (data_sem q + posts ws) dq c (drop_count q),
         ws)
  else
    Ret (false,
         mkQueue (sender_id_atomic q) (q_flags q) (control_pending q) (control_sem q) (control_queue q)
           (data_pending q) (data_sem q) dq c (u64 (drop_count q + 1)),
         []).

(** The branch of [send] for a connected queue. *)
Definition queue_send (fast : bool) (m : NotifyMechanism) (k : nat) (data : list Z) (q : InboundQueue)
    : outcome (bool * InboundQueue * list wakeup) :=
  if isControlMessage data then send_control m k data q else send_data fast m k data q.

(** ** The queue of a sender in a node's memory *)

Definition upd_num_queues (h : NodeHeader) (d : Z) : NodeHeader :=
  mkHeader (nh_magic h) (nh_version h) (u32 (num_queues h + d)) (max_queues h) (nh_last_heartbeat h) (ready h)
    (owner_pid h) (accessor_pids h) (num_accessors h).

(** A slot claimed for [sender]; outside semaphore mode the congestion fields are
    reset too. *)
Definition claimed_queue (m : NotifyMechanism) (sender : string) (q : InboundQueue) : InboundQueue :=
  match m with
  | SEMAPHORE =>
      mkQueue (Reg.writeAtomicString sender 64) 0x3 0 0 (control_queue q) 0 0 (data_queue q)
        (congestion_level q) (drop_count q)
  | _ =>
      mkQueue (Reg.writeAtomicString sender 64) 0x3 0 (control_sem q) (control_queue q) 0 (data_sem q) (data_queue q) 0 0
  end.

(** The slot after a failed [sem_init]. *)
Definition failed_queue (sender : string) (q : InboundQueue) : InboundQueue :=
  mkQueue (Reg.writeAtomicString sender 64) 0 (control_pending q) (control_sem q) (control_queue q)
    (data_pending q) (data_sem q) (data_queue q) (congestion_level q) (drop_count q).

Definition findOrCreateQueue (m : NotifyMechanism) (sem_ok : bool) (sender : string) (s : NodeSharedMemory)
    : option nat * NodeSharedMemory * list wakeup :=
  let n := num_queues (nheader s) in
  match list_find (fun q => q_valid q = true /\ queue_sender q = sender) (take (Z.to_nat n) (queues s)) with
  | Some (i, _) => (Some i, s, [])
  | None =>
      if max_queues (nheader s) <=? n then (None, s, [])
      else
        match list_find (fun q => q_flags q = 0) (queues s) with
        | None => (None, s, [])
        | Some (i, q) =>
            match m with
            | SEMAPHORE =>
                if sem_ok
                then (Some i, mkShm (upd_num_queues (nheader s) 1) (<[i := claimed_queue m sender q]> (queues s)), [])
                else (None, mkShm (nheader s) (<[i := failed_queue sender q]> (queues s)), [])
            | _ => (Some i, mkShm (upd_num_queues (nheader s) 1) (<[i := claimed_queue m sender q]> (queues s)),
                    [CondSignal 0])
            end
        end
  end.

(** ** Accessors *)

Definition set_accessors (h : NodeHeader) (pids : list Z) (n : Z) : NodeHeader :=
  mkHeader (nh_magic h) (nh_version h) (num_queues h) (max_queues h) (nh_last_heartbeat h) (ready h)
    (owner_pid h) pids n.

(** The loop of [addAccessorToNode]: the first slot that is free is claimed, unless
    the pid is met before. *)
Definition addAccessorToNode (pid : Z) (h : NodeHeader) : NodeHeader :=
  if pid <=? 0 then h
  else
    match list_find (fun p => p = 0 \/ p = pid) (accessor_pids h) with
    | Some (i, p) =>
        if p =? 0 then set_accessors h (<[i := pid]> (accessor_pids h)) (u32 (num_accessors h + 1)) else h
    | None => h
    end.

(** The registration of the caller inside [connectToNode]: the first free slot. *)
Definition claim_accessor (pid : Z) (h : NodeHeader) : bool * NodeHeader :=
  match list_find (fun p => p = 0) (accessor_pids h) with
  | Some (i, _) => (true, set_accessors h (<[i := pid]> (accessor_pids h)) (u32 (num_accessors h + 1)))
  | None => (false, h)
  end.

Definition remove_pid (pid : Z) (h : NodeHeader) : NodeHeader :=
  match list_find (fun p => p = pid) (accessor_pids h) with
  | Some (i, _) => set_accessors h (<[i := 0]> (accessor_pids h)) (u32 (num_accessors h - 1))
  | None => h
  end.

Definition removeAccessorFromNode (pid : Z) (h : NodeHeader) : NodeHeader :=
  if pid <=? 0 then h else remove_pid pid h.

(** [hasActiveAccessors] erases the dead accessors it meets. *)
Definition hasActiveAccessors (e : os) (h : NodeHeader) : bool * NodeHeader :=
  if num_accessors h =? 0 then (false, h)
  else
    let dead p := (0 <? p) && negb (kill_ok e p) in
    (existsb (fun p => (0 <? p) && kill_ok e p) (accessor_pids h),
     set_accessors h (map (fun p => if dead p then 0 else p) (accessor_pids h))
       (u32 (num_accessors h - zlen (filter (fun p => dead p = true) (accessor_pids h))))).

(** ** The transport object and the world it acts on *)

(** [rc_shm] is the mapped object, [rc_queue] the index behind [my_queue]. *)
Record RemoteConnection := mkConn {
  rc_node_id : string;
  rc_shm_name : string;
  rc_shm : nat;
  rc_queue : option nat;
  rc_connected : bool
}.

Record transport := mkTransport {
  node_id_ : string;
  my_shm_name_ : string;
  config_ : Config;
  initialized_ : bool;
  my_shm_ : option nat;
  remote_connections_ : smap RemoteConnection;
  receiving_ : bool;
  receive_callback_ : bool;
  stats_messages_sent_ : Z;
  stats_messages_received_ : Z;
  stats_messages_dropped_ : Z;
  stats_bytes_sent_ : Z;
  stats_bytes_received_ : Z
}.

(** The named objects, all mapped objects, and the registry. *)
Record world := mkWorld {
  w_names : gmap string nat;
  w_heap : gmap nat NodeSharedMemory;
  w_reg : Reg.RegistryRegion
}.

Definition set_heap (w : world) (i : nat) (s : NodeSharedMemory) : world :=
  mkWorld (w_names w) (<[i := s]> (w_heap w)) (w_reg w).

Definition set_registry (w : world) (r : Reg.RegistryRegion) : world :=
  mkWorld (w_names w) (w_heap w) r.

(** The results of the calls one operation makes. *)
Record env := mkEnv {
  ev_os : os;
  ev_calls : list Reg.call;    (* the attempts of [connectToNode] at the registry *)
  ev_call : Reg.call;          (* any other registry call *)
  ev_open_ok : bool;
  ev_mmap_ok : bool;
  ev_sem_ok : bool
}.

Definition set_connections (t : transport) (c : smap RemoteConnection) : transport :=
  mkTransport (node_id_ t) (my_shm_name_ t) (config_ t) (initialized_ t) (my_shm_ t) c (receiving_ t)
    (receive_callback_ t) (stats_messages_sent_ t) (stats_messages_received_ t) (stats_messages_dropped_ t)
    (stats_bytes_sent_ t) (stats_bytes_received_ t).

Definition count_sent (t : transport) (success : bool) (size : Z) : transport :=
  mkTransport (node_id_ t) (my_shm_name_ t) (config_ t) (initialized_ t) (my_shm_ t) (remote_connections_ t)
    (receiving_ t) (receive_callback_ t)
    (if success then u64 (stats_messages_sent_ t + 1) else stats_messages_sent_ t)
    (stats_messages_received_ t)
    (if success then stats_messages_dropped_ t else u64 (stats_messages_dropped_ t + 1))
    (if success then u64 (stats_bytes_sent_ t + size) else stats_bytes_sent_ t)
    (stats_bytes_received_ t).

Definition t_notify (t : transport) : NotifyMechanism := notify_mechanism (config_ t).

(** The lookup of the target with its retries. *)
Fixpoint find_target (calls : list Reg.call) (target : string) (r : Reg.RegistryRegion) : option Reg.NodeInfo :=
  match calls with
  | [] => None
  | c :: rest =>
      match Reg.findNode c target r with
      | Some i => Some i
      | None => find_target rest target r
      end
  end.

(** [connectToNode] after the target was found under [name]. *)
Definition connect_shm (e : env) (t : transport) (target name : string) (w : world)
    : bool * transport * world * list wakeup :=
  match w_names w !! name with
  | None => (false, t, w, [])
  | Some o =>
      match w_heap w !! o with
      | None => (false, t, w, [])
      | Some s =>
          if negb (ev_open_ok e) || negb (ev_mmap_ok e) then (false, t, w, [])
          else if negb (nh_magic (nheader s) =? MAGIC) then (false, t, w, [])
          else if negb (ready (nheader s)) then (false, t, w, [])
          else if (0 <? owner_pid (nheader s)) && negb (kill_ok (ev_os e) (owner_pid (nheader s)))
          then (false, t, w, [])
          else
            let my_pid := getpid (ev_os e) in
            let '(added, h1) := claim_accessor my_pid (nheader s) in
            let s1 := mkShm h1 (queues s) in
            let '(q, s2, ws) := findOrCreateQueue (t_notify t) (ev_sem_ok e) (node_id_ t) s1 in
            match q with
            | None =>
                let h2 := if added then remove_pid my_pid (nheader s2) else nheader s2 in
                (false, t, set_heap w o (mkShm h2 (queues s2)), ws)
            | Some i =>
                (true,
                 set_connections t (sm_insert target (mkConn target name o (Some i) true) (remote_connections_ t)),
                 set_heap w o s2, ws)
            end
      end
  end.

Definition connectToNode (e : env) (target : string) (t : transport) (w : world)
    : bool * transport * world * list wakeup :=
  let connected := match sm_find target (remote_connections_ t) with Some c => rc_connected c | None => false end in
  if connected then (true, t, w, [])
  else
    match find_target (take 5 (ev_calls e)) target (w_reg w) with
    | None => (false, t, w, [])
    | Some info => connect_shm e t target (Reg.ni_shm_name info) w
    end.

Definition disconnectFromNode (e : env) (target : string) (t : transport) (w : world) : transport * world :=
  match sm_find target (remote_connections_ t) with
  | None => (t, w)
  | Some c =>
      let w' := match w_heap w !! rc_shm c with
                | Some s => set_heap w (rc_shm c) (mkShm (removeAccessorFromNode (getpid (ev_os e)) (nheader s)) (queues s))
                | None => w
                end in
      (set_connections t (sm_erase target (remote_connections_ t)), w')
  end.

(** The queue behind a connected entry of [remote_connections_]. *)
Definition connected_queue (t : transport) (dest : string) : option (nat * nat) :=
  match sm_find dest (remote_connections_ t) with
  | Some c => if rc_connected c then (fun k => (rc_shm c, k)) <$> rc_queue c else None
  | None => None
  end.

Definition send_on (fast : bool) (t : transport) (o k : nat) (data : list Z) (w : world)
    : outcome (bool * transport * world * list wakeup) :=
  match w_heap w !! o with
  | None => UB
  | Some s =>
      match queues s !! k with
      | None => UB
      | Some q =>
          do! '(success, q', ws) := queue_send fast (t_notify t) k data q in
          Ret (success, count_sent t success (zlen data),
               set_heap w o (mkShm (nheader s) (<[k := q']> (queues s))), ws)
      end
  end.

Definition send (e : env) (dest : string) (data : list Z) (t : transport) (w : world)
    : outcome (bool * transport * world * list wakeup) :=
  if negb (initialized_ t) then Ret (false, t, w, [])
  else if String.eqb dest (node_id_ t) then Ret (false, t, w, [])
  else
    match connected_queue t dest with
    | Some (o, k) => send_on true t o k data w
    | None =>
        let '(ok, t1, w1, ws) := connectToNode e dest t w in
        if negb ok then Ret (false, count_sent t1 false 0, w1, ws)
        else
          match connected_queue t1 dest with
          | Some (o, k) =>
              do! '(success, t2, w2, ws2) := send_on false t1 o k data w1 in
              Ret (success, t2, w2, ws ++ ws2)
          | None => Ret (false, count_sent t1 false 0, w1, ws)
          end
    end.

(** The loop of [broadcast] over the nodes listed by the registry. *)
Fixpoint broadcast_to (e : env) (nodes : list Reg.NodeInfo) (data : list Z) (t : transport) (w : world)
    : outcome (Z * transport * world) :=
  match nodes with
  | [] => Ret (0, t, w)
  | n :: rest =>
      if String.eqb (Reg.ni_node_id n) (node_id_ t) then broadcast_to e rest data t w
      else if Reg.ni_active n then
        do! '(ok, t1, w1, _) := send e (Reg.ni_node_id n) data t w in
        do! '(count, t2, w2) := broadcast_to e rest data t1 w1 in
        Ret ((if ok then 1 else 0) + count, t2, w2)
      else broadcast_to e rest data t w
  end.

Definition broadcast (e : env) (data : list Z) (t : transport) (w : world) : outcome (Z * transport * world) :=
  if negb (initialized_ t) then Ret (0, t, w)
  else broadcast_to e (Reg.getAllNodes (ev_call e) (w_reg w)) data t w.

Definition getLocalNodes (c : Reg.call) (t : transport) (w : world) : list string :=
  if negb (initialized_ t) then []
  else Reg.ni_node_id <$> filter (fun n => Reg.ni_active n = true) (Reg.getAllNodes c (w_reg w)).

Definition isLocalNode (c : Reg.call) (node : string) (t : transport) (w : world) : bool :=
  if negb (initialized_ t) then false else Reg.nodeExists c node (w_reg w).

Definition getConnectionCount (t : transport) : Z :=
  zlen (filter (fun p => rc_connected p.2 = true) (remote_connections_ t)).

Fixpoint warmup_all (e : env) (nodes : list Reg.NodeInfo) (t : transport) (w : world) : transport * world :=
  match nodes with
  | [] => (t, w)
  | n :: rest =>
      if negb (String.eqb (Reg.ni_node_id n) (node_id_ t)) && Reg.ni_active n then
        let '(_, t1, w1, _) := connectToNode e (Reg.ni_node_id n) t w in warmup_all e rest t1 w1
      else warmup_all e rest t w
  end.

Definition warmupConnections (e : env) (t : transport) (w : world) : transport * world :=
  if negb (initialized_ t) then (t, w)
  else warmup_all e (Reg.getAllNodes (ev_call e) (w_reg w)) t w.

(** ** Receiving *)

(** [tryRead] until it fails, at most [fuel] times. *)
Fixpoint drain {Q : Type} `{!ByteQueue Q} (fuel : nat) (q : Q) : outcome (list (list Z) * Q) :=
  match fuel with
  | O => Ret ([], q)
  | S fuel' =>
      do! '(m, q1) := bq_tryRead q in
      match m with
      | None => Ret ([], q1)
      | Some d => do! '(ds, q2) := drain fuel' q1 in Ret (d :: ds, q2)
      end
  end.

(** One queue in the first pass. The condition-variable loop skips a queue with
    nothing pending, the semaphore loop always looks. *)
Definition drain_control (m : NotifyMechanism) (fuel : nat) (q : InboundQueue)
    : outcome (list (string * list Z) * InboundQueue) :=
  if (match m with SEMAPHORE => false | _ => control_pending q =? 0 end) || negb (q_active q) then Ret ([], q)
  else
    do! '(ms, cq) := drain fuel (control_queue q) in
    Ret ((fun d => (queue_sender q, d)) <$> ms,
         mkQueue (sender_id_atomic q) (q_flags q)
           (if zlen ms =? 0 then control_pending q else u32 (control_pending q - zlen ms)) (control_sem q) cq
           (data_pending q) (data_sem q) (data_queue q) (congestion_level q) (drop_count q)).

(** One queue in the second pass: at most [MAX_DATA_PER_QUEUE] data messages. *)
Definition drain_data (m : NotifyMechanism) (q : InboundQueue) : outcome (list (string * list Z) * InboundQueue) :=
  if (match m with SEMAPHORE => false | _ => data_pending q =? 0 end) || negb (q_active q) then Ret ([], q)
  else
    do! '(ms, dq) := drain MAX_DATA_PER_QUEUE (data_queue q) in
    Ret ((fun d => (queue_sender q, d)) <$> ms,
         mkQueue (sender_id_atomic q) (q_flags q) (control_pending q) (control_sem q) (control_queue q)
           (if zlen ms =? 0 then data_pending q else u32 (data_pending q - zlen ms)) (data_sem q) dq
           (congestion_level q) (drop_count q)).

(** A pass over the cached queues. *)
Fixpoint pass (f : InboundQueue -> outcome (list (string * list Z) * InboundQueue)) (active : list nat)
    (qs : list InboundQueue) : outcome (list (string * list Z) * list InboundQueue) :=
  match active with
  | [] => Ret ([], qs)
  | i :: rest =>
      match qs !! i with
      | None => pass f rest qs
      | Some q =>
          do! '(d1, q') := f q in
          do! '(d2, qs') := pass f rest (<[i := q']> qs) in
          Ret (d1 ++ d2, qs')
      end
  end.

(** The local variables of a receive loop. *)
Record rloop := mkLoop {
  active_queues : list nat;
  cached_num_queues : Z;
  queue_refresh_counter : Z;
  consecutive_empty_loops : Z
}.

Definition rloop_init : rloop := mkLoop [] 0 0 0.

Definition find_active (qs : list InboundQueue) : list nat :=
  fst <$> filter (fun p => q_active p.2 = true) (imap pair qs).

(** The refresh of the queue cache at the top of an iteration. *)
Definition refresh (m : NotifyMechanism) (s : NodeSharedMemory) (l : rloop) : rloop :=
  let counter := queue_refresh_counter l + 1 in
  let current := num_queues (nheader s) in
  let changed := negb (current =? cached_num_queues l) in
  let empty := match active_queues l with [] => true | _ => false end in
  if changed || (SHM_QUEUE_REFRESH_INTERVAL <=? counter) || empty then
    if (match m with SEMAPHORE => true | _ => changed || empty end)
    then mkLoop (find_active (queues s)) current 0 (consecutive_empty_loops l)
    else mkLoop (active_queues l) (cached_num_queues l) 0 (consecutive_empty_loops l)
  else mkLoop (active_queues l) (cached_num_queues l) counter (consecutive_empty_loops l).

(** How long an iteration without messages waits, in milliseconds. *)
Definition wait_ms (m : NotifyMechanism) (empty_loops : Z) : Z :=
  match m with
  | SEMAPHORE => if SHM_ADAPTIVE_THRESHOLD <? empty_loops then SHM_TIMEOUT_LONG_MS else SHM_TIMEOUT_SHORT_MS
  | _ =>
      if SHM_EMPTY_LOOP_THRESHOLD_LONG <? empty_loops then 100
      else if SHM_EMPTY_LOOP_THRESHOLD_SHORT <? empty_loops then 50
      else 10
  end.

(** The semaphore an idle semaphore loop takes a count from, if one is available. *)
Definition take_semaphore (active : list nat) (qs : list InboundQueue) : list InboundQueue :=
  match list_find (fun i => 0 < from_option control_sem 0 (qs !! i)) active with
  | Some (_, i) =>
      alter (fun q => mkQueue (sender_id_atomic q) (q_flags q) (control_pending q) (control_sem q - 1) (control_queue q)
                        (data_pending q) (data_sem q) (data_queue q) (congestion_level q) (drop_count q)) i qs
  | None =>
      match list_find (fun i => 0 < from_option data_sem 0 (qs !! i)) active with
      | Some (_, i) =>
          alter (fun q => mkQueue (sender_id_atomic q) (q_flags q) (control_pending q) (control_sem q) (control_queue q)
                            (data_pending q) (data_sem q - 1) (data_queue q) (congestion_level q) (drop_count q)) i qs
      | None => qs
      end
  end.

Definition count_received (t : transport) (n bytes : Z) : transport :=
  mkTransport (node_id_ t) (my_shm_name_ t) (config_ t) (initialized_ t) (my_shm_ t) (remote_connections_ t)
    (receiving_ t) (receive_callback_ t) (stats_messages_sent_ t) (u64 (stats_messages_received_ t + n))
    (stats_messages_dropped_ t) (stats_bytes_sent_ t) (u64 (stats_bytes_received_ t + bytes)).

Definition total_bytes (ds : list (string * list Z)) : Z := fold_left (fun n d => n + zlen d.2) ds 0.

(** One iteration of the receive loop on the node's own object: the calls of the
    receive callback, the new state, and the milliseconds to wait ([None] when
    messages were found). Only the semaphore loop counts received bytes. *)
Definition receive_iteration (fuel : nat) (t : transport) (l : rloop) (s : NodeSharedMemory)
    : outcome (list (string * list Z) * transport * rloop * NodeSharedMemory * option Z) :=
  let m := t_notify t in
  let l := refresh m s l in
  match active_queues l with
  | [] => Ret ([], t, l, s, Some (match m with SEMAPHORE => 10 | _ => 100 end))
  | active =>
      do! '(d1, qs1) := pass (drain_control m fuel) active (queues s) in
      do! '(d2, qs2) := pass (drain_data m) active qs1 in
      let ds := d1 ++ d2 in
      let t := count_received t (zlen ds) (match m with SEMAPHORE => total_bytes ds | _ => 0 end) in
      let delivered := if receive_callback_ t then ds else [] in
      if zlen ds =? 0 then
        let empty_loops := consecutive_empty_loops l + 1 in
        let qs3 := match m with SEMAPHORE => take_semaphore active qs2 | _ => qs2 end in
        Ret (delivered, t, mkLoop active (cached_num_queues l) (queue_refresh_counter l) empty_loops,
             mkShm (nheader s) qs3, Some (wait_ms m empty_loops))
      else
        Ret (delivered, t, mkLoop active (cached_num_queues l) (queue_refresh_counter l) 0,
             mkShm (nheader s) qs2, None)
  end.

(** ** Heartbeats *)

Definition set_heartbeat (h : NodeHeader) (now : Z) : NodeHeader :=
  mkHeader (nh_magic h) (nh_version h) (num_queues h) (max_queues h) now (ready h) (owner_pid h)
    (accessor_pids h) (num_accessors h).

Definition not_connected (t : transport) (n : Reg.NodeInfo) : bool :=
  negb (String.eqb (Reg.ni_node_id n) (node_id_ t))
  && negb (match sm_find (Reg.ni_node_id n) (remote_connections_ t) with Some c => rc_connected c | None => false end).

Fixpoint connect_all (e : env) (ids : list string) (t : transport) (w : world) : transport * world :=
  match ids with
  | [] => (t, w)
  | id :: rest => let '(_, t1, w1, _) := connectToNode e id t w in connect_all e rest t1 w1
  end.

(** The nodes of [before] that are missing in [after], without the node itself. *)
Definition left_nodes (self : string) (before after : list Reg.NodeInfo) : list string :=
  filter (fun id => id <> self /\ id ∉ Reg.ni_node_id <$> after) (Reg.ni_node_id <$> before).

(** One iteration of [heartbeatLoop]: the nodes reported to [handleNodeEvent] as
    having left; [now] is the system clock in milliseconds. *)
Definition heartbeat_iteration (e : env) (now : Z) (has_node_impl : bool) (t : transport) (w : world)
    : list string * transport * world :=
  let c := ev_call e in
  let w := set_registry w (Reg.updateHeartbeat c (node_id_ t) (w_reg w)).2 in
  let w := match my_shm_ t with
           | Some o => match w_heap w !! o with
                       | Some s => set_heap w o (mkShm (set_heartbeat (nheader s) now) (queues s))
                       | None => w
                       end
           | None => w
           end in
  let new_nodes := Reg.ni_node_id <$> filter (fun n => not_connected t n = true) (Reg.getAllNodes c (w_reg w)) in
  let '(t, w) := connect_all e new_nodes t w in
  let nodes_before := if has_node_impl then Reg.getAllNodes c (w_reg w) else [] in
  let '(cleaned, r) := Reg.cleanupStaleNodes c NODE_TIMEOUT_MS (w_reg w) in
  let w := set_registry w r in
  let left := if (0 <? cleaned) && has_node_impl
              then left_nodes (node_id_ t) nodes_before (Reg.getAllNodes c (w_reg w)) else [] in
  (left, t, w).

(** ** Life of a transport *)

(** [createMySharedMemory]: an object left under the name is unlinked first; the new
    object gets the fresh identity [o]. *)
Definition createMySharedMemory (e : env) (now : Z) (o : nat) (ftruncate_ok : bool) (name : string) (cfg : Config) (w : world)
    : bool * world :=
  let names := delete name (w_names w) in
  if negb (ev_open_ok e) || negb ftruncate_ok || negb (ev_mmap_ok e) then (false, mkWorld names (w_heap w) (w_reg w))
  else (true, mkWorld (<[name := o]> names)
                (<[o := fresh_shm (max_inbound_queues cfg) now (getpid (ev_os e))]> (w_heap w)) (w_reg w)).

Definition destroyMySharedMemory (name : string) (w : world) : world :=
  if str_empty name then w else mkWorld (delete name (w_names w)) (w_heap w) (w_reg w).

Definition set_ready (h : NodeHeader) : NodeHeader :=
  mkHeader (nh_magic h) (nh_version h) (num_queues h) (max_queues h) (nh_last_heartbeat h) true (owner_pid h)
    (accessor_pids h) (num_accessors h).

(** [initialize]: [reg_ok] is the result of [registry_.initialize()]. *)
Definition initialize (e : env) (now : Z) (o : nat) (reg_ok ftruncate_ok : bool) (shm_name node_id : string)
    (cfg : Config) (t : transport) (w : world) : bool * transport * world :=
  if initialized_ t then (true, t, w)
  else if str_empty node_id then (false, t, w)
  else if Z.of_nat MAX_INBOUND_QUEUES <? max_inbound_queues cfg then (false, t, w)
  else
    let mk name init shm :=
      mkTransport node_id name cfg init shm (remote_connections_ t) (receiving_ t) (receive_callback_ t)
        (stats_messages_sent_ t) (stats_messages_received_ t) (stats_messages_dropped_ t)
        (stats_bytes_sent_ t) (stats_bytes_received_ t) in
    if negb reg_ok then (false, mk (my_shm_name_ t) false (my_shm_ t), w)
    else
      let '(created, w1) := createMySharedMemory e now o ftruncate_ok shm_name cfg w in
      if negb created then (false, mk shm_name false (my_shm_ t), w1)
      else
        let '(registered, r) := Reg.registerNode (ev_call e) node_id shm_name (w_reg w1) in
        let w2 := set_registry w1 r in
        if negb registered then (false, mk shm_name false None, destroyMySharedMemory shm_name w2)
        else
          match w_heap w2 !! o with
          | Some s => (true, mk shm_name true (Some o), set_heap w2 o (mkShm (set_ready (nheader s)) (queues s)))
          | None => (true, mk shm_name true (Some o), w2)
          end.

(** The accessor entries the destructor removes from the connected nodes. *)
Fixpoint release_all (pid : Z) (conns : smap RemoteConnection) (w : world) : world :=
  match conns with
  | [] => w
  | (_, c) :: rest =>
      let w' := match w_heap w !! rc_shm c with
                | Some s => set_heap w (rc_shm c) (mkShm (remove_pid pid (nheader s)) (queues s))
                | None => w
                end in
      release_all pid rest w'
  end.

(** [~SharedMemoryTransportV3]: the node is removed from the registry, and its
    object is unlinked unless a live process still accesses it. *)
Definition destroy (e : env) (unlink_ok : bool) (t : transport) (w : world) : world :=
  let w := release_all (getpid (ev_os e)) (remote_connections_ t) w in
  let upd f w := match my_shm_ t with
                 | Some o => match w_heap w !! o with
                             | Some s => set_heap w o (mkShm (f (nheader s)) (queues s))
                             | None => w
                             end
                 | None => w
                 end in
  let w := upd (removeAccessorFromNode (getpid (ev_os e))) w in
  let w := if initialized_ t then set_registry w (Reg.unregisterNode (ev_call e) (node_id_ t) (w_reg w)).2 else w in
  match my_shm_ t with
  | Some o =>
      match w_heap w !! o with
      | Some s =>
          if str_empty (my_shm_name_ t) then w
          else
            let '(has_active, h) := hasActiveAccessors (ev_os e) (nheader s) in
            let w := set_heap w o (mkShm h (queues s)) in
            if negb has_active && unlink_ok then mkWorld (delete (my_shm_name_ t) (w_names w)) (w_heap w) (w_reg w) else w
      | None => w
      end
  | None => w
  end.

(** ** Orphaned node memory *)

(** [isProcessAlive] of [cleanupOrphanedMemory]: EPERM counts as alive. *)
Definition isProcessAlive (e : os) (p : Z) : bool := if p <=? 0 then false else kill_exists e p.

(** An entry of the shared-memory directory. *)
Record node_entry := mkNodeEntry {
  ne_name : string;
  ne_open_ok : bool;
  ne_stat_ok : bool;
  ne_mmap_ok : bool;
  ne_header : NodeHeader;
  ne_unlink_ok : bool
}.

(** The test of one object. The header is mapped read-only: erasing a dead accessor
    in [hasActiveAccessors] is a store into that mapping. *)
Definition node_orphaned (e : os) (h : NodeHeader) : outcome bool :=
  if nh_magic h =? MAGIC then
    let owner_dead := (0 <? owner_pid h) && negb (isProcessAlive e (owner_pid h)) in
    if negb (num_accessors h =? 0) && existsb (fun p => (0 <? p) && negb (kill_ok e p)) (accessor_pids h) then UB
    else Ret (owner_dead && negb (hasActiveAccessors e h).1)
  else Ret true.

(** The scan: the number of objects removed and the entries left. *)
Fixpoint clean_nodes (e : os) (es : list node_entry) : outcome (Z * list node_entry) :=
  match es with
  | [] => Ret (0, [])
  | d :: rest =>
      do! orphaned := (if String.prefix "librpc_node_" (ne_name d) && ne_open_ok d && ne_stat_ok d && ne_mmap_ok d
                       then node_orphaned e (ne_header d) else Ret false) in
      do! '(n, rest') := clean_nodes e rest in
      if orphaned && ne_unlink_ok d then Ret (1 + n, rest') else Ret (n, d :: rest')
  end.

(** [cleanupOrphanedMemory]: [None] is a directory that cannot be opened. *)
Definition cleanupOrphanedMemory (e : os) (rs : Reg.shm_calls) (lk : LockResult) (dir : option (list node_entry))
    (reg : Reg.shm_obj) : outcome (bool * option (list node_entry) * Reg.shm_obj) :=
  match dir with
  | None => Ret (false, None, reg)
  | Some es =>
      do! '(_, es') := clean_nodes e es in
      Ret (true, Some es', (Reg.cleanupOrphanedRegistry e rs lk reg).2)
  end.

(** ** Remaining operations *)

Definition set_receiving (t : transport) (r cb : bool) : transport :=
  mkTransport (node_id_ t) (my_shm_name_ t) (config_ t) (initialized_ t) (my_shm_ t) (remote_connections_ t) r cb
    (stats_messages_sent_ t) (stats_messages_received_ t) (stats_messages_dropped_ t)
    (stats_bytes_sent_ t) (stats_bytes_received_ t).

Definition setReceiveCallback (t : transport) : transport := set_receiving t (receiving_ t) true.

(** [startReceiving] and [stopReceiving] without their threads. *)
Definition startReceiving (c : Reg.call) (t : transport) (w : world) : transport * world :=
  if receiving_ t then (t, w)
  else (set_receiving t true (receive_callback_ t),
        set_registry w (Reg.updateHeartbeat c (node_id_ t) (w_reg w)).2).

Definition stopReceiving (t : transport) : transport :=
  if receiving_ t then set_receiving t false false else t.

(** [getActiveNodeCount]: -1 when the registry cannot be opened. *)
Definition getActiveNodeCount (reg_ok : bool) (c : Reg.call) (w : world) : Z :=
  if reg_ok then Reg.getActiveNodeCount c (w_reg w) else -1.

Definition hex_digit (d : Z) : string :=
  nth (Z.to_nat d) ["0"; "1"; "2"; "3"; "4"; "5"; "6"; "7"; "8"; "9"; "a"; "b"; "c"; "d"; "e"; "f"]%string ""%string.

Fixpoint hex_padded (n : nat) (z : Z) : string :=
  match n with
  | O => ""
  | S n' => hex_padded n' (z / 16) +:+ hex_digit (z mod 16)
  end.

(** [generateShmName]; [hash] is [std::hash<std::string>]. *)
Definition generateShmName (hash : string -> Z) (e : os) (node_id : string) : string :=
  "/librpc_node_" +:+ pretty (getpid e) +:+ "_" +:+ hex_padded 8 (Z.land (hash node_id) 0xFFFFFFFF).

(** ** Statistics *)

(** The average queue depth is the quotient of the two last numbers. *)
Record TransportStats := mkStats {
  messages_sent : Z;
  messages_received : Z;
  messages_dropped : Z;
  bytes_sent : Z;
  bytes_received : Z;
  active_connections : Z;
  inbound_queues : Z;
  total_depth : Z;
  active_queue_count : Z
}.

Definition getStats (t : transport) (w : world) : TransportStats :=
  let shm := match my_shm_ t with Some o => w_heap w !! o | None => None end in
  let nq := match shm with Some s => num_queues (nheader s) | None => 0 end in
  let act := match shm with
             | Some s => filter (fun q => q_active q = true) (take (Z.to_nat nq) (queues s))
             | None => []
             end in
  mkStats (stats_messages_sent_ t) (stats_messages_received_ t) (stats_messages_dropped_ t) (stats_bytes_sent_ t)
    (stats_bytes_received_ t) (getConnectionCount t) nq
    (fold_left (fun n q => n + (bq_size (control_queue q) + bq_size (data_queue q))) act 0) (zlen act).

End Transport.

Arguments InboundQueue CQ DQ : clear implicits.
Arguments NodeSharedMemory CQ DQ : clear implicits.
Arguments world CQ DQ : clear implicits.
