(* ===== verification/TransportSpec.v ===== *)
(** * Correctness of the shared-memory transport

    Inbound queues against their abstract contents (two lists of messages and two
    pending counts), sending and receiving over them, one queue per sender, congestion
    control, notification, and the removal of orphaned node memory. *)

From S2P Require Import Prelude Os SharedMemoryRegistry LockFreeQueue ByteQueue StdMap TransportV3.

Section Spec.
Context {CQ DQ : Type} `{!ByteQueue CQ} `{!ByteQueue DQ}.
Implicit Types (q : InboundQueue CQ DQ) (cms dms : list (list Z)).

(** ** One queue *)

(** The rings hold [cms] and [dms], and the pending counts are their lengths. *)
Record q_ok q cms dms : Prop := mkQOk {
  qo_control : bq_holds (control_queue q) cms;
  qo_data : bq_holds (data_queue q) dms;
  qo_cpending : control_pending q = zlen cms;
  qo_dpending : data_pending q = zlen dms;
  qo_ckind : Forall (fun m => isControlMessage m = true) cms;
  qo_dkind : Forall (fun m => isControlMessage m = false) dms
}.

Lemma u32_len {Q : Type} `{!ByteQueue Q} (x : Q) ms : bq_holds x ms -> u32 (zlen ms) = zlen ms.
Proof. intros H. apply wrap_small. pose proof (bq_bounded _ _ H). pose proof (zlen_nonneg ms). lia. Qed.

Definition same_slot q q' : Prop :=
  sender_id_atomic q' = sender_id_atomic q /\ q_flags q' = q_flags q.

(** A send that reaches the queue. *)
Lemma queue_send_ok fast m k data q cms dms :
  q_ok q cms dms ->
  exists b q' ws, queue_send fast m k data q = Ret (b, q', ws)
    /\ same_slot q q'
    /\ q_ok q' (if isControlMessage data && b then cms ++ [data] else cms)
               (if negb (isControlMessage data) && b then dms ++ [data] else dms).
Proof.
  intros [Hc Hd Ecp Edp Hck Hdk]. unfold queue_send. destruct (isControlMessage data) eqn:Ek.
  - unfold send_control. destruct (bq_write_holds _ _ data Hc) as (b & cq & Hw & Hc'). rewrite Hw. cbn [outcome_bind].
    destruct b; (eexists _, _, _; split; [reflexivity|]); (split; [done|]); cbn [andb negb].
    + split; cbn; try done.
      * rewrite Ecp. pose proof (u32_len _ _ Hc') as Hu. rewrite zlen_app in Hu. rewrite zlen_app.
        unfold zlen at 2. simpl. exact Hu.
      * apply Forall_app. by split; [|constructor].
    + by split.
  - unfold send_data. destruct (bq_write_holds _ _ data Hd) as (b & dq & Hw & Hd'). rewrite Hw. cbn [outcome_bind].
    destruct b; (eexists _, _, _; split; [reflexivity|]); (split; [done|]); cbn [andb negb].
    + split; cbn; try done.
      * rewrite Edp. pose proof (u32_len _ _ Hd') as Hu. rewrite zlen_app in Hu. rewrite zlen_app.
        unfold zlen at 2. simpl. exact Hu.
      * apply Forall_app. by split; [|constructor].
    + by split.
Qed.

(** ** Draining *)

Lemma drain_holds {Q : Type} `{!ByteQueue Q} fuel (x : Q) ms out x' :
  bq_holds x ms -> drain fuel x = Ret (out, x') -> out = take fuel ms /\ bq_holds x' (drop fuel ms).
Proof.
  revert x ms out. induction fuel as [|fuel IH]; intros x ms out Hx Hd; simpl in Hd.
  - simplify_eq. by rewrite take_0, drop_0.
  - destruct (bq_tryRead x) as [[r x1]|] eqn:Er; [|done]. cbn [outcome_bind] in Hd.
    destruct (bq_read_holds _ _ _ Hx Er) as [E1 Hx1]. cbn [fst snd] in *. subst r.
    destruct ms as [|m ms]; simpl in *.
    + simplify_eq. done.
    + destruct (drain fuel x1) as [[ds x2]|] eqn:Ed; [|done]. cbn [outcome_bind] in Hd. simplify_eq.
      destruct (IH _ _ _ Hx1 Ed) as [-> ?]. done.
Qed.

Lemma drain_calm {Q : Type} `{CalmQueue Q} fuel (x : Q) ms :
  bq_calm x ms -> exists out x', drain fuel x = Ret (out, x') /\ bq_calm x' (drop fuel ms).
Proof.
  revert x ms. induction fuel as [|fuel IH]; intros x ms Hx; simpl.
  - eexists _, _. split; [reflexivity|]. by rewrite drop_0.
  - destruct (bq_calm_read _ _ Hx) as ([r x1] & Er & Hx1). rewrite Er. cbn [outcome_bind]. cbn [snd] in Hx1.
    destruct (bq_read_holds _ _ _ (bq_calm_holds _ _ Hx) Er) as [E1 _]. cbn [fst] in E1. subst r.
    destruct ms as [|m ms]; simpl in *.
    + eexists _, _. split; [reflexivity|done].
    + destruct (IH _ _ Hx1) as (out & x2 & Ed & Hx2). rewrite Ed. cbn [outcome_bind].
      eexists _, _. split; [reflexivity|done].
Qed.

Lemma zlen_zero {A} (l : list A) : (zlen l =? 0) = true <-> l = [].
Proof. rewrite Z.eqb_eq. unfold zlen. destruct l; simpl; split; intros; (done || lia). Qed.

Lemma pending_after {Q : Type} `{!ByteQueue Q} (x : Q) (ms : list (list Z)) n p :
  bq_holds x ms -> p = zlen ms ->
  (if zlen (take n ms) =? 0 then p else u32 (p - zlen (take n ms))) = zlen (drop n ms).
Proof.
  intros Hx ->. pose proof (u32_len _ _ Hx) as Hu. pose proof (bq_bounded _ _ Hx).
  assert (zlen ms = zlen (take n ms) + zlen (drop n ms)) as E by (rewrite <- zlen_app, take_drop; done).
  pose proof (zlen_nonneg (take n ms)). pose proof (zlen_nonneg (drop n ms)).
  destruct (Z.eqb_spec (zlen (take n ms)) 0); [lia|]. unfold u32. rewrite wrap_small; lia.
Qed.

Definition from q (ms : list (list Z)) : list (string * list Z) := (fun d => (queue_sender q, d)) <$> ms.

(** A pass over one queue takes every control message and leaves the data alone. *)
Lemma drain_control_ok m fuel q cms dms ds q' :
  q_ok q cms dms -> q_active q = true -> (length cms <= fuel)%nat ->
  drain_control m fuel q = Ret (ds, q') -> ds = from q cms /\ q_ok q' [] dms /\ same_slot q q'.
Proof.
  intros [Hc Hd Ecp Edp Hck Hdk] Ha Hf. unfold drain_control. rewrite Ha, orb_false_r.
  destruct (match m with SEMAPHORE => false | _ => control_pending q =? 0 end) eqn:Es.
  - intros [= <- <-]. assert ((control_pending q =? 0) = true) as E by (by destruct m).
    rewrite Ecp, zlen_zero in E. subst cms. done.
  - destruct (drain fuel (control_queue q)) as [[ms cq]|] eqn:Edr; [|done]. cbn [outcome_bind]. intros [= <- <-].
    destruct (drain_holds _ _ _ _ _ Hc Edr) as [-> Hc']. rewrite take_ge, drop_ge in * by done.
    split; [done|]. split; [|done]. split; cbn; try done.
    pose proof (pending_after _ cms fuel _ Hc Ecp) as Hp. rewrite take_ge, drop_ge in Hp by done. exact Hp.
Qed.

(** A pass over one queue takes at most sixteen data messages. *)
Lemma drain_data_ok m q cms dms ds q' :
  q_ok q cms dms -> q_active q = true ->
  drain_data m q = Ret (ds, q') ->
  ds = from q (take MAX_DATA_PER_QUEUE dms) /\ q_ok q' cms (drop MAX_DATA_PER_QUEUE dms) /\ same_slot q q'.
Proof.
  intros [Hc Hd Ecp Edp Hck Hdk] Ha. unfold drain_data. rewrite Ha, orb_false_r.
  destruct (match m with SEMAPHORE => false | _ => data_pending q =? 0 end) eqn:Es.
  - intros [= <- <-]. assert ((data_pending q =? 0) = true) as E by (by destruct m).
    rewrite Edp, zlen_zero in E. subst dms. done.
  - destruct (drain MAX_DATA_PER_QUEUE (data_queue q)) as [[ms dq]|] eqn:Edr; [|done]. cbn [outcome_bind].
    intros [= <- <-]. destruct (drain_holds _ _ _ _ _ Hd Edr) as [-> Hd'].
    split; [done|]. split; [|done]. split; cbn [control_queue data_queue control_pending data_pending]; try done.
    + exact (pending_after _ dms MAX_DATA_PER_QUEUE _ Hd Edp).
    + by apply Forall_drop.
Qed.

Lemma claimed_props m sender q :
  no_nul sender -> str_size sender < 64 ->
  q_flags (claimed_queue m sender q) = 3 /\ queue_sender (claimed_queue m sender q) = sender.
Proof.
  intros Hn Hs. destruct m; (split; [done|]); by apply (atomic_string_roundtrip sender Hn Hs).
Qed.

End Spec.

(** ** Runs over one queue *)

Inductive q_event :=
| ESend (fast : bool) (data : list Z)
| EPass.

Section Runs.
Context {CQ DQ : Type} `{CalmQueue CQ} `{CalmQueue DQ}.
Context (m : NotifyMechanism) (k fuel : nat).
Implicit Types (q : InboundQueue CQ DQ) (cms dms : list (list Z)).

(** One send, or one visit of the receive loop: what was accepted and what delivered. *)
Definition q_do (ev : q_event) q : outcome (list (list Z) * list (string * list Z) * InboundQueue CQ DQ) :=
  match ev with
  | ESend fast data =>
      do! '(b, q', _) := queue_send fast m k data q in Ret (if b then [data] else [], [], q')
  | EPass =>
      do! '(d1, q1) := drain_control m fuel q in
      do! '(d2, q2) := drain_data m q1 in
      Ret ([], d1 ++ d2, q2)
  end.

Fixpoint q_run (evs : list q_event) q : outcome (list (list Z) * list (string * list Z) * InboundQueue CQ DQ) :=
  match evs with
  | [] => Ret ([], [], q)
  | ev :: rest =>
      do! '(a1, d1, q1) := q_do ev q in
      do! '(a2, d2, q2) := q_run rest q1 in
      Ret (a1 ++ a2, d1 ++ d2, q2)
  end.

Definition is_ctl (d : list Z) : Prop := isControlMessage d = true.

Definition is_dat (d : list Z) : Prop := isControlMessage d = false.

#[local] Instance is_ctl_dec d : Decision (is_ctl d).
Proof. apply bool_eq_dec. Defined.

#[local] Instance is_dat_dec d : Decision (is_dat d).
Proof. apply bool_eq_dec. Defined.

(** Messages of a size for which the rings never leave their buffers. *)
Definition ev_fits (ev : q_event) : Prop :=
  match ev with
  | ESend _ data => if isControlMessage data then bq_fits (Q := CQ) data else bq_fits (Q := DQ) data
  | EPass => True
  end.

Record q_calm q cms dms : Prop := mkQCalm {
  qc_ok : q_ok q cms dms;
  qc_control : bq_calm (control_queue q) cms;
  qc_data : bq_calm (data_queue q) dms
}.

Lemma send_calm fast data q cms dms :
  q_calm q cms dms -> ev_fits (ESend fast data) ->
  exists b q' ws, queue_send fast m k data q = Ret (b, q', ws) /\ same_slot q q'
    /\ q_calm q' (if isControlMessage data && b then cms ++ [data] else cms)
                 (if negb (isControlMessage data) && b then dms ++ [data] else dms).
Proof.
  intros [Hq Hc Hd] Hf. destruct (queue_send_ok fast m k data q cms dms Hq) as (b & q' & ws & Hs & Hsl & Hq').
  exists b, q', ws. split; [done|]. split; [done|]. split; [done|..].
  all: unfold queue_send, ev_fits in *; destruct (isControlMessage data); cbn [andb negb].
  - unfold send_control in Hs. destruct (bq_tryWrite data (control_queue q)) as [[b0 cq]|] eqn:Ew; [|done].
    pose proof (bq_calm_write _ _ _ _ _ Hc Hf Ew) as Hc'. cbn [outcome_bind] in Hs. destruct b0; simplify_eq; exact Hc'.
  - unfold send_data in Hs. destruct (bq_tryWrite data (data_queue q)) as [[b0 dq]|] eqn:Ew; [|done].
    cbn [outcome_bind] in Hs. destruct b0; simplify_eq; exact Hc.
  - unfold send_control in Hs. destruct (bq_tryWrite data (control_queue q)) as [[b0 cq]|] eqn:Ew; [|done].
    cbn [outcome_bind] in Hs. destruct b0; simplify_eq; exact Hd.
  - unfold send_data in Hs. destruct (bq_tryWrite data (data_queue q)) as [[b0 dq]|] eqn:Ew; [|done].
    pose proof (bq_calm_write _ _ _ _ _ Hd Hf Ew) as Hd'. cbn [outcome_bind] in Hs. destruct b0; simplify_eq; exact Hd'.
Qed.

Lemma drain_control_calm q cms dms :
  q_calm q cms dms -> q_active q = true -> (length cms <= fuel)%nat ->
  exists q', drain_control m fuel q = Ret (from q cms, q') /\ q_calm q' [] dms /\ same_slot q q'.
Proof.
  intros [Hq Hc Hd] Ha Hf. assert (exists ds q', drain_control m fuel q = Ret (ds, q')
    /\ bq_calm (control_queue q') [] /\ data_queue q' = data_queue q) as (ds & q' & Hdr & Hc' & Hdq).
  { unfold drain_control. rewrite Ha, orb_false_r. destruct (match m with SEMAPHORE => false | _ => _ end) eqn:Es.
    - eexists _, _. split; [reflexivity|]. split; [|done]. assert ((control_pending q =? 0) = true) as E by (by destruct m).
      destruct Hq as [_ _ Ecp _ _ _]. rewrite Ecp, zlen_zero in E. by subst cms.
    - destruct (drain_calm fuel _ _ Hc) as (out & cq & Hdr & Hcq). rewrite Hdr. cbn [outcome_bind].
      eexists _, _. split; [reflexivity|]. split; [|done]. by rewrite drop_ge in Hcq. }
  destruct (drain_control_ok m fuel q cms dms ds q' Hq Ha Hf Hdr) as (-> & Hq' & Hsl).
  exists q'. split; [done|]. split; [|done]. split; [done|done|by rewrite Hdq].
Qed.

Lemma drain_data_calm q cms dms :
  q_calm q cms dms -> q_active q = true ->
  exists q', drain_data m q = Ret (from q (take MAX_DATA_PER_QUEUE dms), q')
    /\ q_calm q' cms (drop MAX_DATA_PER_QUEUE dms) /\ same_slot q q'.
Proof.
  intros [Hq Hc Hd] Ha. assert (exists ds q', drain_data m q = Ret (ds, q')
    /\ bq_calm (data_queue q') (drop MAX_DATA_PER_QUEUE dms) /\ control_queue q' = control_queue q)
    as (ds & q' & Hdr & Hd' & Hcq).
  { unfold drain_data. rewrite Ha, orb_false_r. destruct (match m with SEMAPHORE => false | _ => _ end) eqn:Es.
    - eexists _, _. split; [reflexivity|]. split; [|done]. assert ((data_pending q =? 0) = true) as E by (by destruct m).
      destruct Hq as [_ _ _ Edp _ _]. rewrite Edp, zlen_zero in E. by subst dms.
    - destruct (drain_calm MAX_DATA_PER_QUEUE _ _ Hd) as (out & dq & Hdr & Hdq). rewrite Hdr. cbn [outcome_bind].
      eexists _, _. split; [reflexivity|]. split; [exact Hdq|done]. }
  destruct (drain_data_ok m q cms dms ds q' Hq Ha Hdr) as (-> & Hq' & Hsl).
  exists q'. split; [done|]. split; [|done]. split; [done|by rewrite Hcq|done].
Qed.

Lemma same_slot_props q q' : same_slot q q' -> queue_sender q' = queue_sender q /\ q_active q' = q_active q.
Proof. intros [E1 E2]. unfold queue_sender, q_active. by rewrite E1, E2. Qed.

Lemma filter_all (P : list Z -> Prop) `{!forall x, Decision (P x)} l : Forall P l -> filter P l = l.
Proof. induction 1 as [|x l Hx Hl IH]; [done|]. rewrite filter_cons, decide_True by done. by f_equal. Qed.

Lemma filter_none (P : list Z -> Prop) `{!forall x, Decision (P x)} l : Forall (fun x => ~ P x) l -> filter P l = [].
Proof. induction 1 as [|x l Hx Hl IH]; [done|]. rewrite filter_cons, decide_False; done. Qed.

Lemma ctl_of_data l : Forall is_dat l -> filter is_ctl l = [].
Proof. intros Hl. apply filter_none. eapply Forall_impl; [exact Hl|]. unfold is_dat, is_ctl. intros x ->. done. Qed.

Lemma data_of_ctl l : Forall is_ctl l -> filter is_dat l = [].
Proof. intros Hl. apply filter_none. eapply Forall_impl; [exact Hl|]. unfold is_dat, is_ctl. intros x ->. done. Qed.

Lemma ctl_single d : filter is_ctl [d] = if isControlMessage d then [d] else [].
Proof. rewrite filter_cons. case_decide as Hd; unfold is_ctl in Hd; destruct (isControlMessage d); done. Qed.

Lemma dat_single d : filter is_dat [d] = if isControlMessage d then [] else [d].
Proof. rewrite filter_cons. case_decide as Hd; unfold is_dat in Hd; destruct (isControlMessage d); done. Qed.

(** What one event does to the two lists. *)
Lemma q_do_ok ev q cms dms :
  q_calm q cms dms -> q_active q = true -> (length cms <= fuel)%nat -> ev_fits ev ->
  exists acc del q' cms' dms', q_do ev q = Ret (acc, del, q') /\ q_calm q' cms' dms' /\ same_slot q q'
    /\ cms ++ filter is_ctl acc = filter is_ctl del.*2 ++ cms'
    /\ dms ++ filter is_dat acc = filter is_dat del.*2 ++ dms'
    /\ Forall (fun d => d.1 = queue_sender q) del
    /\ (length cms' <= length cms + 1)%nat.
Proof.
  intros Hq Ha Hl Hf. destruct ev as [fast data|]; cbn [q_do].
  - destruct (send_calm fast data q cms dms Hq Hf) as (b & q' & ws & Hs & Hsl & Hq'). rewrite Hs. cbn [outcome_bind].
    eexists _, [], q', _, _. split; [reflexivity|]. split; [exact Hq'|]. split; [done|]. cbn [fmap list_fmap].
    destruct b; rewrite ?ctl_single, ?dat_single; destruct (isControlMessage data); cbn [andb negb];
      rewrite ?filter_nil, ?app_nil_r, ?length_app; cbn [app length]; repeat split; (done || constructor || lia).
  - destruct (drain_control_calm q cms dms Hq Ha Hl) as (q1 & D1 & Hq1 & S1). rewrite D1. cbn [outcome_bind].
    destruct (same_slot_props _ _ S1) as [Es1 Ea1].
    destruct (drain_data_calm q1 [] dms Hq1) as (q2 & D2 & Hq2 & S2); [by rewrite Ea1|]. rewrite D2. cbn [outcome_bind].
    eexists [], _, q2, [], _. split; [reflexivity|]. split; [exact Hq2|].
    destruct (Hq) as [[_ _ _ _ Hck Hdk] _ _].
    split; [destruct S1, S2; split; congruence|].
    assert ((from q cms ++ from q1 (take MAX_DATA_PER_QUEUE dms)).*2 = cms ++ take MAX_DATA_PER_QUEUE dms) as ->.
    { unfold from. rewrite fmap_app, <- !list_fmap_compose. f_equal; apply list_fmap_id. }
    rewrite !filter_app, !filter_nil, !app_nil_r, (filter_all is_ctl cms), (ctl_of_data (take _ _)), (data_of_ctl cms), (filter_all is_dat (take _ _))
      by (try apply Forall_take; done).
    rewrite app_nil_r. cbn [app]. rewrite take_drop. split; [done|]. split; [done|]. split; [|simpl; lia].
    apply Forall_app. unfold from. split; apply Forall_fmap, Forall_true; intros; cbn; congruence.
Qed.

Lemma q_run_ok evs q cms dms :
  q_calm q cms dms -> q_active q = true -> (length cms + length evs <= fuel)%nat -> Forall ev_fits evs ->
  exists acc del q' cms' dms', q_run evs q = Ret (acc, del, q') /\ q_calm q' cms' dms'
    /\ cms ++ filter is_ctl acc = filter is_ctl del.*2 ++ cms'
    /\ dms ++ filter is_dat acc = filter is_dat del.*2 ++ dms'
    /\ Forall (fun d => d.1 = queue_sender q) del.
Proof.
  revert q cms dms. induction evs as [|ev evs IH]; intros q cms dms Hq Ha Hl Hf.
  - eexists [], [], q, cms, dms. cbn. rewrite !app_nil_r. repeat split; (done || apply Hq || constructor).
  - apply Forall_cons in Hf as [Hf1 Hf]. cbn [length] in Hl.
    destruct (q_do_ok ev q cms dms Hq Ha ltac:(lia) Hf1) as (a1 & d1 & q1 & c1 & e1 & E1 & Hq1 & S1 & X1 & Y1 & Z1 & L1).
    destruct (same_slot_props _ _ S1) as [Es Ea].
    destruct (IH q1 c1 e1 Hq1) as (a2 & d2 & q2 & c2 & e2 & E2 & Hq2 & X2 & Y2 & Z2); [congruence|lia|done|].
    cbn [q_run]. rewrite E1. cbn [outcome_bind]. rewrite E2. cbn [outcome_bind].
    exists (a1 ++ a2), (d1 ++ d2), q2, c2, e2. split; [done|]. split; [done|].
    rewrite !fmap_app, !filter_app, !app_assoc, X1, Y1, <- !app_assoc, X2, Y2.
    split; [done|]. split; [done|]. apply Forall_app. split; [done|]. by rewrite Es in Z2.
Qed.


End Runs.

(** ** An iteration of the receive loop *)

Section Iteration.
Context {CQ DQ : Type} `{CalmQueue CQ} `{CalmQueue DQ}.
Implicit Types (q : InboundQueue CQ DQ) (qs : list (InboundQueue CQ DQ)) (act : list nat).

(** A pass visits each cached queue once. *)
Lemma pass_spec (f : InboundQueue CQ DQ -> outcome (list (string * list Z) * InboundQueue CQ DQ))
    (R : nat -> InboundQueue CQ DQ -> InboundQueue CQ DQ -> list (string * list Z) -> Prop) act qs :
  NoDup act ->
  (forall i, i ∈ act -> exists q ds q', qs !! i = Some q /\ f q = Ret (ds, q') /\ R i q q' ds) ->
  exists dss qs', pass f act qs = Ret (concat dss, qs')
    /\ (forall j, j ∉ act -> qs' !! j = qs !! j)
    /\ Forall2 (fun i ds => exists q q', qs !! i = Some q /\ qs' !! i = Some q' /\ R i q q' ds) act dss.
Proof.
  intros Hnd. revert qs. induction Hnd as [|i act Hi Hnd IH]; intros qs Hf.
  - exists [], qs. split; [done|]. split; [done|constructor].
  - destruct (Hf i) as (q & ds & q' & Hq & Hfq & HR); [left|]. pose proof (lookup_lt_Some _ _ _ Hq) as Hlt.
    destruct (IH (<[i := q']> qs)) as (dss & qs' & Hp & Hout & Hall).
    { intros j Hj. assert (j <> i) by (intros ->; done). rewrite list_lookup_insert_ne by done. apply Hf. by right. }
    exists (ds :: dss), qs'. cbn [pass]. rewrite Hq, Hfq. cbn [outcome_bind]. rewrite Hp. split; [done|].
    split.
    + intros j Hj. apply not_elem_of_cons in Hj as [Hj1 Hj2]. rewrite Hout by done. by apply list_lookup_insert_ne.
    + constructor.
      * exists q, q'. split; [done|]. split; [|done]. rewrite Hout by done. by apply list_lookup_insert_eq.
      * apply Forall2_same_length_lookup. split; [by eapply Forall2_length|].
        intros n j ds' Hn Hds. destruct (Forall2_lookup_lr _ _ _ _ _ _ Hall Hn Hds) as (p & p' & Hp1 & Hp2 & HRp).
        assert (j <> i) by (intros ->; apply Hi; by eapply list_elem_of_lookup_2).
        rewrite list_lookup_insert_ne in Hp1 by done. eauto.
Qed.

(** The contents of the active queues: control and data messages by slot. *)
Definition contents qs (C D : nat -> list (list Z)) : Prop :=
  forall i q, qs !! i = Some q -> q_active q = true -> q_calm q (C i) (D i).

Definition sender_of qs (i : nat) : string := from_option queue_sender ""%string (qs !! i).

Definition tagged qs (i : nat) (ms : list (list Z)) : list (string * list Z) := (fun d => (sender_of qs i, d)) <$> ms.

Lemma find_active_elem qs i : i ∈ find_active qs <-> exists q, qs !! i = Some q /\ q_active q = true.
Proof.
  unfold find_active. rewrite list_elem_of_fmap. split.
  - intros ([j q] & -> & Hin). apply list_elem_of_filter in Hin as [Ha Hin]. apply elem_of_lookup_imap in Hin as (n & x & E & Hx).
    simplify_eq. eauto.
  - intros (q & Hq & Ha). exists (i, q). split; [done|]. apply list_elem_of_filter. split; [done|].
    apply elem_of_lookup_imap. eauto.
Qed.

Lemma imap_pair_fst qs : (imap pair qs).*1 = seq 0 (length qs).
Proof.
  apply list_eq. intros i. rewrite list_lookup_fmap, list_lookup_imap.
  destruct (decide (i < length qs)%nat).
  - destruct (lookup_lt_is_Some_2 qs i ltac:(done)) as [q Hq]. rewrite Hq. simpl. rewrite lookup_seq_lt; done.
  - rewrite (lookup_ge_None_2 qs) by lia. simpl. rewrite lookup_seq_ge; [done|lia].
Qed.

Lemma find_active_nodup qs : NoDup (find_active qs).
Proof.
  unfold find_active. eapply sublist_NoDup; [|apply fmap_sublist, sublist_filter].
  rewrite imap_pair_fst. apply NoDup_seq.
Qed.

Lemma concat_tagged qs act (g : nat -> list (list Z)) dss :
  Forall2 (fun i ds => ds = tagged qs i (g i)) act dss -> concat dss = act ≫= fun i => tagged qs i (g i).
Proof. induction 1 as [|i ds act dss -> Hall IH]; [done|]. cbn. by rewrite IH. Qed.

(** Taking a semaphore count changes nothing the passes look at. *)
Lemma take_semaphore_lookup act qs i q' :
  take_semaphore act qs !! i = Some q' ->
  exists q, qs !! i = Some q /\ same_slot q q' /\ control_queue q' = control_queue q /\ data_queue q' = data_queue q
    /\ control_pending q' = control_pending q /\ data_pending q' = data_pending q.
Proof.
  unfold take_semaphore. intros Hi.
  repeat case_match; try (exists q'; by repeat split).
  all: match type of Hi with alter _ ?j _ !! _ = _ =>
         destruct (decide (j = i)) as [->|];
         [rewrite list_lookup_alter_eq in Hi | rewrite list_lookup_alter_ne in Hi by done; exists q'; by repeat split] end.
  all: destruct (qs !! i) as [q|]; [|done]; simpl in Hi; simplify_eq; exists q; by repeat split.
Qed.

Lemma q_calm_ext q q' cms dms :
  q_calm q cms dms -> control_queue q' = control_queue q -> data_queue q' = data_queue q ->
  control_pending q' = control_pending q -> data_pending q' = data_pending q -> q_calm q' cms dms.
Proof. intros [[? ? ? ? ? ?] ? ?] E1 E2 E3 E4. split; [split|..]; congruence. Qed.

Lemma take_semaphore_contents act qs C D : contents qs C D -> contents (take_semaphore act qs) C D.
Proof.
  intros Hc i q' Hq' Ha. destruct (take_semaphore_lookup _ _ _ _ Hq') as (q & Hq & Hs & E1 & E2 & E3 & E4).
  destruct (same_slot_props _ _ Hs) as [_ Ea]. apply (q_calm_ext q); [|done..]. apply Hc; [done|congruence].
Qed.

(** The two passes over all active queues. *)
Lemma passes_ok m fuel qs C D :
  contents qs C D -> (forall i, i ∈ find_active qs -> length (C i) <= fuel)%nat ->
  exists qs1 qs2,
    pass (drain_control m fuel) (find_active qs) qs
      = Ret (find_active qs ≫= fun i => tagged qs i (C i), qs1)
    /\ pass (drain_data m) (find_active qs) qs1
      = Ret (find_active qs ≫= fun i => tagged qs i (take MAX_DATA_PER_QUEUE (D i)), qs2)
    /\ (forall i q2, qs2 !! i = Some q2 -> exists q, qs !! i = Some q /\ same_slot q q2)
    /\ contents qs2 (fun _ => []) (fun i => drop MAX_DATA_PER_QUEUE (D i)).
Proof.
  intros Hcont Hfuel. set (act := find_active qs). pose proof (find_active_nodup qs) as Hnd.
  destruct (pass_spec (drain_control m fuel)
    (fun i q q' ds => ds = tagged qs i (C i) /\ same_slot q q' /\ q_calm q' [] (D i)) act qs Hnd) as (d1 & qs1 & P1 & O1 & A1).
  { intros i Hi. pose proof Hi as Hi0. apply find_active_elem in Hi as (q & Hq & Ha).
    destruct (drain_control_calm m fuel q (C i) (D i) (Hcont _ _ Hq Ha) Ha (Hfuel _ Hi0)) as (q' & Hd & Hq' & Hs).
    exists q, (from q (C i)), q'. split; [done|]. split; [done|]. split; [|done].
    unfold tagged, sender_of, from. by rewrite Hq. }
  assert (forall i, i ∈ act -> exists q q1, qs !! i = Some q /\ qs1 !! i = Some q1 /\ same_slot q q1 /\ q_calm q1 [] (D i)
    /\ q_active q = true) as L1.
  { intros i Hi. pose proof Hi as Hi0. apply list_elem_of_lookup in Hi as [n Hn].
    destruct (Forall2_lookup_l _ _ _ _ _ A1 Hn) as (ds & _ & q & q1 & Hq & Hq1 & _ & Hs & Hc).
    apply find_active_elem in Hi0 as (q0 & Hq0 & Ha). assert (q0 = q) as -> by congruence. eauto 8. }
  destruct (pass_spec (drain_data m)
    (fun i q q' ds => ds = tagged qs i (take MAX_DATA_PER_QUEUE (D i)) /\ same_slot q q'
       /\ q_calm q' [] (drop MAX_DATA_PER_QUEUE (D i))) act qs1 Hnd) as (d2 & qs2 & P2 & O2 & A2).
  { intros i Hi. destruct (L1 i Hi) as (q & q1 & Hq & Hq1 & Hs & Hc & Ha). destruct (same_slot_props _ _ Hs) as [Es Ea].
    destruct (drain_data_calm m q1 [] (D i) Hc) as (q' & Hd & Hq' & Hs'); [congruence|].
    exists q1, (from q1 (take MAX_DATA_PER_QUEUE (D i))), q'. split; [done|]. split; [done|]. split; [|done].
    unfold tagged, sender_of, from. rewrite Hq. cbn [from_option]. by rewrite Es. }
  assert (forall i q2, qs2 !! i = Some q2 -> i ∈ act -> exists q, qs !! i = Some q /\ same_slot q q2
    /\ q_calm q2 [] (drop MAX_DATA_PER_QUEUE (D i))) as L2.
  { intros i q2 Hq2 Hi. destruct (L1 i Hi) as (q & q1 & Hq & Hq1 & Hs & _). apply list_elem_of_lookup in Hi as [n Hn].
    destruct (Forall2_lookup_l _ _ _ _ _ A2 Hn) as (ds & _ & q1' & q2' & Hq1' & Hq2' & _ & Hs' & Hc').
    simplify_eq. exists q. split; [done|]. split; [|done]. destruct Hs, Hs'. split; congruence. }
  exists qs1, qs2. rewrite P1, P2. split; [|split; [|split]].
  - f_equal. f_equal. apply (concat_tagged qs act C). eapply Forall2_impl; [exact A1|]. by intros i ds (? & ? & _ & _ & ? & _).
  - f_equal. f_equal. apply (concat_tagged qs act (fun i => take MAX_DATA_PER_QUEUE (D i))).
    eapply Forall2_impl; [exact A2|]. by intros i ds (? & ? & _ & _ & ? & _).
  - intros i q2 Hq2. destruct (decide (i ∈ act)) as [Hi|Hi].
    + destruct (L2 i q2 Hq2 Hi) as (q & ? & ? & _). eauto.
    + rewrite O2, O1 in Hq2 by done. exists q2. by repeat split.
  - intros i q2 Hq2 Ha. destruct (decide (i ∈ act)) as [Hi|Hi].
    + destruct (L2 i q2 Hq2 Hi) as (q & ? & ? & ?). done.
    + rewrite O2, O1 in Hq2 by done. exfalso. apply Hi, find_active_elem. eauto.
Qed.

Lemma iteration_ok fuel t l s C D :
  contents (queues s) C D -> (forall i, i ∈ find_active (queues s) -> length (C i) <= fuel)%nat ->
  active_queues (refresh (t_notify t) s l) = find_active (queues s) -> receive_callback_ t = true ->
  exists ds t' l' s' wait,
    receive_iteration fuel t l s = Ret (ds, t', l', s', wait)
    /\ ds = (find_active (queues s) ≫= fun i => tagged (queues s) i (C i))
            ++ (find_active (queues s) ≫= fun i => tagged (queues s) i (take MAX_DATA_PER_QUEUE (D i)))
    /\ contents (queues s') (fun _ => []) (fun i => drop MAX_DATA_PER_QUEUE (D i))
    /\ nheader s' = nheader s
    /\ u64 (stats_messages_received_ t') = u64 (stats_messages_received_ t + zlen ds)
    /\ (wait = None <-> ds <> []).
Proof.
  intros Hc Hf Hact Hcb. unfold receive_iteration. rewrite Hact.
  destruct (passes_ok (t_notify t) fuel (queues s) C D Hc Hf) as (qs1 & qs2 & P1 & P2 & Hs2 & Hc2).
  destruct (find_active (queues s)) as [|a act] eqn:Ea.
  { eexists [], t, (refresh (t_notify t) s l), s, _. split; [reflexivity|]. split; [done|]. split.
    - intros i q Hq Ha. exfalso. assert (i ∈ find_active (queues s)) as Hi by (apply find_active_elem; eauto).
      rewrite Ea in Hi. by apply not_elem_of_nil in Hi.
    - split; [done|]. split; [unfold zlen; simpl; by rewrite Z.add_0_r|done]. }
  rewrite <- Ea in *. rewrite P1. cbn [outcome_bind]. rewrite P2. cbn [outcome_bind].
  set (ds := _ ++ _). cbn [count_received receive_callback_]. rewrite Hcb.
  assert (forall t', stats_messages_received_ t' = u64 (stats_messages_received_ t + zlen ds) ->
    u64 (stats_messages_received_ t') = u64 (stats_messages_received_ t + zlen ds)) as Hst.
  { intros t' ->. unfold u64, wrap. by rewrite Z.mod_mod. }
  destruct (zlen ds =? 0) eqn:Ez; (eexists ds, _, _, _, _; split; [reflexivity|]; split; [done|]).
  - split; [|split; [done|split; [by apply Hst|]]].
    + cbn [queues]. destruct (t_notify t); try exact Hc2. by apply take_semaphore_contents.
    + apply zlen_zero in Ez. rewrite Ez. done.
  - split; [done|split; [done|split; [by apply Hst|]]]. split; [|done]. intros _ E. by rewrite E in Ez.
Qed.


End Iteration.

(** ** One queue per sender *)

Section Slots.
Context {CQ DQ : Type} `{!ByteQueue CQ} `{!ByteQueue DQ}.
Implicit Types (s : NodeSharedMemory CQ DQ) (q : InboundQueue CQ DQ).

(** The slots below [num_queues] are in use by different senders, the others free. *)
Record shm_wf s : Prop := mkShmWf {
  sw_length : length (queues s) = MAX_INBOUND_QUEUES;
  sw_num : 0 <= num_queues (nheader s) <= max_queues (nheader s);
  sw_max : max_queues (nheader s) <= Z.of_nat MAX_INBOUND_QUEUES;
  sw_used : forall i q, queues s !! i = Some q ->
    (Z.of_nat i < num_queues (nheader s) /\ q_flags q = 3) \/ (num_queues (nheader s) <= Z.of_nat i /\ q_flags q = 0);
  sw_senders : forall i j q q', queues s !! i = Some q -> queues s !! j = Some q' ->
    q_flags q = 3 -> q_flags q' = 3 -> queue_sender q = queue_sender q' -> i = j
}.

Lemma fresh_shm_wf max_inbound now p :
  0 <= max_inbound <= Z.of_nat MAX_INBOUND_QUEUES -> shm_wf (fresh_shm max_inbound now p).
Proof.
  intros Hm. split; cbn [fresh_shm nheader queues num_queues max_queues].
  - apply length_replicate.
  - unfold u32. rewrite wrap_small; unfold MAX_INBOUND_QUEUES in *; lia.
  - unfold u32. rewrite wrap_small; unfold MAX_INBOUND_QUEUES in *; lia.
  - intros i q Hq. apply lookup_replicate in Hq as [-> _]. right. split; [lia|done].
  - intros i j q q' Hq _ Hf. apply lookup_replicate in Hq as [-> _]. done.
Qed.

Lemma find_queue_Some sender s i q :
  list_find (fun q => q_valid q = true /\ queue_sender q = sender)
    (take (Z.to_nat (num_queues (nheader s))) (queues s)) = Some (i, q) ->
  queues s !! i = Some q /\ Z.of_nat i < num_queues (nheader s) /\ queue_sender q = sender.
Proof.
  intros Hf. apply list_find_Some in Hf as (Hi & [_ Hs] & _). apply lookup_take_Some in Hi as [Hi Hlt].
  split; [done|]. split; [lia|done].
Qed.

Lemma find_queue_hit sender s i q :
  shm_wf s -> queues s !! i = Some q -> q_flags q = 3 -> queue_sender q = sender ->
  exists q', list_find (fun q => q_valid q = true /\ queue_sender q = sender)
    (take (Z.to_nat (num_queues (nheader s))) (queues s)) = Some (i, q').
Proof.
  intros [_ _ _ Hu Hs] Hi Hf Hq. destruct (list_find _ _) as [[j q']|] eqn:E.
  - destruct (find_queue_Some _ _ _ _ E) as (Hj & Hlt & Hsj). exists q'. repeat f_equal.
    symmetry. eapply Hs; [exact Hi|exact Hj|done| |congruence]. destruct (Hu _ _ Hj) as [[_ ?]|[? _]]; [done|lia].
  - exfalso. apply list_find_None in E. destruct (Hu _ _ Hi) as [[Hlt _]|[_ ?]]; [|congruence].
    rewrite Forall_forall in E. apply (E q).
    + apply list_elem_of_lookup. exists i. apply lookup_take_Some. split; [done|lia].
    + split; [|done]. unfold q_valid. by rewrite Hf.
Qed.

Lemma claim_wf m sender s i q :
  shm_wf s -> no_nul sender -> str_size sender < 64 -> num_queues (nheader s) < max_queues (nheader s) ->
  (forall j q', queues s !! j = Some q' -> q_flags q' = 3 -> queue_sender q' <> sender) ->
  list_find (fun q => q_flags q = 0) (queues s) = Some (i, q) ->
  shm_wf (mkShm (upd_num_queues (nheader s) 1) (<[i := claimed_queue m sender q]> (queues s))).
Proof.
  intros [Hl Hn Hm Hu Hs] Hnn Hsz Hlt Hnew Hf. destruct (claimed_props m sender q Hnn Hsz) as [Cf Cs].
  apply list_find_Some in Hf as (Hi & Hz & Hmin). pose proof (lookup_lt_Some _ _ _ Hi) as Hil.
  assert (Z.of_nat i = num_queues (nheader s)) as Ei.
  { destruct (Hu _ _ Hi) as [[_ ?]|[Hge _]]; [congruence|]. unfold MAX_INBOUND_QUEUES in *.
    destruct (Z.eq_dec (Z.of_nat i) (num_queues (nheader s))) as [|Hne]; [done|exfalso].
    destruct (lookup_lt_is_Some_2 (queues s) (Z.to_nat (num_queues (nheader s)))) as [q0 Hq0]; [lia|].
    destruct (Hu _ _ Hq0) as [[? _]|[_ Hz0]]; [lia|]. apply (Hmin _ q0 Hq0); [lia|done]. }
  assert (u32 (num_queues (nheader s) + 1) = num_queues (nheader s) + 1) as Eu
    by (apply wrap_small; unfold MAX_INBOUND_QUEUES in *; lia).
  split; cbn [nheader queues upd_num_queues num_queues max_queues]; rewrite ?Eu.
  - by rewrite length_insert.
  - lia.
  - done.
  - intros j q' Hj. destruct (decide (i = j)) as [<-|Hne].
    + rewrite list_lookup_insert_eq in Hj by done. simplify_eq. left. split; [lia|done].
    + rewrite list_lookup_insert_ne in Hj by done. destruct (Hu _ _ Hj) as [[? ?]|[? ?]]; [left|right]; (split; [lia|done]).
  - intros a b qa qb Ha Hb Fa Fb E.
    destruct (decide (i = a)) as [<-|Na]; [rewrite list_lookup_insert_eq in Ha by done|rewrite list_lookup_insert_ne in Ha by done];
    (destruct (decide (i = b)) as [<-|Nb]; [rewrite list_lookup_insert_eq in Hb by done|rewrite list_lookup_insert_ne in Hb by done]).
    + done.
    + simplify_eq. exfalso. apply (Hnew b qb Hb Fb). congruence.
    + simplify_eq. exfalso. apply (Hnew a qa Ha Fa). congruence.
    + by eapply Hs.
Qed.

(** A second call finds the queue the first one made. *)
Lemma findOrCreateQueue_again m sem_ok sender s i q :
  shm_wf s -> queues s !! i = Some q -> q_flags q = 3 -> queue_sender q = sender ->
  findOrCreateQueue m sem_ok sender s = (Some i, s, []).
Proof.
  intros Hwf Hi Hf Hs. unfold findOrCreateQueue. destruct (find_queue_hit sender s i q Hwf Hi Hf Hs) as [q' E].
  by rewrite E.
Qed.

(** The cases of [findOrCreateQueue] in a well-formed object. *)
Lemma findOrCreateQueue_cases m sender s o s' ws :
  shm_wf s -> no_nul sender -> str_size sender < 64 ->
  findOrCreateQueue m true sender s = (o, s', ws) ->
  shm_wf s'
  /\ match o with
     | Some i => (exists q, queues s' !! i = Some q /\ q_flags q = 3 /\ queue_sender q = sender)
                 /\ (forall j, j <> i -> queues s' !! j = queues s !! j)
     | None => num_queues (nheader s) = max_queues (nheader s) /\ s' = s
     end.
Proof.
  intros Hwf Hnn Hsz Hr. unfold findOrCreateQueue in Hr.
  destruct (list_find (fun q => q_valid q = true /\ queue_sender q = sender) _) as [[i q]|] eqn:E1.
  - simplify_eq. split; [done|]. destruct (find_queue_Some _ _ _ _ E1) as (Hi & Hlt & Hs).
    assert (q_flags q = 3) as Hf by (destruct (sw_used _ Hwf _ _ Hi) as [[_ ?]|[? _]]; [done|lia]).
    split; [eauto|done].
  - destruct (Z.leb_spec (max_queues (nheader s)) (num_queues (nheader s))) as [Hfull|Hroom].
    + simplify_eq. split; [done|]. split; [|done]. destruct (sw_num _ Hwf). lia.
    + assert (forall j q', queues s !! j = Some q' -> q_flags q' = 3 -> queue_sender q' <> sender) as Hnew.
      { intros j q' Hj Hf Hs. destruct (find_queue_hit sender s j q' Hwf Hj Hf Hs) as [q0 Hq0]. congruence. }
      destruct (list_find (fun q => q_flags q = 0) (queues s)) as [[i q]|] eqn:E2.
      * pose proof (claim_wf m sender s i q Hwf Hnn Hsz Hroom Hnew E2) as Hwf'.
        destruct (claimed_props m sender q Hnn Hsz) as [Cf Cs].
        apply list_find_Some in E2 as (Hi & _ & _). pose proof (lookup_lt_Some _ _ _ Hi) as Hil.
        destruct m; simplify_eq; (split; [exact Hwf'|]);
          (split; [eexists; split; [by apply list_lookup_insert_eq|done]|]);
          intros j Hj; by apply list_lookup_insert_ne.
      * exfalso. apply list_find_None in E2. pose proof (sw_num _ Hwf). pose proof (sw_max _ Hwf).
        pose proof (sw_length _ Hwf) as Hl.
        destruct (lookup_lt_is_Some_2 (queues s) (Z.to_nat (num_queues (nheader s)))) as [q0 Hq0]; [lia|].
        destruct (sw_used _ Hwf _ _ Hq0) as [[? _]|[_ Hz]]; [lia|].
        rewrite Forall_forall in E2. apply (E2 q0); [by eapply list_elem_of_lookup_2|done].
Qed.

(** ** Properties of slots *)


(** Outside semaphore mode, a message accepted into the idle queue number
    [k] of a connection makes [send] call [pthread_cond_signal] [k] inbound queues
    beyond the receiver's condition variable: only the sender in slot 0 wakes it. *)
Theorem signal_displaced e dest data t (w : world CQ DQ) o k s q b t' w' ws :
  initialized_ t = true -> dest <> node_id_ t -> connected_queue t dest = Some (o, k) ->
  w_heap w !! o = Some s -> queues s !! k = Some q -> t_notify t <> SEMAPHORE ->
  (if isControlMessage data then control_pending q else data_pending q) = 0 ->
  send e dest data t w = Ret (b, t', w', ws) ->
  ws = if b then [CondSignal k] else [].
Proof.
  intros Hi Hd Hc Hh Hq Hm Hp. unfold send. rewrite Hi, Hc. cbn [negb].
  destruct (String.eqb_spec dest (node_id_ t)); [done|]. unfold send_on. rewrite Hh, Hq. unfold queue_send.
  destruct (isControlMessage data).
  - unfold send_control. destruct (bq_tryWrite data (control_queue q)) as [[[|] cq]|]; [..|done]; cbn [outcome_bind];
      intros [= <- _ _ <-]; [|done]. rewrite Hp. unfold notify. by destruct (t_notify t).
  - unfold send_data. destruct (bq_tryWrite data (data_queue q)) as [[[|] dq]|]; [..|done]; cbn [outcome_bind];
      intros [= <- _ _ <-]; [|done]. rewrite Hp. unfold notify. by destruct (t_notify t).
Qed.

(** Sending keeps the congestion level between 0 and 104 and the pause
    at most 1000 microseconds; but a failed send at a level from 96 to 99 lifts the
    level above 100, where the pause before the next send is dropped altogether. *)
Theorem congestion_overshoot m k data q fast b q' ws :
  0 <= congestion_level q <= 104 -> queue_send fast m k data q = Ret (b, q', ws) ->
  0 <= congestion_level q' <= 104 /\ 0 <= backoff_us (congestion_level q') <= SHM_BACKOFF_MAX_US
  /\ (96 <= congestion_level q < 100 -> fast = true -> isControlMessage data = false -> b = false ->
      100 < congestion_level q' /\ 960 <= backoff_us (congestion_level q) /\ backoff_us (congestion_level q') = 0).
Proof.
  intros Hc Hs.
  assert (forall c, 0 <= backoff_us c <= SHM_BACKOFF_MAX_US) as Hback.
  { intros c. unfold backoff_us, SHM_CONGESTION_MAX, SHM_BACKOFF_BASE_US, SHM_BACKOFF_MAX_US.
    repeat ctest; lia. }
  unfold queue_send in Hs. destruct (isControlMessage data) eqn:Ek.
  - unfold send_control in Hs. destruct (bq_tryWrite _ _) as [[[|] cq]|]; [..|done]; cbn [outcome_bind] in Hs;
      simplify_eq; cbn [congestion_level]; (split; [done|]; split; [apply Hback|done]).
  - assert (congestion_level q' = congestion_after fast b (congestion_level q)) as ->.
    { unfold send_data in Hs. destruct (bq_tryWrite _ _) as [[[|] dq]|]; [..|done]; cbn [outcome_bind] in Hs; by simplify_eq. }
    split; [|split; [apply Hback|]].
    + unfold congestion_after, SHM_CONGESTION_DECREMENT, SHM_CONGESTION_INCREMENT, SHM_CONGESTION_MAX, SHM_CONGESTION_INITIAL, u32.
      destruct fast, b; repeat ctest; rewrite ?wrap_small; lia.
    + intros Hr -> _ ->. cbn [congestion_after].
      unfold SHM_CONGESTION_INCREMENT, SHM_CONGESTION_MAX, u32. rewrite (proj2 (Z.ltb_lt _ _)) by lia.
      rewrite wrap_small by lia. split; [lia|].
      unfold backoff_us, SHM_CONGESTION_MAX, SHM_BACKOFF_BASE_US, SHM_BACKOFF_MAX_US.
      split; repeat ctest; lia.
Qed.

End Slots.

(** ** Connecting *)

(** A relation between a slot and the messages it holds that claiming an empty slot and sending
    messages in [fits] keep. *)
Class SlotInv {CQ DQ : Type} `{!ByteQueue CQ} `{!ByteQueue DQ}
    (P : InboundQueue CQ DQ -> list (list Z) -> list (list Z) -> Prop) (fits : list Z -> Prop) := mkSlotInv {
  sl_ok q cms dms : P q cms dms -> q_ok q cms dms;
  sl_claim m sender q : P q [] [] -> P (claimed_queue m sender q) [] [];
  sl_send fast m k data q cms dms : P q cms dms -> fits data ->
    exists b q' ws, queue_send fast m k data q = Ret (b, q', ws) /\ same_slot q q'
      /\ P q' (if isControlMessage data && b then cms ++ [data] else cms)
              (if negb (isControlMessage data) && b then dms ++ [data] else dms)
}.

#[export] Instance q_ok_slot {CQ DQ : Type} `{!ByteQueue CQ} `{!ByteQueue DQ} :
  SlotInv (CQ := CQ) (DQ := DQ) q_ok (fun _ => True).
Proof.
  split; [done| |].
  - intros m sender q [? ? ? ? ? ?]. by destruct m; split.
  - intros fast m k data q cms dms Hq _. by apply queue_send_ok.
Qed.

#[export] Instance q_calm_slot {CQ DQ : Type} `{CalmQueue CQ} `{CalmQueue DQ} :
  SlotInv (CQ := CQ) (DQ := DQ) q_calm (fun data => ev_fits (CQ := CQ) (DQ := DQ) (ESend true data)).
Proof.
  split.
  - by intros q cms dms [].
  - intros m sender q [[? ? ? ? ? ?] ? ?]. by destruct m; split; [split|..].
  - intros fast m k data q cms dms Hq Hf. by apply send_calm.
Qed.

(** An empty ring takes any message small enough for it. *)
Lemma queue_send_empty {CQ DQ : Type} `{!ByteQueue CQ} `{!ByteQueue DQ} fast m k data (q : InboundQueue CQ DQ) cms dms b q' ws :
  q_ok q cms dms -> queue_send fast m k data q = Ret (b, q', ws) ->
  (if isControlMessage data then cms = [] /\ bq_small (Q := CQ) data else dms = [] /\ bq_small (Q := DQ) data) -> b = true.
Proof.
  intros [Hc Hd _ _ _ _]. unfold queue_send, send_control, send_data. destruct (isControlMessage data).
  - intros Hs [-> Hsm]. destruct (bq_empty_accepts _ _ Hc Hsm) as [cq Hw]. rewrite Hw in Hs. by simplify_eq/=.
  - intros Hs [-> Hsm]. destruct (bq_empty_accepts _ _ Hd Hsm) as [dq Hw]. rewrite Hw in Hs. by simplify_eq/=.
Qed.

Section Connect.
Context {CQ DQ : Type} `{!ByteQueue CQ} `{!ByteQueue DQ}.
Context (P : InboundQueue CQ DQ -> list (list Z) -> list (list Z) -> Prop) (fits : list Z -> Prop) `{!SlotInv P fits}.
Implicit Types (s : NodeSharedMemory CQ DQ) (w : world CQ DQ) (C D : nat -> list (list Z)).

(** What the slots of an object hold; free slots hold nothing. *)
Definition shm_holds s C D : Prop :=
  forall i q, queues s !! i = Some q -> P q (C i) (D i) /\ (q_flags q = 0 -> C i = [] /\ D i = []).

(** [target] is registered, and its object can be opened and is alive. *)
Record reachable_target (e : env) (target : string) w (o : nat) s : Prop := mkReachable {
  rt_name : exists info, find_target (take 5 (ev_calls e)) target (w_reg w) = Some info
                         /\ w_names w !! Reg.ni_shm_name info = Some o;
  rt_heap : w_heap w !! o = Some s;
  rt_calls : ev_open_ok e = true /\ ev_mmap_ok e = true /\ ev_sem_ok e = true;
  rt_magic : nh_magic (nheader s) = MAGIC;
  rt_ready : ready (nheader s) = true;
  rt_owner : 0 < owner_pid (nheader s) -> kill_ok (ev_os e) (owner_pid (nheader s)) = true
}.

Lemma set_accessors_wf s l n : shm_wf s -> shm_wf (mkShm (set_accessors (nheader s) l n) (queues s)).
Proof. intros [? ? ? ? ?]. by split. Qed.

Lemma claim_accessor_wf s p : shm_wf s -> shm_wf (mkShm (claim_accessor p (nheader s)).2 (queues s)).
Proof.
  intros Hwf. unfold claim_accessor. destruct (list_find _ _) as [[i ?]|]; [by apply set_accessors_wf|].
  by destruct s.
Qed.

Lemma claim_accessor_num h p : num_queues (claim_accessor p h).2 = num_queues h /\ max_queues (claim_accessor p h).2 = max_queues h.
Proof. unfold claim_accessor. by destruct (list_find _ _) as [[i ?]|]. Qed.

(** Claiming a slot keeps what the slots hold. *)
Lemma findOrCreateQueue_holds m sender s o s' ws C D :
  shm_holds s C D -> findOrCreateQueue m true sender s = (o, s', ws) -> shm_holds s' C D.
Proof.
  intros Hh Hr. unfold findOrCreateQueue in Hr.
  destruct (list_find (fun q => q_valid q = true /\ queue_sender q = sender) _) as [[i q]|]; [by simplify_eq|].
  destruct (max_queues (nheader s) <=? num_queues (nheader s)); [by simplify_eq|].
  destruct (list_find (fun q => q_flags q = 0) (queues s)) as [[i q]|] eqn:E2; [|by simplify_eq].
  apply list_find_Some in E2 as (Hi & Hz & _). pose proof (lookup_lt_Some _ _ _ Hi) as Hil.
  destruct (Hh _ _ Hi) as [Hq Hnil]. destruct (Hnil Hz) as [Ec Ed].
  assert (s' = mkShm (upd_num_queues (nheader s) 1) (<[i := claimed_queue m sender q]> (queues s))) as ->
    by (by destruct m; simplify_eq).
  intros j q' Hj. cbn [queues] in Hj. destruct (decide (i = j)) as [<-|Hne].
  - rewrite list_lookup_insert_eq in Hj by done. simplify_eq. rewrite Ec, Ed in *.
    split; [by apply sl_claim|by destruct m].
  - rewrite list_lookup_insert_ne in Hj by done. by apply Hh.
Qed.

Lemma replace_wf s k q q' :
  shm_wf s -> queues s !! k = Some q -> same_slot q q' -> shm_wf (mkShm (nheader s) (<[k := q']> (queues s))).
Proof.
  intros [Hl Hn Hm Hu Hs] Hq [E1 E2]. pose proof (lookup_lt_Some _ _ _ Hq) as Hlt.
  assert (forall j x, <[k := q']> (queues s) !! j = Some x ->
    exists y, queues s !! j = Some y /\ q_flags x = q_flags y /\ queue_sender x = queue_sender y) as Hold.
  { intros j x Hx. destruct (decide (k = j)) as [<-|Hne].
    - rewrite list_lookup_insert_eq in Hx by done. simplify_eq. exists q. unfold queue_sender. by rewrite E1.
    - rewrite list_lookup_insert_ne in Hx by done. eauto. }
  split; cbn [nheader queues]; try done.
  - by rewrite length_insert.
  - intros i x Hx. destruct (Hold _ _ Hx) as (y & Hy & -> & _). by apply Hu.
  - intros i j x x' Hx Hx'. destruct (Hold _ _ Hx) as (y & Hy & -> & ->), (Hold _ _ Hx') as (y' & Hy' & -> & ->). by apply Hs.
Qed.

(** Sending to [target] changes nothing else about the sender than its counters and that connection. *)
Definition same_sender (target : string) (t t' : transport) : Prop :=
  node_id_ t' = node_id_ t /\ initialized_ t' = initialized_ t /\ config_ t' = config_ t
  /\ forall d, d <> target -> sm_find d (remote_connections_ t') = sm_find d (remote_connections_ t).

(** The connection made by [connectToNode] to a reachable target with room. *)
Lemma connectToNode_ok e target t w o s C D :
  reachable_target e target w o s -> sm_find target (remote_connections_ t) = None ->
  shm_wf s -> shm_holds s C D -> no_nul (node_id_ t) -> str_size (node_id_ t) < 64 ->
  num_queues (nheader s) < max_queues (nheader s) ->
  exists t' w' ws k s', connectToNode e target t w = (true, t', w', ws)
    /\ connected_queue t' target = Some (o, k) /\ t_notify t' = t_notify t
    /\ (stats_messages_sent_ t' = stats_messages_sent_ t /\ stats_messages_dropped_ t' = stats_messages_dropped_ t)
    /\ same_sender target t t'
    /\ w' = set_heap w o s' /\ shm_wf s' /\ shm_holds s' C D
    /\ exists q, queues s' !! k = Some q /\ q_flags q = 3 /\ queue_sender q = node_id_ t.
Proof.
  intros [(info & Hfind & Hname) Hheap (Ho & Hm & Hsem) Hmag Hrdy Hown] Hnone Hwf Hh Hnn Hsz Hroom.
  unfold connectToNode. rewrite Hnone, Hfind. unfold connect_shm. rewrite Hname, Hheap, Ho, Hm, Hsem, Hmag, Hrdy.
  cbn [negb orb]. rewrite Z.eqb_refl. cbn [negb].
  assert ((0 <? owner_pid (nheader s)) && negb (kill_ok (ev_os e) (owner_pid (nheader s))) = false) as ->.
  { destruct (Z.ltb_spec 0 (owner_pid (nheader s))); [|done]. by rewrite Hown. }
  set (p := getpid (ev_os e)). destruct (claim_accessor p (nheader s)) as [added h1] eqn:Ec.
  pose proof (claim_accessor_wf s p Hwf) as Hwf1. pose proof (claim_accessor_num (nheader s) p) as Hnum.
  rewrite Ec in Hwf1, Hnum. cbn [snd] in Hwf1, Hnum.
  destruct (findOrCreateQueue (t_notify t) true (node_id_ t) (mkShm h1 (queues s))) as [[k s'] ws] eqn:Ef.
  destruct (findOrCreateQueue_cases _ _ _ _ _ _ Hwf1 Hnn Hsz Ef) as [Hwf' Hcase].
  assert (shm_holds s' C D) as Hh' by (eapply findOrCreateQueue_holds; [|exact Ef]; exact Hh).
  destruct k as [k|]; [|destruct Hcase as [E _]; cbn [nheader] in E; lia].
  destruct Hcase as [Hq _].
  eexists _, _, _, k, s'. split; [reflexivity|]. unfold connected_queue.
  cbn [set_connections remote_connections_ stats_messages_sent_ stats_messages_dropped_].
  rewrite sm_find_insert, String.eqb_refl. do 3 (split; [done|]). split; [|by repeat (split; [done|])].
  do 3 (split; [done|]). intros d Hd. cbn [set_connections remote_connections_]. rewrite sm_find_insert.
  match goal with |- context [String.eqb ?a ?b] => destruct (String.eqb_spec a b) as [E|] end; [congruence|done].
Qed.

Lemma send_first e dest data t w o s C D :
  fits data -> initialized_ t = true -> dest <> node_id_ t -> sm_find dest (remote_connections_ t) = None ->
  reachable_target e dest w o s -> shm_wf s -> shm_holds s C D ->
  no_nul (node_id_ t) -> str_size (node_id_ t) < 64 -> num_queues (nheader s) < max_queues (nheader s) ->
  exists b t' w' ws k s', send e dest data t w = Ret (b, t', w', ws)
    /\ connected_queue t' dest = Some (o, k) /\ w' = set_heap w o s' /\ shm_wf s'
    /\ (exists q, queues s' !! k = Some q /\ q_flags q = 3 /\ queue_sender q = node_id_ t)
    /\ same_sender dest t t'
    /\ ((if isControlMessage data then C k = [] /\ bq_small (Q := CQ) data else D k = [] /\ bq_small (Q := DQ) data) -> b = true)
    /\ shm_holds s' (fun i => if decide (i = k) then if isControlMessage data && b then C k ++ [data] else C k else C i)
                    (fun i => if decide (i = k) then if negb (isControlMessage data) && b then D k ++ [data] else D k else D i)
    /\ stats_messages_sent_ t' = (if b then u64 (stats_messages_sent_ t + 1) else stats_messages_sent_ t)
    /\ stats_messages_dropped_ t' = (if b then stats_messages_dropped_ t else u64 (stats_messages_dropped_ t + 1)).
Proof.
  intros Hfit Hi Hd Hnone Hreach Hwf Hh Hnn Hsz Hroom.
  destruct (connectToNode_ok e dest t w o s C D Hreach Hnone Hwf Hh Hnn Hsz Hroom)
    as (t1 & w1 & ws1 & k & s1 & Hcon & Hcq & Hnot & [Est Edr] & (En & Ei & Ecf & Eo) & -> & Hwf1 & Hh1 & q & Hq & Hfl & Hsd).
  destruct (Hh1 _ _ Hq) as [Hqok _].
  destruct (sl_send false (t_notify t1) k data q _ _ Hqok Hfit) as (b & q' & ws & Hsend & Hslot & Hq').
  destruct (same_slot_props _ _ Hslot) as [Hs' _]. destruct (Hslot) as [_ Hfl'].
  pose proof (lookup_lt_Some _ _ _ Hq) as Hlt.
  unfold send. rewrite Hi. cbn [negb]. destruct (String.eqb_spec dest (node_id_ t)); [done|].
  unfold connected_queue at 1. rewrite Hnone, Hcon. cbn [negb]. rewrite Hcq.
  unfold send_on at 1. unfold set_heap at 1. cbn [w_heap]. rewrite lookup_insert_eq, Hq, Hsend. cbn [outcome_bind].
  eexists b, _, _, _, k, (mkShm (nheader s1) (<[k := q']> (queues s1))). split; [reflexivity|].
  split; [exact Hcq|]. split; [unfold set_heap; cbn; by rewrite insert_insert_eq|].
  split; [by eapply replace_wf|]. split; [eexists; split; [by apply list_lookup_insert_eq|split; congruence]|].
  split; [by repeat (split; [done|])|]. split; [by apply (queue_send_empty _ _ _ _ _ _ _ _ _ _ (sl_ok _ _ _ Hqok) Hsend)|].
  split; [|cbn [count_sent stats_messages_sent_ stats_messages_dropped_]; by rewrite Est, Edr].
  intros j qj Hj. cbn [queues] in Hj. destruct (decide (j = k)) as [->|Hne].
  - rewrite list_lookup_insert_eq in Hj by done. simplify_eq. split; [done|]. congruence.
  - rewrite list_lookup_insert_ne in Hj by done. by apply Hh1.
Qed.

End Connect.

(** C14: the first [send] to a registered, live node whose memory has room opens the
    connection and tries the message on a queue of the sender: if it reports success
    the message was appended to what that queue holds, otherwise nothing was, and
    an empty queue takes every message that is small enough; no
    other queue of the object changes its contents, the connection stays cached for later
    sends, and exactly one of the counters of sent and dropped messages advances. *)
Theorem first_send_connects {CQ DQ : Type} `{!ByteQueue CQ} `{!ByteQueue DQ} e dest data t (w : world CQ DQ) o s C D :
  initialized_ t = true -> dest <> node_id_ t -> sm_find dest (remote_connections_ t) = None ->
  reachable_target e dest w o s -> shm_wf s -> shm_holds q_ok s C D ->
  no_nul (node_id_ t) -> str_size (node_id_ t) < 64 -> num_queues (nheader s) < max_queues (nheader s) ->
  exists b t' w' ws k s', send e dest data t w = Ret (b, t', w', ws)
    /\ connected_queue t' dest = Some (o, k) /\ w' = set_heap w o s' /\ shm_wf s'
    /\ (exists q, queues s' !! k = Some q /\ q_flags q = 3 /\ queue_sender q = node_id_ t)
    /\ same_sender dest t t'
    /\ ((if isControlMessage data then C k = [] /\ bq_small (Q := CQ) data else D k = [] /\ bq_small (Q := DQ) data) -> b = true)
    /\ shm_holds q_ok s' (fun i => if decide (i = k) then if isControlMessage data && b then C k ++ [data] else C k else C i)
                         (fun i => if decide (i = k) then if negb (isControlMessage data) && b then D k ++ [data] else D k else D i)
    /\ stats_messages_sent_ t' = (if b then u64 (stats_messages_sent_ t + 1) else stats_messages_sent_ t)
    /\ stats_messages_dropped_ t' = (if b then stats_messages_dropped_ t else u64 (stats_messages_dropped_ t + 1)).
Proof. by apply (send_first q_ok (fun _ => True)). Qed.

(** ** The scan for orphaned node memory *)

Section Orphans.
Context (e : os).

Definition scanned (d : node_entry) : bool :=
  String.prefix "librpc_node_" (ne_name d) && ne_open_ok d && ne_stat_ok d && ne_mmap_ok d.

(** A recorded accessor that is no longer running. *)
Definition dead_accessor (h : NodeHeader) : Prop :=
  nh_magic h = MAGIC /\ num_accessors h <> 0 /\ Exists (fun p => 0 < p /\ kill_ok e p = false) (accessor_pids h).

(** Nobody uses the object: it is no node object, or its owner is dead and it has no accessors alive. *)
Definition orphan (h : NodeHeader) : Prop :=
  nh_magic h <> MAGIC
  \/ (0 < owner_pid h /\ kill_exists e (owner_pid h) = false
      /\ (num_accessors h = 0 \/ Forall (fun p => 0 < p -> kill_ok e p = false) (accessor_pids h))).

Lemma node_orphaned_ub h : node_orphaned e h = UB <-> dead_accessor h.
Proof.
  unfold node_orphaned, dead_accessor. destruct (Z.eqb_spec (nh_magic h) MAGIC); [|split; [done|tauto]].
  destruct (negb (num_accessors h =? 0) && existsb _ _) eqn:E.
  - split; [intros _|done]. apply andb_true_iff in E as [E1%negb_true_iff%Z.eqb_neq E2].
    split; [done|]. split; [done|]. apply existsb_exists in E2 as (p & Hp & Hx).
    apply andb_true_iff in Hx as [Hx1%Z.ltb_lt Hx2%negb_true_iff]. apply Exists_exists. exists p.
    by rewrite list_elem_of_In.
  - split; [done|]. intros (_ & Hn & Hex). exfalso. apply not_true_iff_false in E. apply E.
    apply andb_true_iff. split; [by apply negb_true_iff, Z.eqb_neq|]. apply Exists_exists in Hex as (p & Hp & H1 & H2).
    apply existsb_exists. exists p. rewrite <- list_elem_of_In. split; [done|]. rewrite H2.
    apply andb_true_iff. split; [by apply Z.ltb_lt|done].
Qed.

Lemma node_orphaned_ret h b : node_orphaned e h = Ret b -> (b = true <-> orphan h).
Proof.
  unfold node_orphaned, orphan. destruct (Z.eqb_spec (nh_magic h) MAGIC) as [Hm|Hm].
  2: { intros [= <-]. tauto. }
  destruct (_ && _); [done|]. intros [= <-]. unfold hasActiveAccessors, isProcessAlive.
  rewrite !andb_true_iff, Z.ltb_lt, !negb_true_iff.
  destruct (Z.leb_spec (owner_pid h) 0); [split; [lia|intros [?|[? _]]; [done|lia]]|].
  assert ((if num_accessors h =? 0 then (false, h) else _).1 = false <->
    num_accessors h = 0 \/ Forall (fun p => 0 < p -> kill_ok e p = false) (accessor_pids h)) as ->.
  { destruct (Z.eqb_spec (num_accessors h) 0) as [|Hn]; [cbn; tauto|]. cbn [fst]. rewrite Forall_forall.
    rewrite <- not_true_iff_false, existsb_exists. split.
    - intros Hno. right. intros p Hp%list_elem_of_In H0. destruct (kill_ok e p) eqn:Ek; [|done].
      exfalso. apply Hno. exists p. split; [done|]. by rewrite Ek, andb_true_r, Z.ltb_lt.
    - intros [|Hall]; [done|]. intros (p & Hp%list_elem_of_In & [H0%Z.ltb_lt H1]%andb_true_iff). rewrite (Hall p Hp H0) in H1. done. }
  tauto.
Qed.

Lemma clean_nodes_spec es :
  match clean_nodes e es with
  | UB => Exists (fun d => scanned d = true /\ dead_accessor (ne_header d)) es
  | Ret (n, es') =>
      Forall (fun d => scanned d = true -> ~ dead_accessor (ne_header d)) es
      /\ es' `sublist_of` es /\ n = zlen es - zlen es'
      /\ (forall d, d ∈ es -> d ∈ es' \/ scanned d = true /\ ne_unlink_ok d = true /\ orphan (ne_header d))
      /\ Forall (fun d => ~ (scanned d = true /\ ne_unlink_ok d = true /\ orphan (ne_header d))) es'
  end.
Proof.
  induction es as [|d es IH]; cbn [clean_nodes].
  - split; [constructor|]. split; [constructor|]. split; [done|]. split; [by intros ? ?%not_elem_of_nil|constructor].
  - fold (scanned d).
    assert (match (if scanned d then node_orphaned e (ne_header d) else Ret false) with
            | UB => scanned d = true /\ dead_accessor (ne_header d)
            | Ret b => (scanned d = true -> ~ dead_accessor (ne_header d))
                       /\ (b = true <-> scanned d = true /\ orphan (ne_header d)) end) as Hd.
    { destruct (scanned d); [|split; [done|split; [done|intros [? _]; done]]]. destruct (node_orphaned e (ne_header d)) as [b|] eqn:E.
      - split; [|pose proof (node_orphaned_ret _ _ E); tauto]. intros _ Hda%node_orphaned_ub. congruence.
      - split; [done|]. by apply node_orphaned_ub. }
    destruct (if scanned d then _ else _) as [b|]; cbn [outcome_bind]; [|by apply Exists_cons_hd].
    destruct Hd as [Hd Hb]. destruct (clean_nodes e es) as [[n es']|]; cbn [outcome_bind]; [|by apply Exists_cons_tl].
    destruct IH as (H1 & H2 & -> & H4 & H5). destruct (b && ne_unlink_ok d) eqn:Eb.
    + apply andb_true_iff in Eb as [-> Hu]. destruct (proj1 Hb eq_refl). split; [by constructor|].
      split; [by constructor|]. split; [rewrite zlen_cons; lia|]. split; [|done].
      intros x [->|Hx]%elem_of_cons; [tauto|]. destruct (H4 x Hx); tauto.
    + split; [by constructor|]. split; [by constructor|]. split; [rewrite !zlen_cons; lia|]. split.
      * intros x [->|Hx]%elem_of_cons; [left; left|]. destruct (H4 x Hx); [left; by right|tauto].
      * constructor; [|done]. intros (Hs & Hu & Ho). rewrite Hu, andb_true_r in Eb. subst b.
        assert (false = true) by (apply Hb; done). done.
Qed.


End Orphans.

(** ** Instances *)

Section Demo.

(** Rings of 64 bytes whose messages take frames of 24. *)
#[local] Instance demo_ring : ByteQueue (sized_ring 64) := ring_queue 64 ltac:(by exists 8) ltac:(lia).

Lemma demo_frame : ~ (24 | 64).
Proof. intros [k Hk]. lia. Qed.

#[local] Instance demo_calm : CalmQueue (sized_ring 64) := ring_calm 64 ltac:(by exists 8) ltac:(lia) 24 demo_frame.

Definition demo_queue : InboundQueue (sized_ring 64) (sized_ring 64) := fresh_queue.

(** A data message and a control message of ten bytes. *)
Definition demo_data : list Z := [0; 0; 0; 0; 0; 0; 0; 1; 2; 3].

Definition demo_control : list Z := [0; 0; 0; 0; 0; 0; 4; 1; 2; 3].

Definition demo_events : list q_event := [ESend true demo_data; ESend true demo_control; EPass; ESend false demo_data].

Lemma demo_fresh : q_calm demo_queue [] [].
Proof. split; [split|..]; try done; try apply bq_init_holds; try apply bq_calm_init; constructor. Qed.

Lemma demo_sender : no_nul "A".
Proof. repeat constructor; discriminate. Qed.


Definition demo_config (m : NotifyMechanism) : Config := mkConfig 1024 32 false true m.

Definition demo_transport (m : NotifyMechanism) (id : string) (conns : smap RemoteConnection) : transport :=
  mkTransport id "/s" (demo_config m) true (Some 0%nat) conns true true 0 0 0 0 0.

(** Node "B" with the queues of "A" and "C": "A" sent a control and a data message. *)
Definition demo_put (d : list Z) (q : InboundQueue (sized_ring 64) (sized_ring 64)) :=
  match queue_send true CONDITION_VARIABLE 0 d q with Ret (_, q', _) => q' | UB => q end.

Definition demo_slots : list (InboundQueue (sized_ring 64) (sized_ring 64)) :=
  [demo_put demo_control (demo_put demo_data (claimed_queue CONDITION_VARIABLE "A" demo_queue));
   claimed_queue CONDITION_VARIABLE "C" demo_queue].

Lemma demo_put_ok d q cms dms b :
  q_calm q cms dms -> ev_fits (CQ := sized_ring 64) (DQ := sized_ring 64) (ESend true d) ->
  match queue_send true CONDITION_VARIABLE 0 d q with Ret (b, _, _) => b | UB => false end = b ->
  q_calm (demo_put d q) (if isControlMessage d && b then cms ++ [d] else cms)
                        (if negb (isControlMessage d) && b then dms ++ [d] else dms).
Proof.
  intros Hq Hf Hb. destruct (send_calm CONDITION_VARIABLE 0 true d q cms dms Hq Hf) as (b1 & q1 & w1 & E1 & _ & H1).
  unfold demo_put. rewrite E1 in *. by subst b1.
Qed.

Definition demo_shm : NodeSharedMemory (sized_ring 64) (sized_ring 64) :=
  mkShm (mkHeader MAGIC VERSION 2 32 0 true 8 (replicate MAX_ACCESSORS 0) 0) (demo_slots ++ replicate 30 demo_queue).

Definition demo_C (i : nat) : list (list Z) := if decide (i = 0%nat) then [demo_control] else [].

Definition demo_D (i : nat) : list (list Z) := if decide (i = 0%nat) then [demo_data] else [].

Lemma demo_slot_contents :
  q_calm (demo_put demo_control (demo_put demo_data (claimed_queue CONDITION_VARIABLE "A" demo_queue))) [demo_control] [demo_data].
Proof.
  apply (demo_put_ok demo_control _ [] [demo_data] true); [|done|vm_compute; reflexivity].
  apply (demo_put_ok demo_data _ [] [] true); [|done|vm_compute; reflexivity].
  destruct demo_fresh as [[? ? ? ? ? ?] ? ?]; by split; [split|..].
Qed.

Lemma demo_contents : contents (queues demo_shm) demo_C demo_D.
Proof.
  intros i q Hq Ha. destruct i as [|[|i]].
  - injection Hq as <-. exact demo_slot_contents.
  - injection Hq as <-. destruct demo_fresh as [[? ? ? ? ? ?] ? ?]; by split; [split|..].
  - unfold demo_shm in Hq. cbn [queues] in Hq. rewrite lookup_app_r in Hq by (simpl; lia).
    apply lookup_replicate in Hq as [-> _]. done.
Qed.


(** The node "B" just initialised, with the registry entry it made. *)
Definition demo_os (me : Z) : os := mkOs me (fun p => if (p =? 8) || (p =? 9) then KillOk else KillEsrch) 100 0.

Definition demo_env (me : Z) : env :=
  let c := Reg.mkCall (demo_os me) LockOk true in mkEnv (demo_os me) [c] c true true true.

Definition demo_new (m : NotifyMechanism) : transport := mkTransport "" "" (demo_config m) false None [] false false 0 0 0 0 0.

Definition demo_world (m : NotifyMechanism) : world (sized_ring 64) (sized_ring 64) :=
  (initialize (demo_env 8) 100 0 true true "/b" "B" (demo_config m) (demo_new m)
     (mkWorld ∅ ∅ (Reg.init_region 8))).2.

Definition demo_fresh_shm : NodeSharedMemory (sized_ring 64) (sized_ring 64) :=
  let s := fresh_shm 32 100 8 in mkShm (set_ready (nheader s)) (queues s).

Lemma demo_fresh_wf : shm_wf demo_fresh_shm.
Proof. destruct (fresh_shm_wf (CQ := sized_ring 64) (DQ := sized_ring 64) 32 100 8) as [? ? ? ? ?]; [unfold MAX_INBOUND_QUEUES; lia|]. by split. Qed.

Lemma demo_fresh_holds : shm_holds q_ok demo_fresh_shm (fun _ => []) (fun _ => []).
Proof.
  intros i q Hq. apply lookup_replicate in Hq as [-> _]. split; [|done]. apply demo_fresh.
Qed.


Lemma first_send_connects_witness :
  exists b t' w' ws k s',
    send (demo_env 9) "B" demo_data (demo_transport SEMAPHORE "A" []) (demo_world SEMAPHORE) = Ret (b, t', w', ws)
    /\ connected_queue t' "B" = Some (0%nat, k) /\ w' = set_heap (demo_world SEMAPHORE) 0 s' /\ shm_wf s'
    /\ (exists q, queues s' !! k = Some q /\ q_flags q = 3 /\ queue_sender q = "A"%string).
Proof.
  destruct (first_send_connects (demo_env 9) "B" demo_data (demo_transport SEMAPHORE "A" []) (demo_world SEMAPHORE) 0
    demo_fresh_shm (fun _ => []) (fun _ => [])) as (b & t' & w' & ws & k & s' & H1 & H2 & H3 & H4 & H5 & _).
  - reflexivity.
  - discriminate.
  - reflexivity.
  - split; [|reflexivity|by repeat split|reflexivity|reflexivity|reflexivity].
    eexists. split; [vm_compute; reflexivity|]. vm_compute. reflexivity.
  - exact demo_fresh_wf.
  - exact demo_fresh_holds.
  - exact demo_sender.
  - reflexivity.
  - reflexivity.
  - exists b, t', w', ws, k, s'. auto.
Defined.

(** The sender "C" in slot 1 of "B". *)
Definition demo_C_transport : transport :=
  demo_transport SMART_POLLING "C" [("B"%string, mkConn "B" "/b" 0 (Some 1%nat) true)].

Definition demo_C_world : world (sized_ring 64) (sized_ring 64) :=
  mkWorld ∅ {[ 0%nat := demo_shm ]} (Reg.init_region 8).

Lemma signal_displaced_witness :
  exists t' w', send (demo_env 9) "B" demo_data demo_C_transport demo_C_world = Ret (true, t', w', [CondSignal 1]).
Proof.
  destruct (send (demo_env 9) "B" demo_data demo_C_transport demo_C_world) as [[[[b t'] w'] ws]|] eqn:E.
  - pose proof (signal_displaced (demo_env 9) "B" demo_data demo_C_transport demo_C_world 0 1 demo_shm (nth 1 demo_slots demo_queue) _ _ _ _
      eq_refl ltac:(discriminate) eq_refl eq_refl eq_refl ltac:(discriminate) eq_refl E) as ->.
    assert (b = true) as -> by (revert E; vm_compute; by intros [= <- _]). eauto.
  - exfalso. revert E. vm_compute. discriminate.
Defined.

Lemma congestion_overshoot_witness :
  let q := mkQueue (sender_id_atomic demo_queue) 3 0 0 (control_queue demo_queue) 0 0 (data_queue demo_queue) 97 0 in
  exists q', queue_send true SEMAPHORE 0 (replicate 100 0) q = Ret (false, q', []) /\ 100 < congestion_level q'.
Proof.
  intros q. destruct (queue_send true SEMAPHORE 0 (replicate 100 0) q) as [[[b q'] ws]|] eqn:E.
  - destruct (congestion_overshoot SEMAPHORE 0 (replicate 100 0) q true b q' ws) as (_ & _ & H); [simpl; lia|exact E|].
    assert (b = false /\ ws = []) as [-> ->] by (revert E; vm_compute; by intros [= <- _ <-]).
    exists q'. split; [done|]. apply H; [simpl; lia|done|vm_compute; done|done].
  - exfalso. revert E. vm_compute. discriminate.
Defined.

End Demo.
