(* ===== verification/PendingThreads.v ===== *)
(** * The pending counters under two threads

    A sender and the receive loop share, for each ring of a slot, a counter of pending messages and a
    semaphore ([control_pending], [control_sem], [data_pending], [data_sem] of [InboundQueue]).
    [TransportV3.v] runs a send and an iteration of the loop as one step each; here the
    accesses of [SharedMemoryTransportV3::send] and of the receive loops
    ([src/transport/SharedMemoryTransportV3.cpp]) to one ring, its counter and its semaphore interleave
    in any order, down to the bytes of [RingThreads.v]. *)

From S2P Require Import Prelude ByteQueue TransportV3 LockFreeQueue RingThreads.

(** Where [send] stands: before the call, inside [tryWrite], before [fetch_add], before the notification. *)
Inductive sender := SIdle | SWriting | SAdd | SPost.

(** Where the receive loop stands with this ring: at the start of its pass, reading, before [fetch_sub],
    behind the passes, and in the timed wait. *)
Inductive receiver :=
| RScan
| RReading (processed : nat)
| RSub (processed : nat)
| RRound (has_messages : bool)
| RBlocked.

#[export] Instance sender_eq_dec : EqDecision sender.
Proof. solve_decision. Defined.

#[export] Instance receiver_eq_dec : EqDecision receiver.
Proof. solve_decision. Defined.

(** One ring of a slot. *)
Record lane := mkLane {
  ring_of : threads;
  pending : Z;
  sem : Z;
  snd_at : sender;
  rcv_at : receiver
}.

Section Lane.

(** [limit]: the number of messages a pass takes at most, [Some 16] for data and [None] for control messages.
    [heard]: the wait of the receive loop is on the notification of this ring. With semaphores that is
    the control ring of the first active queue; with the condition variable the slot of queue 0. *)
Variables (B : Z) (m : NotifyMechanism) (limit : option nat) (heard : bool).

(** The call of [send] on a connection. *)
Definition sender_call (data : list Z) (l : lane) : lane * option event :=
  let t := ring_of l in
  let '(p, ev) := write_call data (shared t) in
  (mkLane (mkThreads p (cons t) (shared t)) (pending l) (sem l)
     (match ev with Some _ => SIdle | None => SWriting end) (rcv_at l), ev).

(** A signal wakes the receive loop only while it waits. *)
Definition signalled (r : receiver) : receiver :=
  match r with RBlocked => if heard then RScan else RBlocked | _ => r end.

Definition sender_step (l : lane) : outcome (lane * option event) :=
  let t := ring_of l in
  match snd_at l with
  | SIdle => Ret (l, None)
  | SWriting =>
      do! '(p, q, ev) := producer_step B (prod t) (shared t) in
      let s := match ev with None => SWriting | Some (WriteRet _ true) => SAdd | Some _ => SIdle end in
      Ret (mkLane (mkThreads p (cons t) q) (pending l) (sem l) s (rcv_at l), ev)
  | SAdd =>
      let prev := pending l in
      Ret (mkLane t (u32 (prev + 1)) (sem l) (if prev =? 0 then SPost else SIdle) (rcv_at l), None)
  | SPost =>
      match m with
      | SEMAPHORE => Ret (mkLane t (pending l) (sem l + 1) SIdle (rcv_at l), None)
      | _ => Ret (mkLane t (pending l) (sem l) SIdle (signalled (rcv_at l)), None)
      end
  end.

Definition set_rcv (l : lane) (r : receiver) : lane := mkLane (ring_of l) (pending l) (sem l) (snd_at l) r.

(** [sem_trywait] *)
Definition sem_taken (l : lane) : lane := mkLane (ring_of l) (pending l) (sem l - 1) (snd_at l) RScan.

Definition receiver_step (l : lane) : outcome (lane * option event) :=
  let t := ring_of l in
  match rcv_at l with
  | RScan =>
      match m with
      | SEMAPHORE => Ret (set_rcv l (RReading 0), None)
      | _ => Ret (set_rcv l (if pending l =? 0 then RRound false else RReading 0), None)
      end
  | RReading n =>
      do! '(c, q, ev) := consumer_step (cons t) (shared t) in
      let r := match ev with
               | None => RReading n
               | Some (ReadRet (Some _)) => if decide (limit = Some (S n)) then RSub (S n) else RReading (S n)
               | Some _ => RSub n
               end in
      Ret (mkLane (mkThreads (prod t) c q) (pending l) (sem l) (snd_at l) r, ev)
  | RSub n =>
      let p := match n with O => pending l | _ => u32 (pending l - Z.of_nat n) end in
      Ret (mkLane t p (sem l) (snd_at l) (RRound (0 <? n)%nat), None)
  | RRound true => Ret (set_rcv l RScan, None)
  | RRound false =>
      match m with
      | SEMAPHORE => Ret (if 0 <? sem l then sem_taken l else set_rcv l RBlocked, None)
      | _ => Ret (set_rcv l RBlocked, None)
      end
  | RBlocked =>
      match m with
      | SEMAPHORE => Ret (if heard && (0 <? sem l) then sem_taken l else l, None)
      | _ => Ret (l, None)
      end
  end.

(** [l_elsewhere]: another ring had messages or a notification, or the wait timed out. *)
Inductive lstep : lane -> option event -> lane -> Prop :=
| l_call data l l' ev : snd_at l = SIdle -> sender_call data l = (l', ev) -> lstep l ev l'
| l_sender l l' ev : snd_at l <> SIdle -> sender_step l = Ret (l', ev) -> lstep l ev l'
| l_receiver l l' ev : receiver_step l = Ret (l', ev) -> lstep l ev l'
| l_elsewhere l b : rcv_at l = RRound b \/ rcv_at l = RBlocked -> lstep l None (set_rcv l RScan).

(** A slot that [findOrCreateQueue] has claimed for the first time. *)
Definition lane_start : lane := mkLane (start B) 0 0 SIdle RScan.

Inductive runs : list event -> lane -> Prop :=
| runs_start : runs [] lane_start
| runs_step evs l ev l' : runs evs l -> lstep l ev l' -> runs (evs ++ option_list ev) l'.

(** Executions by a schedule. *)
Inductive lane_action := LCall (data : list Z) | LSender | LReceiver | LElsewhere.

Definition lane_act (a : lane_action) (l : lane) : outcome (lane * option event) :=
  match a with
  | LCall data => if decide (snd_at l = SIdle) then Ret (sender_call data l) else Ret (l, None)
  | LSender => sender_step l
  | LReceiver => receiver_step l
  | LElsewhere => Ret (match rcv_at l with RRound _ | RBlocked => set_rcv l RScan | _ => l end, None)
  end.

Fixpoint lane_schedule (acts : list lane_action) (evs : list event) (l : lane) : outcome (list event * lane) :=
  match acts with
  | [] => Ret (evs, l)
  | a :: acts => do! '(l', ev) := lane_act a l in lane_schedule acts (evs ++ option_list ev) l'
  end.

Lemma lane_act_step a l l' ev : lane_act a l = Ret (l', ev) -> l' = l /\ ev = None \/ lstep l ev l'.
Proof.
  destruct a as [data| | |]; cbn; intros H.
  - case_decide; [|left; naive_solver]. right. injection H as H. by apply (l_call data).
  - destruct (decide (snd_at l = SIdle)) as [E|E]; [|right; by apply l_sender]. left. unfold sender_step in H. rewrite E in H. naive_solver.
  - right. by apply l_receiver.
  - destruct (rcv_at l) as [| | |b|] eqn:E; injection H as <- <-; auto; right;
      [apply (l_elsewhere l b)|apply (l_elsewhere l true)]; auto.
Qed.

Lemma lane_schedule_runs acts evs l evs' l' :
  runs evs l -> lane_schedule acts evs l = Ret (evs', l') -> runs evs' l'.
Proof.
  revert evs l. induction acts as [|a acts IH]; intros evs l Hr H; cbn in H; [by simplify_eq|].
  destruct (lane_act a l) as [[l1 ev]|] eqn:Ea; [|done]. refine (IH _ _ _ H).
  destruct (lane_act_step _ _ _ _ Ea) as [[-> ->]|Hs]; [by rewrite app_nil_r|]. by apply runs_step with l.
Qed.

(** ** The invariant *)

(** Messages read and not yet subtracted, and messages in the ring and not yet added. *)
Definition in_hand (r : receiver) : Z := match r with RReading n | RSub n => Z.of_nat n | _ => 0 end.

Definition taken (l : lane) : Z := in_hand (rcv_at l) + zlen (returning_read (cons (ring_of l))).

Definition adding (s : sender) : Z := match s with SAdd => 1 | _ => 0 end.

Definition uncounted (l : lane) : Z := adding (snd_at l) + zlen (returning_write (prod (ring_of l))).

(** The call of [send] under way is going to notify. *)
Definition coming (l : lane) : Prop := snd_at l = SPost \/ (pending l = 0 /\ uncounted l = 1).

(** The pass has found nothing, and the loop goes into its wait. *)
Definition found_nothing (r : receiver) : bool :=
  match r with RSub O | RRound false | RBlocked => true | _ => false end.

(** [n] steps of [send] with nothing in between. *)
Fixpoint sender_run (n : nat) (l : lane) : outcome lane :=
  match n with
  | O => Ret l
  | S n => do! '(l', _) := sender_step l in sender_run n l'
  end.

Record lane_inv (evs : list event) (l : lane) (ms : list (list Z)) : Prop := mkLaneInv {
  li_ring : history B (start B) [] evs (ring_of l) ms;
  li_sender : snd_at l = SWriting <-> prod (ring_of l) <> PIdle;
  li_receiver : cons (ring_of l) <> CIdle -> exists n, rcv_at l = RReading n;
  li_sem : 0 <= sem l;
  li_pending : pending l = u32 (zlen (written evs) - adding (snd_at l) - (zlen (delivered evs) - in_hand (rcv_at l)));
  li_notified : m = SEMAPHORE -> found_nothing (rcv_at l) = true -> 0 < zlen ms -> coming l \/ 0 < sem l
}.

Hypothesis B_aligned : (8 | B).
Hypothesis B_range : 0 < B < 2 ^ 32.

Lemma history_zlen evs t ms :
  history B (start B) [] evs t ms ->
  zlen (written evs) + zlen (returning_write (prod t)) = zlen (delivered evs) + zlen (returning_read (cons t)) + zlen ms.
Proof. intros (_ & new & Hw & Hd). simpl in *. rewrite <- !zlen_app, Hw, <- app_assoc, Hd. done. Qed.

Lemma zlen_pos {A : Type} (xs : list A) : 0 < zlen xs <-> xs <> [].
Proof. destruct xs; unfold zlen; simpl; split; try done; lia. Qed.

(** A call returns exactly when its thread becomes idle. *)
Lemma producer_returned p q p' q' ev : p <> PIdle -> producer_step B p q = Ret (p', q', ev) -> ev = None <-> p' <> PIdle.
Proof. destruct p as [| |[|[? ?] ?] ? ?| |]; unfold producer_step, outcome_bind, place; repeat case_match; naive_solver. Qed.

Lemma producer_written p q p' q' ev :
  p <> PIdle -> producer_step B p q = Ret (p', q', ev) ->
  delivered (option_list ev) = [] /\
  match ev with
  | Some (WriteRet _ true) =>
      zlen (written (option_list ev)) = 1 /\ zlen (returning_write p) = 1 /\ zlen (returning_write p') = 0
  | Some _ => zlen (written (option_list ev)) = 0 /\ zlen (returning_write p) = 0 /\ zlen (returning_write p') = 0
  | None =>
      zlen (written (option_list ev)) = 0
      /\ (zlen (returning_write p') = zlen (returning_write p) \/ zlen (returning_write p) = 0 /\ zlen (returning_write p') = 1)
  end.
Proof.
  destruct p as [|data head|[|[o b] ws] next data|data|data]; intros Hne; cbn [producer_step]; unfold outcome_bind.
  1: done. 1: intros [= <- <- <-]; split; [done|]; split; [done|]; left; unfold place; by repeat case_match.
  1: intros [= <- <- <-]; split; [done|]; split; [done|]; by right.
  1: case_match; [|done]; intros [= <- <- <-]; auto.
  all: intros [= <- <- <-]; done.
Qed.

Lemma consumer_returned c q c' q' ev : consumer_step c q = Ret (c', q', ev) ->
  match ev with
  | None => True
  | Some (ReadRet (Some _)) => c' = CIdle /\ zlen (delivered (option_list ev)) = 1 
  | Some (ReadRet None) => c' = CIdle /\ delivered (option_list ev) = []
  | Some (WriteRet _ _) => False
  end /\ written (option_list ev) = [].
Proof.
  unfold consumer_step, inspect, outcome_bind. intros H. repeat case_match; simplify_eq; by split.
Qed.

Lemma lane_start_inv : lane_inv [] lane_start [].
Proof.
  split; cbn; try done.
  split; [by apply start_inv|]. by exists [].
Qed.

Lemma sender_call_inv evs l ms data l' ev :
  lane_inv evs l ms -> snd_at l = SIdle -> sender_call data l = (l', ev) ->
  exists ms', lane_inv (evs ++ option_list ev) l' ms'.
Proof.
  intros [Hr Hs Hc Hm Hp Hn] Hi Hcall. unfold sender_call in Hcall. destruct l as [[p c q] pend sm s r]. cbn in *. subst s.
  destruct (write_call data q) as [p' ev'] eqn:Ew. injection Hcall as <- <-.
  destruct (decide (p = PIdle)) as [->|Hne]; [|by apply Hs in Hne].
  destruct (step_history B B_aligned B_range _ _ _ _ _ _ _ Hr (step_call B data c q p' ev' Ew)) as (ms' & Hr' & _).
  pose proof (history_zlen _ _ _ Hr) as E. pose proof (history_zlen _ _ _ Hr') as E'.
  destruct (write_call_inv B _ _ _ _ Ew) as (_ & Hrw & _ & Hw & Hd).
  rewrite written_app, delivered_app, Hw, Hd, !app_nil_r in E'. exists ms'. split; cbn in *; try done.
  - unfold write_call in Ew. case_match; simplify_eq; naive_solver.
  - rewrite written_app, delivered_app, Hw, Hd, !app_nil_r. rewrite Hp. unfold adding. repeat case_match; simplify_eq; done.
  - intros HS Hf Hl. rewrite Hrw in E'. destruct (Hn HS Hf) as [[?|[_ Hu]]|Hp0]; [lia|done|done|by right].
Qed.

Lemma ring_write_inv evs l ms p' q' ev :
  lane_inv evs l ms -> snd_at l = SWriting -> producer_step B (prod (ring_of l)) (shared (ring_of l)) = Ret (p', q', ev) ->
  exists ms', lane_inv (evs ++ option_list ev)
    (mkLane (mkThreads p' (cons (ring_of l)) q') (pending l) (sem l)
       (match ev with None => SWriting | Some (WriteRet _ true) => SAdd | Some _ => SIdle end) (rcv_at l)) ms'.
Proof.
  intros [Hr Hs Hc Hm Hp Hn] Hi Hstep. destruct l as [[p c q] pend sm s r]. cbn in *. subst s.
  assert (Hne : p <> PIdle) by (by apply Hs).
  destruct (step_history B B_aligned B_range _ _ _ _ _ _ _ Hr (step_producer B p c q p' q' ev Hne Hstep)) as (ms' & Hr' & _).
  pose proof (history_zlen _ _ _ Hr) as E. pose proof (history_zlen _ _ _ Hr') as E'.
  destruct (producer_written _ _ _ _ _ Hne Hstep) as (Hd & Hw). pose proof (producer_returned _ _ _ _ _ Hne Hstep) as Hret.
  rewrite written_app, delivered_app, Hd, !app_nil_r, zlen_app in E'.
  exists ms'. split; cbn in *; try done.
  - destruct ev as [[? []|?]|]; naive_solver.
  - rewrite written_app, delivered_app, Hd, !app_nil_r, zlen_app, Hp. cbn. f_equal. destruct ev as [[? []|?]|]; unfold adding; lia.
  - intros HS Hf Hl. specialize (Hn HS Hf). unfold coming, uncounted in *. cbn in *.
    assert (c = CIdle) as ->.
    { destruct (decide (c = CIdle)) as [|Hcn]; [done|]. destruct (Hc Hcn) as [n ->]. done. }
    assert (Hh : in_hand r = 0) by (destruct r as [| |[]|[]|]; done). rewrite Hh in *. cbn in E, E'.
    change (zlen (returning_read CIdle)) with 0 in *. change (zlen []) with 0 in *.
    destruct (decide (0 < zlen ms)) as [Hpos|Hz].
    + destruct (Hn Hpos) as [[?|[Hp0 Hu]]|]; [done| |by right]. left. right.
      destruct ev as [[? []|?]|]; unfold adding in *; lia.
    + left. right. assert (zlen (written evs) - 0 - (zlen (delivered evs) - 0) = 0) as H0
        by (destruct ev as [[? []|?]|]; pose proof (zlen_nonneg ms); lia).
      rewrite H0 in Hp. split; [exact Hp|]. destruct ev as [[? []|?]|]; unfold adding in *; lia.
Qed.

Lemma sender_step_inv evs l ms l' ev :
  lane_inv evs l ms -> snd_at l <> SIdle -> sender_step l = Ret (l', ev) -> exists ms', lane_inv (evs ++ option_list ev) l' ms'.
Proof.
  intros Hl Hne Hstep. unfold sender_step in Hstep. destruct (snd_at l) eqn:Es; [done| | |].
  - destruct (producer_step B _ _) as [[[p q] ev1]|] eqn:Ep; [|done]. cbn in Hstep. injection Hstep as <- <-.
    by apply (ring_write_inv _ _ _ _ _ _ Hl Es Ep).
  - injection Hstep as <- <-. rewrite app_nil_r. exists ms. destruct Hl as [Hr Hs Hc Hm Hp Hn]. destruct l as [[p c q] pend sm s r]. cbn in *. subst s.
    split; cbn; try done.
    + split; [by case_match|]. by intros ?%Hs.
    + rewrite Hp. unfold u32, wrap. rewrite Zplus_mod_idemp_l. f_equal. case_match; cbn; lia.
    + intros HS Hf Hpos. destruct (Hn HS Hf Hpos) as [[?|[Hp0 _]]|]; [done| |by right]. cbn in Hp0. left. left. cbn. by rewrite Hp0.
  - assert (Hinv : forall sm' r', (m = SEMAPHORE -> sm' = sem l + 1) -> (m <> SEMAPHORE -> sm' = sem l) -> in_hand r' = in_hand (rcv_at l) ->
      (forall n, rcv_at l = RReading n -> r' = RReading n) ->
      exists ms', lane_inv evs (mkLane (ring_of l) (pending l) sm' SIdle r') ms').
    { intros sm' r' H1 H2 H3 H4. exists ms. destruct Hl as [Hr Hs Hc Hm Hp Hn]. destruct l as [[p c q] pend sm s r]. cbn in *. subst s.
      split; cbn; try done.
      - split; [done|]. by intros ?%Hs.
      - intros Hcn. destruct (Hc Hcn) as [n ->]. eauto.
      - destruct (decide (m = SEMAPHORE)) as [HS|HS]; [rewrite H1|rewrite H2]; done || lia.
      - by rewrite H3.
      - intros HS _ _. right. rewrite H1; done || lia. }
    unfold signalled in Hstep. destruct m eqn:Em; injection Hstep as <- <-; rewrite app_nil_r; apply Hinv; try done; by destruct (rcv_at l), heard.
Qed.

(** A move of the receive loop outside the ring: what it holds is subtracted, and it waits only as notified. *)
Lemma receiver_moves evs l ms p sm r :
  lane_inv evs l ms -> cons (ring_of l) = CIdle -> 0 <= sm ->
  p = u32 (pending l - (in_hand (rcv_at l) - in_hand r)) ->
  (m = SEMAPHORE -> found_nothing r = true -> found_nothing (rcv_at l) = true /\ sm = sem l) ->
  lane_inv evs (mkLane (ring_of l) p sm (snd_at l) r) ms.
Proof.
  intros [Hr Hs Hc Hm Hp Hn] Hci Hsm Hpe Hf. destruct l as [[p1 c q] pend sm1 s r1]. cbn in *. subst c. split; cbn; try done.
  - rewrite Hpe, Hp. unfold u32, wrap. rewrite Zminus_mod_idemp_l. f_equal. lia.
  - intros HS Hfn Hpos. destruct (Hf HS Hfn) as [Hf1 ->]. destruct (Hn HS Hf1 Hpos) as [[?|[Hp0 Hu]]|]; [by left; left| |by right].
    left. right. cbn in Hp0. rewrite Hp0 in Hpe.
    assert (Hh : forall x, found_nothing x = true -> in_hand x = 0) by (by intros [| |[]|[]|]).
    rewrite !Hh in Hpe by done. split; [|done]. cbn. by rewrite Hpe.
Qed.

Lemma ring_read_inv evs l ms n c' q' ev :
  lane_inv evs l ms -> rcv_at l = RReading n -> consumer_step (cons (ring_of l)) (shared (ring_of l)) = Ret (c', q', ev) ->
  exists ms', lane_inv (evs ++ option_list ev)
    (mkLane (mkThreads (prod (ring_of l)) c' q') (pending l) (sem l) (snd_at l)
       match ev with
       | None => RReading n
       | Some (ReadRet (Some _)) => if decide (limit = Some (S n)) then RSub (S n) else RReading (S n)
       | Some _ => RSub n
       end) ms'.
Proof.
  intros [Hr Hs Hc Hm Hp Hn] Hi Hstep. destruct l as [[p c q] pend sm s r]. cbn in *. subst r.
  destruct (step_history B B_aligned B_range _ _ _ _ _ _ _ Hr (step_consumer B p c q c' q' ev Hstep)) as (ms' & Hr' & Hnone).
  pose proof (history_zlen _ _ _ Hr) as E. pose proof (history_zlen _ _ _ Hr') as E'.
  destruct (consumer_returned _ _ _ _ _ Hstep) as (Hev & Hw).
  rewrite written_app, Hw, delivered_app, app_nil_r, zlen_app in E'. cbn in E, E', Hp.
  exists ms'. split; cbn; try done.
  - intros Hcn. destruct ev as [[|[]]|]; [done| | |by eauto]; by destruct Hev.
  - rewrite written_app, delivered_app, Hw, app_nil_r, zlen_app, Hp. f_equal.
    destruct ev as [[|[]]|]; [done| | |].
    + destruct Hev as [_ ->]. case_decide; cbn [in_hand]; lia.
    + destruct Hev as [_ ->]. cbn. unfold zlen. simpl. lia.
    + cbn. unfold zlen. simpl. lia.
  - intros HS Hf Hpos. exfalso. destruct ev as [[|[]]|]; [done| | |done].
    + by case_decide.
    + destruct (Hnone eq_refl) as [-> Hrr]. destruct Hev as [-> Hd]. cbn in Hrr. rewrite Hrr in E. rewrite Hd in E'. unfold zlen in *. simpl in *. lia.
Qed.

Lemma receiver_step_inv evs l ms l' ev :
  lane_inv evs l ms -> receiver_step l = Ret (l', ev) -> exists ms', lane_inv (evs ++ option_list ev) l' ms'.
Proof.
  intros Hl Hstep. unfold receiver_step in Hstep.
  assert (Hidle : (forall n, rcv_at l <> RReading n) -> cons (ring_of l) = CIdle).
  { intros Hne. destruct (decide (cons (ring_of l) = CIdle)) as [|Hcn]; [done|]. by destruct (li_receiver _ _ _ Hl Hcn) as [n ?%Hne]. }
  assert (Hmod : forall x, pending l = u32 x -> pending l = u32 (pending l - (0 - 0))).
  { intros x ->. unfold u32, wrap. by rewrite Z.sub_0_r, Zmod_mod. }
  specialize (Hmod _ (li_pending _ _ _ Hl)). pose proof (li_sem _ _ _ Hl).
  destruct (rcv_at l) as [|n|n|[]|] eqn:Er.
  - assert (Hgo : forall r, in_hand r = 0 -> (m = SEMAPHORE -> found_nothing r = false) -> exists ms', lane_inv evs (set_rcv l r) ms').
    { intros r Hh Hf. exists ms. apply receiver_moves; [done|by apply Hidle|done| |].
      - rewrite Er, Hh. exact Hmod.
      - intros HS Hr. by rewrite Hf in Hr. }
    destruct m eqn:Em; injection Hstep as <- <-; rewrite app_nil_r; apply Hgo; done || by case_match.
  - destruct (consumer_step _ _) as [[[c q] ev1]|] eqn:Ec; [|done]. cbn in Hstep. injection Hstep as <- <-.
    by apply (ring_read_inv _ _ _ _ _ _ _ Hl Er Ec).
  - injection Hstep as <- <-. rewrite app_nil_r. exists ms. apply receiver_moves; [done|by apply Hidle|done| |].
    + rewrite Er. destruct n; [exact Hmod|]. cbn [in_hand]. by rewrite Z.sub_0_r.
    + rewrite Er. by destruct n.
  - injection Hstep as <- <-. rewrite app_nil_r. exists ms. apply receiver_moves; [done|by apply Hidle|done| |done]. rewrite Er. exact Hmod.
  - assert (Hgo : forall r sm, 0 <= sm -> in_hand r = 0 -> (m = SEMAPHORE -> found_nothing r = true -> sm = sem l) ->
      exists ms', lane_inv evs (mkLane (ring_of l) (pending l) sm (snd_at l) r) ms').
    { intros r sm Hs Hh Hf. exists ms. apply receiver_moves; [done|by apply Hidle|done| |].
      - rewrite Er, Hh. exact Hmod.
      - intros HS Hr. rewrite Er. auto. }
    destruct m eqn:Em; injection Hstep as <- <-; rewrite app_nil_r; try case_match; btest; apply Hgo; done || lia.
  - assert (Hgo : exists ms', lane_inv evs l ms') by eauto.
    destruct m eqn:Em; injection Hstep as <- <-; rewrite app_nil_r; try done. case_match; [|done]. btest.
    exists ms. apply receiver_moves; [done|by apply Hidle|lia| |done]. rewrite Er. exact Hmod.
Qed.

Lemma runs_inv evs l : runs evs l -> exists ms, lane_inv evs l ms.
Proof.
  induction 1 as [|evs l ev l' _ [ms Hl] Hs]; [exists []; apply lane_start_inv|].
  destruct Hs as [data l l' ev Hi Hc|l l' ev Hi Hs|l l' ev Hs|l b Hr].
  - by eapply sender_call_inv.
  - by eapply sender_step_inv.
  - by eapply receiver_step_inv.
  - rewrite app_nil_r. exists ms. apply receiver_moves; [done| |by eapply li_sem| |done].
    + destruct (decide (cons (ring_of l) = CIdle)) as [|Hcn]; [done|]. destruct (li_receiver _ _ _ Hl Hcn) as [n Hn]. destruct Hr; congruence.
    + rewrite (li_pending _ _ _ Hl). unfold u32, wrap. rewrite Zminus_mod_idemp_l. f_equal. destruct Hr as [-> | ->]; cbn; lia.
Qed.

(** ** Properties *)

Lemma lane_pending evs l ms : lane_inv evs l ms -> pending l = u32 (zlen ms + taken l - uncounted l).
Proof.
  intros Hl. rewrite (li_pending _ _ _ Hl). pose proof (history_zlen _ _ _ (li_ring _ _ _ Hl)). unfold taken, uncounted. f_equal. lia.
Qed.

Lemma ms_bounded evs l ms : lane_inv evs l ms -> repr B (shared (ring_of l)) ms /\ zlen ms < 2 ^ 32.
Proof.
  intros Hl. destruct (li_ring _ _ _ Hl) as ((Hr & _) & _). split; [done|].
  by apply (ring_bounded B B_range (mkSized (shared (ring_of l)))).
Qed.

Lemma uncounted_range l : 0 <= uncounted l <= 2.
Proof. unfold uncounted. destruct (snd_at l), (prod (ring_of l)); cbn; unfold zlen; simpl; lia. Qed.

(** A sender that has stored its message and finds nothing pending notifies within three steps. *)
Lemma coming_posts evs l ms :
  lane_inv evs l ms -> m = SEMAPHORE -> coming l -> exists l', sender_run 3 l = Ret l' /\ sem l' = sem l + 1.
Proof.
  intros [_ Hs _ _ _ _] HS Hc. destruct l as [[p c q] pend sm s r]. unfold coming, uncounted in Hc. cbn in Hs, Hc.
  unfold sender_run, sender_step. rewrite HS. destruct Hc as [->|[-> Hu]]; [cbn; eauto|].
  destruct s; [|destruct p; try done; cbn; eauto|cbn; eauto..].
  destruct p; try done. exfalso. enough (SIdle = SWriting) by done. by apply Hs.
Qed.

(** C8: in every interleaving of [send] with the receive loop, the pending counter is the number of messages in the
    ring, plus those read and not yet subtracted, less the one stored and not yet added, in 32 bits: it
    can pass below 0, and is exactly the length of the queue whenever both are outside of a message. *)
Theorem pending_exact evs l :
  runs evs l ->
  exists ms, repr B (shared (ring_of l)) ms
    /\ delivered evs ++ returning_read (cons (ring_of l)) ++ ms = written evs ++ returning_write (prod (ring_of l))
    /\ pending l = u32 (zlen ms + taken l - uncounted l)
    /\ (taken l = 0 -> uncounted l = 0 -> pending l = zlen ms).
Proof.
  intros (ms & Hl)%runs_inv. destruct (ms_bounded _ _ _ Hl) as [Hr Hb]. exists ms. split; [done|]. split.
  - destruct (li_ring _ _ _ Hl) as (_ & new & -> & Hd). exact Hd.
  - pose proof (lane_pending _ _ _ Hl) as Hp. split; [done|]. intros Ht Hu. rewrite Hp, Ht, Hu. pose proof (zlen_nonneg ms).
    rewrite Z.add_0_r, Z.sub_0_r. apply wrap_small. lia.
Qed.


End Lane.

(** ** Missed notifications and witnesses *)

Definition lane_result (m : NotifyMechanism) (limit : option nat) (heard : bool) (acts : list lane_action) : list event * lane :=
  match lane_schedule 64 m limit heard acts [] (lane_start 64) with Ret r => r | UB => ([], lane_start 64) end.

(** The message is stored, counted and notified between the pass of the loop and its wait. *)
Definition signal_before_wait : list lane_action := LReceiver :: LCall msg_a :: replicate 16 LSender ++ [LReceiver].

(** The loop is in its wait when the message is stored, counted and notified. *)
Definition post_during_wait : list lane_action := replicate 5 LReceiver ++ LCall msg_a :: replicate 16 LSender.

Lemma lane_result_runs m limit heard acts r :
  lane_schedule 64 m limit heard acts [] (lane_start 64) = Ret r -> runs 64 m limit heard r.1 r.2.
Proof. destruct r. apply lane_schedule_runs, runs_start. Qed.


(** The receive loop has read the first message before it was counted: the counter stands at -1. *)
Definition read_before_counted : list lane_action :=
  LCall msg_a :: replicate 14 LSender ++ replicate 21 LReceiver.

Definition below_zero : list event * lane := Eval vm_compute in lane_result SEMAPHORE (Some 16%nat) true read_before_counted.

Lemma pending_exact_witness :
  pending below_zero.2 = 2 ^ 32 - 1
  /\ exists ms, repr 64 (shared (ring_of below_zero.2)) ms
       /\ pending below_zero.2 = u32 (zlen ms + taken below_zero.2 - uncounted below_zero.2).
Proof.
  split; [vm_compute; reflexivity|].
  destruct (pending_exact 64 SEMAPHORE (Some 16%nat) true ltac:(by exists 8) ltac:(lia) below_zero.1 below_zero.2)
    as (ms & Hr & _ & Hp & _); [|by exists ms].
  apply (lane_result_runs _ _ _ read_before_counted). vm_compute. reflexivity.
Defined.

(** The loop is in its wait and the message is in the ring, not yet counted. *)
Definition stored_during_wait : list lane_action := replicate 5 LReceiver ++ LCall msg_a :: replicate 13 LSender.

Definition stored : list event * lane := Eval vm_compute in lane_result SEMAPHORE None true stored_during_wait.

