(* ===== verification/UdpTransport.v ===== *)
(** * The UDP transport

    Models [include/nexus/transport/UdpTransport.h] and [src/transport/UdpTransport.cpp]: the socket and its
    receive thread. The results of the socket calls are arguments; the open descriptors of the
    process are part of the state. Assigning to a joinable [std::thread] ends the process, which
    counts as undefined. *)

From S2P Require Import Prelude Message.

Definition DEFAULT_BROADCAST_PORT : Z := 47120.

Definition BROADCAST_ADDR : string := "255.255.255.255".

Definition BUFFER_SIZE : Z := 65536.

(** The receive thread: [Ended] has left its loop and waits to be joined. *)
Inductive thread_state := NoThread | Looping | Ended.

#[export] Instance thread_state_eq_dec : EqDecision thread_state.
Proof. solve_decision. Defined.

Definition joinable (t : thread_state) : bool := bool_decide (t <> NoThread).

Record UdpTransport := mkUdp {
  socket_fd_ : Z;
  port_ : Z;
  initialized_ : bool;
  running_ : bool;
  receive_thread_ : thread_state;
  receive_callback_ : bool
}.

Definition new_udp : UdpTransport := mkUdp (-1) 0 false false NoThread false.

(** [htons] and [ntohs] on a little-endian machine. *)
Definition htons (p : Z) : Z := Z.lor (Z.shiftl (Z.land p 0xFF) 8) (Z.shiftr p 8).

Definition ntohs (p : Z) : Z := htons p.

(** The results of the calls of [initialize]; ports are in network order. *)
Record socket_calls := mkSocketCalls {
  sc_socket : Z;
  sc_setsockopt : Z;
  sc_bind : Z -> Z;
  sc_getsockname : option Z
}.

Definition set_fd (u : UdpTransport) (fd : Z) : UdpTransport :=
  mkUdp fd (port_ u) (initialized_ u) (running_ u) (receive_thread_ u) (receive_callback_ u).

Definition set_thread (u : UdpTransport) (t : thread_state) : UdpTransport :=
  mkUdp (socket_fd_ u) (port_ u) (initialized_ u) (running_ u) t (receive_callback_ u).

(** [initialize(port)]; [fds] are the open descriptors of the process. *)
Definition initialize (c : socket_calls) (port : Z) (u : UdpTransport) (fds : gset Z)
    : outcome (bool * UdpTransport * gset Z) :=
  if initialized_ u then Ret (true, u, fds)
  else
    let fd := sc_socket c in
    if fd <? 0 then Ret (false, set_fd u fd, fds)
    else
      let fds1 := {[ fd ]} ∪ fds in
      if sc_setsockopt c <? 0 then Ret (false, set_fd u (-1), fds1 ∖ {[ fd ]})
      else if sc_bind c (htons port) <? 0 then Ret (false, set_fd u (-1), fds1 ∖ {[ fd ]})
      else
        let p := match sc_getsockname c with Some q => ntohs q | None => port end in
        if joinable (receive_thread_ u) then UB
        else Ret (true, mkUdp fd p true true Looping (receive_callback_ u), fds1).

(** [shutdown]: the join waits for the receive thread, which sees [running_] cleared. *)
Definition shutdown (u : UdpTransport) (fds : gset Z) : UdpTransport * gset Z :=
  if negb (initialized_ u) then (u, fds)
  else
    let '(fd, fds') := if 0 <=? socket_fd_ u then (-1, fds ∖ {[ socket_fd_ u ]}) else (socket_fd_ u, fds) in
    (mkUdp fd (port_ u) false false NoThread (receive_callback_ u), fds').

Section Addresses.

(** [inet_pton] and [inet_ntop] of the C library for [AF_INET]. *)
Context (inet_pton : string -> option (list Z)) (inet_ntop : list Z -> string).

(** [send]: the result, and the datagram given to [sendto]; [sent] is what [sendto] returns. *)
Definition send (sent : Z) (data : list Z) (dest_addr : string) (dest_port : Z) (u : UdpTransport)
    : bool * option (list Z * list Z * Z) :=
  if negb (initialized_ u) || (socket_fd_ u <? 0) || bool_decide (data = []) then (false, None)
  else
    let addr := if str_empty dest_addr then BROADCAST_ADDR else dest_addr in
    let port := if dest_port =? 0 then DEFAULT_BROADCAST_PORT else dest_port in
    match inet_pton addr with
    | None => (false, None)
    | Some ip => (sent =? zlen data, Some (data, ip, htons port))
    end.

Definition broadcast (sent : Z) (data : list Z) (u : UdpTransport) : bool * option (list Z * list Z * Z) :=
  send sent data BROADCAST_ADDR DEFAULT_BROADCAST_PORT u.

Definition setReceiveCallback (u : UdpTransport) : UdpTransport :=
  mkUdp (socket_fd_ u) (port_ u) (initialized_ u) (running_ u) (receive_thread_ u) true.

(** What [recvfrom] returns: a datagram with its source, no data yet, or an error. *)
Inductive recv_result :=
| Datagram (data from : list Z)
| WouldBlock
| RecvError.

#[export] Instance recv_result_eq_dec : EqDecision recv_result.
Proof. solve_decision. Defined.

(** A call of the receive callback: the whole buffer, the number of bytes, the source. *)
Record callback_args := mkArgs {
  ca_buffer : list Z;
  ca_size : Z;
  ca_from : string
}.

(** One round of [receiveThread]: the buffer, whether the loop goes on, and the callback's arguments. *)
Definition receive_round (r : recv_result) (buffer : list Z) (u : UdpTransport)
    : list Z * bool * option callback_args :=
  if negb (running_ u) then (buffer, false, None)
  else
    match r with
    | Datagram data from =>
        let data := take (Z.to_nat BUFFER_SIZE) data in
        let buffer := splice 0 data buffer in
        if 0 <? zlen data then
          (buffer, true, if receive_callback_ u then Some (mkArgs buffer (zlen data) (inet_ntop from)) else None)
        else (buffer, true, None)
    | WouldBlock => (buffer, true, None)
    | RecvError => (buffer, false, None)
    end.

(** The thread on a sequence of results: the callbacks and the state it leaves. *)
Fixpoint receive_loop (rs : list recv_result) (buffer : list Z) (u : UdpTransport)
    : list callback_args * list Z * UdpTransport :=
  match rs with
  | [] => ([], buffer, u)
  | r :: rest =>
      let '(buffer, go_on, call) := receive_round r buffer u in
      if go_on then
        let '(calls, buffer, u) := receive_loop rest buffer u in (option_list call ++ calls, buffer, u)
      else (option_list call, buffer, set_thread u Ended)
  end.

(** [std::vector<uint8_t> buffer(BUFFER_SIZE)] *)
Definition empty_buffer : list Z := replicate (Z.to_nat BUFFER_SIZE) 0.

End Addresses.

(** ** The life of the transport *)

(** [F] are the descriptors of the rest of the process. *)
Record udp_wf (F : gset Z) (u : UdpTransport) (fds : gset Z) : Prop := mkUdpWf {
  uw_running : running_ u = initialized_ u;
  uw_thread : joinable (receive_thread_ u) = initialized_ u;
  uw_socket : if initialized_ u then 0 <= socket_fd_ u /\ (socket_fd_ u ∉ F) /\ fds = {[ socket_fd_ u ]} ∪ F
              else socket_fd_ u < 0 /\ fds = F
}.

(** The states reached by calls in any order; a new socket is a descriptor that was not open. *)
Inductive udp_reaches (F : gset Z) : UdpTransport -> gset Z -> Prop :=
| ur_new : udp_reaches F new_udp F
| ur_initialize c port u fds b u' fds' :
    udp_reaches F u fds -> sc_socket c ∉ fds -> initialize c port u fds = Ret (b, u', fds') -> udp_reaches F u' fds'
| ur_shutdown u fds : udp_reaches F u fds -> udp_reaches F (shutdown u fds).1 (shutdown u fds).2
| ur_callback u fds : udp_reaches F u fds -> udp_reaches F (setReceiveCallback u) fds
| ur_receive ntop rs buffer u fds :
    udp_reaches F u fds -> receive_thread_ u = Looping -> udp_reaches F (receive_loop ntop rs buffer u).2 fds.

Lemma receive_loop_state ntop rs buffer u :
  (receive_loop ntop rs buffer u).2 = u \/ (receive_loop ntop rs buffer u).2 = set_thread u Ended.
Proof.
  revert buffer. induction rs as [|r rs IH]; intros buffer; cbn [receive_loop]; [by left|].
  destruct (receive_round ntop r buffer u) as [[b [|]] call]; [|by right].
  specialize (IH b). by destruct (receive_loop ntop rs b u) as [[? ?] ?].
Qed.

Lemma initialize_wf F c port u fds :
  udp_wf F u fds -> sc_socket c ∉ fds ->
  exists b u' fds', initialize c port u fds = Ret (b, u', fds') /\ udp_wf F u' fds' /\ (b = true <-> initialized_ u' = true).
Proof.
  intros [Hr Ht Hs] Hf. unfold initialize. destruct (initialized_ u) eqn:Ei.
  { eexists _, _, _. split; [done|]. split; [split; rewrite ?Ei; done|]. by rewrite Ei. }
  destruct Hs as [Hneg ->].
  destruct (Z.ltb_spec (sc_socket c) 0) as [H0|H0].
  { eexists _, _, _. split; [done|]. cbn. rewrite Ei. split; [|by split]. split; cbn; rewrite ?Ei; done. }
  assert (({[ sc_socket c ]} ∪ F) ∖ {[ sc_socket c ]} = F) as E by set_solver.
  assert (Hfail : exists b u' fds', Ret (false, set_fd u (-1), ({[ sc_socket c ]} ∪ F) ∖ {[ sc_socket c ]}) = Ret (b, u', fds')
    /\ udp_wf F u' fds' /\ (b = true <-> initialized_ u' = true)).
  { eexists _, _, _. split; [done|]. rewrite E. cbn. rewrite Ei. split; [|by split]. split; cbn; rewrite ?Ei; try done. }
  destruct (sc_setsockopt c <? 0); [done|]. destruct (sc_bind c (htons port) <? 0); [done|].
  rewrite Ht. eexists _, _, _. split; [done|]. split; [|done]. split; cbn; done.
Qed.

Lemma shutdown_wf F u fds :
  udp_wf F u fds -> udp_wf F (shutdown u fds).1 (shutdown u fds).2 /\ (shutdown u fds).2 = F.
Proof.
  intros [Hr Ht Hs]. unfold shutdown. destruct (initialized_ u) eqn:Ei; cbn [negb].
  - destruct Hs as (Hp & Hn & ->). rewrite (proj2 (Z.leb_le 0 _)) by done. cbn [fst snd].
    assert (({[ socket_fd_ u ]} ∪ F) ∖ {[ socket_fd_ u ]} = F) as -> by set_solver. split; [|done]. by split.
  - destruct Hs as [Hp ->]. cbn [fst snd]. split; [|done]. split; rewrite ?Ei; done.
Qed.

Lemma udp_reaches_wf F u fds : udp_reaches F u fds -> udp_wf F u fds.
Proof.
  induction 1 as [|c port u fds b u' fds' _ IH Hf Hi|u fds _ IH|u fds _ IH|ntop rs buffer u fds _ IH Hl].
  - by split.
  - destruct (initialize_wf F c port u fds IH Hf) as (b1 & u1 & f1 & Hi1 & Hw & _). rewrite Hi1 in Hi. by simplify_eq.
  - by apply shutdown_wf.
  - by destruct IH as [? ? ?].
  - destruct (receive_loop_state ntop rs buffer u) as [-> | ->]; [done|]. destruct IH as [Hr Ht Hs]. split; [done| |done].
    rewrite Hl in Ht. exact Ht.
Qed.


(** ** The receive thread *)

(** The results before the first error. *)
Fixpoint before_error (rs : list recv_result) : list recv_result :=
  match rs with
  | RecvError :: _ | [] => []
  | r :: rest => r :: before_error rest
  end.

Definition payloads (ntop : list Z -> string) (rs : list recv_result) : list (list Z * string) :=
  omap (fun r => match r with Datagram (b :: data) from => Some (b :: data, ntop from) | _ => None end) rs.

Definition small (r : recv_result) : Prop := match r with Datagram data _ => zlen data <= BUFFER_SIZE | _ => True end.

Lemma splice_prefix data buffer : zlen data <= zlen buffer -> take (length data) (splice 0 data buffer) = data.
Proof. intros _. unfold splice. simpl. apply take_app_length. Qed.

Lemma take_small (data : list Z) : zlen data <= BUFFER_SIZE -> take (Z.to_nat BUFFER_SIZE) data = data.
Proof. intros H. apply firstn_all2. unfold zlen in H. lia. Qed.

Definition seen (a : callback_args) : list Z * string := (take (Z.to_nat (ca_size a)) (ca_buffer a), ca_from a).

Lemma receive_loop_calls ntop rs buffer u :
  running_ u = true -> receive_callback_ u = true -> zlen buffer = BUFFER_SIZE -> Forall small rs ->
  exists buffer', receive_loop ntop rs buffer u
    = ((receive_loop ntop rs buffer u).1.1, buffer', if bool_decide (RecvError ∈ rs) then set_thread u Ended else u)
    /\ seen <$> (receive_loop ntop rs buffer u).1.1 = payloads ntop (before_error rs) /\ zlen buffer' = BUFFER_SIZE.
Proof.
  intros Hr Hc Hb Hs. revert buffer Hb. induction Hs as [|r rs Hr1 Hs IH]; intros buffer Hb.
  { exists buffer. done. }
  cbn [receive_loop]. unfold receive_round. rewrite Hr. cbn [negb].
  assert (Hgo : forall b : recv_result, b <> RecvError -> bool_decide (RecvError ∈ b :: rs) = bool_decide (RecvError ∈ rs)).
  { intros b Hne. apply bool_decide_ext. rewrite elem_of_cons. split; [intros [<-|]; done|by right]. }
  destruct r as [data from| |].
  - cbn in Hr1. rewrite (take_small data Hr1). rewrite Hgo by done.
    assert (zlen (splice 0 data buffer) = BUFFER_SIZE) as Hb' by (rewrite splice_zlen; lia).
    destruct (IH _ Hb') as (buffer' & He & Hcalls & Hz).
    destruct data as [|b data].
    + change (0 <? zlen []) with false. cbv iota. destruct (receive_loop ntop rs (splice 0 [] buffer) u) as [[calls b'] u'] eqn:E. cbn [fst snd option_list app] in *.
      exists b'. simplify_eq. done.
    + rewrite (proj2 (Z.ltb_lt 0 _)) by (unfold zlen; simpl; lia). rewrite Hc.
      destruct (receive_loop ntop rs (splice 0 (b :: data) buffer) u) as [[calls b'] u'] eqn:E. cbn [fst snd option_list app] in *.
      exists b'. simplify_eq. split; [done|]. split; [|done].
      change (seen (mkArgs (splice 0 (b :: data) buffer) (zlen (b :: data)) (ntop from)) :: (seen <$> calls)
              = (b :: data, ntop from) :: payloads ntop (before_error rs)).
      rewrite Hcalls. f_equal. unfold seen. cbn [ca_size ca_buffer ca_from]. unfold zlen. rewrite Nat2Z.id. f_equal.
      by apply splice_prefix; lia.
  - rewrite Hgo by done. destruct (IH _ Hb) as (buffer' & He & Hcalls & Hz).
    destruct (receive_loop ntop rs buffer u) as [[calls b'] u'] eqn:E. cbn [fst snd option_list app] in *. exists b'. by simplify_eq.
  - exists buffer. rewrite bool_decide_eq_true_2 by left. done.
Qed.

(** C27: the receive thread of a running transport calls the callback for exactly the non-empty datagrams that
    arrive before the first error of [recvfrom], in order, each with its bytes and the
    address it came from. The first error other than "try again" ends the thread for good: the
    transport stays initialized and goes on sending, but receives nothing any more. *)
Theorem udp_loop_delivers ntop rs buffer u :
  running_ u = true -> receive_callback_ u = true -> zlen buffer = BUFFER_SIZE -> Forall small rs ->
  exists calls buffer' u', receive_loop ntop rs buffer u = (calls, buffer', u')
    /\ seen <$> calls = payloads ntop (before_error rs)
    /\ initialized_ u' = initialized_ u /\ running_ u' = true
    /\ (RecvError ∈ rs -> receive_thread_ u' = Ended) /\ (RecvError ∉ rs -> u' = u).
Proof.
  intros Hr Hc Hb Hs. destruct (receive_loop_calls ntop rs buffer u Hr Hc Hb Hs) as (buffer' & He & Hcalls & _).
  eexists _, _, _. split; [exact He|]. split; [exact Hcalls|]. case_bool_decide as E; cbn; by repeat split.
Qed.

(** ** Bytes of an earlier datagram *)

Lemma mem_rd_app_l o n buf x d : mem_rd o n buf = Ret d -> mem_rd o n (buf ++ x) = Ret d.
Proof.
  unfold mem_rd at 1, in_bounds. case_match eqn:E; [|done]. btest. intros [= <-]. pose proof (zlen_nonneg x).
  rewrite mem_rd_ok by (rewrite ?zlen_app; lia). f_equal. by apply slice_app_l.
Qed.

(** What follows a valid packet in memory does not matter. *)
Lemma isValid_app buf x b : isValid buf = Ret b -> isValid (buf ++ x) = Ret b.
Proof.
  unfold isValid, view. destruct (mem_rd 0 offsetof_data buf) as [h|] eqn:Eh; [|done].
  rewrite (mem_rd_app_l _ _ _ _ _ Eh). cbn [outcome_bind]. unfold isValid_packet. repeat (case_match; [done|]).
  unfold calculateChecksum. destruct (mem_rd offsetof_data _ buf) as [d|] eqn:Ed; [|done].
  by rewrite (mem_rd_app_l _ _ _ _ _ Ed).
Qed.

Lemma splice_take (n : nat) (packet rest : list Z) : splice 0 (take n packet) (packet ++ rest) = packet ++ rest.
Proof.
  unfold splice. simpl. rewrite length_take. destruct (Nat.le_gt_cases n (length packet)).
  - rewrite Nat.min_l, drop_app_le, app_assoc, take_drop by lia. done.
  - rewrite Nat.min_r, take_ge, drop_app_length by lia. done.
Qed.

(** The buffer keeps the bytes of earlier datagrams and [isValid] is not told how many bytes
    arrived: a datagram that follows a valid packet and carries only the beginning of it, the fixed
    fields at least, is accepted as if it were complete. *)
Theorem udp_truncated_accepted ntop packet n a b buffer u :
  running_ u = true -> receive_callback_ u = true -> zlen buffer = BUFFER_SIZE -> zlen packet <= BUFFER_SIZE ->
  isValid packet = Ret true -> sizeof_MessagePacket <= n <= zlen packet ->
  exists c1 c2, (receive_loop ntop [Datagram packet a; Datagram (take (Z.to_nat n) packet) b] buffer u).1.1 = [c1; c2]
    /\ ca_size c2 = n /\ ca_from c2 = ntop b /\ ca_buffer c2 = ca_buffer c1 /\ isValid (ca_buffer c2) = Ret true.
Proof.
  intros Hr Hc Hb Hp Hv Hn. unfold sizeof_MessagePacket in Hn.
  assert (zlen (take (Z.to_nat n) packet) = n) as Hz by (unfold zlen in *; rewrite length_take; lia).
  assert (splice 0 packet buffer = packet ++ drop (length packet) buffer) as E1 by (unfold splice; done).
  cbn [receive_loop]. unfold receive_round. rewrite Hr, Hc. cbn [negb].
  rewrite !take_small by (rewrite ?Hz; lia). rewrite Hz, (proj2 (Z.ltb_lt 0 (zlen packet))), (proj2 (Z.ltb_lt 0 n)) by lia.
  cbn [fst snd option_list app]. rewrite E1, splice_take. eexists _, _. split; [done|]. cbn [ca_size ca_from ca_buffer].
  do 3 (split; [done|]). by apply isValid_app.
Qed.

(** ** Witnesses *)

Lemma empty_buffer_zlen : zlen empty_buffer = BUFFER_SIZE.
Proof. unfold empty_buffer, zlen. rewrite length_replicate. reflexivity. Qed.

(** A kernel on which every call works and the system picks port 47200. *)
Definition calls_ok : socket_calls := mkSocketCalls 7 0 (fun _ => 0) (Some (htons 47200)).

Definition opened : UdpTransport := mkUdp 7 47200 true true Looping true.


Lemma udp_loop_delivers_witness :
  exists calls buffer' u',
    receive_loop (fun _ => "10.0.0.1"%string)
      [Datagram [1; 2; 3] [10; 0; 0; 1]; WouldBlock; Datagram [] [10; 0; 0; 1]; Datagram [4] [10; 0; 0; 1]; RecvError;
       Datagram [5] [10; 0; 0; 1]] empty_buffer opened = (calls, buffer', u')
    /\ seen <$> calls = [([1; 2; 3], "10.0.0.1"%string); ([4], "10.0.0.1"%string)]
    /\ initialized_ u' = true /\ receive_thread_ u' = Ended.
Proof.
  destruct (udp_loop_delivers (fun _ => "10.0.0.1"%string)
    [Datagram [1; 2; 3] [10; 0; 0; 1]; WouldBlock; Datagram [] [10; 0; 0; 1]; Datagram [4] [10; 0; 0; 1]; RecvError;
     Datagram [5] [10; 0; 0; 1]] empty_buffer opened eq_refl eq_refl empty_buffer_zlen)
    as (calls & buffer' & u' & He & Hc & Hi & _ & Hend & _).
  { repeat constructor; discriminate. }
  exists calls, buffer', u'. split; [exact He|]. split; [exact Hc|]. split; [exact Hi|]. apply Hend. set_solver.
Defined.

Definition hello : list Z :=
  match build "n" "g" "t" [104; 105; 33; 33; 33] 47200 DATA with Ret buf => buf | UB => [] end.

(** The second datagram carries the first byte of the five bytes of payload. *)
Lemma udp_truncated_accepted_witness :
  exists c1 c2,
    (receive_loop (fun _ => "10.0.0.1"%string) [Datagram hello [10; 0; 0; 1]; Datagram (take 89 hello) [10; 0; 0; 1]]
       empty_buffer opened).1.1 = [c1; c2]
    /\ zlen hello = 95 /\ ca_size c2 = 89 /\ isValid (ca_buffer c2) = Ret true.
Proof.
  destruct (udp_truncated_accepted (fun _ => "10.0.0.1"%string) hello 89 [10; 0; 0; 1] [10; 0; 0; 1] empty_buffer opened
    eq_refl eq_refl empty_buffer_zlen) as (c1 & c2 & He & Hs & _ & _ & Hv).
  - vm_compute. discriminate.
  - vm_compute. reflexivity.
  - vm_compute. split; discriminate.
  - exists c1, c2. split; [exact He|]. split; [vm_compute; reflexivity|]. by split.
Defined.
