(* ===== verification/CStrings.v ===== *)
(** * Numbers in strings

    The part of the C and C++ library that the configuration and the UDP addresses use:
    [strtol] in base ten, [std::atoi], [std::stoi], [std::to_string],
    [std::string::find] and [substr]. *)

From stdpp Require Import pretty.
From S2P Require Import Prelude.

Definition is_space (b : Z) : bool := (b =? 32) || ((9 <=? b) && (b <=? 13)).

Definition is_digit (b : Z) : bool := (48 <=? b) && (b <=? 57).

Fixpoint skip_spaces (l : list Z) : list Z :=
  match l with
  | b :: r => if is_space b then skip_spaces r else l
  | [] => []
  end.

(** The value of the leading digits, after [acc]. *)
Fixpoint digits_value (acc : Z) (l : list Z) : Z :=
  match l with
  | b :: r => if is_digit b then digits_value (10 * acc + (b - 48)) r else acc
  | [] => acc
  end.

(** [strtol] without its range: [None] when no digit follows the spaces and sign. *)
Definition parse_int (l : list Z) : option Z :=
  let l := skip_spaces l in
  let '(sign, l) := match l with
                    | 45 :: r => (-1, r)
                    | 43 :: r => (1, r)
                    | _ => (1, l)
                    end in
  match l with
  | b :: _ => if is_digit b then Some (sign * digits_value 0 l) else None
  | [] => None
  end.

(** The saturation of [strtol] at the range of a 64-bit [long]. *)
Definition saturate (z : Z) : Z := Z.max (- 2 ^ 63) (Z.min (2 ^ 63 - 1) z).

(** [std::atoi] as glibc has it: [(int) strtol(s, nullptr, 10)]. *)
Definition atoi (s : string) : Z := i32 (saturate (from_option id 0 (parse_int (until_nul (bytes_of_string s))))).

Definition atoll (s : string) : Z := saturate (from_option id 0 (parse_int (until_nul (bytes_of_string s)))).

(** [std::stoi]: [None] is one of its exceptions. *)
Definition stoi (s : string) : option Z :=
  match parse_int (until_nul (bytes_of_string s)) with
  | Some z => if (- 2 ^ 31 <=? z) && (z <? 2 ^ 31) then Some z else None
  | None => None
  end.

Definition to_string (z : Z) : string := pretty z.

(** [s.find(c)] for one character, and the two substrings around it. *)
Definition split_at (c : Z) (s : string) : option (string * string) :=
  match list_find (fun b => b = c) (bytes_of_string s) with
  | Some (i, _) => Some (string_of_bytes (take i (bytes_of_string s)), string_of_bytes (drop (S i) (bytes_of_string s)))
  | None => None
  end.

(** ** Facts *)

Lemma i32_range z : - 2 ^ 31 <= i32 z < 2 ^ 31.
Proof. unfold i32. pose proof (Z.mod_pos_bound (z + 2 ^ 31) (2 ^ 32)). lia. Qed.
