(* ===== verification/Config.v ===== *)
(** * Configuration

    Models [include/nexus/core/Config.h] and [src/core/Config.cpp]: the defaults, the
    environment variables and the memory estimate. Sizes are 64-bit. *)

From S2P Require Import Prelude CStrings.

Record NodeConfig := mkNodeConfig {
  nc_max_inbound_queues : Z;
  nc_queue_capacity : Z;
  num_processing_threads : Z;
  max_queue_size : Z
}.

Record TransportConfig := mkTransportConfig {
  enable_udp : bool;
  udp_port_base : Z;
  udp_port_max : Z
}.

Record SharedMemoryConfig := mkShmConfig {
  sc_queue_capacity : Z;
  sc_max_inbound_queues : Z;
  heartbeat_interval_ms : Z;
  node_timeout_ms : Z;
  message_size : Z
}.

Record LargeDataConfig := mkLargeConfig {
  lc_buffer_size : Z;
  lc_max_block_size : Z
}.

Record Config := mkConfiguration {
  cf_node : NodeConfig;
  cf_transport : TransportConfig;
  cf_shm : SharedMemoryConfig;
  cf_large_data : LargeDataConfig
}.

(** The values of [Config()], and so of [Config::instance()] before any change. *)
Definition default_configuration : Config :=
  mkConfiguration (mkNodeConfig 32 1024 4 25000) (mkTransportConfig true 47200 47999)
    (mkShmConfig 1024 64 1000 5000 2048) (mkLargeConfig (64 * 1024 * 1024) (8 * 1024 * 1024)).

Definition clamp (val min max : Z) : Z := if val <? min then min else if max <? val then max else val.

(** [loadFromEnv]; [getenv] is the environment. *)
Definition loadFromEnv (getenv : string -> option string) (c : Config) : Config :=
  let set name (f : string -> Z) old := match getenv name with Some v => f v | None => old end in
  let size v := u64 (atoi v) in
  let n := cf_node c in
  let s := cf_shm c in
  let l := cf_large_data c in
  mkConfiguration
    (mkNodeConfig
       (set "NEXUS_MAX_INBOUND_QUEUES"%string (fun v => clamp (size v) 8 64) (nc_max_inbound_queues n))
       (set "NEXUS_QUEUE_CAPACITY"%string (fun v => clamp (size v) 64 1024) (nc_queue_capacity n))
       (set "NEXUS_NUM_THREADS"%string (fun v => clamp (size v) 1 16) (num_processing_threads n))
       (set "NEXUS_MAX_QUEUE_SIZE"%string size (max_queue_size n)))
    (cf_transport c)
    (mkShmConfig
       (set "NEXUS_SHM_QUEUE_CAPACITY"%string (fun v => clamp (size v) 64 1024) (sc_queue_capacity s))
       (sc_max_inbound_queues s)
       (set "NEXUS_HEARTBEAT_INTERVAL_MS"%string (fun v => u32 (atoi v)) (heartbeat_interval_ms s))
       (set "NEXUS_NODE_TIMEOUT_MS"%string (fun v => u32 (atoi v)) (node_timeout_ms s))
       (message_size s))
    (mkLargeConfig
       (set "NEXUS_BUFFER_SIZE"%string (fun v => u64 (atoll v)) (lc_buffer_size l))
       (set "NEXUS_MAX_BLOCK_SIZE"%string (fun v => u64 (atoll v)) (lc_max_block_size l))).

Definition calculateMemoryFootprint (c : Config) : Z :=
  let shm_memory := u64 (u64 (nc_max_inbound_queues (cf_node c) * sc_queue_capacity (cf_shm c)) * message_size (cf_shm c)) in
  let large_data_memory := lc_buffer_size (cf_large_data c) in
  let async_memory := u64 (u64 (num_processing_threads (cf_node c) * max_queue_size (cf_node c)) * 256) in
  u64 (u64 (shm_memory + large_data_memory) + async_memory).

(** ** Bounds *)

(** The ranges the code enforces. *)
Record config_ok (c : Config) : Prop := mkConfigOk {
  co_inbound : 8 <= nc_max_inbound_queues (cf_node c) <= 64;
  co_capacity : 64 <= nc_queue_capacity (cf_node c) <= 1024;
  co_threads : 1 <= num_processing_threads (cf_node c) <= 16;
  co_shm_capacity : 64 <= sc_queue_capacity (cf_shm c) <= 1024
}.

Lemma clamp_range val min max : min <= max -> min <= clamp val min max <= max.
Proof. intros H. unfold clamp. repeat ctest; lia. Qed.

Lemma default_ok : config_ok default_configuration.
Proof. split; simpl; lia. Qed.

(** Whatever the environment holds (negative numbers, garbage, overlong
    numbers), loading keeps the clamped settings in their ranges; a negative value counts as
    the largest. Only the clamped settings are bounded: every value below [2^31] of
    NEXUS_MAX_QUEUE_SIZE is taken as it is, 0 included. *)
Theorem loadFromEnv_bounds getenv c :
  config_ok c -> config_ok (loadFromEnv getenv c)
  /\ (forall v, getenv "NEXUS_NUM_THREADS"%string = Some v -> atoi v < 0 ->
        num_processing_threads (cf_node (loadFromEnv getenv c)) = 16)
  /\ (forall v, getenv "NEXUS_MAX_QUEUE_SIZE"%string = Some v -> 0 <= atoi v ->
        max_queue_size (cf_node (loadFromEnv getenv c)) = atoi v).
Proof.
  intros [H1 H2 H3 H4]. split; [|split].
  - split; cbn; case_match; try done; apply clamp_range; lia.
  - intros v Hv Hneg. cbn. rewrite Hv. unfold clamp, u64, wrap.
    assert (- 2 ^ 31 <= atoi v) by (unfold atoi; apply i32_range).
    assert (atoi v mod 2 ^ 64 = atoi v + 2 ^ 64) as -> by (rewrite <- (Z.mod_add _ 1), Z.mod_small; lia).
    repeat ctest; lia.
  - intros v Hv Hpos. cbn. rewrite Hv. apply wrap_small. unfold atoi in *.
    pose proof (i32_range (saturate (from_option id 0 (parse_int (until_nul (bytes_of_string v)))))). lia.
Qed.

Definition demo_env (name : string) : option string :=
  if String.eqb name "NEXUS_NUM_THREADS" then Some "-3"%string
  else if String.eqb name "NEXUS_MAX_QUEUE_SIZE" then Some "0"%string else None.

Lemma loadFromEnv_bounds_witness :
  config_ok (loadFromEnv demo_env default_configuration)
  /\ num_processing_threads (cf_node (loadFromEnv demo_env default_configuration)) = 16
  /\ max_queue_size (cf_node (loadFromEnv demo_env default_configuration)) = 0.
Proof.
  destruct (loadFromEnv_bounds demo_env default_configuration default_ok) as (H1 & H2 & H3).
  split; [exact H1|]. split; [apply (H2 "-3"%string); reflexivity|apply (H3 "0"%string); [reflexivity|discriminate]].
Defined.
