(* ===== verification/NodeImpl.v ===== *)
(** * Nodes

    Models [include/nexus/core/NodeImpl.h] and [src/core/NodeImpl.cpp]: subscriptions,
    publication in and between processes, the message queues of the processing
    threads, system messages, service discovery, UDP heartbeats and large data. The state
    is that of a process: its nodes and its [GlobalRegistry]. What a
    node asks of its transports and of user callbacks is returned as a list of effects, in
    the order of the calls; the ids known to the shared-memory transport are an argument. *)

From S2P Require Import Prelude Os StdMap LargeDataChannel NodeTypes GlobalRegistry Message CStrings Config.

Module LD := LargeDataChannel.
Module GR := GlobalRegistry.

(** ** Constants *)

Definition NUM_PROCESSING_THREADS : nat := 4.

Definition PORT_BASE : Z := 47200.

Definition PORT_MAX : Z := 47999.

Definition PORT_COUNT : nat := 800.

Definition MAX_MESSAGE_BATCH_SIZE : nat := 16.

Definition MAX_SYSTEM_QUEUE_SIZE : Z := 1000.

Definition UDP_TIMEOUT_MS : Z := 5000.

(** ** State *)

Record PendingMessage := mkPending {
  pm_source : string;
  pm_group : string;
  pm_topic : string;
  pm_payload : list Z
}.

Inductive SystemMessageType := SM_SERVICE_REGISTER | SM_SERVICE_UNREGISTER | SM_NODE_JOIN | SM_NODE_LEAVE.

#[export] Instance SystemMessageType_eq_dec : EqDecision SystemMessageType.
Proof. solve_decision. Defined.

Record SystemMessage := mkSystem {
  sm_type : SystemMessageType;
  sm_source : string;
  sm_group : string;
  sm_topic : string;
  sm_payload : list Z
}.

(** A [std::set<std::string>] is a map to [unit]; a callback is a name. *)
Record SubscriptionInfo := mkSub {
  si_topics : smap unit;
  si_callback : nat
}.

(** The member [subscriptions] is never used. *)
Record RemoteNodeInfo := mkRemote {
  rn_node_id : string;
  rn_address : string;
  rn_port : Z;
  rn_last_heartbeat : Z
}.

(** [shm_] says that [shm_transport_v3_] exists and is initialized, [udp_] is the port of
    an initialized UDP transport. *)
Record NodeImpl := mkNode {
  node_id_ : string;
  use_udp_ : bool;
  transport_mode_ : TransportMode;
  running_ : bool;
  subscriptions_ : smap SubscriptionInfo;
  remote_nodes_ : smap RemoteNodeInfo;
  shm_ : bool;
  udp_ : option Z;
  large_channels_ : smap LD.channel;
  message_queues_ : list (list PendingMessage);
  dropped_messages_ : Z;
  system_queue_ : list SystemMessage;
  overflow_policy_ : QueueOverflowPolicy;
  overflow_callback_ : bool;
  service_discovery_callback_ : bool;
  cleanup_running_ : bool
}.

(** The nodes of the process that are alive, and its registry. *)
Record process := mkProcess {
  p_nodes : gmap handle NodeImpl;
  p_reg : GlobalRegistry
}.

Inductive effect :=
| ShmBroadcast (packet : list Z)
| ShmSend (dest : string) (packet : list Z)
| ShmDisconnect (node : string)
| UdpSend (packet : list Z) (ip : string) (port : Z)
| ServiceCallback (node : handle) (event : ServiceEvent) (svc : ServiceDescriptor)
| OverflowCallback (node : handle) (group topic : string) (total : Z)
| MessageCallback (node : handle) (callback : nat) (group topic : string) (payload : list Z).

(** ** Actions: state, effects and undefined behaviour *)

Definition act (A : Type) : Type := process -> outcome (A * process * list effect).

Definition ret {A : Type} (a : A) : act A := fun p => Ret (a, p, []).

Definition bind {A B : Type} (m : act A) (k : A -> act B) : act B := fun p =>
  match m p with
  | UB => UB
  | Ret (a, p1, e1) =>
      match k a p1 with
      | UB => UB
      | Ret (b, p2, e2) => Ret (b, p2, e1 ++ e2)
      end
  end.

Notation "'let!' x := m 'in' k" := (bind m (fun x => k))
  (at level 10, x binder, m at level 150, k at level 200) : nexus_scope.

Definition lift {A : Type} (o : outcome A) : act A := fun p => match o with Ret a => Ret (a, p, []) | UB => UB end.

Definition emit (es : list effect) : act unit := fun p => Ret (tt, p, es).

(** [this], and every access through a [shared_ptr]. *)
Definition node (h : handle) : act NodeImpl := fun p =>
  match p_nodes p !! h with Some n => Ret (n, p, []) | None => UB end.

Definition set_node (h : handle) (n : NodeImpl) : act unit := fun p =>
  Ret (tt, mkProcess (<[h := n]> (p_nodes p)) (p_reg p), []).

Definition registry {A : Type} (f : GlobalRegistry -> A) : act A := fun p => Ret (f (p_reg p), p, []).

Definition update_registry (f : GlobalRegistry -> GlobalRegistry) : act unit := fun p =>
  Ret (tt, mkProcess (p_nodes p) (f (p_reg p)), []).

Fixpoint for_each {A : Type} (l : list A) (f : A -> act unit) : act unit :=
  match l with
  | [] => ret tt
  | x :: r => let! _ := f x in for_each r f
  end.

Definition unless (b : bool) (m : act unit) : act unit := if b then ret tt else m.

Definition getAllNodes : act (list handle) := fun p =>
  let '(l, g) := GR.getAllNodes (fun h => bool_decide (is_Some (p_nodes p !! h))) (p_reg p) in
  Ret (l, mkProcess (p_nodes p) g, []).

(** ** Updates of a node *)

Definition set_subscriptions (n : NodeImpl) (s : smap SubscriptionInfo) : NodeImpl :=
  mkNode (node_id_ n) (use_udp_ n) (transport_mode_ n) (running_ n) s (remote_nodes_ n) (shm_ n) (udp_ n)
    (large_channels_ n) (message_queues_ n) (dropped_messages_ n) (system_queue_ n) (overflow_policy_ n)
    (overflow_callback_ n) (service_discovery_callback_ n) (cleanup_running_ n).

Definition set_queues (n : NodeImpl) (qs : list (list PendingMessage)) (dropped : Z) : NodeImpl :=
  mkNode (node_id_ n) (use_udp_ n) (transport_mode_ n) (running_ n) (subscriptions_ n) (remote_nodes_ n) (shm_ n) (udp_ n)
    (large_channels_ n) qs dropped (system_queue_ n) (overflow_policy_ n)
    (overflow_callback_ n) (service_discovery_callback_ n) (cleanup_running_ n).

Definition set_system (n : NodeImpl) (q : list SystemMessage) : NodeImpl :=
  mkNode (node_id_ n) (use_udp_ n) (transport_mode_ n) (running_ n) (subscriptions_ n) (remote_nodes_ n) (shm_ n) (udp_ n)
    (large_channels_ n) (message_queues_ n) (dropped_messages_ n) q (overflow_policy_ n)
    (overflow_callback_ n) (service_discovery_callback_ n) (cleanup_running_ n).

Definition set_remote (n : NodeImpl) (r : smap RemoteNodeInfo) : NodeImpl :=
  mkNode (node_id_ n) (use_udp_ n) (transport_mode_ n) (running_ n) (subscriptions_ n) r (shm_ n) (udp_ n)
    (large_channels_ n) (message_queues_ n) (dropped_messages_ n) (system_queue_ n) (overflow_policy_ n)
    (overflow_callback_ n) (service_discovery_callback_ n) (cleanup_running_ n).

Definition set_channels (n : NodeImpl) (c : smap LD.channel) : NodeImpl :=
  mkNode (node_id_ n) (use_udp_ n) (transport_mode_ n) (running_ n) (subscriptions_ n) (remote_nodes_ n) (shm_ n) (udp_ n)
    c (message_queues_ n) (dropped_messages_ n) (system_queue_ n) (overflow_policy_ n)
    (overflow_callback_ n) (service_discovery_callback_ n) (cleanup_running_ n).

Definition set_options (n : NodeImpl) (p : QueueOverflowPolicy) (ocb scb : bool) : NodeImpl :=
  mkNode (node_id_ n) (use_udp_ n) (transport_mode_ n) (running_ n) (subscriptions_ n) (remote_nodes_ n) (shm_ n) (udp_ n)
    (large_channels_ n) (message_queues_ n) (dropped_messages_ n) (system_queue_ n) p ocb scb (cleanup_running_ n).

Definition set_links (n : NodeImpl) (shm : bool) (udp : option Z) (cleanup : bool) : NodeImpl :=
  mkNode (node_id_ n) (use_udp_ n) (transport_mode_ n) (running_ n) (subscriptions_ n) (remote_nodes_ n) shm udp
    (large_channels_ n) (message_queues_ n) (dropped_messages_ n) (system_queue_ n) (overflow_policy_ n)
    (overflow_callback_ n) (service_discovery_callback_ n) cleanup.

Definition set_running (n : NodeImpl) (r : bool) : NodeImpl :=
  mkNode (node_id_ n) (use_udp_ n) (transport_mode_ n) r (subscriptions_ n) (remote_nodes_ n) (shm_ n) (udp_ n)
    (large_channels_ n) (message_queues_ n) (dropped_messages_ n) (system_queue_ n) (overflow_policy_ n)
    (overflow_callback_ n) (service_discovery_callback_ n) (cleanup_running_ n).

(** The members of a new node. *)
Definition new_node (id : string) (use_udp : bool) (mode : TransportMode) : NodeImpl :=
  mkNode id use_udp mode true [] [] false None [] (replicate NUM_PROCESSING_THREADS []) 0 [] DROP_OLDEST false false false.

Definition getUdpPort (n : NodeImpl) : Z := from_option id 0 (udp_ n).

Definition setQueueOverflowPolicy (p : QueueOverflowPolicy) (n : NodeImpl) : NodeImpl :=
  set_options n p (overflow_callback_ n) (service_discovery_callback_ n).

Definition setQueueOverflowCallback (cb : bool) (n : NodeImpl) : NodeImpl :=
  set_options n (overflow_policy_ n) cb (service_discovery_callback_ n).

Definition setServiceDiscoveryCallback (cb : bool) (n : NodeImpl) : NodeImpl :=
  set_options n (overflow_policy_ n) (overflow_callback_ n) cb.

Definition isSubscribed (group topic : string) (n : NodeImpl) : bool :=
  match sm_find group (subscriptions_ n) with
  | Some s => match sm_find topic (si_topics s) with Some _ => true | None => false end
  | None => false
  end.

(** ** The queues of the processing threads *)

(** The thread of a topic; [hash] is [std::hash<std::string>]. *)
Definition thread_of (hash : string -> Z) (group topic : string) : nat :=
  Z.to_nat (hash (group +:+ ":" +:+ topic) mod Z.of_nat NUM_PROCESSING_THREADS).

(** [enqueueMessage] on the node itself. After [DROP_OLDEST] the overflow callback reads the
    popped element; [pop] on an empty queue is undefined too. *)
Definition enqueueMessage (hash : string -> Z) (max_size : Z) (h : handle) (source group topic : string)
    (payload : list Z) (n : NodeImpl) : outcome (NodeImpl * list effect) :=
  if negb (isSubscribed group topic n) then Ret (n, [])
  else
    let msg := mkPending source group topic payload in
    let i := thread_of hash group topic in
    let queue := nth i (message_queues_ n) [] in
    let put q dropped := set_queues n (<[i := q]> (message_queues_ n)) dropped in
    if max_size <=? zlen queue then
      let total := u64 (dropped_messages_ n + 1) in
      match overflow_policy_ n, queue with
      | DROP_OLDEST, _ :: rest => if overflow_callback_ n then UB else Ret (put (rest ++ [msg]) total, [])
      | DROP_OLDEST, [] => UB
      | DROP_NEWEST, _ =>
          Ret (put queue total, if overflow_callback_ n then [OverflowCallback h group topic total] else [])
      | BLOCK, _ :: rest => Ret (put (rest ++ [msg]) (dropped_messages_ n), [])
      | BLOCK, [] => UB
      end
    else Ret (put (queue ++ [msg]) (dropped_messages_ n), []).

Definition handleMessage (hash : string -> Z) (max_size : Z) (h : handle) (source group topic : string)
    (payload : list Z) : act unit :=
  let! n := node h in
  let! r := lift (enqueueMessage hash max_size h source group topic payload n) in
  let! _ := set_node h r.1 in
  emit r.2.

(** The callback for one message of a batch. *)
Definition dispatch (h : handle) (n : NodeImpl) (m : PendingMessage) : list effect :=
  match sm_find (pm_group m) (subscriptions_ n) with
  | Some s => [MessageCallback h (si_callback s) (pm_group m) (pm_topic m) (pm_payload m)]
  | None => []
  end.

(** One round of [messageProcessingThread] number [i]. *)
Definition process_batch (h : handle) (i : nat) (n : NodeImpl) : NodeImpl * list effect :=
  if negb (running_ n) then (n, [])
  else
    let queue := nth i (message_queues_ n) [] in
    let batch := take MAX_MESSAGE_BATCH_SIZE queue in
    (set_queues n (<[i := drop MAX_MESSAGE_BATCH_SIZE queue]> (message_queues_ n)) (dropped_messages_ n),
     batch ≫= dispatch h n).

(** A system message; an empty payload stands for a null pointer too. *)
Definition enqueueSystemMessage (m : SystemMessage) (n : NodeImpl) : NodeImpl :=
  let q := if MAX_SYSTEM_QUEUE_SIZE <=? zlen (system_queue_ n) then tail (system_queue_ n) else system_queue_ n in
  set_system n (q ++ [m]).

Record QueueStats := mkQueueStats {
  queue_depth : list Z;
  total_dropped : Z
}.

Definition getQueueStats (n : NodeImpl) : QueueStats :=
  mkQueueStats (zlen <$> message_queues_ n) (dropped_messages_ n).

(** ** Services on the wire *)

Definition encode_service (svc : ServiceDescriptor) : list Z :=
  let channel_len := u8 (str_size (sd_channel_name svc)) in
  let udp_addr_len := u16 (str_size (sd_udp_address svc)) in
  [u8 (ServiceType_code (sd_type svc)); u8 (TransportType_code (sd_transport svc)); channel_len;
   Z.land udp_addr_len 0xFF; Z.land (Z.shiftr udp_addr_len 8) 0xFF]
  ++ (if 0 <? channel_len then bytes_of_string (sd_channel_name svc) else [])
  ++ (if 0 <? udp_addr_len then bytes_of_string (sd_udp_address svc) else []).

Definition decode_service (from group topic : string) (payload : list Z) : option ServiceDescriptor :=
  match payload with
  | ty :: tr :: channel_len :: lo :: hi :: rest =>
      let udp_addr_len := Z.lor lo (Z.shiftl hi 8) in
      if zlen payload <? 5 + channel_len + udp_addr_len then None
      else
        Some (mkService from group topic (ServiceType_of ty) (string_of_bytes (take (Z.to_nat channel_len) rest))
                (TransportType_of tr)
                (string_of_bytes (take (Z.to_nat udp_addr_len) (drop (Z.to_nat channel_len) rest))))
  | _ => None
  end.

(** The address and port behind "ip:port"; the unspecified address stands for the local host. *)
Definition parse_endpoint (endpoint : string) : option (string * Z) :=
  match split_at 58 endpoint with
  | Some (ip, port) =>
      if str_empty ip || str_empty port then None
      else
        match stoi port with
        | Some z => Some (if String.eqb ip "0.0.0.0" then "127.0.0.1"%string else ip, u16 z)
        | None => None
        end
  | None => None
  end.

(** The distinct addresses of the UDP services of other nodes, in set order. *)
Definition udp_endpoints (self : string) (svcs : list ServiceDescriptor) : list string :=
  sm_keys (foldr (fun a s => sm_insert a tt s) []
    (sd_udp_address <$> filter (fun d => sd_transport d = UDP /\ sd_node_id d <> self /\ str_empty (sd_udp_address d) = false) svcs)).

Definition send_to_endpoints (packet : list Z) (endpoints : list string) : list effect :=
  endpoints ≫= fun a => match parse_endpoint a with Some (ip, port) => [UdpSend packet ip port] | None => [] end.

Definition all_services : act (list ServiceDescriptor) := registry (GR.findServices "").

Definition broadcastServiceUpdate (h : handle) (svc : ServiceDescriptor) (is_add : bool) : act unit :=
  let! n := node h in
  let! packet := lift (build (node_id_ n) (sd_group svc) (sd_topic svc) (encode_service svc) (getUdpPort n)
                         (if is_add then SERVICE_REGISTER else SERVICE_UNREGISTER)) in
  let! _ := emit (if shm_ n then [ShmBroadcast packet] else []) in
  match udp_ n with
  | None => ret tt
  | Some _ =>
      let! svcs := all_services in
      emit (send_to_endpoints packet (udp_endpoints (node_id_ n) svcs))
  end.

Definition handleServiceUpdate (h : handle) (svc : ServiceDescriptor) (is_add : bool) : act unit :=
  let! n := node h in
  emit (if service_discovery_callback_ n
        then [ServiceCallback h (if is_add then SERVICE_ADDED else SERVICE_REMOVED) svc] else []).

Definition notifyNodeEvent (h : handle) (event : ServiceEvent) (id : string) : act unit :=
  let! n := node h in
  emit (if service_discovery_callback_ n
        then [ServiceCallback h event (mkService id "" "" ST_ALL "" INPROCESS "")] else []).

(** [f] for every other node of the process. *)
Definition for_others (h : handle) (f : handle -> act unit) : act unit :=
  let! n := node h in
  let! nodes := getAllNodes in
  for_each nodes (fun x => let! m := node x in unless (String.eqb (node_id_ m) (node_id_ n)) (f x)).

Definition registerService (h : handle) (svc : ServiceDescriptor) : act unit :=
  let! _ := update_registry (GR.registerService (sd_group svc) svc) in
  let! _ := for_others h (fun x => handleServiceUpdate x svc true) in
  broadcastServiceUpdate h svc true.

Definition unregisterService (h : handle) (svc : ServiceDescriptor) : act unit :=
  let! _ := update_registry (GR.unregisterService (sd_group svc) svc) in
  let! _ := for_others h (fun x => handleServiceUpdate x svc false) in
  broadcastServiceUpdate h svc false.

(** ** Subscriptions *)

Definition add_topics (topics : list string) (s : smap unit) : smap unit :=
  foldl (fun s t => if str_empty t then s else sm_insert t tt s) s topics.

Definition shm_service (n : NodeImpl) (group topic : string) : ServiceDescriptor :=
  mkService (node_id_ n) group topic NORMAL_MESSAGE "" SHARED_MEMORY "".

Definition udp_service (n : NodeImpl) (group topic : string) (port : Z) : ServiceDescriptor :=
  mkService (node_id_ n) group topic NORMAL_MESSAGE "" UDP ("0.0.0.0:" +:+ to_string port).

(** The services of one topic, for each transport in use. *)
Definition topic_services (n : NodeImpl) (group topic : string) : list ServiceDescriptor :=
  (if shm_ n then [shm_service n group topic] else [])
  ++ match udp_ n with Some port => [udp_service n group topic port] | None => [] end.

(** [subscribe]; no callback is [None]. *)
Definition subscribe (h : handle) (group : string) (topics : list string) (callback : option nat) : act Error :=
  match callback with
  | None => ret INVALID_ARG
  | Some cb =>
      if str_empty group || bool_decide (topics = []) then ret INVALID_ARG
      else
        let! n := node h in
        if negb (running_ n) then ret NOT_INITIALIZED
        else
          let old := from_option si_topics [] (sm_find group (subscriptions_ n)) in
          let n' := set_subscriptions n (sm_insert group (mkSub (add_topics topics old) cb) (subscriptions_ n)) in
          let! _ := set_node h n' in
          let! _ := for_each (filter (fun t => str_empty t = false) topics)
                      (fun t => for_each (topic_services n' group t) (registerService h)) in
          ret NO_ERROR
  end.

(** The topics that are subscribed, in the order given, each once, and the rest of the set. *)
Fixpoint remove_topics (topics : list string) (s : smap unit) : list string * smap unit :=
  match topics with
  | [] => ([], s)
  | t :: r =>
      match sm_find t s with
      | Some _ => let '(removed, s') := remove_topics r (sm_erase t s) in (t :: removed, s')
      | None => remove_topics r s
      end
  end.

Definition unsubscribe (h : handle) (group : string) (topics : list string) : act Error :=
  if str_empty group then ret INVALID_ARG
  else
    let! n := node h in
    if negb (running_ n) then ret NOT_INITIALIZED
    else
      match sm_find group (subscriptions_ n) with
      | None => ret NOT_FOUND
      | Some s =>
          let '(removed, rest) :=
            match topics with [] => (sm_keys (si_topics s), []) | _ => remove_topics topics (si_topics s) end in
          let subs := match rest with
                      | [] => sm_erase group (subscriptions_ n)
                      | _ => sm_insert group (mkSub rest (si_callback s)) (subscriptions_ n)
                      end in
          let n' := set_subscriptions n subs in
          let! _ := set_node h n' in
          let! _ := for_each removed (fun t => for_each (topic_services n' group t) (unregisterService h)) in
          ret NO_ERROR
      end.

(** ** Publication *)

Section Publish.
Context (hash : string -> Z) (cfg : Config).

Definition max_size : Z := max_queue_size (cf_node cfg).

Definition deliverInProcess (h : handle) (group topic : string) (payload : list Z) : act unit :=
  let! n := node h in
  let! nodes := getAllNodes in
  for_each nodes (fun x => unless (bool_decide (x = h)) (handleMessage hash max_size x (node_id_ n) group topic payload)).

(** The loop over the services: subscribers over shared memory, and over UDP. *)
Fixpoint choose (self : string) (local shm_nodes : list string) (topic : string) (delivered : list string)
    (svcs : list ServiceDescriptor) : list string * list (string * Z) :=
  match svcs with
  | [] => ([], [])
  | svc :: rest =>
      let skip := choose self local shm_nodes topic delivered rest in
      let id := sd_node_id svc in
      if negb (String.eqb (sd_topic svc) topic) then skip
      else if negb (bool_decide (sd_type svc = NORMAL_MESSAGE)) then skip
      else if String.eqb id self then skip
      else if bool_decide (id ∈ local) then skip
      else if bool_decide (id ∈ delivered) then skip
      else
        match sd_transport svc with
        | SHARED_MEMORY =>
            if bool_decide (id ∈ shm_nodes) then
              let '(s, u) := choose self local shm_nodes topic (id :: delivered) rest in (id :: s, u)
            else skip
        | UDP =>
            match parse_endpoint (sd_udp_address svc) with
            | Some a => let '(s, u) := choose self local shm_nodes topic (id :: delivered) rest in (s, a :: u)
            | None => skip
            end
        | _ => skip
        end
  end.

(** [shm_nodes] is what [getLocalNodes] of the transport returns. *)
Definition deliverInterProcess (h : handle) (shm_nodes : list string) (packet : list Z) (group topic : string) : act unit :=
  let! n := node h in
  let! services := registry (GR.findServices group) in
  match services with
  | [] => ret tt
  | _ =>
      let! nodes := getAllNodes in
      let! p := (fun p => Ret (p, p, [])) in
      let local := omap (fun x => node_id_ <$> p_nodes p !! x) nodes in
      let '(shm_subscribers, udp_subscribers) :=
        choose (node_id_ n) local (if shm_ n then shm_nodes else []) topic [] services in
      let! _ := emit (if shm_ n then (fun d => ShmSend d packet) <$> shm_subscribers else []) in
      emit (match udp_ n with
            | Some _ => (fun a => UdpSend packet a.1 a.2) <$> udp_subscribers
            | None => []
            end)
  end.

Definition publish (h : handle) (shm_nodes : list string) (group topic : string) (payload : list Z) : act Error :=
  if str_empty group || str_empty topic then ret INVALID_ARG
  else
    let! n := node h in
    if negb (running_ n) then ret NOT_INITIALIZED
    else
      let! packet := lift (build (node_id_ n) group topic payload (getUdpPort n) DATA) in
      let! _ := deliverInProcess h group topic payload in
      let! _ := deliverInterProcess h shm_nodes packet group topic in
      ret NO_ERROR.

(** ** Large data *)

(** [LargeDataNotification] *)
Definition notification (seq size : Z) (channel topic : string) : list Z :=
  le_enc 8 (u64 seq) ++ le_enc 4 (u32 size) ++ le_enc 4 0 ++ (strncpy 31 channel ++ [0]) ++ (strncpy 63 topic ++ [0])
  ++ replicate 16 0.

(** [getLargeDataChannel]; [created] is the result of [LargeDataChannel::create] for a name not
    yet in the map. *)
Definition getLargeDataChannel (created : option LD.channel) (name : string) (n : NodeImpl) : option LD.channel * NodeImpl :=
  if str_empty name then (None, n)
  else
    match sm_find name (large_channels_ n) with
    | Some ch => (Some ch, n)
    | None =>
        match created with
        | Some ch => (Some ch, set_channels n (sm_insert name ch (large_channels_ n)))
        | None => (None, n)
        end
    end.

(** [sendLargeData] on the shared object [sh] of the channel; [last] is the static
    [last_cleanup] of the channel code. *)
Definition sendLargeData (e : os) (created : option LD.channel) (last : Z) (sh : LD.shared) (h : handle)
    (shm_nodes : list string) (group name topic : string) (data : list Z) : act (Error * Z * LD.shared) :=
  if str_empty group || str_empty name || str_empty topic || bool_decide (data = []) then ret (INVALID_ARG, last, sh)
  else
    let! n := node h in
    if negb (running_ n) then ret (NOT_INITIALIZED, last, sh)
    else
      let '(ch, n1) := getLargeDataChannel created name n in
      let! _ := set_node h n1 in
      match ch with
      | None => ret (UNEXPECTED_ERROR, last, sh)
      | Some ch =>
          if negb (LD.canWrite (LD.sizeof_LargeDataHeader + zlen data) (LD.control sh)) then ret (TIMEOUT, last, sh)
          else
            let! r := lift (LD.write e topic data ch last sh) in
            let! _ := set_node h (set_channels n1 (sm_insert name (LD.w_channel r) (large_channels_ n1))) in
            if LD.w_ret r <? 0 then ret (UNEXPECTED_ERROR, LD.w_last r, LD.w_shared r)
            else
              let! err := publish h shm_nodes group topic (notification (LD.w_ret r) (zlen data) name topic) in
              ret (err, LD.w_last r, LD.w_shared r)
      end.

(** ** Node events *)

Definition broadcastNodeEvent (h : handle) (is_joined : bool) : act unit :=
  let! n := node h in
  if negb (shm_ n) then ret tt
  else
    let! packet := lift (build (node_id_ n) "" "" [] (getUdpPort n) (if is_joined then NODE_JOIN else NODE_LEAVE)) in
    emit [ShmBroadcast packet].

Definition queryRemoteServices (h : handle) : act unit :=
  let! n := node h in
  if negb (shm_ n) then ret tt
  else
    let! packet := lift (build (node_id_ n) "" "" [] 0 SERVICE_REGISTER) in
    emit [ShmBroadcast packet].

(** [unregisterService] of the registry for each service of a departed node. *)
Definition forget_services (svcs : list ServiceDescriptor) : act unit :=
  for_each svcs (fun svc => update_registry (GR.unregisterService (sd_group svc) svc)).

Definition handleNodeEvent (h : handle) (from : string) (is_joined : bool) : act unit :=
  let! n := node h in
  if String.eqb from (node_id_ n) then ret tt
  else
    let! _ := notifyNodeEvent h (if is_joined then NODE_JOINED else NODE_LEFT) from in
    if is_joined then ret tt
    else
      let! svcs := all_services in
      let! _ := forget_services (filter (fun d => sd_node_id d = from) svcs) in
      emit (if shm_ n then [ShmDisconnect from] else []).

(** The node has just been put into the process under [h]. *)
Definition registerNode (h : handle) : act unit :=
  let! n := node h in
  let! p := (fun p => Ret (p, p, [])) in
  let is_new := bool_decide (GR.findNode (fun x => bool_decide (is_Some (p_nodes p !! x))) (node_id_ n) (p_reg p) = None) in
  let! _ := update_registry (GR.registerNode (node_id_ n) h) in
  if is_new then for_others h (fun x => notifyNodeEvent x NODE_JOINED (node_id_ n)) else ret tt.

(** ** Service messages *)

Definition handleServiceMessage (h : handle) (from group topic : string) (payload : list Z) (is_register : bool) : act unit :=
  let! n := node h in
  if String.eqb from (node_id_ n) then ret tt
  else if is_register && bool_decide (payload = []) then
    let! svcs := all_services in
    for_each (filter (fun d => sd_node_id d = node_id_ n) svcs) (fun svc =>
      let! packet := lift (build (node_id_ n) (sd_group svc) (sd_topic svc) (encode_service svc) (getUdpPort n) SERVICE_REGISTER) in
      emit (if shm_ n then [ShmSend from packet] else []))
  else
    match decode_service from group topic payload with
    | None => ret tt
    | Some svc =>
        let! _ := update_registry (fun g => if is_register then GR.registerService group svc g
                                             else GR.unregisterService group svc g) in
        handleServiceUpdate h svc is_register
    end.

(** One message of [systemMessageThread]. *)
Definition system_step (h : handle) : act unit :=
  let! n := node h in
  match system_queue_ n with
  | [] => ret tt
  | m :: rest =>
      let! _ := set_node h (set_system n rest) in
      match sm_type m with
      | SM_SERVICE_REGISTER => handleServiceMessage h (sm_source m) (sm_group m) (sm_topic m) (sm_payload m) true
      | SM_SERVICE_UNREGISTER => handleServiceMessage h (sm_source m) (sm_group m) (sm_topic m) (sm_payload m) false
      | SM_NODE_JOIN => handleNodeEvent h (sm_source m) true
      | SM_NODE_LEAVE => handleNodeEvent h (sm_source m) false
      end
  end.

Definition push_system (h : handle) (m : SystemMessage) : act unit :=
  let! n := node h in set_node h (enqueueSystemMessage m n).

(** ** Received packets *)

(** [std::string(packet->node_id)]: the characters up to the first NUL, wherever it is. *)
Definition source_of (buf : list Z) : outcome string :=
  let l := drop 20 buf in
  if bool_decide (0 ∈ l) then Ret (string_of_bytes (until_nul l)) else UB.

(** The common part of the two receive paths: the fields of a valid packet of another node. *)
Definition open_packet (h : handle) (buf : list Z)
    : act (option (MessagePacket * string * string * string * list Z)) :=
  let! n := node h in
  if zlen buf <? sizeof_MessagePacket then ret None
  else
    let! ok := lift (isValid buf) in
    if negb ok then ret None
    else
      let! source := lift (source_of buf) in
      if String.eqb source (node_id_ n) then ret None
      else
        let! r := lift (do! p := view buf in
                        do! group := getGroup p buf in
                        do! topic := getTopic p buf in
                        do! payload := getPayload p buf in
                        Ret (p, source, string_of_bytes group, string_of_bytes topic, payload)) in
        ret (Some r).

(** [processPacket], the callback of the shared-memory transport. *)
Definition processPacket (h : handle) (buf : list Z) : act unit :=
  let! r := open_packet h buf in
  match r with
  | None => ret tt
  | Some (p, source, group, topic, payload) =>
      match MessageType_of (msg_type p) with
      | Some DATA => handleMessage hash max_size h source group topic payload
      | Some SERVICE_REGISTER => push_system h (mkSystem SM_SERVICE_REGISTER source group topic payload)
      | Some SERVICE_UNREGISTER => push_system h (mkSystem SM_SERVICE_UNREGISTER source group topic payload)
      | Some NODE_JOIN => push_system h (mkSystem SM_NODE_JOIN source group topic [])
      | Some NODE_LEAVE => push_system h (mkSystem SM_NODE_LEAVE source group topic [])
      | _ => ret tt
      end
  end.

(** ** UDP *)

Definition sendUdpHeartbeat (h : handle) : act unit :=
  let! n := node h in
  match udp_ n with
  | None => ret tt
  | Some port =>
      let! packet := lift (build (node_id_ n) "" "" [] port HEARTBEAT) in
      let! svcs := all_services in
      emit (send_to_endpoints packet (udp_endpoints (node_id_ n) svcs))
  end.

(** [now] is the steady clock in milliseconds. *)
Definition handleUdpHeartbeat (now : Z) (h : handle) (from addr : string) (port : Z) : act unit :=
  let! n := node h in
  if String.eqb from (node_id_ n) then ret tt
  else
    let info := match sm_find from (remote_nodes_ n) with
                | Some i => mkRemote (rn_node_id i) (rn_address i) (rn_port i) now
                | None => mkRemote from addr port now
                end in
    set_node h (set_remote n (sm_insert from info (remote_nodes_ n))).

Definition timed_out (now : Z) (p : string * RemoteNodeInfo) : bool := UDP_TIMEOUT_MS <? now - rn_last_heartbeat p.2.

(** The services of the nodes that timed out. *)
Definition forget_peers (h : handle) (ids : list string) : act unit :=
  for_each ids (fun id =>
    let! svcs := all_services in
    let! _ := for_each (filter (fun d => sd_node_id d = id /\ sd_transport d = UDP) svcs) (fun svc =>
                let! _ := update_registry (GR.unregisterService (sd_group svc) svc) in
                handleServiceUpdate h svc false) in
    notifyNodeEvent h NODE_LEFT id).

Definition checkUdpTimeouts (now : Z) (h : handle) : act unit :=
  let! n := node h in
  let gone := (filter (fun p => timed_out now p = true) (remote_nodes_ n)).*1 in
  let! _ := set_node h (set_remote n (filter (fun p => timed_out now p = false) (remote_nodes_ n))) in
  forget_peers h gone.

(** The descriptor sent for a service: one over shared memory is offered over UDP. *)
Definition udp_offer (port : Z) (svc : ServiceDescriptor) : option ServiceDescriptor :=
  match sd_transport svc with
  | UDP => Some svc
  | SHARED_MEMORY =>
      Some (mkService (sd_node_id svc) (sd_group svc) (sd_topic svc) (sd_type svc) (sd_channel_name svc) UDP
              ("0.0.0.0:" +:+ to_string port))
  | _ => None
  end.

Definition handleQuerySubscriptions (h : handle) (from_port : Z) (from_addr : string) : act unit :=
  let! n := node h in
  match udp_ n with
  | None => ret tt
  | Some port =>
      if from_port =? 0 then ret tt
      else
        let ip := if str_empty from_addr || String.eqb from_addr "0.0.0.0" then "127.0.0.1"%string else from_addr in
        let! svcs := all_services in
        for_each (omap (udp_offer port) (filter (fun d => sd_node_id d = node_id_ n) svcs)) (fun svc =>
          let! packet := lift (build (node_id_ n) (sd_group svc) (sd_topic svc) (encode_service svc) port SERVICE_REGISTER) in
          emit [UdpSend packet ip from_port])
  end.

Definition queryExistingSubscriptions (h : handle) : act unit :=
  let! n := node h in
  let! packet := lift (build (node_id_ n) "" "" [] (getUdpPort n) QUERY_SUBSCRIPTIONS) in
  match udp_ n with
  | None => ret tt
  | Some my_port =>
      emit ((fun port => UdpSend packet "127.0.0.1" port)
              <$> filter (fun port => port <> my_port) (seqZ PORT_BASE (Z.of_nat PORT_COUNT)))
  end.

(** The receive callback of the UDP transport. *)
Definition udp_receive (now : Z) (h : handle) (buf : list Z) (from_addr : string) : act unit :=
  let! r := open_packet h buf in
  match r with
  | None => ret tt
  | Some (p, source, group, topic, payload) =>
      match MessageType_of (msg_type p) with
      | Some DATA => handleMessage hash max_size h source group topic payload
      | Some SERVICE_REGISTER => push_system h (mkSystem SM_SERVICE_REGISTER source group topic payload)
      | Some SERVICE_UNREGISTER => push_system h (mkSystem SM_SERVICE_UNREGISTER source group topic payload)
      | Some NODE_JOIN => push_system h (mkSystem SM_NODE_JOIN source group topic [])
      | Some NODE_LEAVE => push_system h (mkSystem SM_NODE_LEAVE source group topic [])
      | Some HEARTBEAT => handleUdpHeartbeat now h source from_addr (udp_port p)
      | Some QUERY_SUBSCRIPTIONS => handleQuerySubscriptions h (udp_port p) from_addr
      | _ => ret tt
      end
  end.

(** The next port to try, and the shared counter afterwards. Past the range the code means to
    restart at [PORT_BASE], by a compare-exchange of the value before the increment. *)
Definition next_target (next : Z) : Z * Z :=
  let after := u16 (next + 1) in
  if PORT_MAX <? next then
    let current := if after =? next then PORT_BASE else after in
    (current, u16 (current + 1))
  else (next, after).

(** The ports tried by [initialize]; [bind_ok k port] is the result of the [k]-th attempt and
    [next] the shared counter. *)
Fixpoint auto_port (bind_ok : nat -> Z -> bool) (k attempts : nat) (next : Z) : option Z * Z :=
  match attempts with
  | O => (None, next)
  | S attempts' =>
      let '(target, next') := next_target next in
      if bind_ok k target then (Some target, next') else auto_port bind_ok (S k) attempts' next'
  end.

(** [initialize]: [shm_ok] is the result of initialising the shared-memory transport,
    [bound] the UDP port that was bound, [existing] the nodes it lists. *)
Definition initialize (shm_ok : bool) (bound : option Z) (existing : list string) (h : handle) : act unit :=
  let! _ := registerNode h in
  let! n := node h in
  let shm := match transport_mode_ n with TM_UDP => false | _ => shm_ok end in
  let! _ := set_node h (set_links n shm None false) in
  let! _ := (if shm then
               let! _ := emit ((fun id => ShmSend id []) <$> filter (fun id => id <> node_id_ n) existing) in
               let! _ := queryRemoteServices h in
               broadcastNodeEvent h true
             else ret tt) in
  if use_udp_ n then
    match bound with
    | None => ret tt
    | Some port =>
        let! _ := set_node h (set_links n shm (Some port) false) in
        let! _ := queryExistingSubscriptions h in
        set_node h (set_links n shm (Some port) true)
    end
  else set_node h (set_links n shm None true).

(** ** End of a node *)

(** [unregisterNode], called while the object [n] is destroyed: its handle has expired. *)
Definition unregisterNode (n : NodeImpl) : act unit :=
  let! nodes := getAllNodes in
  let! _ := for_each nodes (fun x => let! m := node x in
              unless (String.eqb (node_id_ m) (node_id_ n)) (notifyNodeEvent x NODE_LEFT (node_id_ n))) in
  let! _ := (if shm_ n then
               let! packet := lift (build (node_id_ n) "" "" [] (getUdpPort n) NODE_LEAVE) in emit [ShmBroadcast packet]
             else ret tt) in
  update_registry (GR.unregisterNode (node_id_ n)).

(** [~NodeImpl] *)
Definition destroy (h : handle) : act unit :=
  let! n := node h in
  let! _ := (fun p => Ret (tt, mkProcess (delete h (p_nodes p)) (p_reg p), [])) in
  unregisterNode n.

(** ** Queries *)

Definition discoverServices (group : string) (type : ServiceType) (g : GlobalRegistry) : list ServiceDescriptor :=
  filter (fun d => type = ST_ALL \/ sd_type d = type) (GR.findServices group g).

(** Each node once, in the order of its first matching service. *)
Definition findNodesByCapability (capability : string) (g : GlobalRegistry) : list string :=
  foldl (fun r d => if bool_decide (sd_node_id d ∈ r) then r else r ++ [sd_node_id d]) []
    (filter (fun d => getCapability d = capability) (GR.findServices "" g)).

Definition findLargeDataChannels (group : string) (g : GlobalRegistry) : list ServiceDescriptor :=
  discoverServices group LARGE_DATA g.

(** ** Identity *)

(** The id of [createNode]. *)
Definition unique_node_id (e : os) (node_id : string) : string := node_id +:+ "_" +:+ to_string (getpid e).

End Publish.
