(* ===== verification/NodeSpec.v ===== *)
(** * Correctness of nodes

    The message queues and the order of delivery, subscriptions, the choice of
    subscribers, publication and service discovery between processes, the departure of
    nodes, and the selection of UDP ports. *)

From S2P Require Import Prelude Os StdMap LargeDataChannel NodeTypes GlobalRegistry Message CStrings Config NodeImpl.

(** ** The queues of one node *)

Section Queues.
Context (hash : string -> Z) (max : Z) (h : handle).
Implicit Types (n : NodeImpl) (m : PendingMessage).

(** Every message waits in the queue of its topic. *)
Record queues_wf n : Prop := mkQueuesWf {
  qw_count : length (message_queues_ n) = NUM_PROCESSING_THREADS;
  qw_home : forall i q, message_queues_ n !! i = Some q -> Forall (fun m => thread_of hash (pm_group m) (pm_topic m) = i) q
}.

Lemma thread_of_lt group topic : (thread_of hash group topic < NUM_PROCESSING_THREADS)%nat.
Proof.
  unfold thread_of. pose proof (Z.mod_pos_bound (hash (group +:+ ":" +:+ topic)) (Z.of_nat NUM_PROCESSING_THREADS)).
  unfold NUM_PROCESSING_THREADS in *. lia.
Qed.

(** The queue of a topic, and what it holds of that topic. *)
Definition queue_of n (group topic : string) : list PendingMessage := nth (thread_of hash group topic) (message_queues_ n) [].

Definition of_topic (group topic : string) (m : PendingMessage) : Prop := pm_group m = group /\ pm_topic m = topic.

#[local] Instance of_topic_dec group topic m : Decision (of_topic group topic m).
Proof. unfold of_topic. apply _. Defined.

Definition pending n (group topic : string) : list PendingMessage := filter (of_topic group topic) (queue_of n group topic).

Lemma queue_of_lookup n group topic :
  queues_wf n -> message_queues_ n !! thread_of hash group topic = Some (queue_of n group topic).
Proof.
  intros [Hc _]. unfold queue_of. pose proof (thread_of_lt group topic).
  destruct (lookup_lt_is_Some_2 (message_queues_ n) (thread_of hash group topic)) as [q Hq]; [lia|].
  rewrite Hq. f_equal. symmetry. by apply nth_lookup_Some.
Qed.

Lemma queues_wf_put n i q dropped :
  queues_wf n -> Forall (fun m => thread_of hash (pm_group m) (pm_topic m) = i) q ->
  queues_wf (set_queues n (<[i := q]> (message_queues_ n)) dropped).
Proof.
  intros [Hc Hh] Hq. split; cbn [set_queues message_queues_]; [by rewrite length_insert|].
  intros j q' Hj. destruct (decide (i = j)) as [<-|Hne].
  - destruct (decide (i < length (message_queues_ n))%nat).
    + rewrite list_lookup_insert_eq in Hj by done. by simplify_eq.
    + rewrite list_insert_ge in Hj by lia. by apply lookup_lt_Some in Hj.
  - rewrite list_lookup_insert_ne in Hj by done. by eapply Hh.
Qed.

Lemma queue_home n group topic :
  queues_wf n -> Forall (fun m => thread_of hash (pm_group m) (pm_topic m) = thread_of hash group topic) (queue_of n group topic).
Proof. intros Hwf. eapply qw_home; [done|]. by apply queue_of_lookup. Qed.

(** A message that finds room. *)
Lemma enqueue_room source group topic payload n :
  isSubscribed group topic n = true -> zlen (queue_of n group topic) < max ->
  enqueueMessage hash max h source group topic payload n
  = Ret (set_queues n (<[thread_of hash group topic := queue_of n group topic ++ [mkPending source group topic payload]]>
                         (message_queues_ n)) (dropped_messages_ n), []).
Proof.
  intros Hs Hr. unfold enqueueMessage. rewrite Hs. cbn [negb]. fold (queue_of n group topic).
  by rewrite (proj2 (Z.leb_gt _ _)).
Qed.

(** The pending messages of a topic after a queue was replaced. *)
Lemma pending_put n i q dropped group topic :
  queues_wf n ->
  pending (set_queues n (<[i := q]> (message_queues_ n)) dropped) group topic
  = if decide (i = thread_of hash group topic) then filter (of_topic group topic) q else pending n group topic.
Proof.
  intros [Hc _]. pose proof (thread_of_lt group topic). unfold pending, queue_of. cbn [set_queues message_queues_].
  case_decide as Hi.
  - subst i. f_equal. apply nth_lookup_Some. apply list_lookup_insert_eq. lia.
  - f_equal. rewrite !nth_lookup. by rewrite list_lookup_insert_ne.
Qed.


(** ** Runs *)

Inductive n_event :=
| NMessage (source group topic : string) (payload : list Z)
| NBatch (thread : nat).

Fixpoint n_run (evs : list n_event) n : outcome (NodeImpl * list effect) :=
  match evs with
  | [] => Ret (n, [])
  | NMessage source group topic payload :: rest =>
      do! '(n1, e1) := enqueueMessage hash max h source group topic payload n in
      do! '(n2, e2) := n_run rest n1 in
      Ret (n2, e1 ++ e2)
  | NBatch i :: rest =>
      let '(n1, e1) := process_batch h i n in
      do! '(n2, e2) := n_run rest n1 in
      Ret (n2, e1 ++ e2)
  end.

(** The payloads of one topic: sent, delivered and waiting. *)
Definition sent_to (group topic : string) (evs : list n_event) : list (list Z) :=
  evs ≫= fun ev => match ev with
                   | NMessage _ g t payload => if decide (g = group /\ t = topic) then [payload] else []
                   | NBatch _ => []
                   end.

Definition delivered_to (group topic : string) (es : list effect) : list (list Z) :=
  es ≫= fun e => match e with
                 | MessageCallback _ _ g t payload => if decide (g = group /\ t = topic) then [payload] else []
                 | _ => []
                 end.

(** The callbacks for a batch are those of its messages. *)
Lemma dispatch_delivers n batch group topic :
  (exists s, sm_find group (subscriptions_ n) = Some s) ->
  delivered_to group topic (batch ≫= dispatch h n) = pm_payload <$> filter (of_topic group topic) batch.
Proof.
  intros [s Hs]. induction batch as [|m batch IH]; [done|]. cbn [mbind list_bind]. unfold delivered_to in *.
  rewrite bind_app, IH, filter_cons. unfold of_topic at 3. unfold dispatch.
  case_decide as Hm.
  - destruct Hm as [<- <-]. rewrite Hs. cbn. by rewrite decide_True.
  - destruct (sm_find (pm_group m) (subscriptions_ n)); cbn; [|done]. by rewrite decide_False.
Qed.

Lemma pending_append n group topic m group' topic' :
  queues_wf n -> of_topic group topic m ->
  pending (set_queues n (<[thread_of hash group topic := queue_of n group topic ++ [m]]> (message_queues_ n)) (dropped_messages_ n))
    group' topic'
  = pending n group' topic' ++ (if decide (group = group' /\ topic = topic') then [m] else []).
Proof.
  intros Hwf [Hg Ht]. rewrite pending_put by done. case_decide as Hi.
  - unfold pending. rewrite filter_app. f_equal.
    + unfold queue_of. by rewrite Hi.
    + rewrite filter_cons, filter_nil. subst group topic. by apply decide_ext.
  - rewrite decide_False, app_nil_r; [done|]. intros [-> ->]. done.
Qed.

Lemma filter_other_home group topic i q :
  Forall (fun m => thread_of hash (pm_group m) (pm_topic m) = i) q -> thread_of hash group topic <> i ->
  filter (of_topic group topic) q = [].
Proof.
  intros Hq Hne. induction Hq as [|m q Hm Hq IH]; [done|]. rewrite filter_cons, decide_False; [done|].
  intros [<- <-]. done.
Qed.

Lemma batch_pending i n group topic :
  queues_wf n -> running_ n = true -> (exists s, sm_find group (subscriptions_ n) = Some s) ->
  let r := process_batch h i n in
  queues_wf r.1 /\ running_ r.1 = true /\ subscriptions_ r.1 = subscriptions_ n
  /\ pm_payload <$> pending n group topic = delivered_to group topic r.2 ++ (pm_payload <$> pending r.1 group topic).
Proof.
  intros Hwf Hrun Hsub r. unfold r, process_batch. rewrite Hrun. cbn [negb fst snd].
  set (q := nth i (message_queues_ n) []).
  assert (Forall (fun m => thread_of hash (pm_group m) (pm_topic m) = i) q) as Hq.
  { unfold q. rewrite nth_lookup. destruct (message_queues_ n !! i) as [q'|] eqn:E; [|constructor].
    by apply (qw_home _ Hwf i). }
  split; [apply queues_wf_put; [done|by apply Forall_drop]|]. split; [done|]. split; [done|].
  rewrite dispatch_delivers, pending_put by done. case_decide as Hi.
  - assert (pending n group topic = filter (of_topic group topic) q) as -> by (unfold pending, queue_of, q; by rewrite Hi).
    rewrite <- fmap_app, <- filter_app, take_drop. done.
  - rewrite (filter_other_home group topic i (take _ q)); [done|by apply Forall_take|done].
Qed.

(** The total length of the queues. *)
Definition backlog n : nat := length (concat (message_queues_ n)).

Lemma concat_insert_length (qs : list (list PendingMessage)) i q q' :
  qs !! i = Some q -> (length (concat (<[i := q']> qs)) + length q = length (concat qs) + length q')%nat.
Proof.
  intros Hi. rewrite insert_take_drop by (by eapply lookup_lt_Some).
  rewrite <- (take_drop_middle qs i q Hi) at 3. rewrite !concat_app. cbn [concat]. rewrite !length_app. lia.
Qed.

Lemma queue_le_backlog n group topic : queues_wf n -> (length (queue_of n group topic) <= backlog n)%nat.
Proof.
  intros Hwf. pose proof (queue_of_lookup n group topic Hwf) as Hq.
  pose proof (concat_insert_length _ _ _ [] Hq) as Hl. unfold backlog. simpl in Hl. lia.
Qed.

Lemma batch_backlog i n : (backlog (process_batch h i n).1 <= backlog n)%nat.
Proof.
  unfold process_batch. destruct (running_ n); cbn [negb fst]; [|lia]. unfold backlog. cbn [set_queues message_queues_].
  rewrite nth_lookup. destruct (message_queues_ n !! i) as [q|] eqn:E.
  - simpl. pose proof (concat_insert_length _ _ _ (drop MAX_MESSAGE_BATCH_SIZE q) E) as Hl. rewrite length_drop in Hl. lia.
  - rewrite list_insert_ge; [lia|]. by apply lookup_ge_None.
Qed.

Definition enqueues (evs : list n_event) : nat :=
  length (filter (fun ev => match ev with NMessage _ _ _ _ => true | NBatch _ => false end = true) evs).

(** C10: on a running node, any interleaving of arriving messages with rounds of the four
    processing threads delivers each subscribed topic in order: the payloads handed to the
    callback, followed by those still queued, are those that were queued at the start
    followed by those that arrived, none lost, duplicated or reordered, whatever the hash function;
    provided the queues cannot fill up. *)
Theorem topic_order evs n group topic :
  queues_wf n -> running_ n = true -> isSubscribed group topic n = true ->
  Z.of_nat (backlog n + enqueues evs) <= max ->
  exists n' es, n_run evs n = Ret (n', es)
    /\ (pm_payload <$> pending n group topic) ++ sent_to group topic evs
       = delivered_to group topic es ++ (pm_payload <$> pending n' group topic).
Proof.
  revert n. induction evs as [|ev evs IH]; intros n Hwf Hrun Hsub Hmax.
  - exists n, []. cbn. by rewrite app_nil_r.
  - assert (exists s, sm_find group (subscriptions_ n) = Some s) as Hs.
    { unfold isSubscribed in Hsub. destruct (sm_find group (subscriptions_ n)); [eauto|done]. }
    destruct ev as [source g t payload|i]; cbn [n_run].
    + unfold enqueues in Hmax. rewrite filter_cons, decide_True in Hmax by done. cbn [length] in Hmax. fold (enqueues evs) in Hmax.
      assert (sent_to group topic (NMessage source g t payload :: evs)
        = (if decide (g = group /\ t = topic) then [payload] else []) ++ sent_to group topic evs) as -> by done.
      destruct (isSubscribed g t n) eqn:Hgt.
      * pose proof (queue_le_backlog n g t Hwf) as Hq. pose proof (queue_of_lookup n g t Hwf) as Hlk.
        rewrite enqueue_room by (done || (unfold zlen; lia)). cbn [outcome_bind].
        set (n1 := set_queues _ _ _). pose proof (concat_insert_length _ _ _ (queue_of n g t ++ [mkPending source g t payload]) Hlk) as Hb.
        rewrite length_app in Hb. cbn [length] in Hb.
        destruct (IH n1) as (n' & es & Hr & He); [|done|done| |].
        { apply queues_wf_put; [done|]. apply Forall_app. split; [by apply queue_home|by constructor]. }
        { unfold backlog, n1 in *. cbn [set_queues message_queues_]. lia. }
        exists n', es. rewrite Hr. split; [done|]. rewrite <- He. unfold n1. rewrite pending_append by done.
        rewrite fmap_app, <- app_assoc. f_equal. f_equal. by case_decide.
      * assert (enqueueMessage hash max h source g t payload n = Ret (n, [])) as -> by (unfold enqueueMessage; by rewrite Hgt).
        cbn [outcome_bind]. destruct (IH n) as (n' & es & Hr & He); [done..|lia|]. exists n', es. rewrite Hr. split; [done|].
        rewrite <- He. rewrite decide_False; [done|]. intros [-> ->]. congruence.
    + unfold enqueues in Hmax. rewrite filter_cons, decide_False in Hmax by done. fold (enqueues evs) in Hmax.
      destruct (batch_pending i n group topic Hwf Hrun Hs) as (Hwf1 & Hrun1 & Hsub1 & Hp).
      pose proof (batch_backlog i n) as Hb. destruct (process_batch h i n) as [n1 e1]. cbn [fst snd] in *.
      destruct (IH n1) as (n' & es & Hr & He); [done|done|unfold isSubscribed in *; by rewrite Hsub1|lia|].
      exists n', (e1 ++ es). rewrite Hr. split; [done|]. unfold delivered_to in *. rewrite bind_app, <- app_assoc, <- He, Hp.
      rewrite <- app_assoc. done.
Qed.

End Queues.

(** ** Actions *)

Lemma bind_Ret {A B} (m : act A) (k : A -> act B) p a p1 e1 b p2 e2 :
  m p = Ret (a, p1, e1) -> k a p1 = Ret (b, p2, e2) -> bind m k p = Ret (b, p2, e1 ++ e2).
Proof. intros H1 H2. unfold bind. by rewrite H1, H2. Qed.

Lemma node_bind {B} h (k : NodeImpl -> act B) p n : p_nodes p !! h = Some n -> bind (node h) k p = k n p.
Proof. intros Hn. unfold bind, node. rewrite Hn. by destruct (k n p) as [[[? ?] ?]|]. Qed.

Lemma lift_bind {A B} (o : outcome A) a (k : A -> act B) p : o = Ret a -> bind (lift o) k p = k a p.
Proof. intros ->. unfold bind, lift. by destruct (k a p) as [[[? ?] ?]|]. Qed.

Lemma ret_bind {A B} (a : A) (k : A -> act B) p : bind (ret a) k p = k a p.
Proof. unfold bind, ret. by destruct (k a p) as [[[? ?] ?]|]. Qed.

Lemma registry_bind {A B} (f : GlobalRegistry -> A) (k : A -> act B) p : bind (registry f) k p = k (f (p_reg p)) p.
Proof. unfold bind, registry. by destruct (k _ p) as [[[? ?] ?]|]. Qed.

Lemma set_node_bind {B} h n (k : unit -> act B) p :
  bind (set_node h n) k p = k tt (mkProcess (<[h := n]> (p_nodes p)) (p_reg p)).
Proof. unfold bind, set_node. by destruct (k tt _) as [[[? ?] ?]|]. Qed.

Lemma update_bind {B} f (k : unit -> act B) p : bind (update_registry f) k p = k tt (mkProcess (p_nodes p) (f (p_reg p))).
Proof. unfold bind, update_registry. by destruct (k tt _) as [[[? ?] ?]|]. Qed.

Lemma emit_bind {B} es (k : unit -> act B) p b p' es' :
  k tt p = Ret (b, p', es') -> bind (emit es) k p = Ret (b, p', es ++ es').
Proof. intros H. by eapply bind_Ret. Qed.

Ltac act_simpl :=
  repeat first [ rewrite registry_bind | rewrite set_node_bind | rewrite update_bind | rewrite ret_bind
               | erewrite node_bind by eassumption | erewrite lift_bind by eassumption ].

(** The loop of an action that keeps an invariant. *)
Lemma for_each_inv {A} (f : A -> act unit) (I : list A -> process -> Prop) l p :
  I l p -> (forall x r p, I (x :: r) p -> exists p' es, f x p = Ret (tt, p', es) /\ I r p') ->
  exists p' es, for_each l f p = Ret (tt, p', es) /\ I [] p'.
Proof.
  intros HI Hf. revert p HI. induction l as [|x r IH]; intros p HI.
  - exists p, []. done.
  - destruct (Hf x r p HI) as (p1 & e1 & H1 & HI1). destruct (IH p1 HI1) as (p2 & e2 & H2 & HI2).
    exists p2, (e1 ++ e2). split; [|done]. cbn [for_each]. by eapply bind_Ret.
Qed.

(** The processes agree on nodes and services; handles may have been dropped from the table of nodes. *)
Definition same_core (p p' : process) : Prop :=
  p_nodes p' = p_nodes p /\ gr_services (p_reg p') = gr_services (p_reg p).

#[export] Instance same_core_refl : Reflexive same_core.
Proof. intros p. done. Qed.

#[export] Instance same_core_trans : Transitive same_core.
Proof. intros p q r [H1 H2] [H3 H4]. split; congruence. Qed.

Lemma getAllNodes_ok p :
  exists l p', getAllNodes p = Ret (l, p', []) /\ same_core p p' /\ Forall (fun x => is_Some (p_nodes p !! x)) l.
Proof.
  unfold getAllNodes, GR.getAllNodes. eexists _, _. split; [reflexivity|]. split; [done|].
  apply Forall_fmap, Forall_forall. intros [k x] Hx. apply list_elem_of_filter in Hx as [Hx _]. cbn in *.
  by apply bool_decide_eq_true in Hx.
Qed.

(** Callbacks into the other nodes of the process. *)
Lemma for_others_ok h f p :
  is_Some (p_nodes p !! h) ->
  (forall x p, is_Some (p_nodes p !! x) -> exists es, f x p = Ret (tt, p, es)) ->
  exists p' es, for_others h f p = Ret (tt, p', es) /\ same_core p p'.
Proof.
  intros [n Hn] Hf. unfold for_others. act_simpl. destruct (getAllNodes_ok p) as (l & p1 & Hl & Hc & Hall).
  destruct (for_each_inv (fun x => let! m := node x in unless (String.eqb (node_id_ m) (node_id_ n)) (f x))
    (fun l q => same_core p q /\ Forall (fun x => is_Some (p_nodes p !! x)) l) l p1) as (p2 & e2 & H2 & Hc2 & _).
  - done.
  - intros x r q [Hq Hall']. apply Forall_cons in Hall' as [[m Hm] Hr].
    assert (p_nodes q !! x = Some m) as Hmq by (destruct Hq as [-> _]; done). erewrite node_bind by done.
    unfold unless. destruct (String.eqb (node_id_ m) (node_id_ n)); [by exists q, []|].
    destruct (Hf x q) as [es He]; [eauto|]. exists q, es. done.
  - exists p2, e2. split; [|done]. by eapply (bind_Ret _ _ _ _ _ []).
Qed.

Lemma handleServiceUpdate_ok h svc b p : is_Some (p_nodes p !! h) -> exists es, handleServiceUpdate h svc b p = Ret (tt, p, es).
Proof. intros [n Hn]. unfold handleServiceUpdate. act_simpl. unfold emit. eauto. Qed.

Lemma notifyNodeEvent_ok h ev id p : is_Some (p_nodes p !! h) -> exists es, notifyNodeEvent h ev id p = Ret (tt, p, es).
Proof. intros [n Hn]. unfold notifyNodeEvent. act_simpl. unfold emit. eauto. Qed.

(** A service that fits into a packet. *)
Definition svc_fits (svc : ServiceDescriptor) : Prop :=
  str_size (sd_group svc) < 2 ^ 16 /\ str_size (sd_topic svc) < 2 ^ 16 /\ zlen (encode_service svc) < 2 ^ 31.

Lemma build_service id svc port t : svc_fits svc -> exists buf, build id (sd_group svc) (sd_topic svc) (encode_service svc) port t = Ret buf.
Proof. intros (H1 & H2 & H3). eexists. by apply build_layout. Qed.

Lemma broadcastServiceUpdate_ok h svc b p :
  svc_fits svc -> is_Some (p_nodes p !! h) -> exists es, broadcastServiceUpdate h svc b p = Ret (tt, p, es).
Proof.
  intros Hs [n Hn]. unfold broadcastServiceUpdate. act_simpl.
  destruct (build_service (node_id_ n) svc (getUdpPort n) (if b then SERVICE_REGISTER else SERVICE_UNREGISTER) Hs) as [buf Hb].
  erewrite lift_bind by exact Hb. destruct (udp_ n); eexists; apply emit_bind; [|done].
  unfold all_services. act_simpl. done.
Qed.

Lemma registerService_ok h svc p :
  svc_fits svc -> is_Some (p_nodes p !! h) ->
  exists p' es, registerService h svc p = Ret (tt, p', es) /\ p_nodes p' = p_nodes p
    /\ gr_services (p_reg p') = gr_services (GR.registerService (sd_group svc) svc (p_reg p)).
Proof.
  intros Hs Hh. unfold registerService. act_simpl.
  destruct (for_others_ok h (fun x => handleServiceUpdate x svc true)
    (mkProcess (p_nodes p) (GR.registerService (sd_group svc) svc (p_reg p))) Hh) as (p1 & e1 & H1 & [Hn1 Hs1]).
  { intros x q Hx. by apply handleServiceUpdate_ok. }
  destruct (broadcastServiceUpdate_ok h svc true p1 Hs) as [e2 H2]; [by rewrite Hn1|].
  exists p1, (e1 ++ e2). split; [by eapply bind_Ret|]. done.
Qed.

Lemma unregisterService_ok h svc p :
  svc_fits svc -> is_Some (p_nodes p !! h) ->
  exists p' es, unregisterService h svc p = Ret (tt, p', es) /\ p_nodes p' = p_nodes p
    /\ gr_services (p_reg p') = gr_services (GR.unregisterService (sd_group svc) svc (p_reg p)).
Proof.
  intros Hs Hh. unfold unregisterService. act_simpl.
  destruct (for_others_ok h (fun x => handleServiceUpdate x svc false)
    (mkProcess (p_nodes p) (GR.unregisterService (sd_group svc) svc (p_reg p))) Hh) as (p1 & e1 & H1 & [Hn1 Hs1]).
  { intros x q Hx. by apply handleServiceUpdate_ok. }
  destruct (broadcastServiceUpdate_ok h svc false p1 Hs) as [e2 H2]; [by rewrite Hn1|].
  exists p1, (e1 ++ e2). split; [by eapply bind_Ret|]. done.
Qed.

(** ** Effects of subscriptions on the services of the process *)

(** Registries with the same services. *)
Definition same_services (g g' : GlobalRegistry) : Prop := gr_services g = gr_services g'.

#[export] Instance same_services_equiv : Equivalence same_services.
Proof. split; [done|by intros ? ?|]. intros x y z. unfold same_services. congruence. Qed.

#[export] Instance registerService_proper : Proper (eq ==> eq ==> same_services ==> same_services) GR.registerService.
Proof. intros ? group -> ? svc -> g g' Hg. unfold same_services, GR.registerService in *. cbn. by rewrite Hg. Qed.

#[export] Instance unregisterService_proper : Proper (eq ==> eq ==> same_services ==> same_services) GR.unregisterService.
Proof.
  intros ? group -> ? svc -> g g' Hg. unfold same_services, GR.unregisterService in *. rewrite Hg.
  destruct (sm_find group (gr_services g')); [|done]. by destruct (unregister_in svc l).
Qed.

(** An action on one service that applies [op] to the registry. *)
Definition acts_as (h : handle) (f : ServiceDescriptor -> act unit) (op : ServiceDescriptor -> GlobalRegistry -> GlobalRegistry) : Prop :=
  forall svc p, svc_fits svc -> is_Some (p_nodes p !! h) ->
  exists p' es, f svc p = Ret (tt, p', es) /\ p_nodes p' = p_nodes p /\ same_services (p_reg p') (op svc (p_reg p)).

Definition register_op (svc : ServiceDescriptor) : GlobalRegistry -> GlobalRegistry := GR.registerService (sd_group svc) svc.

Definition unregister_op (svc : ServiceDescriptor) : GlobalRegistry -> GlobalRegistry := GR.unregisterService (sd_group svc) svc.

Definition apply_all (op : ServiceDescriptor -> GlobalRegistry -> GlobalRegistry) (svcs : list ServiceDescriptor) (g : GlobalRegistry)
    : GlobalRegistry := foldl (fun g svc => op svc g) g svcs.

Lemma apply_all_proper op svcs g g' :
  (forall svc, Proper (same_services ==> same_services) (op svc)) -> same_services g g' ->
  same_services (apply_all op svcs g) (apply_all op svcs g').
Proof. intros Hop. revert g g'. induction svcs as [|svc svcs IH]; intros g g' Hg; [done|]. cbn. by apply IH, Hop. Qed.

Lemma apply_all_app op k l g : apply_all op (k ++ l) g = apply_all op l (apply_all op k g).
Proof. apply foldl_app. Qed.

Lemma for_each_services h f op svcs p :
  acts_as h f op -> (forall svc, Proper (same_services ==> same_services) (op svc)) ->
  Forall svc_fits svcs -> is_Some (p_nodes p !! h) ->
  exists p' es, for_each svcs f p = Ret (tt, p', es) /\ p_nodes p' = p_nodes p
    /\ same_services (p_reg p') (apply_all op svcs (p_reg p)).
Proof.
  intros Hf Hop Hs. revert p. induction Hs as [|svc svcs Hsvc Hs IH]; intros p Hh.
  - exists p, []. done.
  - destruct (Hf svc p Hsvc Hh) as (p1 & e1 & H1 & N1 & S1). destruct (IH p1) as (p2 & e2 & H2 & N2 & S2); [by rewrite N1|].
    exists p2, (e1 ++ e2). cbn [for_each]. split; [by eapply bind_Ret|]. split; [congruence|].
    rewrite S2. cbn. by apply apply_all_proper.
Qed.

Lemma for_each_topics h f op (svcs : string -> list ServiceDescriptor) topics p :
  acts_as h f op -> (forall svc, Proper (same_services ==> same_services) (op svc)) ->
  Forall (fun t => Forall svc_fits (svcs t)) topics -> is_Some (p_nodes p !! h) ->
  exists p' es, for_each topics (fun t => for_each (svcs t) f) p = Ret (tt, p', es) /\ p_nodes p' = p_nodes p
    /\ same_services (p_reg p') (apply_all op (topics ≫= svcs) (p_reg p)).
Proof.
  intros Hf Hop Hs. revert p. induction Hs as [|t topics Ht Hs IH]; intros p Hh.
  - exists p, []. done.
  - destruct (for_each_services h f op (svcs t) p Hf Hop Ht Hh) as (p1 & e1 & H1 & N1 & S1).
    destruct (IH p1) as (p2 & e2 & H2 & N2 & S2); [by rewrite N1|].
    exists p2, (e1 ++ e2). cbn [for_each]. split; [by eapply bind_Ret|]. split; [congruence|].
    rewrite S2. cbn [mbind list_bind]. rewrite apply_all_app. by apply apply_all_proper.
Qed.

Lemma register_acts h : acts_as h (registerService h) register_op.
Proof. intros svc p Hs Hh. destruct (registerService_ok h svc p Hs Hh) as (p' & es & H1 & H2 & H3). eauto. Qed.

Lemma unregister_acts h : acts_as h (unregisterService h) unregister_op.
Proof. intros svc p Hs Hh. destruct (unregisterService_ok h svc p Hs Hh) as (p' & es & H1 & H2 & H3). eauto. Qed.

(** ** Sets of topics *)

Definition has_topic (t : string) (s : smap unit) : bool := match sm_find t s with Some _ => true | None => false end.

Lemma add_topics_has topics s t :
  has_topic t (add_topics topics s) = has_topic t s || bool_decide (t ∈ topics /\ t <> ""%string).
Proof.
  revert s. induction topics as [|x r IH]; intros s; cbn [add_topics foldl].
  - rewrite bool_decide_false, orb_false_r; [done|]. by intros [?%not_elem_of_nil _].
  - unfold add_topics in IH. rewrite IH. unfold str_empty. destruct (String.eqb_spec x "") as [->|Hx].
    + f_equal. apply bool_decide_ext. rewrite elem_of_cons. naive_solver.
    + unfold has_topic. rewrite sm_find_insert. destruct (String.eqb_spec t x) as [->|Hn].
      * rewrite orb_true_l. symmetry. apply orb_true_iff. right. apply bool_decide_true. split; [left|done].
      * f_equal. apply bool_decide_ext. rewrite elem_of_cons. naive_solver.
Qed.

Lemma add_topics_ok topics s : sm_ok s -> sm_ok (add_topics topics s).
Proof.
  revert s. induction topics as [|x r IH]; intros s Hs; [done|]. cbn [add_topics foldl]. apply IH.
  destruct (str_empty x); [done|]. by apply sm_insert_ok.
Qed.

Lemma remove_topics_spec topics s :
  sm_ok s ->
  let r := remove_topics topics s in
  sm_ok r.2
  /\ (forall t, has_topic t r.2 = has_topic t s && bool_decide (t ∉ topics))
  /\ (forall t, t ∈ r.1 <-> t ∈ topics /\ has_topic t s = true) /\ NoDup r.1.
Proof.
  revert s. induction topics as [|x r IH]; intros s Hs; cbn [remove_topics].
  - split; [done|]. split; [|split; [|constructor]].
    + intros t. cbn. by rewrite bool_decide_true, andb_true_r by apply not_elem_of_nil.
    + intros t. cbn. rewrite elem_of_nil. tauto.
  - destruct (sm_find x s) as [[]|] eqn:Hx.
    + destruct (IH (sm_erase x s) (sm_erase_ok _ _ Hs)) as (H1 & H2 & H3 & H4).
      destruct (remove_topics r (sm_erase x s)) as [removed s'] eqn:E. cbn [fst snd] in *.
      assert (forall t, has_topic t (sm_erase x s) = has_topic t s && bool_decide (t <> x)) as He.
      { intros t. unfold has_topic. rewrite sm_find_erase by done. destruct (String.eqb_spec t x) as [->|].
        - by rewrite bool_decide_false, andb_false_r by naive_solver.
        - by rewrite bool_decide_true, andb_true_r. }
      split; [done|]. split; [|split].
      * intros t. rewrite H2, He, <- andb_assoc. f_equal. rewrite <- bool_decide_and. apply bool_decide_ext.
        rewrite not_elem_of_cons. tauto.
      * intros t. rewrite !elem_of_cons, H3, He, andb_true_iff, bool_decide_eq_true.
        assert (has_topic x s = true) by (unfold has_topic; by rewrite Hx).
        destruct (decide (t = x)) as [->|]; naive_solver.
      * constructor; [|done]. rewrite H3, He, andb_true_iff, bool_decide_eq_true. tauto.
    + destruct (IH s Hs) as (H1 & H2 & H3 & H4). split; [done|].
      assert (has_topic x s = false) as Hf by (unfold has_topic; by rewrite Hx). split; [|split; [|done]].
      * intros t. rewrite H2. destruct (decide (t = x)) as [->|]; [by rewrite Hf|]. f_equal. apply bool_decide_ext.
        rewrite not_elem_of_cons. tauto.
      * intros t. rewrite H3, elem_of_cons. destruct (decide (t = x)) as [->|]; [rewrite Hf; naive_solver|naive_solver].
Qed.

(** ** Subscribing *)

(** A node as [createNode] makes it (without UDP), running. *)
Record node_ok (n : NodeImpl) : Prop := mkNodeOk {
  no_running : running_ n = true;
  no_udp : udp_ n = None;
  no_groups : sm_ok (subscriptions_ n);
  no_topics : Forall (fun g => sm_ok (si_topics g.2)) (subscriptions_ n)
}.

Definition name_fits (s : string) : Prop := str_size s < 2 ^ 16.

Lemma topic_services_fit n group topic :
  udp_ n = None -> name_fits group -> name_fits topic -> Forall svc_fits (topic_services n group topic).
Proof.
  intros Hu Hg Ht. unfold topic_services. rewrite Hu, app_nil_r. destruct (shm_ n); [|constructor].
  constructor; [|constructor]. split; [done|]. split; [done|]. vm_compute. done.
Qed.

Lemma group_topics_ok n group s : node_ok n -> sm_find group (subscriptions_ n) = Some s -> sm_ok (si_topics s).
Proof.
  intros [_ _ _ Ht] Hs. rewrite Forall_forall in Ht. by apply (Ht (group, s)), sm_find_Some_elem.
Qed.

Lemma isSubscribed_set n subs group topic :
  isSubscribed group topic (set_subscriptions n subs)
  = match sm_find group subs with Some s => has_topic topic (si_topics s) | None => false end.
Proof. done. Qed.

Lemma subscribe_ok h p n group topics cb :
  p_nodes p !! h = Some n -> node_ok n -> group <> ""%string -> topics <> [] ->
  name_fits group -> Forall name_fits topics ->
  exists p' es n', subscribe h group topics (Some cb) p = Ret (NO_ERROR, p', es)
    /\ p_nodes p' = <[h := n']> (p_nodes p) /\ node_ok n' /\ message_queues_ n' = message_queues_ n
    /\ is_Some (sm_find group (subscriptions_ n'))
    /\ (forall g t, isSubscribed g t n' = isSubscribed g t n || bool_decide (g = group /\ t ∈ topics /\ t <> ""%string))
    /\ same_services (p_reg p')
         (apply_all register_op (filter (fun t => str_empty t = false) topics ≫= topic_services n group) (p_reg p)).
Proof.
  intros Hn Hok Hg Ht Hgf Htf. unfold subscribe. unfold str_empty at 1. destruct (String.eqb_spec group ""); [done|].
  rewrite bool_decide_false by done. cbn [orb]. act_simpl. destruct (Hok) as [Hrun Hudp Hgs Hts]. rewrite Hrun. cbn [negb].
  set (old := from_option si_topics [] (sm_find group (subscriptions_ n))).
  set (n' := set_subscriptions n _). rewrite set_node_bind.
  destruct (for_each_topics h (registerService h) register_op (topic_services n' group)
    (filter (fun t => str_empty t = false) topics) (mkProcess (<[h := n']> (p_nodes p)) (p_reg p)))
    as (p' & es & Hr & Hnodes & Hsvc).
  - apply register_acts.
  - intros svc. unfold register_op. solve_proper.
  - apply Forall_forall. intros t Hin. apply list_elem_of_filter in Hin as [_ Hin]. rewrite Forall_forall in Htf.
    by apply topic_services_fit; [..|apply Htf].
  - cbn. by rewrite lookup_insert_eq.
  - exists p', (es ++ []), n'. split; [by eapply bind_Ret|]. split; [done|].
    assert (sm_ok old) as Hold.
    { unfold old. destruct (sm_find group (subscriptions_ n)) eqn:E; [|constructor]. by eapply group_topics_ok. }
    split; [|split; [done|split; [by cbn; rewrite sm_find_insert, String.eqb_refl|split; [|done]]]].
    + split; [done|done| |]; cbn [n' set_subscriptions subscriptions_].
      * by apply sm_insert_ok.
      * apply sm_insert_Forall; [|done]. by apply add_topics_ok.
    + intros g t. unfold n'. rewrite isSubscribed_set, sm_find_insert. unfold isSubscribed.
      destruct (String.eqb_spec g group) as [->|Hne].
      * cbn [si_topics]. rewrite add_topics_has. unfold old. f_equal.
        { by destruct (sm_find group (subscriptions_ n)). }
        apply bool_decide_ext. tauto.
      * rewrite (bool_decide_false (g = group /\ _)) by tauto. by rewrite orb_false_r.
Qed.

Lemma unsubscribe_ok h p n group topics :
  p_nodes p !! h = Some n -> node_ok n -> group <> ""%string -> is_Some (sm_find group (subscriptions_ n)) ->
  name_fits group -> (forall t, isSubscribed group t n = true -> name_fits t) ->
  exists p' es n', unsubscribe h group topics p = Ret (NO_ERROR, p', es)
    /\ p_nodes p' = <[h := n']> (p_nodes p) /\ node_ok n' /\ message_queues_ n' = message_queues_ n
    /\ (forall g t, isSubscribed g t n' = isSubscribed g t n && negb (bool_decide (g = group /\ (topics = [] \/ t ∈ topics)))).
Proof.
  intros Hn Hok Hg [s Hs] Hgf Htf. unfold unsubscribe. unfold str_empty. destruct (String.eqb_spec group ""); [done|].
  act_simpl. destruct (Hok) as [Hrun Hudp Hgs Hts]. rewrite Hrun, Hs. cbn [negb].
  pose proof (group_topics_ok n group s Hok Hs) as Hso.
  destruct (match topics with [] => (sm_keys (si_topics s), []) | _ => remove_topics topics (si_topics s) end)
    as [removed rest] eqn:Er.
  assert (sm_ok rest /\ (forall t, has_topic t rest = has_topic t (si_topics s) && negb (bool_decide (topics = [] \/ t ∈ topics)))
    /\ (forall t, t ∈ removed -> isSubscribed group t n = true)) as (Hro & Hrt & Hrm).
  { destruct topics as [|x r].
    - injection Er as <- <-. split; [constructor|]. split.
      + intros t. rewrite (bool_decide_true (_ \/ _)) by tauto. by rewrite andb_false_r.
      + intros t Hin. unfold isSubscribed. rewrite Hs. apply list_elem_of_fmap in Hin as ([k []] & -> & Hin).
        cbn [fst]. by rewrite (sm_elem_find k tt (si_topics s) Hso Hin).
    - destruct (remove_topics_spec (x :: r) (si_topics s) Hso) as (H1 & H2 & H3 & _). rewrite Er in *. cbn [fst snd] in *.
      split; [done|]. split.
      + intros t. rewrite H2. f_equal. rewrite <- bool_decide_not. apply bool_decide_ext. naive_solver.
      + intros t Hin. apply H3 in Hin as [_ Hin]. unfold isSubscribed. by rewrite Hs. }
  set (subs := match rest with [] => _ | _ => _ end). set (n' := set_subscriptions n subs). rewrite set_node_bind.
  destruct (for_each_topics h (unregisterService h) unregister_op (topic_services n' group) removed
    (mkProcess (<[h := n']> (p_nodes p)) (p_reg p))) as (p' & es & Hr & Hnodes & _).
  - apply unregister_acts.
  - intros svc. unfold unregister_op. solve_proper.
  - apply Forall_forall. intros t Hin. by apply topic_services_fit, Htf, Hrm.
  - cbn. by rewrite lookup_insert_eq.
  - exists p', (es ++ []), n'. split; [by eapply bind_Ret|]. split; [done|].
    assert (forall g, sm_find g subs = if String.eqb g group then match rest with [] => None | _ => Some (mkSub rest (si_callback s)) end
                                       else sm_find g (subscriptions_ n)) as Hsubs.
    { intros g. unfold subs. destruct rest; [by rewrite sm_find_erase|by rewrite sm_find_insert]. }
    split; [|split; [done|]].
    + split; [done|done| |]; cbn [n' set_subscriptions subscriptions_]; unfold subs; destruct rest.
      * by apply sm_erase_ok.
      * by apply sm_insert_ok.
      * by apply sm_erase_Forall.
      * by apply sm_insert_Forall.
    + intros g t. unfold n'. rewrite isSubscribed_set, Hsubs. unfold isSubscribed.
      destruct (String.eqb_spec g group) as [->|Hne].
      * rewrite Hs. fold (has_topic t (si_topics s)).
        assert (bool_decide (group = group /\ (topics = [] \/ t ∈ topics)) = bool_decide (topics = [] \/ t ∈ topics)) as ->
          by (apply bool_decide_ext; tauto).
        rewrite <- Hrt. by destruct rest.
      * rewrite (bool_decide_false (g = group /\ _)) by tauto. by rewrite andb_true_r.
Qed.

(** C17: subscriptions behave as a set of (group, topic) pairs: [subscribe] adds exactly the
    non-empty topics given, and registers their services; [unsubscribe] of the group afterwards
    removes exactly the topics given, or all of them when none is given; both report
    success, and neither touches another group, another node or a queued message. *)
Theorem subscription_semantics h p n group topics cb topics' :
  p_nodes p !! h = Some n -> node_ok n -> group <> ""%string -> topics <> [] ->
  name_fits group -> Forall name_fits topics -> (forall t, isSubscribed group t n = true -> name_fits t) ->
  exists p1 e1 n1 p2 e2 n2,
    subscribe h group topics (Some cb) p = Ret (NO_ERROR, p1, e1) /\ p_nodes p1 = <[h := n1]> (p_nodes p)
    /\ (forall g t, isSubscribed g t n1 = isSubscribed g t n || bool_decide (g = group /\ t ∈ topics /\ t <> ""%string))
    /\ same_services (p_reg p1)
         (apply_all register_op (filter (fun t => str_empty t = false) topics ≫= topic_services n group) (p_reg p))
    /\ unsubscribe h group topics' p1 = Ret (NO_ERROR, p2, e2) /\ p_nodes p2 = <[h := n2]> (p_nodes p)
    /\ (forall g t, isSubscribed g t n2 = isSubscribed g t n1 && negb (bool_decide (g = group /\ (topics' = [] \/ t ∈ topics'))))
    /\ message_queues_ n2 = message_queues_ n.
Proof.
  intros Hn Hok Hg Ht Hgf Htf Hold.
  destruct (subscribe_ok h p n group topics cb Hn Hok Hg Ht Hgf Htf) as (p1 & e1 & n1 & H1 & N1 & Hok1 & Q1 & G1 & S1 & R1).
  destruct (unsubscribe_ok h p1 n1 group topics') as (p2 & e2 & n2 & H2 & N2 & _ & Q2 & S2).
  - by rewrite N1, lookup_insert_eq.
  - done.
  - done.
  - done.
  - done.
  - intros t. rewrite S1, orb_true_iff, bool_decide_eq_true. rewrite Forall_forall in Htf. intros [|(_ & ? & _)]; auto.
  - exists p1, e1, n1, p2, e2, n2. rewrite N2, N1, insert_insert_eq. split_and!; try done. congruence.
Qed.

(** ** The choice of subscribers *)

Section Choose.
Context (self : string) (local shm_nodes : list string) (topic : string).

(** A subscriber in another process. *)
Definition eligible (svc : ServiceDescriptor) : Prop :=
  sd_topic svc = topic /\ sd_type svc = NORMAL_MESSAGE /\ sd_node_id svc <> self /\ sd_node_id svc ∉ local.

Definition by_shm (svc : ServiceDescriptor) : Prop :=
  eligible svc /\ sd_transport svc = SHARED_MEMORY /\ sd_node_id svc ∈ shm_nodes.

Definition by_udp (svc : ServiceDescriptor) : Prop :=
  eligible svc /\ sd_transport svc = UDP /\ is_Some (parse_endpoint (sd_udp_address svc)).

(** The cases of one service in the loop. *)
Lemma choose_cons delivered svc svcs :
  let skip := choose self local shm_nodes topic delivered svcs in
  let taken := choose self local shm_nodes topic (sd_node_id svc :: delivered) svcs in
  let r := choose self local shm_nodes topic delivered (svc :: svcs) in
  ((sd_node_id svc ∉ delivered) /\ by_shm svc /\ r.1 = sd_node_id svc :: taken.1)
  \/ ((sd_node_id svc ∉ delivered) /\ by_udp svc /\ r.1 = taken.1)
  \/ ((sd_node_id svc ∈ delivered \/ ~ by_shm svc /\ ~ by_udp svc) /\ r = skip).
Proof.
  cbn [choose]. unfold by_shm, by_udp, eligible.
  destruct (String.eqb_spec (sd_topic svc) topic) as [Et|]; [|right; right; split; [right; split; tauto|done]].
  case_bool_decide as Eu; [|right; right; split; [right; split; tauto|done]].
  destruct (String.eqb_spec (sd_node_id svc) self) as [|Es]; [right; right; split; [right; split; tauto|done]|].
  case_bool_decide as El; [right; right; split; [right; split; tauto|done]|].
  case_bool_decide as Ed; [right; right; split; [by left|done]|]. cbn [negb].
  destruct (sd_transport svc) eqn:Etr; try (right; right; split; [right; split; naive_solver|done]).
  - case_bool_decide as Em; [|right; right; split; [right; split; naive_solver|done]].
    left. destruct (choose _ _ _ _ (_ :: _) _). naive_solver.
  - destruct (parse_endpoint (sd_udp_address svc)) eqn:Ep; [|right; right; split; [right; split; [naive_solver|]|done]].
    + right. left. destruct (choose _ _ _ _ (_ :: _) _). split; [done|]. split; [|done]. split_and!; eauto.
    + intros (_ & _ & [? ?]). done.
Qed.

Lemma choose_sound delivered svcs :
  let r := (choose self local shm_nodes topic delivered svcs).1 in
  NoDup r /\ forall id, id ∈ r -> (id ∉ delivered) /\ exists svc, svc ∈ svcs /\ sd_node_id svc = id /\ by_shm svc.
Proof.
  revert delivered. induction svcs as [|svc svcs IH]; intros delivered.
  - cbn. split; [constructor|]. by intros id ?%not_elem_of_nil.
  - destruct (choose_cons delivered svc svcs) as [(Hd & Hb & ->)|[(Hd & Hb & ->)|[_ ->]]].
    + destruct (IH (sd_node_id svc :: delivered)) as [Hnd Hall]. split.
      * constructor; [|done]. intros Hin. destruct (Hall _ Hin) as [Hn _]. apply Hn. left.
      * intros id [->|Hin]%elem_of_cons; [split; [done|]; exists svc; split; [left|done]|].
        destruct (Hall _ Hin) as (Hn & x & Hx & ?). apply not_elem_of_cons in Hn as [_ Hn]. split; [done|].
        exists x. split; [by right|done].
    + destruct (IH (sd_node_id svc :: delivered)) as [Hnd Hall]. split; [done|]. intros id Hin.
      destruct (Hall _ Hin) as (Hn & x & Hx & ?). apply not_elem_of_cons in Hn as [_ Hn]. split; [done|].
      exists x. split; [by right|done].
    + destruct (IH delivered) as [Hnd Hall]. split; [done|]. intros id Hin. destruct (Hall _ Hin) as (Hn & x & Hx & ?).
      split; [done|]. exists x. split; [by right|done].
Qed.

Lemma choose_complete delivered svcs svc :
  svc ∈ svcs -> by_shm svc -> sd_node_id svc ∉ delivered ->
  (forall svc', svc' ∈ svcs -> sd_node_id svc' = sd_node_id svc -> ~ by_udp svc') ->
  sd_node_id svc ∈ (choose self local shm_nodes topic delivered svcs).1.
Proof.
  revert delivered. induction svcs as [|x svcs IH]; intros delivered Hin Hb Hd Hu; [by apply not_elem_of_nil in Hin|].
  assert (forall svc', svc' ∈ svcs -> sd_node_id svc' = sd_node_id svc -> ~ by_udp svc') as Hu'
    by (intros y Hy; apply Hu; by right).
  destruct (choose_cons delivered x svcs) as [(Hdx & Hbx & ->)|[(Hdx & Hbx & ->)|[Hskip ->]]].
  - destruct (decide (sd_node_id svc = sd_node_id x)) as [->|Hne]; [left|]. right.
    apply elem_of_cons in Hin as [->|Hin]; [done|]. apply IH; [done..| |done]. by apply not_elem_of_cons.
  - assert (sd_node_id svc <> sd_node_id x) as Hne by (intros E; by apply (Hu x); [left|..]).
    apply elem_of_cons in Hin as [->|Hin]; [done|]. apply IH; [done..| |done]. by apply not_elem_of_cons.
  - apply elem_of_cons in Hin as [->|Hin]; [destruct Hskip as [|[? _]]; done|]. by apply IH.
Qed.

(** With one descriptor per node, the subscribers over shared memory are exact. *)
Lemma choose_exact svcs :
  (forall a b, a ∈ svcs -> b ∈ svcs -> eligible a -> eligible b -> sd_node_id a = sd_node_id b -> a = b) ->
  let r := (choose self local shm_nodes topic [] svcs).1 in
  NoDup r /\ forall id, id ∈ r <-> exists svc, svc ∈ svcs /\ sd_node_id svc = id /\ by_shm svc.
Proof.
  intros Huniq. destruct (choose_sound [] svcs) as [Hnd Hall]. split; [done|]. intros id. split; [by apply Hall|].
  intros (svc & Hin & <- & Hb). apply choose_complete; [done|done|apply not_elem_of_nil|].
  intros x Hx Hid (He & Ht & _). destruct Hb as (He' & Ht' & _). assert (x = svc) as -> by (by apply Huniq). congruence.
Qed.

End Choose.

(** ** Publishing *)

(** Effects of delivering inside the process: only overflow callbacks. *)
Definition quiet (e : effect) : Prop := match e with OverflowCallback _ _ _ _ => True | _ => False end.

Lemma for_each_quiet {A} (f : A -> act unit) (I : list A -> process -> Prop) l p :
  I l p -> (forall x r p, I (x :: r) p -> exists p' es, f x p = Ret (tt, p', es) /\ I r p' /\ Forall quiet es) ->
  exists p' es, for_each l f p = Ret (tt, p', es) /\ I [] p' /\ Forall quiet es.
Proof.
  intros HI Hf. revert p HI. induction l as [|x r IH]; intros p HI.
  - exists p, []. split; [done|]. split; [done|constructor].
  - destruct (Hf x r p HI) as (p1 & e1 & H1 & HI1 & Q1). destruct (IH p1 HI1) as (p2 & e2 & H2 & HI2 & Q2).
    exists p2, (e1 ++ e2). split; [cbn [for_each]; by eapply bind_Ret|]. split; [done|]. by apply Forall_app.
Qed.

(** A node whose overflow policy never reads a dropped message. *)
Definition overflow_safe (n : NodeImpl) : Prop := overflow_policy_ n = DROP_OLDEST -> overflow_callback_ n = false.

Lemma enqueue_safe hash max h source group topic payload n :
  0 < max -> overflow_safe n ->
  exists n' es, enqueueMessage hash max h source group topic payload n = Ret (n', es)
    /\ node_id_ n' = node_id_ n /\ overflow_safe n' /\ Forall quiet es.
Proof.
  intros Hm Hs. unfold enqueueMessage, overflow_safe in *. destruct (isSubscribed group topic n); cbn [negb]; [|eexists _, _; split; [reflexivity|]; done].
  destruct (Z.leb_spec max (zlen (nth (thread_of hash group topic) (message_queues_ n) []))) as [Hf|Hr].
  - destruct (nth _ _ _) as [|m q]; [unfold zlen in Hf; simpl in Hf; lia|].
    destruct (overflow_policy_ n) eqn:Ep; [rewrite Hs by done| |]; eexists _, _; (split; [reflexivity|]); cbn; rewrite ?Ep; try done.
    split; [done|]. split; [done|]. destruct (overflow_callback_ n); repeat constructor.
  - eexists _, _. split; [reflexivity|]. cbn. done.
Qed.

(** The ids of the registered nodes of the process that are alive. *)
Definition is_local (p : process) (id : string) : Prop :=
  exists k x m, (k, x) ∈ gr_nodes (p_reg p) /\ p_nodes p !! x = Some m /\ node_id_ m = id.

(** What delivering inside the process keeps. *)
Record kept (h : handle) (p q : process) : Prop := mkKept {
  kp_self : p_nodes q !! h = p_nodes p !! h;
  kp_ids : forall x, node_id_ <$> p_nodes q !! x = node_id_ <$> p_nodes p !! x;
  kp_safe : forall x m, p_nodes q !! x = Some m -> overflow_safe m;
  kp_local : forall id, is_local q id <-> is_local p id;
  kp_services : gr_services (p_reg q) = gr_services (p_reg p)
}.

Lemma is_local_ids p q id :
  (forall x, node_id_ <$> p_nodes q !! x = node_id_ <$> p_nodes p !! x) -> gr_nodes (p_reg q) = gr_nodes (p_reg p) ->
  is_local p id -> is_local q id.
Proof.
  intros Hids Hg (k & x & m & Hk & Hm & Hid). specialize (Hids x). rewrite Hm in Hids.
  destruct (p_nodes q !! x) as [m'|] eqn:E; [|done]. cbn in Hids. exists k, x, m'. rewrite Hg. split_and!; [done|done|]. congruence.
Qed.

Lemma getAllNodes_kept h p :
  (forall x m, p_nodes p !! x = Some m -> overflow_safe m) ->
  exists l p', getAllNodes p = Ret (l, p', []) /\ kept h p p' /\ p_nodes p' = p_nodes p
    /\ Forall (fun x => is_Some (p_nodes p !! x)) l
    /\ (forall id, id ∈ omap (fun x => node_id_ <$> p_nodes p !! x) l <-> is_local p id).
Proof.
  intros Hsafe. unfold getAllNodes, GR.getAllNodes. set (kept_nodes := filter _ _).
  assert (forall k x, (k, x) ∈ kept_nodes <-> (k, x) ∈ gr_nodes (p_reg p) /\ is_Some (p_nodes p !! x)) as Hk.
  { intros k x. unfold kept_nodes. rewrite list_elem_of_filter, bool_decide_eq_true. cbn. tauto. }
  eexists _, _. split; [reflexivity|]. split; [|split; [done|split]].
  - split; cbn [p_nodes p_reg gr_nodes gr_services]; try done. intros id. unfold is_local. cbn [p_nodes p_reg gr_nodes].
    split; intros (k & x & m & Hx & Hm & Hid); exists k, x, m; (split; [|done]).
    + by apply Hk in Hx as [? _].
    + apply Hk. eauto.
  - apply Forall_fmap, Forall_forall. intros [k x] Hx. by apply Hk in Hx as [_ ?].
  - intros id. rewrite list_elem_of_omap. unfold is_local. split.
    + intros (x & Hx & Hid). apply list_elem_of_fmap in Hx as ([k y] & -> & Hx). apply Hk in Hx as [Hx [m Hm]].
      cbn [snd] in Hid. rewrite Hm in Hid. cbn in Hid. exists k, y, m. split_and!; [done|done|congruence].
    + intros (k & x & m & Hx & Hm & Hid). exists x. rewrite Hm. cbn. split; [|congruence].
      apply list_elem_of_fmap. exists (k, x). split; [done|]. apply Hk. eauto.
Qed.

Lemma kept_trans h p q r : kept h p q -> kept h q r -> kept h p r.
Proof.
  intros [A1 A2 A3 A4 A5] [B1 B2 B3 B4 B5]. split; [congruence|intros x; by rewrite B2|done|intros id; by rewrite B4|congruence].
Qed.

Lemma deliverInProcess_ok hash cfg h p n group topic payload :
  p_nodes p !! h = Some n -> 0 < max_size cfg -> (forall x m, p_nodes p !! x = Some m -> overflow_safe m) ->
  exists p' es, deliverInProcess hash cfg h group topic payload p = Ret (tt, p', es) /\ kept h p p' /\ Forall quiet es.
Proof.
  intros Hn Hm Hsafe. unfold deliverInProcess. act_simpl.
  destruct (getAllNodes_kept h p Hsafe) as (l & p1 & Hl & K1 & N1 & Hall & _).
  destruct (for_each_quiet (fun x => unless (bool_decide (x = h))
      (handleMessage hash (max_size cfg) x (node_id_ n) group topic payload))
    (fun l q => kept h p q /\ Forall (fun x => is_Some (p_nodes p !! x)) l) l p1) as (p2 & e2 & H2 & [K2 _] & Q2).
  - done.
  - intros x r q [Kq Hr]. apply Forall_cons in Hr as [[m0 Hm0] Hr]. unfold unless.
    case_bool_decide as Hx; [exists q, []; split; [done|]; split; [done|constructor]|].
    pose proof (kp_ids _ _ _ Kq x) as Hid. rewrite Hm0 in Hid. destruct (p_nodes q !! x) as [m|] eqn:Ex; [|done].
    unfold handleMessage. erewrite node_bind by done.
    destruct (enqueue_safe hash (max_size cfg) x (node_id_ n) group topic payload m Hm (kp_safe _ _ _ Kq x m Ex))
      as (m' & es & He & Hi & Hs & Hq).
    erewrite lift_bind by done. rewrite set_node_bind. unfold emit. cbn [fst snd]. eexists _, _. split; [reflexivity|].
    split; [|done]. split; [|done]. apply (kept_trans h p q); [done|].
    assert (forall y, node_id_ <$> (<[x := m']> (p_nodes q) !! y) = node_id_ <$> (p_nodes q !! y)) as Hids.
    { intros y. destruct (decide (x = y)) as [<-|Hne]; [rewrite lookup_insert_eq, Ex; cbn; by rewrite Hi|by rewrite lookup_insert_ne]. }
    split; cbn [p_nodes p_reg]; [by rewrite lookup_insert_ne|done| | |done].
    + intros y my Hy. destruct (decide (x = y)) as [<-|Hne]; [rewrite lookup_insert_eq in Hy; by simplify_eq|].
      rewrite lookup_insert_ne in Hy by done. by eapply (kp_safe _ _ _ Kq).
    + intros id. split; apply is_local_ids; try done.
  - exists p2, e2. split; [by eapply (bind_Ret _ _ _ _ _ [])|]. done.
Qed.

Definition shm_sends (es : list effect) : list (string * list Z) :=
  es ≫= fun e => match e with ShmSend d packet => [(d, packet)] | _ => [] end.

Lemma shm_sends_quiet es : Forall quiet es -> shm_sends es = [].
Proof. induction 1 as [|e es He Hes IH]; [done|]. by destruct e. Qed.

Lemma shm_sends_map packet ds : shm_sends ((fun d => ShmSend d packet) <$> ds) = (fun d => (d, packet)) <$> ds.
Proof. induction ds as [|d ds IH]; [done|]. cbn. by f_equal. Qed.

(** The services of a group are filed under it. *)
Definition filed (g : GlobalRegistry) (group : string) : Prop := Forall (fun d => sd_group d = group) (GR.findServices group g).

Lemma one_descriptor g group topic self local :
  vec_ok (group_vec g group) -> group <> ""%string -> filed g group ->
  forall a b, a ∈ GR.findServices group g -> b ∈ GR.findServices group g ->
  eligible self local topic a -> eligible self local topic b -> sd_node_id a = sd_node_id b -> a = b.
Proof.
  intros Hv Hg Hf a b Ha Hb (Ta & Na & _) (Tb & Nb & _) Hid. unfold filed in Hf. rewrite Forall_forall in Hf.
  pose proof (Hf _ Ha) as Ga. pose proof (Hf _ Hb) as Gb.
  unfold GR.findServices, str_empty in *.
  destruct (String.eqb_spec group ""); [done|]. fold (group_vec g group) in *. unfold vec_ok in Hv.
  apply list_elem_of_lookup in Ha as [i Hi]. apply list_elem_of_lookup in Hb as [j Hj].
  assert (i = j) as <-; [|congruence]. eapply NoDup_lookup; [exact Hv| |]; rewrite list_lookup_fmap.
  - by rewrite Hi.
  - rewrite Hj. cbn. unfold svc_key, getCapability. rewrite Na, Nb, Ga, Gb, Ta, Tb, Hid. done.
Qed.

(** Effects of a publication over shared memory. *)
Definition quiet_or_send (e : effect) : Prop :=
  match e with ShmSend _ _ | OverflowCallback _ _ _ _ => True | _ => False end.

Lemma deliverInterProcess_ok h p n shm_nodes packet group topic :
  p_nodes p !! h = Some n -> udp_ n = None -> shm_ n = true -> vec_ok (group_vec (p_reg p) group) -> group <> ""%string -> filed (p_reg p) group ->
  (forall x m, p_nodes p !! x = Some m -> overflow_safe m) ->
  exists p' es dests, deliverInterProcess h shm_nodes packet group topic p = Ret (tt, p', es)
    /\ same_core p p' /\ shm_sends es = (fun d => (d, packet)) <$> dests /\ NoDup dests /\ Forall quiet_or_send es
    /\ forall id, id ∈ dests <->
         id ∈ shm_nodes /\ id <> node_id_ n /\ ~ is_local p id
         /\ exists svc, svc ∈ GR.findServices group (p_reg p) /\ sd_node_id svc = id /\ sd_topic svc = topic
                        /\ sd_type svc = NORMAL_MESSAGE /\ sd_transport svc = SHARED_MEMORY.
Proof.
  intros Hn Hu Hs Hwf Hg Hf Hsafe. unfold deliverInterProcess. act_simpl.
  destruct (GR.findServices group (p_reg p)) as [|d0 ds0] eqn:Efs.
  { exists p, [], []. split; [done|]. split; [done|]. split; [done|]. split; [constructor|]. split; [constructor|].
    intros id. split; [by intros ?%not_elem_of_nil|]. intros (_ & _ & _ & svc & Hin & _). by apply not_elem_of_nil in Hin. }
  rewrite <- Efs. destruct (getAllNodes_kept h p Hsafe) as (l & p1 & Hl & K1 & N1 & _ & Hloc).
  set (local := omap (fun x => node_id_ <$> p_nodes p1 !! x) l).
  assert (forall id, id ∈ local <-> is_local p id) as Hlocal by (unfold local; rewrite N1; done).
  pose proof (choose_exact (node_id_ n) local shm_nodes topic (GR.findServices group (p_reg p))
    (one_descriptor _ _ _ _ _ Hwf Hg Hf)) as [Hnd Hex].
  rewrite Hs, Hu. destruct (choose (node_id_ n) local shm_nodes topic [] (GR.findServices group (p_reg p))) as [dests udp] eqn:Ec.
  cbn [fst] in Hnd, Hex.
  exists p1, (((fun d => ShmSend d packet) <$> dests) ++ []), dests. split.
  { eapply (bind_Ret _ _ _ _ _ []); [exact Hl|]. eapply (bind_Ret _ _ _ p1 p1 []); [done|].
    cbv beta. fold local. rewrite Ec. by eapply emit_bind. }
  split; [by split; [|apply K1]|]. rewrite app_nil_r. split; [apply shm_sends_map|]. split; [done|].
  split; [by apply Forall_fmap, Forall_true|]. intros id. rewrite Hex. unfold by_shm, eligible. split.
  - intros (svc & Hin & <- & (Ht & Hty & Hns & Hnl) & Htr & Hsh). rewrite Hlocal in Hnl. split_and!; try done. by exists svc.
  - intros (Hsh & Hns & Hnl & svc & Hin & <- & Ht & Hty & Htr). exists svc. rewrite Hlocal. done.
Qed.

Lemma publish_ok hash cfg h p n shm_nodes group topic payload :
  p_nodes p !! h = Some n -> node_ok n -> shm_ n = true -> gr_wf (p_reg p) -> filed (p_reg p) group ->
  group <> ""%string -> topic <> ""%string -> name_fits group -> name_fits topic -> zlen payload < 2 ^ 31 ->
  0 < max_size cfg -> (forall x m, p_nodes p !! x = Some m -> overflow_safe m) ->
  exists p' es packet dests,
    publish hash cfg h shm_nodes group topic payload p = Ret (NO_ERROR, p', es)
    /\ build (node_id_ n) group topic payload 0 DATA = Ret packet
    /\ shm_sends es = (fun d => (d, packet)) <$> dests /\ NoDup dests /\ Forall quiet_or_send es
    /\ forall id, id ∈ dests <->
         id ∈ shm_nodes /\ id <> node_id_ n /\ ~ is_local p id
         /\ exists svc, svc ∈ GR.findServices group (p_reg p) /\ sd_node_id svc = id /\ sd_topic svc = topic
                        /\ sd_type svc = NORMAL_MESSAGE /\ sd_transport svc = SHARED_MEMORY.
Proof.
  intros Hn [Hrun Hudp _ _] Hshm Hwf Hf Hg Ht Hgf Htf Hp Hmax Hsafe. unfold publish, str_empty.
  destruct (String.eqb_spec group ""); [done|]. destruct (String.eqb_spec topic ""); [done|]. cbn [orb].
  act_simpl. rewrite Hrun. cbn [negb]. unfold getUdpPort. rewrite Hudp. cbn [from_option id].
  pose proof (build_layout (node_id_ n) group topic payload 0 DATA Hgf Htf Hp) as Hb. cbv zeta in Hb.
  set (packet := packet_bytes _ ++ _) in Hb. erewrite lift_bind by exact Hb.
  destruct (deliverInProcess_ok hash cfg h p n group topic payload Hn Hmax Hsafe) as (p1 & e1 & H1 & K1 & Q1).
  assert (GR.findServices group (p_reg p1) = GR.findServices group (p_reg p)) as Efs
    by (unfold GR.findServices; by rewrite (kp_services _ _ _ K1)).
  destruct (deliverInterProcess_ok h p1 n shm_nodes packet group topic) as (p2 & e2 & dests & H2 & _ & S2 & D2 & F2 & I2).
  - by rewrite (kp_self _ _ _ K1).
  - done.
  - done.
  - unfold group_vec. rewrite (kp_services _ _ _ K1). by apply group_vec_ok.
  - done.
  - unfold filed. by rewrite Efs.
  - apply K1.
  - exists p2, (e1 ++ e2 ++ []), packet, dests. split; [eapply bind_Ret; [done|]; by eapply bind_Ret|]. split; [done|].
    split; [unfold shm_sends in *; rewrite !bind_app, S2; fold (shm_sends e1); rewrite (shm_sends_quiet e1) by done; by rewrite app_nil_r|].
    split; [done|]. split.
    { rewrite app_nil_r. apply Forall_app. split; [|done]. eapply Forall_impl; [exact Q1|]. by intros []. }
    intros id. rewrite I2, Efs, (kp_local _ _ _ K1). done.
Qed.

(** C3: [publish] of a running node over shared memory succeeds and sends its packet exactly once to
    each node of another process that has a shared-memory service for the topic in the process's
    service table and that the shared-memory registry lists, and to no other; no queue
    overflow inside the process can make it fail as long as no overflow callback is set
    together with [DROP_OLDEST]. *)
Theorem publish_targets hash cfg h p n shm_nodes group topic payload :
  p_nodes p !! h = Some n -> node_ok n -> shm_ n = true -> gr_wf (p_reg p) -> filed (p_reg p) group ->
  group <> ""%string -> topic <> ""%string -> name_fits group -> name_fits topic -> zlen payload < 2 ^ 31 ->
  0 < max_size cfg -> (forall x m, p_nodes p !! x = Some m -> overflow_safe m) ->
  exists p' es packet dests,
    publish hash cfg h shm_nodes group topic payload p = Ret (NO_ERROR, p', es)
    /\ build (node_id_ n) group topic payload 0 DATA = Ret packet
    /\ shm_sends es = (fun d => (d, packet)) <$> dests /\ NoDup dests
    /\ forall id, id ∈ dests <->
         id ∈ shm_nodes /\ id <> node_id_ n /\ ~ is_local p id
         /\ exists svc, svc ∈ GR.findServices group (p_reg p) /\ sd_node_id svc = id /\ sd_topic svc = topic
                        /\ sd_type svc = NORMAL_MESSAGE /\ sd_transport svc = SHARED_MEMORY.
Proof.
  intros. edestruct publish_ok as (p' & es & packet & dests & ? & ? & ? & ? & _ & ?); [done..|].
  exists p', es, packet, dests. done.
Qed.

(** ** Receiving *)

Lemma source_of_built buf pk id :
  view buf = Ret pk -> node_id pk = node_id_field id -> no_nul id -> str_size id <= 63 -> source_of buf = Ret id.
Proof.
  intros Hv Hn Hnn Hs. unfold view in Hv. destruct (mem_rd 0 offsetof_data buf) as [hd|] eqn:Er; [|done].
  cbn [outcome_bind] in Hv. injection Hv as <-. unfold mem_rd in Er. destruct (in_bounds 0 offsetof_data buf) eqn:Eb; [|done].
  injection Er as <-. cbn [packet_of_bytes node_id] in Hn.
  assert (take 64 (drop 20 buf) = node_id_field id) as Hf.
  { rewrite <- Hn. unfold slice, offsetof_data. rewrite drop_0. change (Z.to_nat 86) with (20 + 66)%nat.
    change (Z.to_nat 20) with 20%nat. change (Z.to_nat 64) with 64%nat.
    rewrite skipn_firstn_comm, take_take. f_equal; lia. }
  assert (drop 20 buf = strncpy 63 id ++ 0 :: drop 64 (drop 20 buf)) as Hd.
  { rewrite <- (take_drop 64 (drop 20 buf)) at 1. rewrite Hf. unfold node_id_field. by rewrite <- app_assoc. }
  unfold source_of. rewrite Hd. rewrite bool_decide_true by (apply elem_of_app; right; left).
  by rewrite strncpy_until_nul, string_of_bytes_of_string.
Qed.

(** The limits of a packet that every receiver accepts. *)
Record packet_fits (a group topic : string) (payload : list Z) (port : Z) : Prop := mkPacketFits {
  pf_nul : no_nul a;
  pf_id : str_size a <= 63;
  pf_group : str_size group <= MAX_GROUP_LEN;
  pf_topic : str_size topic <= MAX_TOPIC_LEN;
  pf_payload : zlen payload <= MAX_PAYLOAD_LEN;
  pf_port : 0 <= port < 2 ^ 16
}.

Lemma open_packet_built h p n a group topic payload port t :
  p_nodes p !! h = Some n -> node_id_ n <> a -> packet_fits a group topic payload port ->
  exists packet pk, build a group topic payload port t = Ret packet
    /\ open_packet h packet p = Ret (Some (pk, a, group, topic, payload), p, []) /\ MessageType_of (msg_type pk) = Some t
    /\ udp_port pk = port.
Proof.
  intros Hn Ha [H1 H2 H3 H4 H5 H6].
  destruct (build_parts a group topic payload port t H1 H2 H3 H4 H5 H6)
    as (buf & pk & Hb & Hv & Hw & Hg & Ht & Hp & Hty & _ & Hport & Hid & Hl).
  exists buf, pk. split; [done|]. split; [|by split]. unfold open_packet. act_simpl. rewrite (proj2 (Z.ltb_ge _ _)) by lia.
  erewrite lift_bind by exact Hv. cbn [negb].
  erewrite lift_bind by (by eapply source_of_built). destruct (String.eqb_spec a (node_id_ n)); [congruence|].
  rewrite Hw. cbn [outcome_bind]. rewrite Hg, Ht, Hp. cbn [outcome_bind].
  erewrite lift_bind by done. by rewrite !string_of_bytes_of_string.
Qed.

(** [processPacket] on a packet that opens. *)
Lemma processPacket_as hash cfg h packet p pk source group topic payload :
  open_packet h packet p = Ret (Some (pk, source, group, topic, payload), p, []) ->
  processPacket hash cfg h packet p
  = match MessageType_of (msg_type pk) with
    | Some DATA => handleMessage hash (max_size cfg) h source group topic payload p
    | Some SERVICE_REGISTER => push_system h (mkSystem SM_SERVICE_REGISTER source group topic payload) p
    | Some SERVICE_UNREGISTER => push_system h (mkSystem SM_SERVICE_UNREGISTER source group topic payload) p
    | Some NODE_JOIN => push_system h (mkSystem SM_NODE_JOIN source group topic []) p
    | Some NODE_LEAVE => push_system h (mkSystem SM_NODE_LEAVE source group topic []) p
    | _ => ret tt p
    end.
Proof.
  intros Ho. unfold processPacket, bind. rewrite Ho. cbn [app].
  destruct (MessageType_of (msg_type pk)) as [[]|]; try done;
    match goal with |- match ?x with _ => _ end = _ => by destruct x as [[[? ?] ?]|] end.
Qed.

Lemma received_ok hash cfg h p n a group topic payload port :
  p_nodes p !! h = Some n -> node_id_ n <> a -> packet_fits a group topic payload port ->
  zlen (queue_of hash n group topic) < max_size cfg ->
  exists packet p', build a group topic payload port DATA = Ret packet
    /\ processPacket hash cfg h packet p = Ret (tt, p', []) /\ p_reg p' = p_reg p
    /\ p_nodes p' = if isSubscribed group topic n
                    then <[h := set_queues n (<[thread_of hash group topic := queue_of hash n group topic ++ [mkPending a group topic payload]]>
                                                (message_queues_ n)) (dropped_messages_ n)]> (p_nodes p)
                    else p_nodes p.
Proof.
  intros Hn Ha Hf Hr. destruct (open_packet_built h p n a group topic payload port DATA Hn Ha Hf) as (packet & pk & Hb & Ho & Hty & _).
  exists packet. rewrite (processPacket_as _ _ _ _ _ _ _ _ _ _ Ho), Hty. unfold handleMessage.
  destruct (isSubscribed group topic n) eqn:Es.
  - eexists. split; [done|]. split.
    + act_simpl. erewrite lift_bind by (by apply enqueue_room). rewrite set_node_bind. reflexivity.
    + done.
  - exists p. split; [done|]. split; [|done]. act_simpl.
    erewrite lift_bind; [|unfold enqueueMessage; rewrite Es; reflexivity]. rewrite set_node_bind. unfold emit. cbn [fst snd].
    rewrite insert_id by done. by destruct p.
Qed.

(** The packet that [publish] builds, handed by a transport to a node of another process, puts
    the group, the topic, the payload and the publisher's id, unaltered, at the end of
    the queue of the topic when the node subscribed to it and the queue has room,
    and changes nothing when it did not subscribe. *)
Theorem publish_received hash cfg h p n a group topic payload port :
  p_nodes p !! h = Some n -> node_id_ n <> a -> packet_fits a group topic payload port ->
  zlen (queue_of hash n group topic) < max_size cfg ->
  exists packet p', build a group topic payload port DATA = Ret packet
    /\ processPacket hash cfg h packet p = Ret (tt, p', []) /\ p_reg p' = p_reg p
    /\ p_nodes p' = if isSubscribed group topic n
                    then <[h := set_queues n (<[thread_of hash group topic := queue_of hash n group topic ++ [mkPending a group topic payload]]>
                                                (message_queues_ n)) (dropped_messages_ n)]> (p_nodes p)
                    else p_nodes p.
Proof. by apply received_ok. Qed.

(** ** Service discovery between processes *)

Lemma le16_split z : 0 <= z < 2 ^ 16 -> Z.lor (Z.land z 0xFF) (Z.shiftl (Z.land (Z.shiftr z 8) 0xFF) 8) = z.
Proof.
  intros Hz. change 0xFF with (Z.ones 8). apply Z.bits_inj'. intros k Hk.
  rewrite Z.lor_spec, Z.land_spec, Z.shiftl_spec by lia.
  destruct (Z.ltb_spec k 8).
  - rewrite Z.ones_spec_low, andb_true_r, (Z.testbit_neg_r _ (k - 8)) by lia. apply orb_false_r.
  - rewrite Z.ones_spec_high, andb_false_r by lia. cbn [orb]. rewrite Z.land_spec, Z.shiftr_spec by lia.
    replace (k - 8 + 8) with k by lia. destruct (Z.ltb_spec k 16).
    + rewrite Z.ones_spec_low by lia. apply andb_true_r.
    + rewrite Z.ones_spec_high, andb_false_r by lia. symmetry. destruct (Z.eq_dec z 0) as [->|]; [apply Z.testbit_0_l|].
      apply Z.bits_above_log2; [lia|]. apply Z.lt_le_trans with 16; [|lia]. apply Z.log2_lt_pow2; lia.
Qed.

(** A descriptor whose fields fit their places in the payload. *)
Record wire_ok (svc : ServiceDescriptor) : Prop := mkWireOk {
  wo_type : 0 <= ServiceType_code (sd_type svc) < 256 /\ ServiceType_of (ServiceType_code (sd_type svc)) = sd_type svc;
  wo_transport : 0 <= TransportType_code (sd_transport svc) < 256
                 /\ TransportType_of (TransportType_code (sd_transport svc)) = sd_transport svc;
  wo_channel : str_size (sd_channel_name svc) < 256;
  wo_address : str_size (sd_udp_address svc) < 2 ^ 16
}.

Lemma sized_bytes s len : len = str_size s -> (if 0 <? len then bytes_of_string s else []) = bytes_of_string s.
Proof.
  intros ->. pose proof (bytes_of_string_zlen s). pose proof (str_size_nonneg s). destruct (Z.ltb_spec 0 (str_size s)); [done|].
  symmetry. apply nil_length_inv. unfold zlen in *. lia.
Qed.

Lemma decode_encode svc :
  wire_ok svc -> decode_service (sd_node_id svc) (sd_group svc) (sd_topic svc) (encode_service svc) = Some svc.
Proof.
  intros [[Hty Ety] [Htr Etr] Hc Ha]. unfold encode_service.
  pose proof (str_size_nonneg (sd_channel_name svc)). pose proof (str_size_nonneg (sd_udp_address svc)).
  unfold u8, u16. rewrite !wrap_small by lia. rewrite !sized_bytes by done. cbn [app decode_service].
  rewrite le16_split by lia. rewrite Ety, Etr.
  pose proof (bytes_of_string_zlen (sd_channel_name svc)) as Lc. pose proof (bytes_of_string_zlen (sd_udp_address svc)) as La.
  rewrite (proj2 (Z.ltb_ge _ _)) by (rewrite !zlen_cons, zlen_app; lia).
  unfold zlen in Lc, La. rewrite <- Lc, <- La, !Nat2Z.id, take_app_length, drop_app_length, take_ge by lia.
  rewrite !string_of_bytes_of_string. by destruct svc.
Qed.

Lemma set_system_back n m : system_queue_ n = [] -> set_system (enqueueSystemMessage m n) [] = n.
Proof. intros H. unfold enqueueSystemMessage. rewrite H. destruct n; cbn in *. by rewrite H. Qed.

(** C16: the message by which [subscribe] and [unsubscribe] announce a service to other processes,
    received by a node with an empty system queue and then processed by its system thread,
    applies exactly that registration or removal, with the descriptor unaltered,
    to the service table of the receiving process, and calls the discovery callback with
    the descriptor if one is set. *)
Theorem service_update_received hash cfg h p n svc port (is_add : bool) :
  p_nodes p !! h = Some n -> node_id_ n <> sd_node_id svc -> system_queue_ n = [] -> wire_ok svc ->
  packet_fits (sd_node_id svc) (sd_group svc) (sd_topic svc) (encode_service svc) port ->
  exists packet p1,
    build (sd_node_id svc) (sd_group svc) (sd_topic svc) (encode_service svc) port
      (if is_add then SERVICE_REGISTER else SERVICE_UNREGISTER) = Ret packet
    /\ processPacket hash cfg h packet p = Ret (tt, p1, []) /\ p_reg p1 = p_reg p
    /\ system_step h p1
       = Ret (tt, mkProcess (p_nodes p) ((if is_add then GR.registerService else GR.unregisterService) (sd_group svc) svc (p_reg p)),
              if service_discovery_callback_ n
              then [ServiceCallback h (if is_add then SERVICE_ADDED else SERVICE_REMOVED) svc] else []).
Proof.
  intros Hn Hid Hq Hw Hf.
  set (t := if is_add then SERVICE_REGISTER else SERVICE_UNREGISTER).
  set (m := mkSystem (if is_add then SM_SERVICE_REGISTER else SM_SERVICE_UNREGISTER) (sd_node_id svc) (sd_group svc) (sd_topic svc)
              (encode_service svc)).
  destruct (open_packet_built h p n _ _ _ _ port t Hn Hid Hf) as (packet & pk & Hb & Ho & Hty & _).
  exists packet, (mkProcess (<[h := enqueueSystemMessage m n]> (p_nodes p)) (p_reg p)). split; [done|]. split; [|split; [done|]].
  - rewrite (processPacket_as _ _ _ _ _ _ _ _ _ _ Ho), Hty. unfold t, push_system, m. destruct is_add; act_simpl; done.
  - unfold system_step. erewrite node_bind by (cbn; by rewrite lookup_insert_eq).
    assert (system_queue_ (enqueueSystemMessage m n) = [m]) as -> by (unfold enqueueSystemMessage; rewrite Hq; done).
    rewrite set_node_bind, set_system_back by done. cbn [p_nodes p_reg]. rewrite insert_insert_eq, insert_id by done.
    assert (forall b, handleServiceMessage h (sd_node_id svc) (sd_group svc) (sd_topic svc) (encode_service svc) b
        (mkProcess (p_nodes p) (p_reg p))
      = Ret (tt, mkProcess (p_nodes p) ((if b then GR.registerService else GR.unregisterService) (sd_group svc) svc (p_reg p)),
             if service_discovery_callback_ n then [ServiceCallback h (if b then SERVICE_ADDED else SERVICE_REMOVED) svc] else [])) as Hs.
    { intros b. unfold handleServiceMessage. erewrite node_bind by done. destruct (String.eqb_spec (sd_node_id svc) (node_id_ n)); [congruence|].
      rewrite bool_decide_false by done. rewrite andb_false_r, decode_encode by done. rewrite update_bind.
      unfold handleServiceUpdate. erewrite node_bind by done. unfold emit. by destruct b. }
    unfold m. destruct is_add; cbn [sm_type sm_source sm_group sm_topic sm_payload]; apply Hs.
Qed.

(** ** The departure of a node *)

(** Descriptors an [unregisterService] of [svc] removes from a group. *)
Definition removed_by (group : string) (svc d : ServiceDescriptor) : Prop :=
  sd_group svc = group /\ sd_node_id d = sd_node_id svc /\ sd_topic d = sd_topic svc.

Lemma apply_unregister_elem svcs g group d :
  gr_wf g ->
  d ∈ group_vec (apply_all unregister_op svcs g) group
  <-> d ∈ group_vec g group /\ Forall (fun svc => ~ removed_by group svc d) svcs.
Proof.
  revert g. induction svcs as [|svc svcs IH]; intros g Hwf; cbn [apply_all foldl].
  - split; [by intros|by intros [? _]].
  - fold (apply_all unregister_op svcs (unregister_op svc g)). unfold unregister_op at 2.
    rewrite IH by (by apply unregisterService_wf). rewrite unregisterService_vec by done. rewrite Forall_cons. unfold removed_by.
    destruct (String.eqb_spec group (sd_group svc)) as [->|Hne].
    + unfold unregister_in. rewrite list_elem_of_filter. naive_solver.
    + naive_solver.
Qed.

Lemma forget_services_run svcs p :
  forget_services svcs p = Ret (tt, mkProcess (p_nodes p) (apply_all unregister_op svcs (p_reg p)), []).
Proof.
  unfold forget_services. revert p. induction svcs as [|svc svcs IH]; intros p; cbn [for_each apply_all foldl]; [by destruct p|].
  rewrite update_bind. by rewrite IH.
Qed.

(** Every group of the table. *)
Lemma findServices_all g d : gr_wf g -> d ∈ GR.findServices "" g <-> exists group, d ∈ group_vec g group.
Proof.
  intros [_ Hok _]. unfold GR.findServices, group_vec. cbn [str_empty String.eqb]. rewrite list_elem_of_In, in_concat. setoid_rewrite <- list_elem_of_In. split.
  - intros (vec & Hv & Hd). apply list_elem_of_fmap in Hv as ([k v] & -> & Hin). exists k. rewrite (sm_elem_find _ _ _ Hok Hin). done.
  - intros (group & Hd). destruct (sm_find group (gr_services g)) as [vec|] eqn:E; [|by apply not_elem_of_nil in Hd].
    exists vec. split; [|done]. apply sm_find_Some_elem in E. apply list_elem_of_fmap. by exists (group, vec).
Qed.

(** C30: when a node learns that another has left (a NODE_LEAVE message, or a heartbeat that timed
    out), exactly the services of that node disappear from the service table of the process,
    as when a node of the process itself unregisters; the discovery callback is told,
    and the shared-memory connection to the node is closed. *)
Theorem departed_node_forgotten h p n from :
  p_nodes p !! h = Some n -> from <> node_id_ n -> gr_wf (p_reg p) ->
  (forall group, Forall (fun d => sd_group d = group) (group_vec (p_reg p) group)) ->
  exists p', handleNodeEvent h from false p
      = Ret (tt, p', (if service_discovery_callback_ n then [ServiceCallback h NODE_LEFT (mkService from "" "" ST_ALL "" INPROCESS "")] else [])
                     ++ (if shm_ n then [ShmDisconnect from] else []))
    /\ p_nodes p' = p_nodes p
    /\ forall group d, d ∈ group_vec (p_reg p') group <-> d ∈ group_vec (GR.unregisterNode from (p_reg p)) group.
Proof.
  intros Hn Hf Hwf Hfiled.
  set (svcs := filter (fun d => sd_node_id d = from) (GR.findServices "" (p_reg p))).
  exists (mkProcess (p_nodes p) (apply_all unregister_op svcs (p_reg p))). split; [|split; [done|]].
  - unfold handleNodeEvent. act_simpl. destruct (String.eqb_spec from (node_id_ n)); [done|].
    unfold notifyNodeEvent. eapply bind_Ret; [erewrite node_bind by done; reflexivity|].
    cbv beta. unfold all_services. rewrite registry_bind. fold svcs.
    by eapply (bind_Ret _ _ _ _ _ []); [apply forget_services_run|].
  - intros group d. cbn [p_reg]. rewrite apply_unregister_elem by done.
    unfold GR.unregisterNode, group_vec at 2. cbn [gr_services]. rewrite erase_node_services_vec, list_elem_of_filter by done.
    split; intros [H1 H2].
    + split; [|done]. intros Hd. rewrite Forall_forall in H2. apply (H2 d).
      * apply list_elem_of_filter. split; [done|]. apply findServices_all; eauto.
      * pose proof (Hfiled group) as Hg. rewrite Forall_forall in Hg. split; [by apply Hg|done].
    + split; [done|]. apply Forall_forall. intros svc Hin (_ & Hid & _). apply list_elem_of_filter in Hin as [Hs _]. congruence.
Qed.

(** ** UDP ports *)

Lemma auto_port_past bind_ok k attempts next p next' :
  PORT_MAX < next -> next + 2 * Z.of_nat attempts < 2 ^ 16 ->
  auto_port bind_ok k attempts next = (Some p, next') -> PORT_MAX < p.
Proof.
  revert k next. induction attempts as [|a IH]; intros k next Hlo Hhi; [done|]. cbn [auto_port]. unfold next_target.
  unfold PORT_MAX in *. rewrite (proj2 (Z.ltb_lt _ _)) by lia. unfold u16. rewrite (wrap_small 16 (next + 1)) by lia.
  destruct (Z.eqb_spec (next + 1) next); [lia|]. rewrite wrap_small by lia.
  destruct (bind_ok k (next + 1)); [intros [= <- <-]; lia|]. apply IH; lia.
Qed.

(** The automatic choice of a UDP port never returns to the start of its range: from a counter
    inside the range (as it is initialised), the port that is bound is not below the counter, so
    once the ports up to 47999 are taken a port above the range is bound, however many below
    the starting point are free, and such a node is not probed by the port scan of others. *)
Theorem port_range_left bind_ok next p next' :
  PORT_BASE <= next <= PORT_MAX + 1 -> auto_port bind_ok 0 PORT_COUNT next = (Some p, next') ->
  next <= p
  /\ ((forall k port, next <= port <= PORT_MAX -> bind_ok k port = false) ->
      PORT_MAX < p /\ p ∉ seqZ PORT_BASE (Z.of_nat PORT_COUNT)).
Proof.
  intros Hr Ha.
  assert (forall attempts k nx, (attempts <= PORT_COUNT)%nat -> PORT_BASE <= nx <= PORT_MAX + 1 ->
    auto_port bind_ok k attempts nx = (Some p, next') ->
    nx <= p /\ ((forall k port, nx <= port <= PORT_MAX -> bind_ok k port = false) -> PORT_MAX < p)) as Hgen.
  { unfold PORT_COUNT, PORT_BASE, PORT_MAX. induction attempts as [|a IH]; intros k nx Hat Hnx Hap; [done|].
    destruct (Z.le_gt_cases nx 47999) as [Hin|Hout].
    - cbn [auto_port] in Hap. unfold next_target, PORT_MAX in Hap. rewrite (proj2 (Z.ltb_ge _ _)) in Hap by lia.
      unfold u16 in Hap. rewrite wrap_small in Hap by lia. destruct (bind_ok k nx) eqn:Eb.
      + simplify_eq. split; [lia|]. intros Hall. rewrite (Hall k p) in Eb by lia. done.
      + destruct (IH (S k) (nx + 1)) as [H1 H2]; [lia|lia|done|]. split; [lia|]. intros Hall. apply H2. intros k' port Hp. apply Hall. lia.
    - pose proof (auto_port_past bind_ok k (S a) nx p next') as Hp. unfold PORT_MAX in Hp.
      specialize (Hp ltac:(lia) ltac:(lia) Hap). split; [lia|by intros]. }
  destruct (Hgen PORT_COUNT 0%nat next ltac:(lia) Hr Ha) as [H1 H2]. split; [done|]. intros Hall.
  pose proof (H2 Hall) as Hp. split; [done|]. intros Hin. apply elem_of_seqZ in Hin. unfold PORT_BASE, PORT_COUNT, PORT_MAX in *. lia.
Qed.

(** ** Instances *)

Definition demo_hash (s : string) : Z := str_size s.

Definition demo_subs : smap SubscriptionInfo := [("g"%string, mkSub [("t"%string, tt)] 1)].

(** The node "A", on shared memory, subscribed to g/t. *)
Definition demo_node : NodeImpl := set_links (set_subscriptions (new_node "A" false TM_AUTO) demo_subs) true None true.

Definition demo_service (id : string) : ServiceDescriptor := mkService id "g" "t" NORMAL_MESSAGE "" SHARED_MEMORY "".

Definition demo_process : process :=
  mkProcess {[ 0%nat := demo_node ]} (mkGR [("A"%string, 0%nat)] [("g"%string, [demo_service "B"])]).

Lemma demo_node_ok : node_ok demo_node.
Proof. split; try done; repeat constructor. Qed.

Lemma demo_gr_wf : gr_wf (p_reg demo_process).
Proof. split; [repeat constructor|repeat constructor|]. repeat constructor; [done|apply not_elem_of_nil]. Qed.

Lemma demo_safe x m : p_nodes demo_process !! x = Some m -> overflow_safe m.
Proof. cbn [p_nodes demo_process]. intros [<- <-]%lookup_singleton_Some. by intros _. Qed.

Lemma demo_filed group : Forall (fun d => sd_group d = group) (group_vec (p_reg demo_process) group).
Proof. unfold group_vec. cbn [p_reg demo_process gr_services sm_find]. destruct (String.eqb_spec group "g") as [->|]; repeat constructor. Qed.

(** A message waiting in the only place of the queue of g/t. *)
Definition demo_full : NodeImpl :=
  set_queues demo_node [[]; []; []; [mkPending "B" "g" "t" [1]]] 0.


Lemma demo_queues_wf : queues_wf demo_hash demo_node.
Proof.
  split; [done|]. intros i q Hq. assert (q = []) as ->; [|constructor].
  do 4 (destruct i as [|i]; [by injection Hq as <-|]). done.
Qed.

Lemma topic_order_witness :
  exists n' es, n_run demo_hash 10 0%nat [NMessage "B" "g" "t" [1]; NMessage "B" "g" "t" [2]; NBatch 3; NMessage "B" "g" "t" [3]] demo_node
    = Ret (n', es)
    /\ (pm_payload <$> pending demo_hash demo_node "g" "t") ++ [[1]; [2]; [3]]
       = delivered_to "g" "t" es ++ (pm_payload <$> pending demo_hash n' "g" "t").
Proof.
  apply (topic_order demo_hash 10 0%nat [NMessage "B" "g" "t" [1]; NMessage "B" "g" "t" [2]; NBatch 3; NMessage "B" "g" "t" [3]]
    demo_node "g" "t" demo_queues_wf); [reflexivity|reflexivity|vm_compute; discriminate].
Defined.

Lemma subscription_semantics_witness :
  exists p1 e1 n1 p2 e2 n2,
    subscribe 0%nat "h" ["u"; ""]%string (Some 2%nat) demo_process = Ret (NO_ERROR, p1, e1)
    /\ p_nodes p1 = <[0%nat := n1]> (p_nodes demo_process)
    /\ unsubscribe 0%nat "h" [] p1 = Ret (NO_ERROR, p2, e2) /\ p_nodes p2 = <[0%nat := n2]> (p_nodes demo_process).
Proof.
  destruct (subscription_semantics 0%nat demo_process demo_node "h" ["u"; ""]%string 2 [])
    as (p1 & e1 & n1 & p2 & e2 & n2 & H1 & H2 & _ & _ & H5 & H6 & _).
  - reflexivity.
  - exact demo_node_ok.
  - discriminate.
  - discriminate.
  - reflexivity.
  - repeat constructor.
  - intros t Ht. exfalso. revert Ht. cbn. discriminate.
  - exists p1, e1, n1, p2, e2, n2. auto.
Defined.

Lemma publish_targets_witness :
  exists p' es packet dests,
    publish demo_hash default_configuration 0%nat ["A"; "B"; "C"]%string "g" "t" [1; 2] demo_process = Ret (NO_ERROR, p', es)
    /\ shm_sends es = (fun d => (d, packet)) <$> dests /\ "B"%string ∈ dests.
Proof.
  destruct (publish_targets demo_hash default_configuration 0%nat demo_process demo_node ["A"; "B"; "C"]%string "g" "t" [1; 2])
    as (p' & es & packet & dests & H1 & H2 & H3 & H4 & H5).
  - reflexivity.
  - exact demo_node_ok.
  - reflexivity.
  - exact demo_gr_wf.
  - exact (demo_filed "g").
  - discriminate.
  - discriminate.
  - reflexivity.
  - reflexivity.
  - reflexivity.
  - reflexivity.
  - exact demo_safe.
  - exists p', es, packet, dests. split; [exact H1|]. split; [exact H3|]. apply H5.
    split; [right; left|]. split; [discriminate|]. split.
    + intros (k & x & m & Hk & Hm & Hid). cbn [p_nodes demo_process] in Hm. apply lookup_singleton_Some in Hm as [<- <-]. discriminate Hid.
    + exists (demo_service "B"). split; [left|done].
Defined.

Lemma demo_packet_fits payload : zlen payload <= MAX_PAYLOAD_LEN -> packet_fits "B" "g" "t" payload 0.
Proof. intros H. split; try done; try lia. repeat constructor; discriminate. Qed.

Lemma publish_received_witness :
  exists packet p', build "B" "g" "t" [1; 2] 0 DATA = Ret packet
    /\ processPacket demo_hash default_configuration 0%nat packet demo_process = Ret (tt, p', []).
Proof.
  destruct (publish_received demo_hash default_configuration 0%nat demo_process demo_node "B" "g" "t" [1; 2] 0)
    as (packet & p' & H1 & H2 & _ & _); [reflexivity|discriminate|apply demo_packet_fits; discriminate|reflexivity|].
  exists packet, p'. auto.
Defined.

Lemma service_update_received_witness :
  exists packet p1,
    build "B" "g" "t" (encode_service (demo_service "B")) 0 SERVICE_UNREGISTER = Ret packet
    /\ processPacket demo_hash default_configuration 0%nat packet demo_process = Ret (tt, p1, [])
    /\ exists p2, system_step 0%nat p1 = Ret (tt, p2, []) /\ gr_services (p_reg p2) = [].
Proof.
  destruct (service_update_received demo_hash default_configuration 0%nat demo_process demo_node (demo_service "B") 0 false)
    as (packet & p1 & H1 & H2 & _ & H4); [reflexivity|discriminate|reflexivity| | |].
  - split; [done|done|done|done].
  - apply demo_packet_fits. vm_compute. discriminate.
  - exists packet, p1. split; [exact H1|]. split; [exact H2|]. eexists. split; [exact H4|reflexivity].
Defined.

Lemma departed_node_forgotten_witness :
  exists p', handleNodeEvent 0%nat "B" false demo_process = Ret (tt, p', [ShmDisconnect "B"]).
Proof.
  destruct (departed_node_forgotten 0%nat demo_process demo_node "B") as (p' & H1 & _);
    [reflexivity|discriminate|exact demo_gr_wf|exact demo_filed|].
  exists p'. exact H1.
Defined.

(** Only the ports 47300 and 48001 are free. *)
Definition demo_bind (k : nat) (port : Z) : bool := (port =? 47300) || (port =? 48001).

Lemma port_range_left_witness : auto_port demo_bind 0 PORT_COUNT 47990 = (Some 48001, 48002) /\ PORT_MAX < 48001.
Proof.
  split; [vm_compute; reflexivity|].
  apply (port_range_left demo_bind 47990 48001 48002); [unfold PORT_BASE, PORT_MAX; lia|vm_compute; reflexivity|].
  intros k port Hp. unfold demo_bind, PORT_MAX in *. rewrite !(proj2 (Z.eqb_neq _ _)) by lia. reflexivity.
Defined.
