(* ===== verification/NodeLife.v ===== *)
(** * The life of a node

    [createNode], the constructor, [generateNodeId] and the destructor of [src/core/NodeImpl.cpp]:
    which ids nodes get, and what a destroyed node leaves behind. *)

From S2P Require Import Prelude Os StdMap CStrings NodeTypes GlobalRegistry TransportV3 Message Config NodeImpl NodeSpec.

(** [std::hex] of an unsigned number. *)
Fixpoint hex_digits (fuel : nat) (z : Z) : string :=
  match fuel with
  | O => ""
  | S fuel => if z <? 16 then hex_digit z else hex_digits fuel (z / 16) +:+ hex_digit (z mod 16)
  end.

Fixpoint zeros (n : nat) : string := match n with O => "" | S n => "0" +:+ zeros n end.

(** [std::setfill('0') << std::setw(n)] *)
Definition padded (n : nat) (s : string) : string := zeros (n - String.length s) +:+ s.

(** [generateNodeId]; [ms] is the system clock in milliseconds. *)
Definition generateNodeId (ms : Z) : string := "node_" +:+ padded 12 (hex_digits 16 ms).

(** The constructor. *)
Definition constructed (ms : Z) (id : string) (use_udp : bool) (mode : TransportMode) : NodeImpl :=
  new_node (if str_empty id then generateNodeId ms else id) use_udp mode.

(** [createNode]; [h] is the new object. *)
Definition createNode (e : os) (ms : Z) (shm_ok : bool) (existing : list string) (h : handle) (node_id : string)
    (mode : TransportMode) : act unit :=
  let! _ := (fun p => Ret (tt, mkProcess (<[h := constructed ms (unique_node_id e node_id) false mode]> (p_nodes p)) (p_reg p), [])) in
  initialize shm_ok None existing h.

(** ** Ids *)

Example generated_id : generateNodeId 1700000000000 = "node_018bcfe56800"%string.
Proof. reflexivity. Qed.

(** Every node of the process created under the same name, the empty one included, has the same id. *)
Lemma unique_node_id_nonempty e name : str_empty (unique_node_id e name) = false.
Proof. unfold unique_node_id. by destruct name. Qed.

(** ** Creation *)

(** An action that leaves the process as it is. *)
Lemma for_each_pure {A} (f : A -> act unit) (es : A -> list effect) l p :
  (forall x, x ∈ l -> f x p = Ret (tt, p, es x)) -> for_each l f p = Ret (tt, p, l ≫= es).
Proof.
  intros Hf. induction l as [|x l IH]; [done|]. cbn [for_each mbind list_bind].
  eapply bind_Ret; [apply Hf; left|]. apply IH. intros y Hy. apply Hf. by right.
Qed.

Definition alive_in (p : process) (x : handle) : bool := bool_decide (is_Some (p_nodes p !! x)).

(** [getAllNodes] erases the handles that have expired. *)
Definition registered (p : process) : smap handle := filter (fun k => alive_in p k.2 = true) (gr_nodes (p_reg p)).

Definition pruned (p : process) : process := mkProcess (p_nodes p) (mkGR (registered p) (gr_services (p_reg p))).

Definition left_or_joined (ev : ServiceEvent) (id : string) (m : NodeImpl) (x : handle) : list effect :=
  if String.eqb (node_id_ m) id then []
  else if service_discovery_callback_ m then [ServiceCallback x ev (mkService id "" "" ST_ALL "" INPROCESS "")] else [].

Definition told_all (ev : ServiceEvent) (id : string) (p : process) : list effect :=
  (registered p).*2 ≫= fun x => match p_nodes p !! x with Some m => left_or_joined ev id m x | None => [] end.

(** Telling the nodes of the process about a node. *)
Lemma tell_others ev id p :
  bind getAllNodes (fun l => for_each l (fun x => let! m := node x in unless (String.eqb (node_id_ m) id) (notifyNodeEvent x ev id))) p
  = Ret (tt, pruned p, told_all ev id p).
Proof.
  eapply (bind_Ret _ _ _ _ _ []); [done|]. apply for_each_pure. cbn [p_nodes]. intros x Hx.
  apply list_elem_of_fmap in Hx as (k & -> & [Hk _]%list_elem_of_filter). apply bool_decide_eq_true in Hk as [m Hm].
  erewrite node_bind by exact Hm. rewrite Hm. unfold left_or_joined, unless.
  destruct (String.eqb (node_id_ m) id); [done|]. unfold notifyNodeEvent. by erewrite node_bind by exact Hm.
Qed.

Lemma get_bind {B} (k : process -> act B) p : bind (fun p => Ret (p, p, [])) k p = k p p.
Proof. unfold bind. by destruct (k p p) as [[[? ?] ?]|]. Qed.

Lemma put_bind {B} (f : process -> process) (k : unit -> act B) p : bind (fun p => Ret (tt, f p, [])) k p = k tt (f p).
Proof. unfold bind. by destruct (k tt (f p)) as [[[? ?] ?]|]. Qed.

Lemma bind_assoc {A B C} (m : act A) (f : A -> act B) (k : B -> act C) p :
  bind m (fun x => bind (f x) k) p = bind (bind m f) k p.
Proof.
  unfold bind. destruct (m p) as [[[a p1] e1]|]; [|done]. destruct (f a p1) as [[[b p2] e2]|]; [|done].
  destruct (k b p2) as [[[c p3] e3]|]; [|done]. by rewrite app_assoc.
Qed.

(** [registerNode] enters the node, and at most drops handles that have expired. *)
Lemma registerNode_ok h p n :
  p_nodes p !! h = Some n -> sm_ok (gr_nodes (p_reg p)) ->
  exists p' es, registerNode h p = Ret (tt, p', es) /\ p_nodes p' = p_nodes p
    /\ gr_services (p_reg p') = gr_services (p_reg p) /\ sm_ok (gr_nodes (p_reg p'))
    /\ sm_find (node_id_ n) (gr_nodes (p_reg p')) = Some h
    /\ (forall k x, k <> node_id_ n -> sm_find k (gr_nodes (p_reg p')) = Some x -> sm_find k (gr_nodes (p_reg p)) = Some x).
Proof.
  intros Hn Hok. unfold registerNode. erewrite node_bind by done. rewrite get_bind.
  set (m' := sm_insert (node_id_ n) h (gr_nodes (p_reg p))).
  assert (Hins : forall k, sm_find k m' = if String.eqb k (node_id_ n) then Some h else sm_find k (gr_nodes (p_reg p)))
    by (intros k; apply sm_find_insert).
  assert (Hok' : sm_ok m') by (by apply sm_insert_ok).
  rewrite update_bind. unfold GR.registerNode. fold m'. set (p1 := mkProcess (p_nodes p) (mkGR m' _)). case_match.
  - unfold for_others. rewrite (node_bind h _ _ n) by exact Hn. rewrite tell_others.
    eexists (pruned p1), _. split; [reflexivity|]. do 2 (split; [done|]). split; [by apply sm_filter_ok|].
    unfold pruned, registered. cbn [p_reg gr_nodes p1]. split.
    + rewrite sm_find_filter, Hins, String.eqb_refl by done. cbn. rewrite decide_True; [done|].
      unfold alive_in. apply bool_decide_eq_true_2. cbn. eauto.
    + intros k x Hk. rewrite sm_find_filter, Hins by done. apply String.eqb_neq in Hk as ->.
      destruct (sm_find k (gr_nodes (p_reg p))); cbn; [|done]. by case_decide.
  - exists p1, []. split; [reflexivity|]. cbn. do 3 (split; [done|]). rewrite Hins, String.eqb_refl. split; [done|].
    intros k x Hk. rewrite Hins. by apply String.eqb_neq in Hk as ->.
Qed.

Lemma build_event id port t : exists packet, build id "" "" [] port t = Ret packet.
Proof. eexists. by apply build_layout. Qed.

(** What [initialize] does on the shared-memory transport leaves the process as it is. *)
Lemma announce_ok h p n existing :
  p_nodes p !! h = Some n ->
  exists es, bind (emit ((fun id => ShmSend id []) <$> existing))
               (fun _ => bind (queryRemoteServices h) (fun _ => broadcastNodeEvent h true)) p = Ret (tt, p, es).
Proof.
  intros Hn.
  assert (exists e1, queryRemoteServices h p = Ret (tt, p, e1)) as [e1 H1].
  { unfold queryRemoteServices. erewrite node_bind by exact Hn. destruct (shm_ n); cbn [negb]; [|by eexists].
    destruct (build_event (node_id_ n) 0 SERVICE_REGISTER) as [packet Hb]. erewrite lift_bind by exact Hb. by eexists. }
  assert (exists e2, broadcastNodeEvent h true p = Ret (tt, p, e2)) as [e2 H2].
  { unfold broadcastNodeEvent. erewrite node_bind by exact Hn. destruct (shm_ n); cbn [negb]; [|by eexists].
    destruct (build_event (node_id_ n) (getUdpPort n) NODE_JOIN) as [packet Hb]. erewrite lift_bind by exact Hb. by eexists. }
  eexists. apply emit_bind. by eapply bind_Ret.
Qed.

Lemma createNode_ok e ms shm_ok existing h name mode p :
  sm_ok (gr_nodes (p_reg p)) ->
  exists p' n es, createNode e ms shm_ok existing h name mode p = Ret (tt, p', es)
    /\ p_nodes p' = <[h := n]> (p_nodes p) /\ node_id_ n = unique_node_id e name
    /\ gr_services (p_reg p') = gr_services (p_reg p) /\ sm_ok (gr_nodes (p_reg p'))
    /\ sm_find (node_id_ n) (gr_nodes (p_reg p')) = Some h
    /\ (forall k x, k <> node_id_ n -> sm_find k (gr_nodes (p_reg p')) = Some x -> sm_find k (gr_nodes (p_reg p)) = Some x).
Proof.
  intros Hok. unfold createNode. rewrite (put_bind (fun p => mkProcess (<[h := _]> (p_nodes p)) (p_reg p))).
  set (n0 := constructed ms (unique_node_id e name) false mode).
  assert (Hid : node_id_ n0 = unique_node_id e name) by (unfold n0, constructed; by rewrite unique_node_id_nonempty).
  destruct (registerNode_ok h (mkProcess (<[h := n0]> (p_nodes p)) (p_reg p)) n0) as (p1 & e1 & H1 & N1 & S1 & O1 & F1 & K1);
    [apply lookup_insert_eq|done|]. cbn [p_nodes p_reg] in *.
  assert (Hn1 : p_nodes p1 !! h = Some n0) by (rewrite N1; apply lookup_insert_eq).
  unfold initialize. set (shm := match transport_mode_ n0 with TM_UDP => false | _ => shm_ok end).
  set (p2 := mkProcess (<[h := set_links n0 shm None false]> (p_nodes p1)) (p_reg p1)).
  assert (Hann : exists e2, (if shm then bind (emit ((fun id => ShmSend id []) <$> filter (fun id => id <> node_id_ n0) existing))
               (fun _ => bind (queryRemoteServices h) (fun _ => broadcastNodeEvent h true)) else ret tt) p2 = Ret (tt, p2, e2)).
  { destruct shm; [|by eexists]. apply (announce_ok h p2 (set_links n0 true None false)). apply lookup_insert_eq. }
  destruct Hann as [e2 H2].
  exists (mkProcess (<[h := set_links n0 shm None true]> (p_nodes p2)) (p_reg p1)), (set_links n0 shm None true). eexists. split.
  - eapply bind_Ret; [exact H1|]. erewrite node_bind by exact Hn1. fold shm. rewrite set_node_bind. fold p2.
    eapply bind_Ret; [exact H2|]. reflexivity.
  - cbn. rewrite N1, !insert_insert_eq. done.
Qed.

(** ** Properties *)

(** C37: two nodes that a process creates under the same name, which for the empty default name is every pair,
    get the same id, since [createNode] appends the process id only and [generateNodeId] is never used:
    the second takes the place of the first in the registry, which then lists the first no
    more, so no message and no event of another node of the process reaches it. *)
Theorem same_name_collides e ms1 ms2 shm_ok existing1 existing2 h1 h2 name mode1 mode2 p :
  h1 <> h2 -> sm_ok (gr_nodes (p_reg p)) -> (forall k, sm_find k (gr_nodes (p_reg p)) <> Some h1) ->
  exists p' n1 n2 es,
    bind (createNode e ms1 shm_ok existing1 h1 name mode1) (fun _ => createNode e ms2 shm_ok existing2 h2 name mode2) p
      = Ret (tt, p', es)
    /\ p_nodes p' !! h1 = Some n1 /\ p_nodes p' !! h2 = Some n2 /\ node_id_ n1 = node_id_ n2
    /\ exists l p'', getAllNodes p' = Ret (l, p'', []) /\ h2 ∈ l /\ h1 ∉ l.
Proof.
  intros Hne Hok Hfresh.
  destruct (createNode_ok e ms1 shm_ok existing1 h1 name mode1 p Hok) as (p1 & n1 & e1 & H1 & N1 & I1 & _ & O1 & F1 & K1).
  destruct (createNode_ok e ms2 shm_ok existing2 h2 name mode2 p1 O1) as (p2 & n2 & e2 & H2 & N2 & I2 & _ & O2 & F2 & K2).
  exists p2, n1, n2, (e1 ++ e2). split; [by eapply bind_Ret|].
  assert (L1 : p_nodes p2 !! h1 = Some n1) by (rewrite N2, N1, lookup_insert_ne by done; apply lookup_insert_eq).
  assert (L2 : p_nodes p2 !! h2 = Some n2) by (rewrite N2; apply lookup_insert_eq).
  do 2 (split; [done|]). split; [congruence|]. eexists _, _. split; [reflexivity|]. rewrite !list_elem_of_fmap. split.
  - exists (node_id_ n2, h2). split; [done|]. apply list_elem_of_filter. split.
    + unfold alive_in. apply bool_decide_eq_true_2. cbn. eauto.
    + by apply sm_find_Some_elem.
  - intros ([k x] & Hx & [_ Hin]%list_elem_of_filter). cbn in Hx. subst x. apply sm_elem_find in Hin; [|done].
    destruct (decide (k = node_id_ n2)) as [->|Hk]; [congruence|]. apply K2 in Hin; [|done].
    apply K1 in Hin; [|congruence]. by apply (Hfresh k).
Qed.

(** C25: destroying a node removes it from the process and from the registry, together with exactly its own
    services; the discovery callbacks of the other nodes are told that it left, and its
    NODE_LEAVE packet is broadcast if it is on shared memory. *)
Theorem destroyed_node_gone h p n :
  p_nodes p !! h = Some n -> gr_wf (p_reg p) ->
  exists p' es packet, destroy h p = Ret (tt, p', es)
    /\ p_nodes p' = delete h (p_nodes p)
    /\ sm_find (node_id_ n) (gr_nodes (p_reg p')) = None
    /\ (forall group d, d ∈ group_vec (p_reg p') group <-> d ∈ group_vec (p_reg p) group /\ sd_node_id d <> node_id_ n)
    /\ build (node_id_ n) "" "" [] (getUdpPort n) NODE_LEAVE = Ret packet
    /\ es = told_all NODE_LEFT (node_id_ n) (mkProcess (delete h (p_nodes p)) (p_reg p)) ++ (if shm_ n then [ShmBroadcast packet] else []).
Proof.
  intros Hn Hwf. set (p1 := mkProcess (delete h (p_nodes p)) (p_reg p)).
  destruct (build_event (node_id_ n) (getUdpPort n) NODE_LEAVE) as [packet Hb].
  exists (mkProcess (p_nodes p1) (GR.unregisterNode (node_id_ n) (p_reg (pruned p1)))).
  exists (told_all NODE_LEFT (node_id_ n) p1 ++ (if shm_ n then [ShmBroadcast packet] else [])), packet.
  split; [|split; [done|split; [|split; [|by split]]]].
  - unfold destroy. erewrite node_bind by exact Hn. rewrite (put_bind (fun p => mkProcess (delete h (p_nodes p)) (p_reg p))). fold p1.
    unfold unregisterNode. rewrite bind_assoc. eapply bind_Ret; [apply tell_others|].
    rewrite <- (app_nil_r (if shm_ n then [ShmBroadcast packet] else [])). eapply (bind_Ret _ _ _ _ (pruned p1)); [|reflexivity].
    destruct (shm_ n); [|done]. by erewrite lift_bind by exact Hb.
  - cbn. rewrite sm_find_erase by (apply sm_filter_ok; by destruct Hwf). by rewrite String.eqb_refl.
  - intros group d. cbn [p_reg]. unfold GR.unregisterNode, group_vec at 1. cbn [gr_services pruned p_reg p1].
    rewrite erase_node_services_vec, list_elem_of_filter by done. tauto.
Qed.

(** ** Witnesses *)

Definition demo_os : os := mkOs 42 (fun _ => KillOk) 0 0.

Lemma same_name_collides_witness :
  exists p' n1 n2 es,
    bind (createNode demo_os 0 false [] 1%nat "" TM_AUTO) (fun _ => createNode demo_os 0 false [] 2%nat "" TM_AUTO) demo_process
      = Ret (tt, p', es)
    /\ p_nodes p' !! 1%nat = Some n1 /\ p_nodes p' !! 2%nat = Some n2 /\ node_id_ n1 = node_id_ n2
    /\ exists l p'', getAllNodes p' = Ret (l, p'', []) /\ 2%nat ∈ l /\ 1%nat ∉ l.
Proof.
  apply (same_name_collides demo_os 0 0 false [] [] 1%nat 2%nat "" TM_AUTO TM_AUTO demo_process).
  - discriminate.
  - apply demo_gr_wf.
  - intros k. cbn [demo_process p_reg gr_nodes sm_find]. by destruct (String.eqb k "A").
Defined.

Lemma destroyed_node_gone_witness :
  exists p' es packet, destroy 0%nat demo_process = Ret (tt, p', es)
    /\ p_nodes p' = delete 0%nat (p_nodes demo_process) /\ es = [ShmBroadcast packet].
Proof.
  destruct (destroyed_node_gone 0%nat demo_process demo_node) as (p' & es & packet & Hd & Hn & _ & _ & _ & He);
    [reflexivity|exact demo_gr_wf|].
  exists p', es, packet. split; [exact Hd|]. split; [exact Hn|]. rewrite He. reflexivity.
Defined.
