(* ===== verification/UdpNodes.v ===== *)
(** * Peers reached over UDP

    A node learns of UDP peers by their heartbeats and forgets those it has not heard for five
    seconds: [handleUdpHeartbeat], [checkUdpTimeouts] and [udpHeartbeatThread] of
    [src/core/NodeImpl.cpp]. This file proves what the peer table and the service table hold
    after any sequence of heartbeats and checks, and puts a node on the receive thread of its
    [UdpTransport]. *)

From S2P Require Import Prelude StdMap NodeTypes GlobalRegistry UdpTransport Message Config NodeImpl NodeSpec.

(** The body of [udpHeartbeatThread]'s loop. *)
Definition heartbeat_round (now : Z) (h : handle) : act unit :=
  let! _ := sendUdpHeartbeat h in checkUdpTimeouts now h.

(** The heartbeats a node hears and the rounds its thread makes, with the time of each. *)
Inductive peer_event :=
| Heard (now : Z) (from addr : string) (port : Z)
| Checked (now : Z).

Definition peer_step (h : handle) (e : peer_event) : act unit :=
  match e with
  | Heard now from addr port => handleUdpHeartbeat now h from addr port
  | Checked now => heartbeat_round now h
  end.

(** The timer of one peer: when it was heard last, if it is known. *)
Definition timer_step (self id : string) (last : option Z) (e : peer_event) : option Z :=
  match e with
  | Heard now from _ _ => if String.eqb from self then last else if String.eqb from id then Some now else last
  | Checked now => match last with
                   | Some t => if UDP_TIMEOUT_MS <? now - t then None else Some t
                   | None => None
                   end
  end.

Section Callback.
Context (hash : string -> Z) (cfg : Config).

(** The callback set in [initialize]: [size] bytes from the start of the buffer. *)
Definition udp_callback (now : Z) (h : handle) (a : callback_args) : act unit :=
  udp_receive hash cfg now h (take (Z.to_nat (ca_size a)) (ca_buffer a)) (ca_from a).

(** [receiveThread] of the transport [u] on the results [rs] of [recvfrom], with the node as its callback. *)
Definition udp_thread (inet_ntop : list Z -> string) (now : Z) (h : handle) (rs : list recv_result) (buffer : list Z)
    (u : UdpTransport) : act UdpTransport :=
  let '(calls, _, u') := receive_loop inet_ntop rs buffer u in
  let! _ := for_each calls (udp_callback now h) in ret u'.

End Callback.

(** ** Services of silent peers *)

(** The nodes whose departure the discovery callback was told. *)
Definition told_left (es : list effect) : list string :=
  omap (fun e => match e with ServiceCallback _ NODE_LEFT svc => Some (sd_node_id svc) | _ => None end) es.

(** A descriptor of [group] that goes with a UDP service of one of the nodes [ids]. *)
Definition goes_with (g : GlobalRegistry) (ids : list string) (group : string) (d : ServiceDescriptor) : Prop :=
  exists svc, svc ∈ group_vec g group /\ sd_node_id svc ∈ ids /\ sd_transport svc = UDP
    /\ sd_node_id d = sd_node_id svc /\ sd_topic d = sd_topic svc.

Definition all_filed (g : GlobalRegistry) : Prop := forall group, Forall (fun d => sd_group d = group) (group_vec g group).

Section Peers.
Context (h : handle).

Lemma unregister_loop svcs p n :
  p_nodes p !! h = Some n ->
  exists es, for_each svcs (fun svc => let! _ := update_registry (GR.unregisterService (sd_group svc) svc) in handleServiceUpdate h svc false) p
      = Ret (tt, mkProcess (p_nodes p) (apply_all unregister_op svcs (p_reg p)), es)
    /\ told_left es = [].
Proof.
  revert p. induction svcs as [|svc svcs IH]; intros p Hn; cbn [for_each apply_all foldl].
  { exists []. by destruct p. }
  destruct (IH (mkProcess (p_nodes p) (unregister_op svc (p_reg p))) Hn) as (es & He & Ht).
  eexists. split.
  - eapply bind_Ret; [|exact He]. rewrite update_bind. unfold handleServiceUpdate. erewrite node_bind by exact Hn. reflexivity.
  - unfold told_left in *. rewrite omap_app, Ht, app_nil_r. by destruct (service_discovery_callback_ n).
Qed.

Lemma forget_one g id group d :
  gr_wf g -> all_filed g ->
  d ∈ group_vec (apply_all unregister_op (filter (fun d => sd_node_id d = id /\ sd_transport d = UDP) (GR.findServices "" g)) g) group
  <-> d ∈ group_vec g group /\ ~ goes_with g [id] group d.
Proof.
  intros Hwf Hf. rewrite apply_unregister_elem by done. apply and_iff_compat_l. rewrite Forall_forall. unfold removed_by. split.
  - intros Hno (svc & Hin & Hid%list_elem_of_singleton & Hu & Hd). apply (Hno svc); [|].
    + apply list_elem_of_filter. split; [done|]. apply findServices_all; eauto.
    + split; [|done]. pose proof (Hf group) as Hg. rewrite Forall_forall in Hg. by apply Hg.
  - intros Hno svc [[<- Hu] Hin]%list_elem_of_filter (Hg & Hd & Ht). apply Hno. apply findServices_all in Hin as [grp Hin]; [|done].
    assert (grp = group) as ->. { pose proof (Hf grp) as Hfg. rewrite Forall_forall in Hfg. rewrite <- Hg. symmetry. by apply Hfg. }
    exists svc. rewrite list_elem_of_singleton. done.
Qed.

Lemma apply_unregister_wf svcs g : gr_wf g -> gr_wf (apply_all unregister_op svcs g).
Proof. revert g. induction svcs as [|svc svcs IH]; intros g Hg; [done|]. cbn. by apply IH, unregisterService_wf. Qed.

Lemma forget_peers_ok ids p n :
  p_nodes p !! h = Some n -> gr_wf (p_reg p) -> all_filed (p_reg p) ->
  exists p' es, forget_peers h ids p = Ret (tt, p', es) /\ p_nodes p' = p_nodes p /\ gr_wf (p_reg p')
    /\ told_left es = (if service_discovery_callback_ n then ids else [])
    /\ forall group d, d ∈ group_vec (p_reg p') group <-> d ∈ group_vec (p_reg p) group /\ ~ goes_with (p_reg p) ids group d.
Proof.
  revert p. induction ids as [|id ids IH]; intros p Hn Hwf Hf.
  { exists p, []. do 3 (split; [done|]). split; [by case_match|]. intros group d. split; [|by intros [? _]].
    intros Hd. split; [done|]. intros (svc & _ & Hin & _). by apply not_elem_of_nil in Hin. }
  set (svcs := filter (fun d => sd_node_id d = id /\ sd_transport d = UDP) (GR.findServices "" (p_reg p))).
  set (g1 := apply_all unregister_op svcs (p_reg p)).
  assert (Hg1 : forall group d, d ∈ group_vec g1 group <-> d ∈ group_vec (p_reg p) group /\ ~ goes_with (p_reg p) [id] group d)
    by (intros; by apply forget_one).
  destruct (unregister_loop svcs p n Hn) as (e1 & H1 & T1).
  destruct (IH (mkProcess (p_nodes p) g1) Hn) as (p' & e2 & H2 & N2 & W2 & T2 & D2).
  { by apply apply_unregister_wf. }
  { intros group. apply Forall_forall. intros d [Hd _]%Hg1. pose proof (Hf group) as Hg. rewrite Forall_forall in Hg. by apply Hg. }
  eexists p', _. split; [|split; [done|split; [done|split]]].
  - unfold forget_peers in *. cbn [for_each]. eapply bind_Ret; [|exact H2]. unfold all_services. rewrite registry_bind. fold svcs.
    eapply bind_Ret; [exact H1|]. unfold notifyNodeEvent. erewrite node_bind by exact Hn. reflexivity.
  - unfold told_left in *. rewrite !omap_app, T1, T2. by destruct (service_discovery_callback_ n).
  - intros group d. rewrite D2. cbn [p_reg]. rewrite Hg1. split.
    + intros [[Hd H3] H4]. split; [done|]. intros (svc & Hin & Hid & Hu & Hs & Ht). apply elem_of_cons in Hid as [Hid|Hid].
      * apply H3. exists svc. rewrite list_elem_of_singleton. done.
      * destruct (decide (sd_node_id svc = id)) as [He|Hne].
        -- apply H3. exists svc. rewrite list_elem_of_singleton. done.
        -- apply H4. exists svc. split; [|done]. apply Hg1. split; [done|]. intros (x & _ & Hx%list_elem_of_singleton & _ & Hsx & _). congruence.
    + intros [Hd Hno]. split; [split; [done|]|].
      * intros (svc & Hin & Hid & Hr). apply Hno. exists svc. split; [done|]. split; [|done].
        apply list_elem_of_singleton in Hid as ->. apply list_elem_of_here.
      * intros (svc & [Hin _]%Hg1 & Hid & Hr). apply Hno. exists svc. split; [done|]. split; [by apply list_elem_of_further|done].
Qed.

Definition silent (now : Z) (n : NodeImpl) : list string := (filter (fun p => timed_out now p = true) (remote_nodes_ n)).*1.

Lemma checkUdpTimeouts_ok now p n :
  p_nodes p !! h = Some n -> gr_wf (p_reg p) -> all_filed (p_reg p) ->
  exists p' es, checkUdpTimeouts now h p = Ret (tt, p', es)
    /\ p_nodes p' = <[h := set_remote n (filter (fun x => timed_out now x = false) (remote_nodes_ n))]> (p_nodes p)
    /\ gr_wf (p_reg p')
    /\ told_left es = (if service_discovery_callback_ n then silent now n else [])
    /\ forall group d, d ∈ group_vec (p_reg p') group
         <-> d ∈ group_vec (p_reg p) group /\ ~ goes_with (p_reg p) (silent now n) group d.
Proof.
  intros Hn Hwf Hf. unfold checkUdpTimeouts. erewrite node_bind by done. rewrite set_node_bind. fold (silent now n).
  destruct (forget_peers_ok (silent now n)
      (mkProcess (<[h := set_remote n (filter (fun x => timed_out now x = false) (remote_nodes_ n))]> (p_nodes p)) (p_reg p)) _
      (lookup_insert_eq _ _ _) Hwf Hf) as (p' & es & Hr & Hp & Hw & Ht & Hd).
  exists p', es. done.
Qed.

Lemma sendUdpHeartbeat_ok p n : p_nodes p !! h = Some n -> exists es, sendUdpHeartbeat h p = Ret (tt, p, es) /\ told_left es = [].
Proof.
  intros Hn. unfold sendUdpHeartbeat. erewrite node_bind by exact Hn. destruct (udp_ n) as [port|]; [|by exists []].
  erewrite lift_bind by (by apply build_layout). unfold all_services. rewrite registry_bind. eexists. split; [reflexivity|].
  unfold told_left, send_to_endpoints. induction (udp_endpoints _ _) as [|x l IH]; [done|]. cbn [mbind list_bind].
  rewrite omap_app, IH, app_nil_r. by destruct (parse_endpoint x) as [[? ?]|].
Qed.

(** What a sequence of heartbeats and checks keeps. *)
Record peers_inv (self : string) (cb : bool) (timers : string -> option Z) (g0 : GlobalRegistry) (told : list string)
    (p : process) (n : NodeImpl) : Prop := mkPeersInv {
  pi_node : p_nodes p !! h = Some n;
  pi_self : node_id_ n = self;
  pi_cb : service_discovery_callback_ n = cb;
  pi_sorted : sm_ok (remote_nodes_ n);
  pi_timers id : rn_last_heartbeat <$> sm_find id (remote_nodes_ n) = timers id;
  pi_wf : gr_wf (p_reg p);
  pi_filed : all_filed (p_reg p);
  pi_lost group d : cb = true -> d ∈ group_vec g0 group -> d ∈ group_vec (p_reg p) group \/ sd_node_id d ∈ told
}.

Lemma peer_step_inv self cb timers g0 told p n e :
  peers_inv self cb timers g0 told p n ->
  exists p' n' es, peer_step h e p = Ret (tt, p', es)
    /\ peers_inv self cb (fun id => timer_step self id (timers id) e) g0 (told ++ told_left es) p' n'.
Proof.
  intros [Hn Hs Hcb Hok Ht Hwf Hf Hl]. destruct e as [now from addr port|now]; cbn [peer_step timer_step].
  - unfold handleUdpHeartbeat. erewrite node_bind by done. rewrite Hs. destruct (String.eqb_spec from self) as [->|Hne].
    + exists p, n, []. split; [done|]. by rewrite app_nil_r.
    + eexists _, (set_remote n (sm_insert from _ (remote_nodes_ n))), _. split; [reflexivity|]. rewrite app_nil_r. split; cbn; try done.
      * apply lookup_insert_eq.
      * by apply sm_insert_ok.
      * intros id. rewrite sm_find_insert by done. destruct (String.eqb_spec from id) as [->|Hid].
        -- rewrite String.eqb_refl. by destruct (sm_find id (remote_nodes_ n)).
        -- destruct (String.eqb_spec id from); [congruence|]. apply Ht.
  - destruct (sendUdpHeartbeat_ok p n Hn) as (e0 & H0 & T0).
    destruct (checkUdpTimeouts_ok now p n Hn Hwf Hf) as (p' & es & Hr & Hp & Hw & Htold & Hd).
    exists p', (set_remote n (filter (fun x => timed_out now x = false) (remote_nodes_ n))), (e0 ++ es).
    split; [by eapply bind_Ret|]. unfold told_left in *. rewrite omap_app, T0. cbn [app]. split; cbn; try done.
    + rewrite Hp. apply lookup_insert_eq.
    + by apply sm_filter_ok.
    + intros id. rewrite sm_find_filter by done. rewrite <- Ht. destruct (sm_find id (remote_nodes_ n)) as [i|]; [|done]. cbn.
      unfold timed_out. cbn. case_decide as E; rewrite E || apply not_false_is_true in E as ->; done.
    + intros group. apply Forall_forall. intros d [Hin _]%Hd. pose proof (Hf group) as Hg. rewrite Forall_forall in Hg. by apply Hg.
    + intros group d Hc Hin. rewrite elem_of_app. destruct (Hl group d Hc Hin) as [Hin'|]; [|by right; left].
      destruct (decide (sd_node_id d ∈ silent now n)) as [Hs1|Hs1].
      * right. right. rewrite Htold, Hcb, Hc. done.
      * left. apply Hd. split; [done|]. intros (svc & _ & Hsv & _ & Hid & _). congruence.
Qed.

Lemma peer_steps_inv self cb timers g0 told evs p n :
  peers_inv self cb timers g0 told p n ->
  exists p' n' es, for_each evs (peer_step h) p = Ret (tt, p', es)
    /\ peers_inv self cb (fun id => foldl (timer_step self id) (timers id) evs) g0 (told ++ told_left es) p' n'.
Proof.
  revert timers told p n. induction evs as [|e evs IH]; intros timers told p n Hi.
  { exists p, n, []. split; [done|]. by rewrite app_nil_r. }
  destruct (peer_step_inv _ _ _ _ _ _ _ e Hi) as (p1 & n1 & e1 & H1 & Hi1). destruct (IH _ _ _ _ Hi1) as (p2 & n2 & e2 & H2 & Hi2).
  exists p2, n2, (e1 ++ e2). cbn [for_each foldl]. split; [by eapply bind_Ret|]. unfold told_left in *. by rewrite omap_app, app_assoc.
Qed.

(** ** Properties *)

(** C24: over any sequence of received heartbeats and rounds of the heartbeat thread, the peer table is one timer per peer: a
    heartbeat of another node sets it, a round removes it exactly when more than five seconds have passed
    since; and a service disappears from the table only when the callback has been told that
    its node left. *)
Theorem udp_peers_tracked evs p n :
  p_nodes p !! h = Some n -> sm_ok (remote_nodes_ n) -> gr_wf (p_reg p) -> all_filed (p_reg p) ->
  exists p' n' es, for_each evs (peer_step h) p = Ret (tt, p', es) /\ p_nodes p' !! h = Some n'
    /\ (forall id, rn_last_heartbeat <$> sm_find id (remote_nodes_ n')
         = foldl (timer_step (node_id_ n) id) (rn_last_heartbeat <$> sm_find id (remote_nodes_ n)) evs)
    /\ (service_discovery_callback_ n = true -> forall group d,
         d ∈ group_vec (p_reg p) group -> d ∈ group_vec (p_reg p') group \/ sd_node_id d ∈ told_left es).
Proof.
  intros Hn Hok Hwf Hf.
  destruct (peer_steps_inv (node_id_ n) (service_discovery_callback_ n) (fun id => rn_last_heartbeat <$> sm_find id (remote_nodes_ n))
    (p_reg p) [] evs p n) as (p' & n' & es & Hr & [Hn' _ _ _ Ht _ _ Hl]); [by split; auto|].
  exists p', n', es. split; [done|]. split; [done|]. split; [done|]. intros Hcb group d. by apply Hl.
Qed.

(** A check forgets exactly the peers not heard for more than five seconds. Of the service table it removes what
    has the node and the topic of one of their UDP services, within its group, and nothing else; the
    callback is told once for each of them, in the order of the table. *)
Theorem udp_timeout_exact now p n :
  p_nodes p !! h = Some n -> gr_wf (p_reg p) -> all_filed (p_reg p) ->
  exists p' es, checkUdpTimeouts now h p = Ret (tt, p', es)
    /\ p_nodes p' = <[h := set_remote n (filter (fun x => timed_out now x = false) (remote_nodes_ n))]> (p_nodes p)
    /\ told_left es = (if service_discovery_callback_ n then silent now n else [])
    /\ forall group d, d ∈ group_vec (p_reg p') group
         <-> d ∈ group_vec (p_reg p) group /\ ~ goes_with (p_reg p) (silent now n) group d.
Proof.
  intros Hn Hwf Hf. destruct (checkUdpTimeouts_ok now p n Hn Hwf Hf) as (p' & es & ? & ? & _ & ? & ?). eauto 6.
Qed.

End Peers.

(** ** A node on its UDP transport *)

Section Datagrams.
Context (hash : string -> Z) (cfg : Config) (inet_ntop : list Z -> string).

(** A data packet is handled as one from shared memory. *)
Lemma udp_receive_data now h packet from p pk source group topic payload :
  open_packet h packet p = Ret (Some (pk, source, group, topic, payload), p, []) -> MessageType_of (msg_type pk) = Some DATA ->
  udp_receive hash cfg now h packet from p = processPacket hash cfg h packet p.
Proof. intros Ho Hd. unfold udp_receive, processPacket, bind. rewrite Ho, Hd. done. Qed.

Lemma for_each_fmap {A B} (g : A -> B) (f : B -> act unit) l p : for_each (g <$> l) f p = for_each l (fun x => f (g x)) p.
Proof. revert p. induction l as [|x l IH]; intros p; [done|]. cbn [for_each fmap list_fmap]. unfold bind. destruct (f (g x) p) as [[[? ?] ?]|]; [|done]. by rewrite IH. Qed.

(** Messages that arrive one after the other at a subscriber with room for them. *)
Lemma udp_stream_ok now h a group topic port from payloads_ : forall p n,
  p_nodes p !! h = Some n -> node_id_ n <> a -> isSubscribed group topic n = true ->
  length (message_queues_ n) = NUM_PROCESSING_THREADS ->
  Forall (fun x => packet_fits a group topic x port) payloads_ ->
  zlen (queue_of hash n group topic) + zlen payloads_ <= max_size cfg ->
  exists packets p' n', Forall2 (fun x packet => build a group topic x port DATA = Ret packet) payloads_ packets
    /\ for_each packets (fun packet => udp_receive hash cfg now h packet from) p = Ret (tt, p', [])
    /\ p_reg p' = p_reg p /\ p_nodes p' !! h = Some n'
    /\ queue_of hash n' group topic = queue_of hash n group topic ++ (mkPending a group topic <$> payloads_).
Proof.
  induction payloads_ as [|x xs IH]; intros p n Hn Ha Hsub Hlen Hf Hroom.
  { exists [], p, n. rewrite app_nil_r. done. }
  apply Forall_cons in Hf as [Hx Hxs]. unfold zlen in Hroom. rewrite length_cons in Hroom.
  destruct (received_ok hash cfg h p n a group topic x port Hn Ha Hx) as (packet & p1 & Hb & Hp & Hr & Hns).
  { unfold zlen. lia. }
  destruct (open_packet_built h p n a group topic x port DATA Hn Ha Hx) as (packet' & pk & Hb' & Ho & Ht & _).
  assert (packet' = packet) as -> by congruence. rewrite Hsub in Hns.
  set (n1 := set_queues n (<[thread_of hash group topic := queue_of hash n group topic ++ [mkPending a group topic x]]>
                             (message_queues_ n)) (dropped_messages_ n)) in Hns.
  assert (Hq1 : queue_of hash n1 group topic = queue_of hash n group topic ++ [mkPending a group topic x]).
  { unfold queue_of at 1, n1. cbn. rewrite nth_lookup, list_lookup_insert_eq by (rewrite Hlen; apply thread_of_lt). done. }
  destruct (IH p1 n1) as (packets & p2 & n2 & F2 & E2 & R2 & N2 & Q2); try done.
  { rewrite Hns. apply lookup_insert_eq. }
  { cbn. by rewrite length_insert. }
  { rewrite Hq1. unfold zlen. rewrite length_app. cbn. lia. }
  exists (packet :: packets), p2, n2. split; [by constructor|]. split; [|split; [congruence|split; [done|]]].
  - cbn [for_each]. eapply (bind_Ret _ _ _ _ _ []); [|exact E2]. by rewrite (udp_receive_data _ _ _ _ _ _ _ _ _ _ Ho Ht).
  - rewrite Q2, Hq1, <- app_assoc. done.
Qed.

(** The packet of [sendUdpHeartbeat], received by another node, is what [Heard] stands for. *)
Lemma heartbeat_heard now h a port addr p n :
  p_nodes p !! h = Some n -> node_id_ n <> a -> packet_fits a "" "" [] port ->
  exists packet, build a "" "" [] port HEARTBEAT = Ret packet
    /\ udp_receive hash cfg now h packet addr p = peer_step h (Heard now a addr port) p.
Proof.
  intros Hn Ha Hf. destruct (open_packet_built h p n a "" "" [] port HEARTBEAT Hn Ha Hf) as (packet & pk & Hb & Ho & Ht & Hp).
  exists packet. split; [done|]. unfold udp_receive, bind. rewrite Ho, Ht, Hp. cbn [peer_step app].
  by destruct (handleUdpHeartbeat now h a addr port p) as [[[? ?] ?]|].
Qed.


End Datagrams.

(** ** Witnesses *)

Definition udp_svc (id : string) : ServiceDescriptor := mkService id "g" "t" NORMAL_MESSAGE "" UDP "10.0.0.2:47201".

(** The node "A" with its discovery callback has heard "B" at 1000 and "C" at 5500. *)
Definition peers_node : NodeImpl :=
  set_remote (setServiceDiscoveryCallback true (new_node "A" true TM_UDP))
    [("B"%string, mkRemote "B" "10.0.0.2" 47201 1000); ("C"%string, mkRemote "C" "10.0.0.3" 47201 5500)].

Definition peers_process : process :=
  mkProcess {[ 0%nat := peers_node ]} (mkGR [("A"%string, 0%nat)] [("g"%string, [udp_svc "B"; udp_svc "C"])]).

Lemma peers_wf : gr_wf (p_reg peers_process).
Proof. split; [repeat constructor|repeat constructor|]. constructor; [|constructor]. by vm_compute; repeat constructor; set_solver. Qed.

Lemma peers_filed : all_filed (p_reg peers_process).
Proof.
  intros group. unfold group_vec. cbn [p_reg peers_process gr_services sm_find].
  destruct (String.eqb_spec group "g") as [->|]; repeat constructor.
Qed.

Lemma udp_timeout_exact_witness :
  exists p' es, checkUdpTimeouts 6500 0%nat peers_process = Ret (tt, p', es) /\ told_left es = ["B"%string]
    /\ (udp_svc "B" ∉ group_vec (p_reg p') "g") /\ udp_svc "C" ∈ group_vec (p_reg p') "g".
Proof.
  destruct (udp_timeout_exact 0%nat 6500 peers_process peers_node) as (p' & es & Hr & _ & Ht & Hd);
    [reflexivity|exact peers_wf|exact peers_filed|].
  exists p', es. split; [exact Hr|]. split; [exact Ht|]. split.
  - intros [_ Hno]%Hd. apply Hno. exists (udp_svc "B"). vm_compute. repeat split; try done; apply list_elem_of_here.
  - apply Hd. split; [vm_compute; apply list_elem_of_further, list_elem_of_here|].
    intros (svc & _ & Hin & _ & Hid & _). rewrite <- Hid in Hin. vm_compute in Hin. by apply list_elem_of_singleton in Hin.
Defined.

Lemma udp_peers_tracked_witness :
  exists p' n' es,
    for_each [Heard 6000 "B" "10.0.0.2" 47201; Checked 10800; Heard 10900 "A" "10.0.0.1" 47200] (peer_step 0%nat) peers_process
      = Ret (tt, p', es)
    /\ p_nodes p' !! 0%nat = Some n'
    /\ rn_last_heartbeat <$> sm_find "B" (remote_nodes_ n') = Some 6000
    /\ rn_last_heartbeat <$> sm_find "C" (remote_nodes_ n') = None
    /\ rn_last_heartbeat <$> sm_find "A" (remote_nodes_ n') = None.
Proof.
  destruct (udp_peers_tracked 0%nat [Heard 6000 "B" "10.0.0.2" 47201; Checked 10800; Heard 10900 "A" "10.0.0.1" 47200]
    peers_process peers_node) as (p' & n' & es & Hr & Hn & Ht & _); [reflexivity|repeat constructor|exact peers_wf|exact peers_filed|].
  exists p', n', es. split; [exact Hr|]. split; [exact Hn|]. rewrite !Ht. by vm_compute.
Defined.

(** A packet of "B" for g/t. *)
Definition packet_of (payload : list Z) : list Z :=
  match build "B" "g" "t" payload 0 DATA with Ret b => b | UB => [] end.

(** Two messages for the subscribed node "A", among idle rounds, before an error. *)
Definition two_messages : list recv_result :=
  [WouldBlock; Datagram (packet_of [1; 2]) [10; 0; 0; 2]; Datagram [] [10; 0; 0; 3]; WouldBlock;
   Datagram (packet_of [3]) [10; 0; 0; 2]; RecvError].

