(* ===== verification/System.v ===== *)
(** * Nodes on their transport

    Puts the parts together along the path of a message between two processes: [publish] of
    [src/core/NodeImpl.cpp] asks [SharedMemoryTransportV3] for the nodes of the registry and for its sends;
    the receive loop of the other process hands what it finds to [processPacket]; a processing
    thread calls the subscriber's callback. *)

From S2P Require Import Prelude Os SharedMemoryRegistry StdMap ByteQueue TransportV3 TransportSpec NodeTypes GlobalRegistry Message Config NodeImpl NodeSpec.

Module T := TransportV3.

Section System.
Context {CQ DQ : Type} `{!ByteQueue CQ} `{!ByteQueue DQ}.
Implicit Types (w : T.world CQ DQ).

(** What a node asked of its shared-memory transport, carried out in order; the results of the sends
    are not looked at. *)
Fixpoint perform (e : T.env) (es : list effect) (t : T.transport) w : outcome (T.transport * T.world CQ DQ) :=
  match es with
  | [] => Ret (t, w)
  | ShmSend dest packet :: rest =>
      do! '(_, t1, w1, _) := T.send e dest packet t w in perform e rest t1 w1
  | ShmBroadcast packet :: rest =>
      do! '(_, t1, w1) := T.broadcast e packet t w in perform e rest t1 w1
  | ShmDisconnect id :: rest =>
      let '(t1, w1) := T.disconnectFromNode e id t w in perform e rest t1 w1
  | _ :: rest => perform e rest t w
  end.

(** [publish] on a node whose transport is [t]. *)
Definition publish_shm (hash : string -> Z) (cfg : Config) (e : T.env) (h : handle) (group topic : string) (payload : list Z)
    (p : process) (t : T.transport) w : outcome (Error * process * list effect * T.transport * T.world CQ DQ) :=
  do! '(err, p', es) := publish hash cfg h (T.getLocalNodes (T.ev_call e) t w) group topic payload p in
  do! '(t', w') := perform e es t w in
  Ret (err, p', es, t', w').

(** One iteration of the receive loop of the transport [t] with the callback set by the node [h]. *)
Definition receive_round (hash : string -> Z) (cfg : Config) (fuel : nat) (h : handle) (t : T.transport) (l : T.rloop)
    (p : process) w : outcome (T.transport * T.rloop * process * T.world CQ DQ * list effect) :=
  match T.my_shm_ t with
  | None => Ret (t, l, p, w, [])
  | Some o =>
      match T.w_heap w !! o with
      | None => UB
      | Some s =>
          do! '(ds, t', l', s', _) := T.receive_iteration fuel t l s in
          do! '(_, p', es) := for_each ds (fun d => processPacket hash cfg h d.2) p in
          Ret (t', l', p', T.set_heap w o s', es)
      end
  end.

End System.

(** ** Packets *)

(** The type byte of a packet is the one the transport looks at. *)
Lemma built_packet id group topic payload port t :
  str_size group < 2 ^ 16 -> str_size topic < 2 ^ 16 -> zlen payload < 2 ^ 31 ->
  exists packet, build id group topic payload port t = Ret packet
    /\ zlen packet = 88 + str_size group + str_size topic + zlen payload
    /\ T.isControlMessage packet = negb (MessageType_code t =? 0).
Proof.
  intros Hg Ht Hp. pose proof (build_layout id group topic payload port t Hg Ht Hp) as Hb. cbv zeta in Hb.
  set (pk := with_checksum _ _) in Hb. exists (packet_bytes pk ++ (bytes_of_string group ++ bytes_of_string topic ++ payload) ++ [0; 0]).
  assert (zlen (packet_bytes pk) = 86) as Hl.
  { unfold pk, packet_bytes, with_checksum, draft. cbn [node_id magic version msg_type reserved group_len topic_len payload_len checksum udp_port].
    autorewrite with zlen. rewrite node_id_field_zlen. done. }
  pose proof (str_size_nonneg group). pose proof (str_size_nonneg topic). pose proof (zlen_nonneg payload).
  assert (zlen (packet_bytes pk ++ (bytes_of_string group ++ bytes_of_string topic ++ payload) ++ [0; 0])
    = 88 + str_size group + str_size topic + zlen payload) as Hz.
  { autorewrite with zlen. rewrite Hl, !bytes_of_string_zlen. lia. }
  split; [done|]. split; [done|]. unfold T.isControlMessage. rewrite Hz, (proj2 (Z.ltb_ge _ (4 + 2 + 1))) by lia.
  do 2 f_equal. unfold packet_bytes, pk, with_checksum, draft. cbn [node_id magic version msg_type]. by destruct t.
Qed.

(** Of the effects of a publication only the sends concern the transport. *)
Lemma perform_sends_only {CQ DQ : Type} `{!ByteQueue CQ} `{!ByteQueue DQ} e es t (w : T.world CQ DQ) :
  Forall quiet_or_send es ->
  perform e es t w = perform e ((fun x => ShmSend x.1 x.2) <$> shm_sends es) t w.
Proof.
  intros Hes. revert t w. induction Hes as [|x es Hx Hes IH]; intros t w; [done|].
  destruct x; try done; cbn; [|apply IH].
  destruct (T.send _ _ _ _ _) as [[[[b t1] w1] ws]|]; cbn [outcome_bind]; [apply IH|done].
Qed.

(** ** Sending to several nodes *)

Section Delivery.
Context {CQ DQ : Type} `{CalmQueue CQ} `{CalmQueue DQ}.
Context (e : T.env).
Implicit Types (w : T.world CQ DQ) (s : T.NodeSharedMemory CQ DQ) (t : T.transport).

Definition no_messages (_ : nat) : list (list Z) := [].

Definition only_at (k : nat) (packet : list Z) (i : nat) : list (list Z) := if decide (i = k) then [packet] else [].

(** The object [o] of the live node [d], to which [t] has no connection yet, holds no message. *)
Record idle_target t w (d : string) (o : nat) s : Prop := mkIdle {
  it_reach : reachable_target e d w o s;
  it_wf : shm_wf s;
  it_empty : shm_holds q_calm s no_messages no_messages;
  it_room : T.num_queues (T.nheader s) < T.max_queues (T.nheader s);
  it_new : sm_find d (T.remote_connections_ t) = None;
  it_other : d <> T.node_id_ t
}.

Record sender_ready t : Prop := mkReady {
  sr_init : T.initialized_ t = true;
  sr_nul : no_nul (T.node_id_ t);
  sr_size : str_size (T.node_id_ t) < 64
}.

(** The object of a node that got exactly [packet], in the queue of [sender]. *)
Definition got (sender : string) (packet : list Z) s : Prop :=
  exists k q, T.queues s !! k = Some q /\ T.q_flags q = 3 /\ T.queue_sender q = sender
    /\ shm_wf s /\ shm_holds q_calm s no_messages (only_at k packet).

(** A data packet every empty data ring takes. *)
Definition sendable (packet : list Z) : Prop :=
  T.isControlMessage packet = false /\ bq_fits (Q := DQ) packet /\ bq_small (Q := DQ) packet.

Lemma send_idle packet t w d o s :
  sender_ready t -> sendable packet -> idle_target t w d o s ->
  exists t' ws s', T.send e d packet t w = Ret (true, t', T.set_heap w o s', ws)
    /\ got (T.node_id_ t) packet s' /\ same_sender d t t'.
Proof.
  intros [Hi Hn Hs] (Hk & Hf & Hsm) [Hr Hwf He Hroom Hnew Hne].
  destruct (send_first q_calm (fun data => ev_fits (CQ := CQ) (DQ := DQ) (ESend true data)) e d packet t w o s
    no_messages no_messages) as (b & t' & w' & ws & k & s' & Hsend & _ & -> & Hwf' & (q & Hq & Hfl & Hsd) & Hsame & Hb & Hh & _);
    [|done..|].
  { unfold ev_fits. by rewrite Hk. }
  rewrite Hk in Hb, Hh. assert (b = true) as -> by by apply Hb.
  exists t', ws, s'. split; [done|]. split; [|done]. exists k, q. split_and!; try done.
  intros i qi Hqi. destruct (Hh i qi Hqi) as [Hc Hz]. cbn [andb negb] in Hc, Hz. unfold only_at, no_messages in *.
  split; [by case_decide|]. intros Hfz. destruct (Hz Hfz) as [_ Hz']. split; [done|]. by case_decide.
Qed.

(** A send to another node keeps a target idle. *)
Lemma idle_after t t' w o s' d d0 o0 s0 :
  same_sender d t t' -> d0 <> d -> o0 <> o -> idle_target t w d0 o0 s0 ->
  idle_target t' (T.set_heap w o s') d0 o0 s0.
Proof.
  intros (En & _ & _ & Eo) Hd Ho [[Hname Hheap Hcalls Hmag Hrdy Hown] Hwf He Hroom Hnew Hne].
  split; [split; try done|done|done|done| |congruence].
  - cbn. by rewrite lookup_insert_ne.
  - by rewrite Eo.
Qed.

Lemma sends_all packet dests t w :
  sender_ready t -> sendable packet -> NoDup dests ->
  (forall d, d ∈ dests -> exists o s, idle_target t w d o s) ->
  (forall d d' o s s', d ∈ dests -> d' ∈ dests -> idle_target t w d o s -> idle_target t w d' o s' -> d = d') ->
  exists t' w', perform e ((fun d => ShmSend d packet) <$> dests) t w = Ret (t', w')
    /\ (forall d o s, d ∈ dests -> idle_target t w d o s -> exists s', T.w_heap w' !! o = Some s' /\ got (T.node_id_ t) packet s')
    /\ (forall o, (forall d s, d ∈ dests -> ~ idle_target t w d o s) -> T.w_heap w' !! o = T.w_heap w !! o).
Proof.
  revert t w. induction dests as [|d dests IH]; intros t w Hr Hsd Hnd Ht Hdis.
  - exists t, w. split; [done|]. split; [|done]. intros d o s Hd. by apply not_elem_of_nil in Hd.
  - apply NoDup_cons in Hnd as [Hd Hnd]. destruct (Ht d) as (o & s & Hid); [left|].
    destruct (send_idle packet t w d o s Hr Hsd Hid) as (t1 & ws & s1 & Hsend & Hgot & Hsame).
    pose proof Hsame as (En & Ei & _ & _).
    assert (Hback : forall d0 o0 s0, d0 ∈ dests -> idle_target t w d0 o0 s0 -> o0 <> o).
    { intros d0 o0 s0 Hd0 Hi0 ->. assert (d0 = d) as -> by (eapply Hdis; eauto; [by right|left]). done. }
    assert (Hkeep : forall d0 o0 s0, d0 ∈ dests -> idle_target t w d0 o0 s0 -> idle_target t1 (T.set_heap w o s1) d0 o0 s0).
    { intros d0 o0 s0 Hd0 Hi0. eapply idle_after; eauto. by intros ->. }
    assert (Honly : forall d0 o0 s0, d0 ∈ dests -> idle_target t1 (T.set_heap w o s1) d0 o0 s0 -> idle_target t w d0 o0 s0).
    { intros d0 o0 s0 Hd0 Hi0. destruct (Ht d0) as (o' & s' & Hi'); [by right|]. pose proof (Hkeep _ _ _ Hd0 Hi') as Hk'.
      destruct (Hi0) as [[(i1 & F1 & N1) G1 _ _ _ _] _ _ _ _ _]. destruct (Hk') as [[(i2 & F2 & N2) G2 _ _ _ _] _ _ _ _ _].
      assert (i1 = i2) as -> by congruence. assert (o0 = o') as -> by congruence. assert (s0 = s') as -> by congruence. done. }
    destruct (IH t1 (T.set_heap w o s1)) as (t' & w' & Hp & Hall & Hrest).
    + destruct Hr as [? ? ?]. split; congruence.
    + done.
    + done.
    + intros d0 Hd0. destruct (Ht d0) as (o0 & s0 & Hi0); [by right|]. eauto.
    + intros d1 d2 o0 s0 s0' Hm1 Hm2 Hi1 Hi2. eapply (Hdis d1 d2 o0 s0 s0'); [by right|by right|by apply Honly..].
    + exists t', w'. split; [cbn [fmap list_fmap perform]; by rewrite Hsend|]. rewrite En in Hall. split.
      * intros d0 o0 s0 [->|Hd0]%elem_of_cons Hi0; [|eauto].
        destruct (Hid) as [[(i1 & F1 & N1) G1 _ _ _ _] _ _ _ _ _]. destruct (Hi0) as [[(i2 & F2 & N2) G2 _ _ _ _] _ _ _ _ _].
        assert (o0 = o) as -> by congruence. exists s1. split; [|done]. rewrite Hrest; [by cbn; rewrite lookup_insert_eq|].
        intros d2 s2 Hd2 Hi2%Honly; [|done]. by apply (Hback _ _ _ Hd2 Hi2).
      * intros o0 Ho0. rewrite Hrest; [|intros d2 s2 Hd2 Hi2%Honly; [|done]; by apply (Ho0 d2 s2); [right|]].
        cbn. apply lookup_insert_ne. intros <-. by apply (Ho0 d s); [left|].
Qed.

(** ** Receiving *)

Lemma bind_only {A : Type} (a : A) (l : list nat) k :
  NoDup l -> k ∈ l -> (l ≫= fun i => if decide (i = k) then [a] else []) = [a].
Proof.
  intros Hnd Hk. induction Hnd as [|i l Hi Hnd IH]; [by apply not_elem_of_nil in Hk|].
  cbn. case_decide as E.
  - subst i. assert ((l ≫= fun i => if decide (i = k) then [a] else []) = []) as ->; [|done].
    clear -Hi. induction l as [|j l IH]; [done|]. cbn. apply not_elem_of_cons in Hi as [Hj Hi].
    rewrite decide_False by done. by apply IH.
  - apply IH. by apply elem_of_cons in Hk as [->|].
Qed.

Lemma receive_got fuel t s sender packet :
  got sender packet s -> T.receive_callback_ t = true ->
  exists t' l' s' wait, T.receive_iteration fuel t T.rloop_init s = Ret ([(sender, packet)], t', l', s', wait).
Proof.
  intros (k & q & Hq & Hfl & Hsd & Hwf & Hh) Hcb.
  assert (Hact : T.q_active q = true) by (unfold T.q_active; by rewrite Hfl).
  destruct (iteration_ok fuel t T.rloop_init s no_messages (only_at k packet)) as (ds & t' & l' & s' & wait & Hit & Hds & _).
  - intros i qi Hqi _. by destruct (Hh i qi Hqi).
  - intros i _. unfold no_messages. simpl. lia.
  - unfold T.refresh. cbn [T.active_queues T.rloop_init]. rewrite orb_true_r. destruct (T.t_notify t); rewrite ?orb_true_r; done.
  - done.
  - exists t', l', s', wait. rewrite Hit. do 5 f_equal. rewrite Hds.
    assert (forall l, (l ≫= fun i => tagged (T.queues s) i (no_messages i)) = []) as ->.
    { intros l. induction l as [|j l IH]; [done|]. cbn. exact IH. }
    cbn [app]. rewrite <- (bind_only (sender, packet) (T.find_active (T.queues s)) k);
      [|apply find_active_nodup|apply find_active_elem; eauto].
    apply list_bind_ext; [|done]. intros i. unfold tagged, only_at. case_decide as E; [|done]. subst i.
    unfold sender_of. rewrite Hq. cbn. by rewrite Hsd.
Qed.

(** ** From [publish] to the callback *)

(** The node [d] runs under [hB] in the process [pB], with no message waiting, subscribed to the topic. *)
Record subscriber (hash : string -> Z) (group topic d : string) (hB : handle) (pB : process) (nB : NodeImpl)
    (si : SubscriptionInfo) (tB : T.transport) (o : nat) : Prop := mkSubscriber {
  su_node : p_nodes pB !! hB = Some nB;
  su_id : node_id_ nB = d;
  su_running : running_ nB = true;
  su_queues : length (message_queues_ nB) = NUM_PROCESSING_THREADS;
  su_idle : queue_of hash nB group topic = [];
  su_group : sm_find group (subscriptions_ nB) = Some si;
  su_topic : isSubscribed group topic nB = true;
  su_shm : T.my_shm_ tB = Some o;
  su_callback : T.receive_callback_ tB = true
}.

(** The nodes of other processes that [publish] addresses over shared memory. *)
Definition wanted (n : NodeImpl) (p : process) (listed : list string) (group topic id : string) : Prop :=
  id ∈ listed /\ id <> node_id_ n /\ ~ is_local p id
  /\ exists svc, svc ∈ GR.findServices group (p_reg p) /\ sd_node_id svc = id /\ sd_topic svc = topic
                 /\ sd_type svc = NORMAL_MESSAGE /\ sd_transport svc = SHARED_MEMORY.

(** What the receiver does with a packet it got. *)
Lemma subscriber_called hash cfg fuel a group topic payload packet d hB pB nB si tB o s w :
  subscriber hash group topic d hB pB nB si tB o -> d <> a -> packet_fits a group topic payload 0 -> 0 < max_size cfg ->
  build a group topic payload 0 DATA = Ret packet -> T.w_heap w !! o = Some s -> got a packet s ->
  exists tB' l' pB' w' nB' nB'',
    receive_round hash cfg fuel hB tB T.rloop_init pB w = Ret (tB', l', pB', w', [])
    /\ p_nodes pB' !! hB = Some nB'
    /\ process_batch hB (thread_of hash group topic) nB' = (nB'', [MessageCallback hB (si_callback si) group topic payload]).
Proof.
  intros [Hn Hid Hrun Hlen Hidle Hgrp Htop Hshm Hcb] Hne Hfit Hmax Hb Hs Hgot.
  destruct (receive_got fuel tB s a packet Hgot Hcb) as (tB' & l' & s' & wait & Hit).
  destruct (received_ok hash cfg hB pB nB a group topic payload 0 Hn) as (packet' & pB' & Hb' & Hpp & _ & Hpn);
    [congruence|done|by rewrite Hidle|].
  assert (packet' = packet) as -> by congruence. rewrite Htop, Hidle in Hpn.
  exists tB', l', pB', (T.set_heap w o s'). eexists _, _. split; [|split; [by rewrite Hpn, lookup_insert_eq|]].
  - unfold receive_round. rewrite Hshm, Hs, Hit. cbn [outcome_bind for_each snd].
    unfold bind. by rewrite Hpp.
  - unfold process_batch. cbn [running_ set_queues message_queues_]. rewrite Hrun. cbn [negb].
    rewrite nth_lookup, list_lookup_insert_eq by (rewrite Hlen; apply thread_of_lt).
    cbn. unfold dispatch. cbn. by rewrite Hgrp.
Qed.


End Delivery.

(** ** Packets no ring takes *)

Section Oversize.
Context {CQ DQ : Type} `{!ByteQueue CQ} `{!ByteQueue DQ}.
Implicit Types (w : T.world CQ DQ) (s : T.NodeSharedMemory CQ DQ).

(** The rings of [q'] are those of [q]. *)
Definition same_rings (q q' : T.InboundQueue CQ DQ) : Prop :=
  T.control_queue q' = T.control_queue q /\ T.data_queue q' = T.data_queue q.

Definition slots_kept s s' : Prop :=
  forall k q', T.queues s' !! k = Some q' -> exists q, T.queues s !! k = Some q /\ same_rings q q'.

(** Every ring of [w'] is as in [w]. *)
Definition rings_kept w w' : Prop :=
  forall o s', T.w_heap w' !! o = Some s' -> exists s, T.w_heap w !! o = Some s /\ slots_kept s s'.

#[local] Instance slots_kept_refl : Reflexive slots_kept.
Proof. intros s k q Hq. exists q. by repeat split. Qed.

#[local] Instance rings_kept_refl : Reflexive rings_kept.
Proof. intros w o s Hs. by exists s. Qed.

#[local] Instance rings_kept_trans : Transitive rings_kept.
Proof.
  intros w1 w2 w3 H12 H23 o s3 Hs3. destruct (H23 o s3 Hs3) as (s2 & Hs2 & K23). destruct (H12 o s2 Hs2) as (s1 & Hs1 & K12).
  exists s1. split; [done|]. intros k q3 Hq3. destruct (K23 k q3 Hq3) as (q2 & Hq2 & E23 & F23).
  destruct (K12 k q2 Hq2) as (q1 & Hq1 & E12 & F12). exists q1. split; [done|]. split; congruence.
Qed.

Lemma set_heap_kept w o s s' : T.w_heap w !! o = Some s -> slots_kept s s' -> rings_kept w (T.set_heap w o s').
Proof.
  intros Hs Hk o1 s1 Hs1. cbn in Hs1. destruct (decide (o = o1)) as [<-|Hne].
  - rewrite lookup_insert_eq in Hs1. simplify_eq. eauto.
  - rewrite lookup_insert_ne in Hs1 by done. by exists s1.
Qed.

Lemma insert_kept s h i q q' : T.queues s !! i = Some q -> same_rings q q' -> slots_kept s (T.mkShm h (<[i := q']> (T.queues s))).
Proof.
  intros Hq Hr k qk Hk. cbn [T.queues] in Hk. destruct (decide (i = k)) as [<-|Hne].
  - rewrite list_lookup_insert_eq in Hk by (by eapply lookup_lt_Some). simplify_eq. eauto.
  - rewrite list_lookup_insert_ne in Hk by done. by exists qk.
Qed.

Lemma findOrCreateQueue_kept m ok sender s : slots_kept s (T.findOrCreateQueue m ok sender s).1.2.
Proof.
  unfold T.findOrCreateQueue. destruct (list_find _ _) as [[i q]|]; [done|]. destruct (_ <=? _); [done|].
  destruct (list_find _ (T.queues s)) as [[i q]|] eqn:E; [|done]. apply list_find_Some in E as (Hi & _ & _).
  destruct m; [|destruct ok|]; cbn [fst snd]; by eapply insert_kept.
Qed.

Lemma connectToNode_kept e d t w : rings_kept w (T.connectToNode e d t w).1.2.
Proof.
  unfold T.connectToNode. case_match; [done|]. destruct (T.find_target _ _ _) as [info|]; [|done].
  unfold T.connect_shm. destruct (T.w_names w !! _) as [o|]; [|done]. destruct (T.w_heap w !! o) as [s|] eqn:Hs; [|done].
  destruct (negb (T.ev_open_ok e) || _); [done|]. destruct (negb (_ =? _)); [done|]. destruct (negb (T.ready _)); [done|].
  destruct (_ && _); [done|]. destruct (T.claim_accessor _ _) as [added h1].
  pose proof (findOrCreateQueue_kept (T.t_notify t) (T.ev_sem_ok e) (T.node_id_ t) (T.mkShm h1 (T.queues s))) as Hk.
  destruct (T.findOrCreateQueue _ _ _ _) as [[[i|] s2] ws]; cbn [fst snd] in *; by apply set_heap_kept with s.
Qed.

Lemma send_on_refused fast t o k packet w r :
  LockFreeQueue.MAX_MSG_SIZE < zlen packet -> T.send_on fast t o k packet w = Ret r -> r.1.1.1 = false /\ rings_kept w r.1.2.
Proof.
  intros Hl. unfold T.send_on. destruct (T.w_heap w !! o) as [s|] eqn:Hs; [|done]. destruct (T.queues s !! k) as [q|] eqn:Hq; [|done].
  unfold T.queue_send, T.send_control, T.send_data. rewrite !bq_over_refused by done.
  destruct (T.isControlMessage packet); cbn [outcome_bind]; intros [= <-]; cbn [fst snd]; (split; [done|]);
    (eapply set_heap_kept; [done|]; by eapply insert_kept).
Qed.

Lemma send_refused e d packet t w r :
  LockFreeQueue.MAX_MSG_SIZE < zlen packet -> T.send e d packet t w = Ret r -> r.1.1.1 = false /\ rings_kept w r.1.2.
Proof.
  intros Hl. unfold T.send. case_match; [by intros [= <-]|]. case_match; [by intros [= <-]|].
  destruct (T.connected_queue t d) as [[o k]|]; [by apply send_on_refused|].
  pose proof (connectToNode_kept e d t w) as Hk. destruct (T.connectToNode e d t w) as [[[ok t1] w1] ws]. cbn [fst snd] in Hk.
  destruct ok; cbn [negb]; [|by intros [= <-]]. destruct (T.connected_queue t1 d) as [[o k]|]; [|by intros [= <-]].
  destruct (T.send_on false t1 o k packet w1) as [[[[b t2] w2] ws2]|] eqn:Es; [|done]. cbn [outcome_bind]. intros [= <-].
  destruct (send_on_refused _ _ _ _ _ _ _ Hl Es) as [Hb Hk2]. cbn [fst snd] in *. split; [done|]. by transitivity w1.
Qed.

Lemma perform_refused e packet ds t w t' w' :
  LockFreeQueue.MAX_MSG_SIZE < zlen packet ->
  perform e ((fun d => ShmSend d packet) <$> ds) t w = Ret (t', w') -> rings_kept w w'.
Proof.
  intros Hl. revert t w. induction ds as [|d ds IH]; intros t w Hp; cbn in Hp; [by simplify_eq|].
  destruct (T.send e d packet t w) as [[[[b t1] w1] ws]|] eqn:Es; [|done]. cbn [outcome_bind] in Hp.
  destruct (send_refused _ _ _ _ _ _ Hl Es) as [_ Hk]. cbn [fst snd] in Hk. transitivity w1; [done|]. by apply (IH t1).
Qed.

(** C36: a payload that with the names has more than 1952 bytes makes a packet of more than 2040 bytes, although
    up to 65000 are accepted by the receiver's checks. Every ring refuses such a packet: [publish] over shared
    memory returns [NO_ERROR] and leaves all rings of all nodes as they were. *)
Theorem oversize_publish_lost hash cfg e h p n group topic payload t w r :
  p_nodes p !! h = Some n -> node_ok n -> shm_ n = true -> gr_wf (p_reg p) -> filed (p_reg p) group ->
  group <> ""%string -> topic <> ""%string ->
  str_size group <= MAX_GROUP_LEN -> str_size topic <= MAX_TOPIC_LEN -> zlen payload <= MAX_PAYLOAD_LEN ->
  0 < max_size cfg -> (forall x m, p_nodes p !! x = Some m -> overflow_safe m) ->
  1952 < str_size group + str_size topic + zlen payload ->
  publish_shm hash cfg e h group topic payload p t w = Ret r ->
  r.1.1.1.1 = NO_ERROR /\ rings_kept w r.2.
Proof.
  unfold MAX_GROUP_LEN, MAX_TOPIC_LEN, MAX_PAYLOAD_LEN. intros Hn Hok Hshm Hwf Hf Hg0 Ht0 Hg Ht Hp Hmax Hsafe Hl.
  destruct (publish_ok hash cfg h p n (T.getLocalNodes (T.ev_call e) t w) group topic payload)
    as (p' & es & packet & dests & Hpub & Hb & Hs & _ & Hq & _); unfold name_fits; try done; try lia.
  destruct (built_packet (node_id_ n) group topic payload 0 DATA) as (packet' & Hb' & Hz & _); [lia..|].
  assert (packet' = packet) as -> by congruence.
  unfold publish_shm. rewrite Hpub. cbn [outcome_bind]. rewrite perform_sends_only, Hs, <- list_fmap_compose by done.
  change (_ ∘ _) with (fun d => ShmSend d packet).
  destruct (perform e _ t w) as [[t' w']|] eqn:Ep; [|done]. cbn [outcome_bind]. intros [= <-]. split; [done|].
  eapply perform_refused; [|exact Ep]. unfold LockFreeQueue.MAX_MSG_SIZE. lia.
Qed.

End Oversize.

(** ** Witnesses *)

Section Demo.

(** Rings of 1024 bytes whose messages take frames of 104. *)
#[local] Instance demo_ring : ByteQueue (sized_ring 1024) := ring_queue 1024 ltac:(by exists 128) ltac:(lia).

Lemma demo_frame_104 : ~ (104 | 1024).
Proof. intros [k Hk]. lia. Qed.

#[local] Instance demo_calm : CalmQueue (sized_ring 1024) := ring_calm 1024 ltac:(by exists 128) ltac:(lia) 104 demo_frame_104.

(** The node "B" has just initialised its transport. *)
Definition world_B : T.world (sized_ring 1024) (sized_ring 1024) :=
  (T.initialize (TransportSpec.demo_env 8) 100 0 true true "/b" "B" (demo_config SEMAPHORE) (demo_new SEMAPHORE)
     (T.mkWorld ∅ ∅ (Reg.init_region 8))).2.

Definition shm_B : T.NodeSharedMemory (sized_ring 1024) (sized_ring 1024) :=
  let s := T.fresh_shm 32 100 8 in T.mkShm (T.set_ready (T.nheader s)) (T.queues s).

Definition transport_A : T.transport := demo_transport SEMAPHORE "A" [].

Definition node_B : NodeImpl :=
  set_links (set_subscriptions (new_node "B" false TM_AUTO) [("g"%string, mkSub [("t"%string, tt)] 5)]) true None true.

Definition process_B : process := mkProcess {[ 0%nat := node_B ]} (mkGR [("B"%string, 0%nat)] []).

Lemma shm_B_idle : idle_target (TransportSpec.demo_env 9) transport_A world_B "B" 0 shm_B.
Proof.
  split.
  - split; [|reflexivity|by repeat split|reflexivity|reflexivity|reflexivity].
    eexists. split; [vm_compute; reflexivity|]. vm_compute. reflexivity.
  - destruct (fresh_shm_wf (CQ := sized_ring 1024) (DQ := sized_ring 1024) 32 100 8) as [? ? ? ? ?];
      [unfold T.MAX_INBOUND_QUEUES; lia|]. by split.
  - intros i q Hq. apply lookup_replicate in Hq as [-> _]. split; [|done].
    split; [split|..]; try done; try apply bq_init_holds; try apply bq_calm_init; constructor.
  - reflexivity.
  - reflexivity.
  - discriminate.
Qed.

Lemma ready_A : sender_ready transport_A.
Proof. split; [reflexivity|repeat constructor; discriminate|reflexivity]. Qed.

Lemma only_B d : wanted demo_node demo_process (T.getLocalNodes (T.ev_call (TransportSpec.demo_env 9)) transport_A world_B) "g" "t" d -> d = "B"%string.
Proof. intros (_ & _ & _ & svc & Hin & <- & _). cbn in Hin. by apply list_elem_of_singleton in Hin as ->. Qed.

Lemma wants_B : wanted demo_node demo_process (T.getLocalNodes (T.ev_call (TransportSpec.demo_env 9)) transport_A world_B) "g" "t" "B".
Proof.
  split; [vm_compute; repeat constructor|]. split; [discriminate|]. split.
  - intros (k & x & m & Hk & Hm & Hid). cbn [p_nodes demo_process] in Hm. apply lookup_singleton_Some in Hm as [<- <-]. discriminate Hid.
  - exists (demo_service "B"). split; [left|done].
Qed.

Lemma subscriber_B : subscriber demo_hash "g" "t" "B" 0%nat process_B node_B (mkSub [("t"%string, tt)] 5)
  (demo_transport SEMAPHORE "B" []) 0.
Proof. by split. Qed.

Lemma fits_A : packet_fits "A" "g" "t" [1; 2] 0.
Proof. split; try done; try lia. repeat constructor; discriminate. Qed.


Lemma oversize_publish_lost_witness :
  exists r, publish_shm demo_hash default_configuration (TransportSpec.demo_env 9) 0%nat "g" "t" (replicate 1951 1) demo_process transport_A world_B = Ret r
    /\ r.1.1.1.1 = NO_ERROR /\ rings_kept world_B r.2.
Proof.
  destruct (publish_shm demo_hash default_configuration (TransportSpec.demo_env 9) 0%nat "g" "t" (replicate 1951 1) demo_process transport_A world_B)
    as [r|] eqn:E; [|exfalso; revert E; vm_compute; discriminate].
  exists r. split; [reflexivity|].
  refine (oversize_publish_lost demo_hash default_configuration (TransportSpec.demo_env 9) 0%nat demo_process demo_node "g" "t"
    (replicate 1951 1) transport_A world_B r _ demo_node_ok _ demo_gr_wf (demo_filed "g") _ _ _ _ _ _ demo_safe _ E);
    [reflexivity|reflexivity|discriminate|discriminate|discriminate|discriminate|vm_compute; discriminate|reflexivity|vm_compute; reflexivity].
Defined.

End Demo.
