(* ===== verification/Cleanup.v ===== *)
(** * The periodic clean-up

    Models [cleanupOrphanedChannels] and [cleanupThreadFunc] of [src/core/NodeImpl.cpp]: the
    process that is elected cleanup master removes orphaned channels, orphaned node memory and
    an orphaned registry. *)

From S2P Require Import Prelude Os SharedMemoryRegistry LargeDataChannel ByteQueue TransportV3.

Module LDC := LargeDataChannel.
Module T3 := TransportV3.

Definition CLEANUP_INTERVAL_SECONDS : nat := 120.

Definition CLEANUP_ORPHAN_TIMEOUT_SECONDS : Z := 60.

(** The decision: [shm] says that the node has an initialized shared-memory transport, [count_ok] and
    [reg_ok] are the results of initialising the two temporary registries, and [r] is the table they see:
    each adds a reference of the calling process and drops it again when it goes out of scope. *)
Definition i_am_cleanup_master (shm count_ok reg_ok : bool) (c : Reg.call) (r : Reg.RegistryRegion) : bool :=
  if shm then
    let active_count := if count_ok then Reg.getActiveNodeCount c r else -1 in
    if 0 <? active_count then reg_ok && Reg.amICleanupMaster c r else true
  else false.

(** The directory of shared-memory objects, as the two scans see it, and the registry object. *)
Record shm_dir := mkDir {
  sd_channels : option (list LDC.dir_entry);
  sd_nodes : option (list T3.node_entry);
  sd_registry : Reg.shm_obj
}.

Definition cleanupOrphanedChannels (e : os) (rs : Reg.shm_calls) (lk : LockResult) (master : bool) (d : shm_dir)
    : outcome (Z * shm_dir) :=
  if negb master then Ret (0, d)
  else
    let '(cleaned, channels) := LDC.cleanupOrphanedChannels e CLEANUP_ORPHAN_TIMEOUT_SECONDS (sd_channels d) in
    do! '(_, nodes, reg) := T3.cleanupOrphanedMemory e rs lk (sd_nodes d) (sd_registry d) in
    Ret (cleaned, mkDir channels nodes reg).

(** One round of [cleanupThreadFunc]: [stop k] tells that [cleanup_running_] was cleared before the
    [k]-th second of the wait. *)
Definition cleanup_round (stop : nat -> bool) (e : os) (rs : Reg.shm_calls) (lk : LockResult) (master : bool) (d : shm_dir)
    : outcome (Z * shm_dir) :=
  if existsb stop (seq 0 (S CLEANUP_INTERVAL_SECONDS)) then Ret (0, d) else cleanupOrphanedChannels e rs lk master d.

(** ** Who cleans up *)

(** The elected process depends on the operating system only through which processes are alive. *)
Lemma smallest_active_pid_agree e1 e2 pids :
  (forall p, kill_exists e1 p = kill_exists e2 p) -> Reg.smallest_active_pid e1 pids = Reg.smallest_active_pid e2 pids.
Proof.
  intros Hk. unfold Reg.smallest_active_pid. generalize (2 ^ 31 - 1).
  induction pids as [|p pids IH]; intros acc; cbn [fold_left]; [done|].
  rewrite Hk. apply IH.
Qed.

(** Two processes that see the same table with a positive count of nodes, and agree on which processes are
    alive, are not both masters; with a count of 0 or below, which also stands for a registry that could
    not be opened, every process with a transport is one. *)
Theorem cleanup_masters c1 c2 r :
  (forall p, kill_exists (c_os c1) p = kill_exists (c_os c2) p) ->
  (0 < Reg.getActiveNodeCount c1 r -> Reg.getActiveNodeCount c2 r = Reg.getActiveNodeCount c1 r ->
   i_am_cleanup_master true true true c1 r = true -> i_am_cleanup_master true true true c2 r = true ->
   getpid (c_os c1) = getpid (c_os c2))
  /\ (forall c count_ok reg_ok, count_ok = false \/ Reg.getActiveNodeCount c r <= 0 ->
      i_am_cleanup_master true count_ok reg_ok c r = true).
Proof.
  intros Hk. split.
  - intros H1 H2. unfold i_am_cleanup_master. rewrite H2, (proj2 (Z.ltb_lt _ _)) by done. cbn [andb].
    unfold Reg.amICleanupMaster. destruct (c_initialized c1), (c_initialized c2); try done. cbn [negb].
    destruct (isLocked (c_lock c1)), (isLocked (c_lock c2)); try done. cbn [negb].
    intros E1%Z.eqb_eq E2%Z.eqb_eq. rewrite E1, E2. by apply smallest_active_pid_agree.
  - intros c count_ok reg_ok [->|Hc]; unfold i_am_cleanup_master; [done|].
    destruct count_ok; [|done]. by rewrite (proj2 (Z.ltb_ge _ _)).
Qed.
